(* ===== verification/_CoqProject ===== *)
-Q . S2P
Prelude.v
Buffers.v
Accounts.v
JsRuntime.v
RuntimeLogic.v
DegenLogic.v
Fenwick.v
RoundProgram.v
RoundProgramSpec.v
Effects.v
RpcProxy.v
Wheel.v
WheelSpec.v
ActiveRoundScan.v
Solana.v
Instructions.v
Firebase.v
Soar.v
Notifications.v
CrankService.v
CrankFrames.v
CrankSafety.v
CrankInvariant.v
CrankMain.v
DegenExecutor.v
ExecutorSafety.v
Actions.v
ActionsSpec.v
Frames.v
Browser.v
JupiterClient.v
TokenMetadata.v
History.v
Fairness.v
NumFacts.v
ActionHandlers.v
JsMap.v
MainnetSmoke.v
Missions.v
TapestryBridge.v
TapestryApi.v
TapestryHandlers.v
TapestrySpec.v
SocialClient.v
SocialHooks.v
RoundHistory.v
PlayerPnL.v
Subscriptions.v
JackpotState.v
JackpotPrizes.v
JackpotPolling.v
JackpotDeposit.v
JackpotClaims.v
JackpotFrames.v
WalletTokens.v
DepositPanel.v
HomePage.v
JackpotContext.v
JackpotInvariant.v
JackpotClaimsSpec.v
RoundDetail.v
JackpotDepositSpec.v
JackpotWitness.v
