(* ===== verification/Prelude.v ===== *)
(** * Winny: a verification library for a jackpot on Solana and its services

    ** The program

    Winny runs jackpot rounds on Solana.  Users deposit USDC into the current round;
    when it ends it is locked, a verifiable random function draws the winner, and the
    winner claims the pot, or takes it in "degen mode" as a random token.  The
    on-chain program (jackpot_pinocchio_poc/) keeps the money; the TypeScript code of this
    repository drives it:

    - the crank service (crank/src/index.ts) polls the chain, creates rounds, locks
      them with their VRF request, closes the accounts of finished rounds and archives
      them in Firebase (crank/src/firebase.ts);
    - the degen executor (crank/src/degenExecutor.ts) turns a winner's claim into a
      token swap through Jupiter, or into the fallback payout;
    - the Actions API (lib/api/actions-shared.ts, api/actions/) resolves the round a wallet
      can join, claim or be refunded from, and hands out the transactions for it;
    - the frontend reads the chain itself: the hook useJackpot (src/hooks/useJackpot.ts)
      polls the round, deposits (with token swaps through Jupiter), claims and keeps the
      prizes that are not claimed yet in local storage; around it are the wallet's tokens
      and their prices, the deposit form, the wheel, the main page with the winner's window,
      the page of one round, the list of past rounds, missions, notifications and the page
      that verifies a draw; src/lib has copies of the account parsers, of the instruction
      builders and of the candidate derivation;
    - the social layer on Tapestry: the crank announces settled rounds
      (crank/src/tapestry.ts), and an API (lib/api/tapestry-shared.ts,
      api/tapestry/index.ts) serves profiles, feeds, follows, comments and likes to the
      client and the hooks of the pages (src/lib/tapestry/api.ts); a leaderboard of volumes
      on SOAR (api/soar/submit.ts, src/lib/soar.ts); a chat;
    - the RPC proxy (rpc-proxy/src/index.ts) relays requests and WebSockets to the RPC
      provider, and scripts/mainnet_smoke_readonly.ts checks a deployment.

    Crank and executor do not talk to each other: they meet on the chain, through the
    accounts they read and the instructions they send.  That is why the account
    layouts, the instruction builders and the derivation of the candidates are models
    of their own, used by every service.

    ** The files

    - [Prelude]: errors ([JsError], [Res]), integers as JavaScript numbers, bytes and
      little-endian encodings, hint databases.
    - [Buffers]: [Buffer] and [DataView] reads, [PublicKey] as an interface ([Web3Keys])
      with its laws and an instance.
    - [Accounts]: the on-chain account layouts; crank/src/parser.ts ([Module Crank]), the
      parsers of src/lib/program.ts ([Module Front]), of crank/src/degenLogic.ts and the
      config parser of the API.
    - [JsRuntime]: the string, number ([SpecFloat]) and [Set] primitives that are used.
    - [RuntimeLogic]: crank/src/runtimeLogic.ts.
    - [DegenLogic]: crank/src/degenLogic.ts, src/lib/degenClaim.ts, and the payout
      function of the on-chain program that they mirror.
    - [Fenwick]: the tree of tickets of jackpot_pinocchio_poc/src/legacy_layouts.rs;
      [RoundProgram]: the handlers (handlers/*.rs) and processors (runtime/*_program.rs) of
      the life of a round, over the token program as an interface ([TokenProgram] and its
      laws); [RoundProgramSpec]: the chain as a state machine of their instructions, and its
      theorems.
    - [Effects]: the monad of stateful, fallible code that calls the outside world, its
      weakest preconditions and frames.
    - [RpcProxy]: rpc-proxy/src/index.ts.
    - [Wheel], [WheelSpec]: src/lib/wheelUtils.ts and src/components/JackpotWheel.tsx, over
      an interface of numbers ([Arith]) with the doubles and the rationals as instances.
    - [ActiveRoundScan]: crank/src/activeRoundScan.ts.
    - [Solana]: transactions, the services of the outside world ([Services]) and of the
      libraries ([SolanaLibs]) as type classes, the events that record their calls.
    - [Instructions]: crank/src/constants.ts and instructions.ts ([Module CrankIx]), the
      builders of src/lib/program.ts ([Module FrontIx]), the account lists of the IDL.
    - [Firebase]: crank/src/firebase.ts; [Soar]: api/soar/submit.ts and src/lib/soar.ts;
      [Notifications]: src/hooks/useNotifications.ts.
    - [CrankService], [CrankFrames], [CrankSafety], [CrankInvariant], [CrankMain]:
      crank/src/index.ts; its state is the record [CrankState], each handler a
      computation of the same name, the polling step [tick]; then the frames of the
      helpers, the contract on transactions, the invariant of the state, and the
      theorems on the states the service reaches.
    - [DegenExecutor], [ExecutorSafety]: crank/src/degenExecutor.ts and its theorems.
    - [Actions], [ActionsSpec]: lib/api/actions-shared.ts and its theorems;
      [ActionHandlers]: the handlers of api/actions/.
    - [Frames]: what a computation leaves untouched, for the frontend's proofs.
    - [Browser]: the services of the browser (RPC, wallet, local storage, Jupiter, Firebase)
      as a type class, the data they exchange, src/lib/jupiterApi.ts.
    - [JupiterClient]: src/lib/jupiterClient.ts; [TokenMetadata]: src/lib/tokenMetadata.ts;
      [History]: src/lib/roundArchive.ts; [NumFacts]: exact integers among the doubles;
      [Fairness]: src/pages/Fairness.tsx; [MainnetSmoke]: scripts/lib/mainnetSmoke.ts and
      scripts/mainnet_smoke_readonly.ts.
    - [RoundHistory]: src/hooks/useRoundHistory.ts; [Subscriptions]: the polling loop of
      useJackpot.ts and src/hooks/useAccountSubscription.ts as state machines.
    - [JackpotState], [JackpotPolling], [JackpotDeposit], [JackpotClaims]: the hook
      src/hooks/useJackpot.ts, by its sections; [JackpotPrizes], [JackpotFrames],
      [JackpotInvariant], [JackpotClaimsSpec], [JackpotDepositSpec]: its theorems;
      [JackpotWitness]: concrete runs of the hook.
    - [WalletTokens]: src/hooks/useWalletTokens.ts and src/lib/jupiterPrice.ts;
      [DepositPanel]: src/components/DepositPanel.tsx; [HomePage]: src/pages/Home.tsx,
      src/components/WinnerModal.tsx, UnclaimedBadge.tsx and src/lib/roundUi.ts;
      [JackpotContext]: src/contexts/JackpotContext.tsx; [RoundDetail]:
      src/pages/RoundDetail.tsx.
    - [PlayerPnL]: src/hooks/usePlayerPnL.ts and useUserPnL.ts; [Missions]:
      src/hooks/useMissions.ts.
    - [TapestryBridge]: crank/src/tapestry.ts.  [JsMap]: JavaScript maps, eviction.
      [TapestryApi]: lib/api/tapestry-shared.ts; [TapestryHandlers]: api/tapestry/index.ts;
      [TapestrySpec]: their theorems; [SocialClient]: src/lib/tapestry/api.ts;
      [SocialHooks]: the hooks useTapestryProfile, useTapestryProfiles, useTapestrySearch,
      useTapestryActivityFeed, useTapestryComments, useSoarLeaderboard and useChat.

    ** How code is modelled

    A module's variables are a record (or a map), a function that reads or writes them
    is a computation [M S W E A]: it maps the module's state, the world and the history
    of the calls made so far to a result or an exception and the next ones; an
    exception keeps the changes made before it.  The world is a parameter: an RPC
    node, Jupiter, Firebase and the clock may answer anything.  Libraries (web3.js,
    Anchor, spl-token, bn.js, SHA-256) are type-class parameters; what the theorems
    need of them is a named hypothesis or a class of laws ([Web3KeysLaws],
    [AnchorLaws], [TokenProgramLaws]), and every theorem that needs one is applied to an
    instance.  A component of the frontend whose behaviour lies in the order of its renders,
    clicks, timers and answers is a state machine with these as events: an answer may come at
    any time, an effect runs when its dependencies change.  The program on the chain is a
    function of the accounts it is given; its checked arithmetic keeps the width of each
    integer.  Account
    data are bytes, 64-bit fields are read with their sign and width, [bigint] is [Z], and
    a [number] that stems from a [bigint] is rounded to 53 bits ([round53]); other
    numbers are IEEE doubles ([num]) where fractions can occur.

    ** What is shown

    - The program ([Fenwick], [RoundProgramSpec]): the tree of tickets is the table of
      tickets under every sequence of updates; in every state the instructions can reach, in
      any order and from anyone, the vault covers what the participants are owed, the
      recorded winner holds the winning ticket, a cancelled round pays every refund once, and
      a claim takes the pot out of the vault once; closing a cancelled round sweeps the
      deposits that were not refunded.  The page that verifies a draw computes the recorded
      ticket ([Fairness]).
    - The crank ([CrankMain]): in every reachable state each transaction it ever sent
      was authorised by what it had read before ([authorised] lists the five reasons);
      its maps describe exactly the tracked rounds; a poll advances by at most one round
      and hands the old one to the cleanup; a finished round never blocks it; VRF
      requests respect the cooldown; a round is created at most once; no error stops it.
    - Start-up ([ActiveRoundScan]): the batched scan ends, and resumes at the greatest
      active round, or above every existing and archived one.
    - Cleanup scheduling ([RuntimeLogic]): the delay is the capped doubling of the
      minimum, retries lie in the future within the cap, and stuck warnings are emitted
      exactly when due.
    - The executor ([ExecutorSafety]): every transaction was simulated without error
      right before, fits the size limit and is a begin / payout / finalize transaction
      of a derived candidate, or a fallback whose time has come, of a claim seen ready; a
      confirmation is the last thing that happens to a claim; passes always return.
    - Derivation and payout ([DegenLogic]): candidates are distinct, determined by the
      randomness, stable under larger windows, found within 2^32 nonces, and the same in
      the frontend; the payout is the one the on-chain program computes.
    - Accounts ([Accounts]): the parsers read back what the layouts encode, agree with
      each other, and throw exactly on short buffers.
    - Instructions ([Instructions]): the begin instruction has the accounts the on-chain
      handler binds; the frontend's builder drops the VRF payer.
    - Archive ([Firebase]): an upload never throws and succeeds exactly on 2xx, 401, 403.
    - Actions ([ActionsSpec], [ActionHandlers]): an offered round was seen open less than
      five seconds ago, scans and searches answer the latest matching round, and a cold
      server cannot see beyond round 220; a transaction that is handed out is paid for by
      the account of the request and holds the instruction of the frontend's builder.
    - The hook useJackpot: the transactions of a deposit partition the prepared swaps, the
      top-up moves exactly what is missing ([JackpotDepositSpec]); a claim asks the wallet at
      most once, for a settled round, and a degen claim ends ([JackpotClaimsSpec]); local
      storage and the hook's state keep their form under any sequence of its operations
      ([JackpotInvariant]); merged swaps carry one clamped compute limit ([JupiterClient]).
    - Around the hook: the token list shows the balances of the wallet ([WalletTokens]);
      what leaves the deposit form satisfies its guards however quotes are answered, and its
      batches pass the checks of the hook ([DepositPanel]); the wheel stops inside the
      winner's segment and calls back once ([WheelSpec]); the winner's window opens only for
      the winner ([HomePage]); a settled round is announced once ([JackpotContext]); a claim
      from the page of a round asks the wallet at most once and shows its outcome, and
      loading it settles ([RoundDetail]); notifications are one list ([Notifications]).
    - History ([RoundHistory]): the search finds the greatest round, the pages partition the
      rounds.  [Subscriptions]: one chain of polls while the tab stays visible, one listener
      per account.
    - [PlayerPnL]: the profit of a player sums up every round exactly once; [Missions]: a
      reward is paid once, and the missions stay within their requirements.
    - Social layer: the announcement of a settled round ([TapestryBridge]); the caches of the
      API stay within their bounds and hold what the service answered, and a request only
      makes the changes it asks for, for the profile of its wallet ([TapestrySpec]); the API
      understands every request of the client ([SocialClient]); profiles and search results
      shown belong to what is asked for, which refreshed feeds and comments may not
      ([SocialHooks]).  The leaderboard endpoint writes at most one score, for a registered
      player ([Soar]).
    - The proxy relays the messages of a client in order and, unless a send fails, loses none ([RpcProxy]); the
      check of a deployment passes exactly when addresses, code and environment agree, and
      reports the greatest live round ([MainnetSmoke]).

    ** Bounds

    The nonce search of the candidate derivation loops until it finds a free index; its
    model takes [fuel], and [deriveCandidates_terminates] shows that 2^32 steps are
    enough when the digest reaches enough indices, because the nonce is encoded in 32
    bits.  [scanForActiveRound] takes the number of batches as fuel and is proved to
    end; the batches of the API's scan and searches are a fixed number of iterations.
    The endless loops of the services are modelled by any finite number of iterations.
    The recursion that splits a deposit of n swaps takes 2n+2 as fuel, and
    [deposit_partitions] shows that its result does not depend on the bound.  The loop that
    waits for a degen claim has 31 iterations, enough for a clock that runs
    ([claimDegen_ends]); the search for the greatest round has as many batches as the
    distance to it needs.  The level loop of the missions takes the rewards as fuel, and the
    scan of a player's profit the number of its batches; both are proved to be enough.  The
    loops of the tree of tickets take the number of its nodes ([bit_loop]) and the bits of a
    machine word ([mask_loop], [find_loop]), and [tree_refines_table] and [lookup_is_fair] show
    that they do not run out; batches of mints take the length of their list; printing a number tries the 17
    digits a double can need.

    The theorems on the wheel are about exact arithmetic; the same definitions are executed
    on doubles in the examples, and the rounding of the angles is not part of the theorems.

    ** What is not modelled

    Reading the environment and key files, console output, HTTP headers of responses, URLs
    and display texts; React's rendering, what is drawn on the canvas, and the pages and
    components that only show the data of the modelled hooks (History, Cabinet,
    PlayerProfile, HowItWorks, the panels and cards); generated token pools (a parameter);
    of the on-chain program the administration, the degen handlers other than the payout and
    account binding the executor mirrors, and the byte layouts that the TypeScript code does
    not read; the Anchor version of the program (jackpot_anchor_v4/); tests, and scripts that
    drive a local validator or deploy.  api/actions/_shared.ts is an identical copy of
    lib/api/actions-shared.ts.  A callback of the frontend or a request of a server runs to
    its end before the next one starts where it is a computation, and the functions of a
    [Promise.all] run in the order of the list; requests in flight are not shared.  Page
    numbers print as integers.  In the hook simulateVersionedTx is never called; in
    useRoundHistory the listener that starts and stops the reload timer is left out. *)

From stdpp Require Import base list gmap strings pretty.
From Stdlib Require Import ZArith Lia Strings.Byte.

Local Open Scope Z_scope.
Set Warnings "-clear-no-such-hyp".

(** ** Hint databases *)

(** Rewriting lemmas for little-endian reads over concatenated layouts. *)
Create Rewrite HintDb layout.
(** Layouts to unfold when an offset is computed. *)
Create HintDb layout_defs.
(** Lemmas that close the side conditions of the handlers' proofs. *)
Create HintDb crank.

(** ** JavaScript errors and fallible computations *)

(** What the code can observe of a thrown [Error]: its class name
    ([instanceof] and [e.name]), its [message], and the properties [status] and
    [code] that the HTTP handlers attach. *)
Record JsError := mkJsError {
  err_name : string;
  err_message : string;
  err_status : option Z;
  err_code : option string
}.

(** A plain error of the given class. *)
Definition mkError (name message : string) : JsError := mkJsError name message None None.

#[export] Instance JsError_eq_dec : EqDecision JsError.
Proof. solve_decision. Defined.

(** A computation that returns a value or throws. *)
Inductive Res (A : Type) : Type :=
| Ok (a : A)
| Throw (e : JsError).
Arguments Ok {A} a.
Arguments Throw {A} e.

#[export] Instance Res_ret : MRet Res := fun _ a => Ok a.
#[export] Instance Res_bind : MBind Res := fun _ _ f m =>
  match m with Ok a => f a | Throw e => Throw e end.
#[export] Instance Res_fmap : FMap Res := fun _ _ f m =>
  match m with Ok a => Ok (f a) | Throw e => Throw e end.

(** The value of a computation, its error forgotten. *)
Definition res_value {A} (r : Res A) : option A :=
  match r with Ok a => Some a | Throw _ => None end.

Definition is_ok {A} (r : Res A) : bool :=
  match r with Ok _ => true | Throw _ => false end.

Lemma res_bind_ok {A B} (m : Res A) (f : A -> Res B) b :
  mbind f m = Ok b <-> exists a, m = Ok a /\ f a = Ok b.
Proof. destruct m; simpl; split; [eauto|by intros (? & [= ->] & ?)|done|by intros (? & [=] & ?)]. Qed.

Lemma is_ok_bind {A B} (m : Res A) (f : A -> Res B) :
  is_ok (mbind f m) = true <-> exists a, m = Ok a /\ is_ok (f a) = true.
Proof. destruct m; simpl; split; [eauto|by intros (? & [= ->] & ?)|done|by intros (? & [=] & ?)]. Qed.

(** Runs the computations of a list in order and collects their values; the
    first error stops it ([Array.map] with a callback that may throw). *)
Fixpoint res_mapM {A B} (f : A -> Res B) (l : list A) : Res (list B) :=
  match l with
  | [] => Ok []
  | a :: l => b ← f a; bs ← res_mapM f l; Ok (b :: bs)
  end.

Lemma res_mapM_lookup {A B} (f : A -> Res B) l bs i a :
  res_mapM f l = Ok bs -> l !! i = Some a -> exists b, f a = Ok b /\ bs !! i = Some b.
Proof.
  revert bs i. induction l as [|a' l IH]; intros bs i; [done|]. simpl.
  destruct (f a') as [b|e] eqn:E; [|done]. simpl.
  destruct (res_mapM f l) as [bs'|e]; [|done]. intros [= <-].
  destruct i as [|i]; simpl; [intros [= <-]; by exists b|by apply IH].
Qed.

Lemma res_mapM_ok {A B} (f : A -> Res B) (g : A -> B) l :
  Forall (fun a => f a = Ok (g a)) l -> res_mapM f l = Ok (map g l).
Proof.
  induction 1 as [|a l Ha _ IH]; [done|].
  cbn [res_mapM map]. rewrite Ha. simpl. rewrite IH. done.
Qed.

Lemma res_mapM_exists {A B} (f : A -> Res B) l :
  Forall (fun a => exists b, f a = Ok b) l -> exists bs, res_mapM f l = Ok bs.
Proof.
  induction 1 as [|a l [b Hb] _ [bs Hbs]]; [by exists []|].
  exists (b :: bs). cbn [res_mapM]. rewrite Hb. simpl. rewrite Hbs. done.
Qed.

Lemma res_mapM_length {A B} (f : A -> Res B) l bs :
  res_mapM f l = Ok bs -> length bs = length l.
Proof.
  revert bs. induction l as [|a l IH]; intros bs; cbn [res_mapM].
  { intros [= <-]. done. }
  intros (b & Hb & (bs' & Hbs & [= <-])%res_bind_ok)%res_bind_ok.
  simpl. f_equal. by apply IH.
Qed.

Lemma res_mapM_throw {A B} (f : A -> Res B) l e :
  res_mapM f l = Throw e -> exists a, a ∈ l /\ f a = Throw e.
Proof.
  induction l as [|a l IH]; cbn [res_mapM]; [done|].
  destruct (f a) as [b|e'] eqn:E; cbn [mbind Res_bind].
  - destruct (res_mapM f l) as [bs|e'']; [done|]. cbn [mbind Res_bind]. intros [= ->].
    destruct IH as (a' & Hin & Ha); [done|]. exists a'. split; [by right|done].
  - intros [= ->]. exists a. split; [by left|done].
Qed.

(** ** Filters that keep everything or nothing *)

Lemma filter_keeps {A} (P : A -> Prop) `{forall x, Decision (P x)} l : Forall P l -> filter P l = l.
Proof. induction 1 as [|x l Hx Hl IH]; [done|]. by rewrite filter_cons_True, IH. Qed.

Lemma filter_drops {A} (P : A -> Prop) `{forall x, Decision (P x)} l : Forall (fun x => ~ P x) l -> filter P l = [].
Proof. induction 1 as [|x l Hx Hl IH]; [done|]. by rewrite filter_cons_False, IH. Qed.

(** Destructs a successful chain of binds in a hypothesis. *)
Ltac res_inv H :=
  lazymatch type of H with
  | mbind _ _ = Ok _ =>
      let a := fresh "v" in let Ha := fresh "Hv" in
      apply res_bind_ok in H; destruct H as (a & Ha & H); res_inv H
  | Ok _ = Ok _ => injection H as H; try subst
  | Throw _ = Ok _ => discriminate H
  | _ => idtac
  end.

(** Case analysis on the boolean tests of a goal, with their specifications. *)
Ltac case_bool :=
  repeat match goal with
  | |- context [Z.eqb ?a ?b] => destruct (Z.eqb_spec a b)
  | |- context [Z.ltb ?a ?b] => destruct (Z.ltb_spec a b)
  | |- context [Z.leb ?a ?b] => destruct (Z.leb_spec a b)
  end.

(** ** Machine integers inside JavaScript numbers *)

(** [2^53]: every integer up to it in magnitude is a JavaScript number. *)
Definition MAX_EXACT : Z := 2 ^ 53.

(** Rounding of an integer to the nearest IEEE double (ties to even).  A double
    of magnitude at least [2^53] is an integer, so the integers reached by
    [Number(x)] for a 64-bit [x], and the sums of such numbers, stay integers:
    this function is all of the rounding they undergo. *)
Definition round53 (z : Z) : Z :=
  let a := Z.abs z in
  let e := Z.log2 a - 52 in
  if e <=? 0 then z
  else
    let u := 2 ^ e in
    let q := a / u in
    let r := a mod u in
    let q' := if (2 * r <? u) || ((2 * r =? u) && Z.even q) then q else q + 1 in
    Z.sgn z * (q' * u).

Lemma round53_exact z : Z.abs z < MAX_EXACT -> round53 z = z.
Proof.
  intros Hz. unfold round53, MAX_EXACT in *.
  destruct (Z.leb_spec (Z.log2 (Z.abs z) - 52) 0) as [_|Hgt]; [done|].
  assert (Z.log2 (Z.abs z) < 53); [|lia].
  apply Z.log2_lt_pow2; [|lia].
  destruct (Z.eq_dec (Z.abs z) 0) as [E|]; [rewrite E in Hgt; simpl in Hgt; lia|lia].
Qed.

(** Addition of two integer-valued numbers. *)
Definition num_add (a b : Z) : Z := round53 (a + b).

Lemma num_add_exact a b : Z.abs (a + b) < MAX_EXACT -> num_add a b = a + b.
Proof. apply round53_exact. Qed.

(** ** Bytes and little-endian encodings *)

Abbreviation bytes := (list byte).

#[export] Instance byte_eq_dec : EqDecision byte := Byte.byte_eq_dec.

Definition byte_val (b : byte) : Z := Z.of_N (Byte.to_N b).

Definition byte_of (z : Z) : byte :=
  match Byte.of_N (Z.to_N (z mod 256)) with Some b => b | None => x00 end.

Lemma byte_val_bound b : 0 <= byte_val b < 256.
Proof. unfold byte_val. pose proof (Byte.to_N_bounded b). lia. Qed.

Lemma byte_val_of z : byte_val (byte_of z) = z mod 256.
Proof.
  pose proof (Z.mod_pos_bound z 256 ltac:(lia)) as Hb.
  unfold byte_of, byte_val. destruct (Byte.of_N _) as [b|] eqn:E.
  - apply Byte.to_of_N in E. rewrite E. lia.
  - exfalso. pose proof (Byte.to_of_N_option_map (Z.to_N (z mod 256))) as H.
    rewrite E in H. simpl in H.
    destruct (N.leb_spec (Z.to_N (z mod 256)) 255); [done|lia].
Qed.

Lemma byte_of_val b : byte_of (byte_val b) = b.
Proof.
  unfold byte_of. rewrite Z.mod_small by apply byte_val_bound.
  unfold byte_val. rewrite N2Z.id, Byte.of_to_N. done.
Qed.

Fixpoint le_decode (bs : bytes) : Z :=
  match bs with
  | [] => 0
  | b :: rest => byte_val b + 256 * le_decode rest
  end.

Fixpoint le_encode (n : nat) (z : Z) : bytes :=
  match n with
  | O => []
  | S n => byte_of z :: le_encode n (z / 256)
  end.

Lemma length_le_encode n z : length (le_encode n z) = n.
Proof. revert z. induction n; intros z; simpl; auto. Qed.

Lemma le_decode_bound bs : 0 <= le_decode bs < 256 ^ Z.of_nat (length bs).
Proof.
  induction bs as [|b bs IH]; [simpl; lia|].
  cbn [le_decode length]. rewrite Nat2Z.inj_succ, Z.pow_succ_r by lia.
  pose proof (byte_val_bound b). lia.
Qed.

Lemma le_decode_encode n z : le_decode (le_encode n z) = z mod 256 ^ Z.of_nat n.
Proof.
  revert z. induction n as [|n IH]; intros z.
  { simpl. rewrite Z.mod_1_r. done. }
  cbn [le_encode le_decode].
  rewrite IH, byte_val_of, Nat2Z.inj_succ, Z.pow_succ_r by lia.
  rewrite Z.rem_mul_r by lia. lia.
Qed.

Lemma le_decode_encode_small n z :
  0 <= z < 256 ^ Z.of_nat n -> le_decode (le_encode n z) = z.
Proof. intros. rewrite le_decode_encode. by apply Z.mod_small. Qed.

Lemma le_encode_decode bs : le_encode (length bs) (le_decode bs) = bs.
Proof.
  induction bs as [|b bs IH]; [done|].
  pose proof (byte_val_bound b) as Hb. cbn [length le_decode le_encode]. f_equal.
  - transitivity (byte_of (byte_val b)); [|apply byte_of_val].
    unfold byte_of. rewrite Z.mul_comm, Z.mod_add by lia. done.
  - replace ((byte_val b + 256 * le_decode bs) / 256) with (le_decode bs); [done|].
    rewrite Z.mul_comm, Z.div_add, Z.div_small by lia. lia.
Qed.

(** Two's complement reading of an unsigned [w]-byte value. *)
Definition to_signed (w : nat) (u : Z) : Z :=
  if u <? 256 ^ Z.of_nat w / 2 then u else u - 256 ^ Z.of_nat w.

Lemma to_signed_mod w z :
  (0 < w)%nat ->
  - (256 ^ Z.of_nat w / 2) <= z < 256 ^ Z.of_nat w / 2 ->
  to_signed w (z mod 256 ^ Z.of_nat w) = z.
Proof.
  intros Hw Hz. unfold to_signed.
  assert (Hpow : 256 ^ Z.of_nat w = 2 * (256 ^ Z.of_nat w / 2)).
  { replace w with (S (pred w)) by lia.
    rewrite Nat2Z.inj_succ, Z.pow_succ_r by lia.
    rewrite <- (Z.div_unique_exact (256 * 256 ^ Z.of_nat (pred w)) 2
      (128 * 256 ^ Z.of_nat (pred w))) by lia. lia. }
  set (h := 256 ^ Z.of_nat w / 2) in *. rewrite Hpow in *.
  destruct (Z_lt_le_dec z 0).
  - rewrite <- (Z.mod_unique_pos z (2 * h) (-1) (z + 2 * h)) by lia.
    destruct (Z.ltb_spec (z + 2 * h) h); lia.
  - rewrite Z.mod_small by lia. destruct (Z.ltb_spec z h); lia.
Qed.
