(* ===== verification/Buffers.v ===== *)
(** * Buffers: [Buffer], [DataView] and [PublicKey] as the parsers use them

    - the reads of a byte buffer: [subarray] clamps to the buffer's end, an index
      read out of range is [undefined], a [DataView] read out of range throws;
    - a lemma for reading one field of a buffer that is the concatenation of its
      fields, with the tactic [read_field] built on it;
    - [Web3Keys], the interface of @solana/web3.js's [PublicKey], a library that
      is not part of this repository, with the laws the code relies on. *)

From stdpp Require Import base list gmap strings pretty.
From Stdlib Require Import ZArith Lia Strings.Byte.
From S2P Require Import Prelude.

Local Open Scope Z_scope.

(** ** Reads *)

Definition blen (d : bytes) : Z := Z.of_nat (length d).

(** [d.subarray(s, e)] for [0 <= s <= e]. *)
Definition subarray (d : bytes) (s e : Z) : bytes :=
  take (Z.to_nat (e - s)) (drop (Z.to_nat s) d).

(** [d[i]]: [undefined] past the end. *)
Definition byte_at (d : bytes) (i : Z) : option Z :=
  byte_val <$> d !! Z.to_nat i.

Definition range_error : JsError :=
  mkError "RangeError" "Offset is outside the bounds of the DataView".

(** The bytes a [DataView] accessor of width [n] reads at [off]. *)
Definition view_bytes (n : Z) (d : bytes) (off : Z) : Res bytes :=
  if off + n <=? blen d then Ok (subarray d off (off + n)) else Throw range_error.

Definition getUint16 (d : bytes) (off : Z) : Res Z := le_decode <$> view_bytes 2 d off.
Definition getUint32 (d : bytes) (off : Z) : Res Z := le_decode <$> view_bytes 4 d off.
Definition getBigUint64 (d : bytes) (off : Z) : Res Z := le_decode <$> view_bytes 8 d off.
Definition getBigInt64 (d : bytes) (off : Z) : Res Z :=
  (fun bs => to_signed 8 (le_decode bs)) <$> view_bytes 8 d off.

(** An index read whose [undefined] cannot survive: the same function goes on to
    a [DataView] read at a larger offset, which throws this error for every
    buffer too short for the index. *)
Definition checked_byte (d : bytes) (i : Z) : Res Z :=
  match byte_at d i with Some b => Ok b | None => Throw range_error end.

(** ** When reads succeed *)

Lemma view_bytes_ok n d off :
  off + n <= blen d -> view_bytes n d off = Ok (subarray d off (off + n)).
Proof. intros. unfold view_bytes. by rewrite (proj2 (Z.leb_le _ _)). Qed.

Lemma view_bytes_short n d off :
  blen d < off + n -> view_bytes n d off = Throw range_error.
Proof. intros. unfold view_bytes. by rewrite (proj2 (Z.leb_gt _ _)). Qed.

Lemma is_ok_view n d off : is_ok (view_bytes n d off) = (off + n <=? blen d).
Proof. unfold view_bytes. by destruct (_ <=? _). Qed.

Lemma byte_at_lt d i : 0 <= i < blen d -> exists b, byte_at d i = Some b.
Proof.
  intros Hi. unfold byte_at, blen in *.
  destruct (lookup_lt_is_Some_2 d (Z.to_nat i)) as [b Hb]; [lia|].
  exists (byte_val b). by rewrite Hb.
Qed.

Lemma byte_at_ge d i : 0 <= i -> blen d <= i -> byte_at d i = None.
Proof.
  intros ??. unfold byte_at, blen in *.
  rewrite lookup_ge_None_2 by lia. done.
Qed.

Lemma length_subarray d s e :
  0 <= s <= e -> e <= blen d -> length (subarray d s e) = Z.to_nat (e - s).
Proof.
  intros ??. unfold subarray, blen in *.
  rewrite length_take, length_drop. lia.
Qed.

(** ** Reading one field of a concatenation of fields *)

Lemma subarray_app_r a b s e :
  blen a <= s -> subarray (a ++ b) s e = subarray b (s - blen a) (e - blen a).
Proof.
  intros Hs. unfold subarray, blen in *.
  replace (e - Z.of_nat (length a) - (s - Z.of_nat (length a))) with (e - s) by lia.
  rewrite drop_app_ge by lia. do 2 f_equal. lia.
Qed.

Lemma subarray_app_l a b s e :
  0 <= s <= e -> e <= blen a -> subarray (a ++ b) s e = subarray a s e.
Proof.
  intros Hs He. unfold subarray, blen in *.
  rewrite drop_app_le by lia. rewrite take_app_le; [done|].
  rewrite length_drop. lia.
Qed.

Lemma subarray_all a e : e = blen a -> subarray a 0 e = a.
Proof.
  intros ->. unfold subarray, blen. rewrite Z.sub_0_r, Nat2Z.id.
  rewrite drop_0. by apply take_ge.
Qed.

(** The offset at which field [i] of a layout starts. *)
Definition field_offset (segs : list bytes) (i : nat) : Z :=
  blen (concat (take i segs)).

Lemma concat_field (segs : list bytes) (i : nat) (x : bytes) :
  segs !! i = Some x ->
  concat segs = concat (take i segs) ++ x ++ concat (drop (S i) segs).
Proof.
  intros Hi. rewrite <- (take_drop_middle segs i x Hi) at 1.
  by rewrite concat_app.
Qed.

Lemma subarray_concat (segs : list bytes) (i : nat) (x : bytes) s e :
  segs !! i = Some x -> s = field_offset segs i -> e = s + blen x ->
  subarray (concat segs) s e = x.
Proof.
  intros Hi -> ->. rewrite (concat_field _ _ _ Hi).
  unfold field_offset. rewrite subarray_app_r by lia.
  rewrite subarray_app_l by (unfold blen; lia).
  rewrite Z.sub_diag. apply subarray_all. lia.
Qed.

Lemma view_concat (segs : list bytes) (i : nat) (x : bytes) n s :
  segs !! i = Some x -> s = field_offset segs i -> n = blen x ->
  view_bytes n (concat segs) s = Ok x.
Proof.
  intros Hi Hs Hn. rewrite view_bytes_ok.
  - f_equal. eapply subarray_concat; [done..|lia].
  - subst. rewrite (concat_field _ _ _ Hi). unfold field_offset, blen.
    rewrite !length_app. lia.
Qed.

Lemma byte_at_concat (segs : list bytes) (i : nat) b s :
  segs !! i = Some [b] -> s = field_offset segs i ->
  byte_at (concat segs) s = Some (byte_val b).
Proof.
  intros Hi ->. unfold byte_at. rewrite (concat_field _ _ _ Hi).
  unfold field_offset, blen. rewrite Nat2Z.id.
  rewrite lookup_app_r by lia. by rewrite Nat.sub_diag.
Qed.

(** A block of equally long fields is read at multiples of their length. *)
Lemma field_offset_uniform (segs : list bytes) (w i : nat) :
  Forall (fun x => length x = w) segs -> (i <= length segs)%nat ->
  field_offset segs i = Z.of_nat (w * i).
Proof.
  unfold field_offset, blen. intros Hall. revert i.
  induction Hall as [|x l Hx _ IH]; intros [|i] Hi; simpl in *; try lia.
  rewrite length_app, Hx, Nat2Z.inj_add, (IH i) by lia. lia.
Qed.

Lemma field_offset_app_l (a b : list bytes) (i : nat) :
  (i <= length a)%nat -> field_offset (a ++ b) i = field_offset a i.
Proof. intros. unfold field_offset. by rewrite take_app_le. Qed.

Lemma field_offset_app_r (a b : list bytes) (i : nat) :
  field_offset (a ++ b) (length a + i) = blen (concat a) + field_offset b i.
Proof.
  unfold field_offset, blen. rewrite take_app_add, concat_app, length_app. lia.
Qed.

#[export] Hint Rewrite length_le_encode @length_replicate @length_app : layout.

(** Solves [s = field_offset segs i] and [n = blen x] for a concrete layout. *)
Ltac layout_lia :=
  repeat match goal with x := _ : list bytes |- _ => progress unfold x end;
  unfold field_offset, blen; autounfold with layout_defs;
  repeat progress (cbn [take concat length app]; autorewrite with layout); lia.

(** ** Public keys *)

(** The part of @solana/web3.js the code calls: [new PublicKey(bytes)],
    [new PublicKey(base58)], [toBuffer], [toBase58], [PublicKey.default] and
    [PublicKey.findProgramAddressSync]. *)
Class Web3Keys := {
  PublicKey : Type;
  PublicKey_eq_dec :: EqDecision PublicKey;
  keyOfBytes : bytes -> Res PublicKey;
  keyOfString : string -> Res PublicKey;
  toBuffer : PublicKey -> bytes;
  toBase58 : PublicKey -> string;
  defaultKey : PublicKey;
  findProgramAddressSync : list bytes -> PublicKey -> PublicKey * Z
}.

(** What the code relies on: a key is 32 bytes, 32 bytes make a key, a key is
    determined by its bytes and by its base58 text, and the default key is the
    all-zero one. *)
Class Web3KeysLaws `{Web3Keys} : Prop := {
  toBuffer_length : forall k, length (toBuffer k) = 32%nat;
  keyOfBytes_32 : forall b, length b = 32%nat ->
    exists k, keyOfBytes b = Ok k /\ toBuffer k = b;
  keyOfBytes_toBuffer : forall k, keyOfBytes (toBuffer k) = Ok k;
  keyOfString_toBase58 : forall k, keyOfString (toBase58 k) = Ok k;
  toBuffer_default : toBuffer defaultKey = replicate 32 x00
}.

Section keys.
Context `{Web3KeysLaws}.

Lemma toBuffer_inj k1 k2 : toBuffer k1 = toBuffer k2 -> k1 = k2.
Proof.
  intros E. pose proof (keyOfBytes_toBuffer k1) as H1.
  rewrite E, keyOfBytes_toBuffer in H1. congruence.
Qed.

Lemma toBase58_inj k1 k2 : toBase58 k1 = toBase58 k2 -> k1 = k2.
Proof.
  intros E. pose proof (keyOfString_toBase58 k1) as H1.
  rewrite E, keyOfString_toBase58 in H1. congruence.
Qed.
End keys.

(** A concrete instance, for evaluating the definitions: a key is a byte buffer
    padded or cut to 32 bytes, its text is its bytes as characters, and a program
    address keeps the first bytes of its seeds. *)
Module ToyKeys.
Definition fit (b : bytes) : bytes := take 32 (b ++ replicate 32 x00).

Lemma length_fit b : length (fit b) = 32%nat.
Proof. unfold fit. rewrite length_take, length_app, length_replicate. lia. Qed.

Lemma fit_id b : length b = 32%nat -> fit b = b.
Proof. intros E. unfold fit. rewrite take_app_le by lia. apply take_ge. lia. Qed.

Definition key : Type := { b : bytes | bool_decide (length b = 32%nat) }.

Definition mk (b : bytes) : key := fit b ↾ bool_decide_pack _ (length_fit b).

Lemma key_ext (k1 k2 : key) : `k1 = `k2 -> k1 = k2.
Proof.
  destruct k1 as [b1 p1], k2 as [b2 p2]; simpl. intros ->.
  f_equal. apply proof_irrel.
Qed.

Lemma mk_proj (k : key) : mk (`k) = k.
Proof.
  apply key_ext. simpl. apply fit_id. destruct k as [b p]; simpl.
  by apply bool_decide_unpack in p.
Qed.

#[global] Instance key_eq_dec : EqDecision key.
Proof.
  intros k1 k2. destruct (decide (`k1 = `k2)) as [E|E].
  - left. by apply key_ext.
  - right. congruence.
Defined.

Definition text (k : key) : string :=
  String.string_of_list_ascii (Ascii.ascii_of_byte <$> `k).

Definition of_text (s : string) : key :=
  mk (Ascii.byte_of_ascii <$> String.list_ascii_of_string s).

Lemma of_text_text k : of_text (text k) = k.
Proof.
  unfold of_text, text. rewrite String.list_ascii_of_string_of_list_ascii.
  rewrite <- (mk_proj k) at 2. f_equal.
  rewrite <- list_fmap_compose. rewrite <- (list_fmap_id (`k)) at 2.
  apply list_fmap_ext. intros i b _. apply Ascii.byte_of_ascii_of_byte.
Qed.

Definition keys : Web3Keys := {|
  PublicKey := key;
  keyOfBytes := fun b => Ok (mk b);
  keyOfString := fun s => Ok (of_text s);
  toBuffer := fun k => `k;
  toBase58 := text;
  defaultKey := mk [];
  findProgramAddressSync := fun seeds p => (mk (concat seeds ++ `p), 255)
|}.

Lemma laws : @Web3KeysLaws keys.
Proof.
  split; simpl.
  - intros [b p]; simpl. by apply bool_decide_unpack in p.
  - intros b E. exists (mk b). split; [done|]. by apply fit_id.
  - intros k. by rewrite mk_proj.
  - intros k. by rewrite of_text_text.
  - reflexivity.
Qed.
End ToyKeys.
