(* ===== verification/Accounts.v ===== *)
(** * Accounts: the on-chain account parsers

    [Crank] models crank/src/parser.ts, [Front] the parsers of src/lib/program.ts,
    and the top level the partial parsers of crank/src/degenLogic.ts and
    [parseConfig] of lib/api/actions-shared.ts.  [RoundImage] is the byte layout
    that the offset table of src/lib/program.ts documents; the round-trip theorems
    say that each parser recovers every field of an account with that layout. *)

From stdpp Require Import base list gmap strings pretty.
From Stdlib Require Import ZArith Lia Strings.Byte.
From S2P Require Import Prelude Buffers.

Local Open Scope Z_scope.

(** ** Status codes *)

Module RoundStatus.
Definition Open : Z := 0.
Definition Locked : Z := 1.
Definition VrfRequested : Z := 2.
Definition Settled : Z := 3.
Definition Claimed : Z := 4.
Definition Cancelled : Z := 5.
End RoundStatus.

Module DegenClaimStatus.
Definition VrfRequested : Z := 1.
Definition VrfReady : Z := 2.
Definition Executing : Z := 3.
Definition ClaimedSwapped : Z := 4.
Definition ClaimedFallback : Z := 5.
End DegenClaimStatus.

(** The Anchor discriminator's length, before the account's fields. *)
Definition DISC : Z := 8.

Section parsers.
Context `{Web3Keys}.

(** A public key stored at [off]. *)
Definition key_at (d : bytes) (off : Z) : Res PublicKey :=
  keyOfBytes (subarray d off (off + 32)).

(** The loop over the participants table. *)
Definition keys_at (d : bytes) (pOff : Z) (count : Z) : Res (list PublicKey) :=
  res_mapM (fun i => key_at d (pOff + i * 32)) (seqZ 0 count).
End parsers.

(** ** crank/src/parser.ts *)

Module Crank.
Section crank.
Context `{Web3Keys}.

Record RoundData := mkRoundData {
  roundId : Z;
  status : Z;
  bump : Z;
  startTs : Z;
  endTs : Z;
  firstDepositTs : Z;
  vaultUsdcAta : PublicKey;
  totalUsdc : Z;
  totalTickets : Z;
  participantsCount : Z;
  randomness : bytes;
  winningTicket : Z;
  winner : PublicKey;
  participants : list PublicKey;
  vrfPayer : PublicKey
}.

Record ParticipantData := mkParticipantData {
  p_round : PublicKey;
  p_user : PublicKey;
  p_index : Z;
  p_bump : Z;
  p_ticketsTotal : Z;
  p_usdcTotal : Z;
  p_depositsCount : Z
}.

Definition parseRound (d : bytes) : Res RoundData :=
  roundId ← getBigUint64 d (DISC + 0);
  status ← checked_byte d (DISC + 8);
  bump ← checked_byte d (DISC + 9);
  startTs ← getBigInt64 d (DISC + 16);
  endTs ← getBigInt64 d (DISC + 24);
  firstDepositTs ← getBigInt64 d (DISC + 32);
  vaultUsdcAta ← key_at d (DISC + 40);
  totalUsdc ← getBigUint64 d (DISC + 72);
  totalTickets ← getBigUint64 d (DISC + 80);
  participantsCount ← getUint16 d (DISC + 88);
  let randomness := subarray d (DISC + 96) (DISC + 128) in
  winningTicket ← getBigUint64 d (DISC + 128);
  winner ← key_at d (DISC + 136);
  participants ← keys_at d (DISC + 168) participantsCount;
  vrfPayer ← key_at d (DISC + 8176);
  Ok (mkRoundData roundId status bump startTs endTs firstDepositTs vaultUsdcAta
        totalUsdc totalTickets participantsCount randomness winningTicket winner
        participants vrfPayer).

Definition parseParticipant (d : bytes) : Res ParticipantData :=
  round ← key_at d (DISC + 0);
  user ← key_at d (DISC + 32);
  index ← getUint16 d (DISC + 64);
  bump ← checked_byte d (DISC + 66);
  ticketsTotal ← getBigUint64 d (DISC + 67);
  usdcTotal ← getBigUint64 d (DISC + 75);
  depositsCount ← getUint32 d (DISC + 83);
  Ok (mkParticipantData round user index bump ticketsTotal usdcTotal depositsCount).
End crank.
End Crank.

(** ** src/lib/program.ts *)

Module Front.
Section front.
Context `{Web3Keys}.

(** [degenModeStatus] and [vrfReimbursed] are index reads past every checked
    read, so they may be [undefined]. *)
Record RoundData := mkRoundData {
  roundId : Z;
  status : Z;
  degenModeStatus : option Z;
  bump : Z;
  startTs : Z;
  endTs : Z;
  firstDepositTs : Z;
  vaultUsdcAta : PublicKey;
  totalUsdc : Z;
  totalTickets : Z;
  participantsCount : Z;
  randomness : bytes;
  winningTicket : Z;
  winner : PublicKey;
  participants : list PublicKey;
  vrfPayer : PublicKey;
  vrfReimbursed : option Z
}.

Definition parseRound (d : bytes) : Res RoundData :=
  roundId ← getBigUint64 d (DISC + 0);
  status ← checked_byte d (DISC + 8);
  let degenModeStatus := byte_at d (DISC + 8209) in
  bump ← checked_byte d (DISC + 9);
  startTs ← getBigInt64 d (DISC + 16);
  endTs ← getBigInt64 d (DISC + 24);
  firstDepositTs ← getBigInt64 d (DISC + 32);
  vaultUsdcAta ← key_at d (DISC + 40);
  totalUsdc ← getBigUint64 d (DISC + 72);
  totalTickets ← getBigUint64 d (DISC + 80);
  participantsCount ← getUint16 d (DISC + 88);
  let randomness := subarray d (DISC + 96) (DISC + 128) in
  winningTicket ← getBigUint64 d (DISC + 128);
  winner ← key_at d (DISC + 136);
  participants ← keys_at d (DISC + 168) participantsCount;
  vrfPayer ← key_at d (DISC + 8176);
  let vrfReimbursed := byte_at d (DISC + 8208) in
  Ok (mkRoundData roundId status degenModeStatus bump startTs endTs firstDepositTs
        vaultUsdcAta totalUsdc totalTickets participantsCount randomness
        winningTicket winner participants vrfPayer vrfReimbursed).

(** [off] is threaded as the source threads it. *)
Definition parseParticipant (d : bytes) : Res Crank.ParticipantData :=
  let off := DISC in
  round ← key_at d off; let off := off + 32 in
  user ← key_at d off; let off := off + 32 in
  index ← getUint16 d off; let off := off + 2 in
  bump ← checked_byte d off; let off := off + 1 in
  ticketsTotal ← getBigUint64 d off; let off := off + 8 in
  usdcTotal ← getBigUint64 d off; let off := off + 8 in
  depositsCount ← getUint32 d off;
  Ok (Crank.mkParticipantData round user index bump ticketsTotal usdcTotal depositsCount).
End front.
End Front.

(** ** Partial parsers: crank/src/degenLogic.ts and lib/api/actions-shared.ts *)

Definition ROUND_STATUS_OFFSET : Z := DISC + 8.
Definition ROUND_TOTAL_USDC_OFFSET : Z := DISC + 72.
Definition ROUND_DEGEN_STATUS_OFFSET : Z := DISC + 8209.
Definition ROUND_VRF_PAYER_OFFSET : Z := DISC + 8176.
Definition ROUND_VRF_REIMBURSED_OFFSET : Z := DISC + 8208.
Definition CONFIG_FEE_BPS_OFFSET : Z := DISC + 96.

Record RoundMeta := mkRoundMeta {
  meta_status : option Z;
  meta_totalUsdc : Z;
  meta_degenModeStatus : option Z
}.

Definition parseRoundMeta (d : bytes) : Res RoundMeta :=
  let status := byte_at d ROUND_STATUS_OFFSET in
  totalUsdc ← getBigUint64 d ROUND_TOTAL_USDC_OFFSET;
  Ok (mkRoundMeta status totalUsdc (byte_at d ROUND_DEGEN_STATUS_OFFSET)).

(** [data.readUInt16LE] throws a [RangeError] out of range, as the view does. *)
Definition parseConfigFeeBps (d : bytes) : Res Z := getUint16 d CONFIG_FEE_BPS_OFFSET.

Section partial_parsers.
Context `{Web3Keys}.

Definition parseRoundVrfPayer (d : bytes) : Res (option PublicKey) :=
  vrfPayer ← keyOfBytes (subarray d ROUND_VRF_PAYER_OFFSET (ROUND_VRF_PAYER_OFFSET + 32));
  if decide (vrfPayer = defaultKey) then Ok None
  else if decide (byte_at d ROUND_VRF_REIMBURSED_OFFSET = Some 0) then Ok (Some vrfPayer)
  else Ok None.

Record ParsedConfigLike := mkConfig {
  admin : PublicKey;
  usdcMint : PublicKey;
  treasuryUsdcAta : PublicKey;
  feeBps : Z;
  ticketUnit : Z;
  roundDurationSec : Z;
  minParticipants : Z;
  minTotalTickets : Z;
  paused : bool;
  cfg_bump : Z;
  maxDepositPerUser : Z
}.

Definition CONFIG_DISC : Z := 8.

Definition parseConfig (d : bytes) : Res ParsedConfigLike :=
  admin ← key_at d (CONFIG_DISC + 0);
  usdcMint ← key_at d (CONFIG_DISC + 32);
  treasuryUsdcAta ← key_at d (CONFIG_DISC + 64);
  feeBps ← getUint16 d (CONFIG_DISC + 96);
  ticketUnit ← getBigUint64 d (CONFIG_DISC + 98);
  roundDurationSec ← getUint32 d (CONFIG_DISC + 106);
  minParticipants ← getUint16 d (CONFIG_DISC + 110);
  minTotalTickets ← getBigUint64 d (CONFIG_DISC + 112);
  pausedByte ← checked_byte d (CONFIG_DISC + 120);
  let paused := negb (pausedByte =? 0) in
  bump ← checked_byte d (CONFIG_DISC + 121);
  maxDepositPerUser ← getBigUint64 d (CONFIG_DISC + 122);
  Ok (mkConfig admin usdcMint treasuryUsdcAta feeBps ticketUnit roundDurationSec
        minParticipants minTotalTickets paused bump maxDepositPerUser).
End partial_parsers.

(** ** The documented layout of a Round account *)

Section layout.
Context `{Web3Keys}.

(** The zero-copy [Round] struct, in the order of the offset table. *)
Record RoundImage := mkRoundImage {
  im_disc : bytes;
  im_round_id : Z;
  im_status : Z;
  im_bump : Z;
  im_padding : bytes;
  im_start_ts : Z;
  im_end_ts : Z;
  im_first_deposit_ts : Z;
  im_vault_usdc_ata : PublicKey;
  im_total_usdc : Z;
  im_total_tickets : Z;
  im_participants_count : Z;
  im_padding2 : bytes;
  im_randomness : bytes;
  im_winning_ticket : Z;
  im_winner : PublicKey;
  im_participants : list PublicKey;
  im_bit : bytes;
  im_vrf_payer : PublicKey;
  im_vrf_reimbursed : Z;
  im_degen_mode_status : Z;
  im_reserved : bytes
}.

Definition round_fields (im : RoundImage) : list bytes := [
  im_disc im;
  le_encode 8 (im_round_id im);
  [byte_of (im_status im)];
  [byte_of (im_bump im)];
  im_padding im;
  le_encode 8 (im_start_ts im);
  le_encode 8 (im_end_ts im);
  le_encode 8 (im_first_deposit_ts im);
  toBuffer (im_vault_usdc_ata im);
  le_encode 8 (im_total_usdc im);
  le_encode 8 (im_total_tickets im);
  le_encode 2 (im_participants_count im);
  im_padding2 im;
  im_randomness im;
  le_encode 8 (im_winning_ticket im);
  toBuffer (im_winner im);
  concat (map toBuffer (im_participants im));
  im_bit im;
  toBuffer (im_vrf_payer im);
  [byte_of (im_vrf_reimbursed im)];
  [byte_of (im_degen_mode_status im)];
  im_reserved im
].

Definition encode_round (im : RoundImage) : bytes := concat (round_fields im).

Definition u8 (z : Z) : Prop := 0 <= z < 256.
Definition u16 (z : Z) : Prop := 0 <= z < 2 ^ 16.
Definition u32 (z : Z) : Prop := 0 <= z < 2 ^ 32.
Definition u64 (z : Z) : Prop := 0 <= z < 2 ^ 64.
Definition i64 (z : Z) : Prop := - 2 ^ 63 <= z < 2 ^ 63.

(** Field widths of the struct: the values fit their types and the arrays have
    their lengths; at most 200 participants are counted. *)
Record round_image_ok (im : RoundImage) : Prop := {
  ok_disc : length (im_disc im) = 8%nat;
  ok_round_id : u64 (im_round_id im);
  ok_status : u8 (im_status im);
  ok_bump : u8 (im_bump im);
  ok_padding : length (im_padding im) = 6%nat;
  ok_start_ts : i64 (im_start_ts im);
  ok_end_ts : i64 (im_end_ts im);
  ok_first_deposit_ts : i64 (im_first_deposit_ts im);
  ok_total_usdc : u64 (im_total_usdc im);
  ok_total_tickets : u64 (im_total_tickets im);
  ok_count : 0 <= im_participants_count im <= 200;
  ok_padding2 : length (im_padding2 im) = 6%nat;
  ok_randomness : length (im_randomness im) = 32%nat;
  ok_winning_ticket : u64 (im_winning_ticket im);
  ok_participants : length (im_participants im) = 200%nat;
  ok_bit : Z.of_nat (length (im_bit im)) = 1608;
  ok_vrf_reimbursed : u8 (im_vrf_reimbursed im);
  ok_degen_mode_status : u8 (im_degen_mode_status im);
  ok_reserved : length (im_reserved im) = 30%nat
}.

(** What the crank's parser must return for an account. *)
Definition round_of_image (im : RoundImage) : Crank.RoundData :=
  Crank.mkRoundData (im_round_id im) (im_status im) (im_bump im) (im_start_ts im)
    (im_end_ts im) (im_first_deposit_ts im) (im_vault_usdc_ata im) (im_total_usdc im)
    (im_total_tickets im) (im_participants_count im) (im_randomness im)
    (im_winning_ticket im) (im_winner im)
    (take (Z.to_nat (im_participants_count im)) (im_participants im))
    (im_vrf_payer im).

(** The frontend's view of what the crank parsed, with the two bytes only the
    frontend reads. *)
Definition extend_round (d : bytes) (r : Crank.RoundData) : Front.RoundData :=
  Front.mkRoundData (Crank.roundId r) (Crank.status r) (byte_at d 8217) (Crank.bump r)
    (Crank.startTs r) (Crank.endTs r) (Crank.firstDepositTs r) (Crank.vaultUsdcAta r)
    (Crank.totalUsdc r) (Crank.totalTickets r) (Crank.participantsCount r)
    (Crank.randomness r) (Crank.winningTicket r) (Crank.winner r)
    (Crank.participants r) (Crank.vrfPayer r) (byte_at d 8216).

End layout.

#[export] Hint Unfold round_fields : layout_defs.

(** ** Facts about single reads *)

Section read_facts.
Context `{Web3KeysLaws}.

Lemma getBigUint64_view d off b z :
  view_bytes 8 d off = Ok b -> b = le_encode 8 z -> u64 z -> getBigUint64 d off = Ok z.
Proof.
  intros Hv -> Hz. unfold getBigUint64. rewrite Hv. cbn [fmap Res_fmap]. f_equal.
  by apply (le_decode_encode_small 8).
Qed.

Lemma getUint16_view d off b z :
  view_bytes 2 d off = Ok b -> b = le_encode 2 z -> u16 z -> getUint16 d off = Ok z.
Proof.
  intros Hv -> Hz. unfold getUint16. rewrite Hv. cbn [fmap Res_fmap]. f_equal.
  by apply (le_decode_encode_small 2).
Qed.

Lemma getUint32_view d off b z :
  view_bytes 4 d off = Ok b -> b = le_encode 4 z -> u32 z -> getUint32 d off = Ok z.
Proof.
  intros Hv -> Hz. unfold getUint32. rewrite Hv. cbn [fmap Res_fmap]. f_equal.
  by apply (le_decode_encode_small 4).
Qed.

Lemma getBigInt64_view d off b z :
  view_bytes 8 d off = Ok b -> b = le_encode 8 z -> i64 z -> getBigInt64 d off = Ok z.
Proof.
  intros Hv -> Hz. unfold getBigInt64. rewrite Hv. cbn [fmap Res_fmap]. f_equal.
  rewrite le_decode_encode. apply (to_signed_mod 8); [lia|]. exact Hz.
Qed.

Lemma checked_byte_at d i b z :
  byte_at d i = Some (byte_val b) -> b = byte_of z -> u8 z -> checked_byte d i = Ok z.
Proof.
  intros Hb -> Hz. unfold checked_byte. rewrite Hb, byte_val_of. f_equal.
  by apply Z.mod_small.
Qed.

Lemma key_at_subarray d off k : subarray d off (off + 32) = toBuffer k -> key_at d off = Ok k.
Proof. intros E. unfold key_at. rewrite E. apply keyOfBytes_toBuffer. Qed.

Lemma toBuffer_uniform (ks : list PublicKey) :
  Forall (fun x => length x = 32%nat) (map toBuffer ks).
Proof. apply Forall_fmap, Forall_true. intros k. apply toBuffer_length. Qed.

Lemma length_concat_keys (ks : list PublicKey) :
  length (concat (map toBuffer ks)) = (32 * length ks)%nat.
Proof.
  induction ks as [|k ks IH]; [done|]. cbn [map concat length].
  rewrite length_app, IH, toBuffer_length. lia.
Qed.

(** A block of keys stored after a prefix is read back in order. *)
Lemma keys_at_block d pre ks rest pOff count :
  d = pre ++ concat (map toBuffer ks) ++ rest -> blen pre = pOff ->
  0 <= count <= Z.of_nat (length ks) ->
  keys_at d pOff count = Ok (take (Z.to_nat count) ks).
Proof.
  intros -> Hpre Hc. unfold keys_at.
  destruct (decide (count = 0)) as [->|]; [done|].
  assert (k0 : PublicKey) by (destruct ks; [simpl in Hc; lia|assumption]).
  rewrite (res_mapM_ok _ (fun i => default k0 (ks !! Z.to_nat i))).
  - f_equal. apply list_eq. intros i. rewrite list_lookup_fmap.
    destruct (decide (i < Z.to_nat count)%nat) as [Hi|Hi].
    + rewrite lookup_seqZ_lt by lia. simpl. rewrite lookup_take_lt by lia.
      destruct (lookup_lt_is_Some_2 ks i) as [k Hk]; [lia|].
      replace (Z.to_nat (0 + Z.of_nat i)) with i by lia. by rewrite Hk.
    + rewrite lookup_seqZ_ge by lia. rewrite lookup_take_ge by lia. done.
  - apply Forall_forall. intros i [j [-> Hj]%lookup_seqZ]%list_elem_of_lookup_1.
    destruct (lookup_lt_is_Some_2 ks j) as [k Hk]; [lia|].
    replace (Z.to_nat (0 + Z.of_nat j)) with j by lia. rewrite Hk. simpl.
    apply key_at_subarray. rewrite subarray_app_r by lia.
    rewrite subarray_app_l.
    2: lia. 2: { unfold blen in *. rewrite length_concat_keys. lia. }
    apply (subarray_concat _ j).
    + by rewrite list_lookup_fmap, Hk.
    + rewrite (field_offset_uniform _ 32) by
        (apply toBuffer_uniform || (rewrite length_map; lia)). lia.
    + unfold blen in *. rewrite toBuffer_length. lia.
Qed.
End read_facts.

#[export] Hint Rewrite @toBuffer_length @length_concat_keys using typeclasses eauto : layout.

(** ** Round trips *)

(** Reads field [i] of the layout [fs] at the head of the goal's chain of reads. *)
Ltac field_read fs i :=
  let view := eapply (view_concat fs i); [reflexivity|layout_lia|layout_lia] in
  let read l := erewrite l by (first [view|reflexivity|assumption]) in
  lazymatch goal with
  | |- mbind _ (getBigUint64 ?d ?off) = _ => read (getBigUint64_view d off)
  | |- mbind _ (getBigInt64 ?d ?off) = _ => read (getBigInt64_view d off)
  | |- mbind _ (getUint16 ?d ?off) = _ => read (getUint16_view d off)
  | |- mbind _ (getUint32 ?d ?off) = _ => read (getUint32_view d off)
  | |- mbind _ (checked_byte ?d ?off) = _ =>
      erewrite (checked_byte_at d off)
        by (first [eapply (byte_at_concat fs i); [reflexivity|layout_lia]
                  |reflexivity|assumption])
  | |- mbind _ (key_at ?d ?off) = _ =>
      erewrite (key_at_subarray d off)
        by (eapply (subarray_concat fs i); [reflexivity|layout_lia|layout_lia])
  end;
  cbn [mbind Res_bind].

Section round_trip.
Context `{Web3KeysLaws}.

Lemma participants_read im :
  round_image_ok im ->
  keys_at (encode_round im) (DISC + 168) (im_participants_count im) =
    Ok (take (Z.to_nat (im_participants_count im)) (im_participants im)).
Proof.
  intros []. unfold encode_round.
  rewrite (concat_field (round_fields im) 16 _ eq_refl).
  eapply keys_at_block; [reflexivity| |lia].
  unfold DISC. layout_lia.
Qed.

(** C36: [parseRound] of the crank recovers every field of an account laid out as
    the offset table documents, the first [participants_count] participants
    included. *)
Theorem crank_parseRound_roundtrip im :
  round_image_ok im -> Crank.parseRound (encode_round im) = Ok (round_of_image im).
Proof.
  intros Hok. pose proof (participants_read im Hok) as Hparts. destruct Hok.
  assert (u16 (im_participants_count im)) by (unfold u16; lia).
  unfold Crank.parseRound, DISC, round_of_image in *. unfold encode_round in *.
  set (fs := round_fields im) in *.
  assert (Hrand : subarray (concat fs) (8 + 96) (8 + 128) = im_randomness im)
    by (eapply (subarray_concat fs 13); [reflexivity|layout_lia|layout_lia]).
  field_read fs 1%nat. field_read fs 2%nat. field_read fs 3%nat.
  field_read fs 5%nat. field_read fs 6%nat. field_read fs 7%nat.
  field_read fs 8%nat. field_read fs 9%nat. field_read fs 10%nat.
  field_read fs 11%nat. field_read fs 14%nat. field_read fs 15%nat.
  rewrite Hparts. cbn [mbind Res_bind]. field_read fs 18%nat.
  rewrite Hrand. done.
Qed.
End round_trip.

(** ** The parsers agree with one another *)

(** Case analysis on the read at the head of both sides of an equation. *)
Ltac step_reads :=
  repeat (lazymatch goal with
  | |- mbind _ ?m = _ => destruct m eqn:?
  end; cbn [mbind Res_bind fmap Res_fmap]; try reflexivity).

Section agreement.
Context `{Web3Keys}.

(** The frontend's [parseRound] and the crank's agree on every buffer,
    malformed ones included: they throw the same error or return the same
    fields, and the frontend adds the two bytes at offsets 8216 and 8217. *)
Theorem front_parseRound_agrees d :
  Front.parseRound d = extend_round d <$> Crank.parseRound d.
Proof.
  unfold Front.parseRound, Crank.parseRound, DISC. step_reads.
Qed.

Lemma front_parseParticipant_agrees d :
  Front.parseParticipant d = Crank.parseParticipant d.
Proof. reflexivity. Qed.

Lemma bind_ok_view {A B C} (f : A -> B) (k : B -> Res C) (m : Res A) c :
  mbind k (f <$> m) = Ok c -> is_ok m = true.
Proof. by destruct m. Qed.

(** A successful [parseRound] read at least up to the winning ticket. *)
Lemma parseRound_long d r : Crank.parseRound d = Ok r -> 144 <= blen d.
Proof.
  unfold Crank.parseRound, DISC. intros Hp. res_inv Hp.
  match goal with H : getBigUint64 _ (8 + 128) = Ok _ |- _ =>
    unfold getBigUint64 in H; destruct (view_bytes 8 d (8 + 128)) eqn:E; [|done] end.
  destruct (Z.le_gt_cases 144 (blen d)); [done|].
  rewrite view_bytes_short in E by lia. done.
Qed.

(** What the executor's partial parser reads is what [parseRound] reads. *)
Lemma parseRoundMeta_agrees d r :
  Crank.parseRound d = Ok r ->
  parseRoundMeta d =
    Ok (mkRoundMeta (Some (Crank.status r)) (Crank.totalUsdc r) (byte_at d 8217)).
Proof.
  unfold Crank.parseRound, parseRoundMeta, ROUND_STATUS_OFFSET,
    ROUND_TOTAL_USDC_OFFSET, ROUND_DEGEN_STATUS_OFFSET, DISC.
  intros Hp. res_inv Hp. cbn [Crank.status Crank.totalUsdc].
  match goal with H : getBigUint64 _ (8 + 72) = Ok _ |- _ => rewrite H end.
  match goal with H : checked_byte _ (8 + 8) = Ok _ |- _ =>
    unfold checked_byte in H; destruct (byte_at d (8 + 8)); [|done];
    injection H as -> end.
  done.
Qed.
End agreement.

(** ** Which buffers parse *)

Section totality.
Context `{Web3KeysLaws}.

Lemma key_at_total d off : 0 <= off -> off + 32 <= blen d -> exists k, key_at d off = Ok k.
Proof.
  intros ??. destruct (keyOfBytes_32 (subarray d off (off + 32))) as (k & Hk & _).
  { rewrite length_subarray by lia. lia. }
  by exists k.
Qed.

Lemma keys_at_total d pOff count :
  0 <= pOff -> pOff + count * 32 <= blen d -> exists ks, keys_at d pOff count = Ok ks.
Proof.
  intros ??. apply res_mapM_exists, Forall_forall.
  intros i [j [-> Hj]%lookup_seqZ]%list_elem_of_lookup_1. apply key_at_total; lia.
Qed.

Lemma checked_byte_total d i : 0 <= i < blen d -> exists b, checked_byte d i = Ok b.
Proof.
  intros Hi. destruct (byte_at_lt d i Hi) as [b Hb]. exists b.
  unfold checked_byte. by rewrite Hb.
Qed.

Lemma view_total {A} (f : bytes -> A) n d off :
  off + n <= blen d -> f <$> view_bytes n d off = Ok (f (subarray d off (off + n))).
Proof. intros. by rewrite view_bytes_ok. Qed.

(** Passes the reads that an account of sufficient length cannot fail. *)
Ltac pass_reads :=
  repeat (lazymatch goal with
  | |- exists _, mbind _ (key_at ?d ?off) = _ =>
      let E := fresh in destruct (key_at_total d off ltac:(lia) ltac:(lia)) as [? E]; rewrite E
  | |- exists _, mbind _ (keys_at ?d ?off ?c) = _ =>
      let E := fresh in destruct (keys_at_total d off c ltac:(lia) ltac:(lia)) as [? E]; rewrite E
  | |- exists _, mbind _ (checked_byte ?d ?off) = _ =>
      let E := fresh in destruct (checked_byte_total d off ltac:(lia)) as [? E]; rewrite E
  | |- exists _, mbind _ (?f <$> view_bytes ?n ?d ?off) = _ =>
      rewrite (view_total f n d off) by lia
  end; cbn [mbind Res_bind]); try (eexists; reflexivity).

(** [parseRound] fails on every buffer that ends before the winning ticket
    (it never invents fields), and succeeds on every account of the program's
    size whose participant count is within its table. *)
Theorem parseRound_domain d :
  (blen d < 144 -> exists e, Crank.parseRound d = Throw e) /\
  (8216 <= blen d -> le_decode (subarray d 96 98) <= 200 ->
   exists r, Crank.parseRound d = Ok r).
Proof.
  split.
  - intros Hs. destruct (Crank.parseRound d) as [r|e] eqn:E; [|by eexists].
    apply parseRound_long in E. lia.
  - intros Hl Hc. unfold Crank.parseRound, DISC.
    change (subarray d 96 98) with (subarray d (8 + 88) (8 + 88 + 2)) in Hc.
    unfold getBigUint64, getBigInt64, getUint16. pass_reads.
Qed.

(** The VRF payer the executor reimburses is the round's, while it is set and
    not yet reimbursed. *)
Lemma parseRoundVrfPayer_spec d r :
  Crank.parseRound d = Ok r ->
  parseRoundVrfPayer d =
    Ok (if decide (Crank.vrfPayer r = defaultKey) then None
        else if decide (byte_at d 8216 = Some 0) then Some (Crank.vrfPayer r) else None).
Proof.
  unfold Crank.parseRound, parseRoundVrfPayer, ROUND_VRF_PAYER_OFFSET,
    ROUND_VRF_REIMBURSED_OFFSET, DISC.
  intros Hp. res_inv Hp. cbn [Crank.vrfPayer].
  match goal with H : key_at _ (8 + 8176) = Ok _ |- _ => unfold key_at in H; rewrite H end.
  cbn [mbind Res_bind]. by repeat case_decide.
Qed.

Lemma parseConfig_feeBps d c :
  parseConfig d = Ok c -> parseConfigFeeBps d = Ok (feeBps c).
Proof.
  unfold parseConfig, parseConfigFeeBps, CONFIG_FEE_BPS_OFFSET, CONFIG_DISC, DISC.
  intros Hp. res_inv Hp. done.
Qed.
End totality.

(** ** Participant and Config accounts *)

Section borsh.
Context `{Web3Keys}.

(** The Borsh layout of a Participant account. *)
Definition participant_fields (disc : bytes) (p : Crank.ParticipantData) (reserved : bytes)
  : list bytes := [
  disc;
  toBuffer (Crank.p_round p);
  toBuffer (Crank.p_user p);
  le_encode 2 (Crank.p_index p);
  [byte_of (Crank.p_bump p)];
  le_encode 8 (Crank.p_ticketsTotal p);
  le_encode 8 (Crank.p_usdcTotal p);
  le_encode 4 (Crank.p_depositsCount p);
  reserved
].

Definition participant_ok (p : Crank.ParticipantData) : Prop :=
  u16 (Crank.p_index p) /\ u8 (Crank.p_bump p) /\ u64 (Crank.p_ticketsTotal p) /\
  u64 (Crank.p_usdcTotal p) /\ u32 (Crank.p_depositsCount p).

(** The Borsh layout of the Config account, as [parseConfig]'s offsets follow it. *)
Definition config_fields (disc : bytes) (c : ParsedConfigLike) (reserved : bytes)
  : list bytes := [
  disc;
  toBuffer (admin c);
  toBuffer (usdcMint c);
  toBuffer (treasuryUsdcAta c);
  le_encode 2 (feeBps c);
  le_encode 8 (ticketUnit c);
  le_encode 4 (roundDurationSec c);
  le_encode 2 (minParticipants c);
  le_encode 8 (minTotalTickets c);
  [byte_of (if paused c then 1 else 0)];
  [byte_of (cfg_bump c)];
  le_encode 8 (maxDepositPerUser c);
  reserved
].

Definition config_ok (c : ParsedConfigLike) : Prop :=
  u16 (feeBps c) /\ u64 (ticketUnit c) /\ u32 (roundDurationSec c) /\
  u16 (minParticipants c) /\ u64 (minTotalTickets c) /\ u8 (cfg_bump c) /\
  u64 (maxDepositPerUser c).
End borsh.

#[export] Hint Unfold participant_fields config_fields : layout_defs.

Section borsh_round_trip.
Context `{Web3KeysLaws}.

(** Both [parseParticipant]s (the crank's with fixed offsets, the frontend's
    with a running offset) recover every field of a Participant account, and
    [parseConfig] every field of the Config account. *)
Theorem borsh_accounts_roundtrip disc reserved p c :
  length disc = 8%nat -> participant_ok p -> config_ok c ->
  Crank.parseParticipant (concat (participant_fields disc p reserved)) = Ok p /\
  Front.parseParticipant (concat (participant_fields disc p reserved)) = Ok p /\
  parseConfig (concat (config_fields disc c reserved)) = Ok c.
Proof.
  intros Hd Hp Hc.
  assert (Hpp : Crank.parseParticipant (concat (participant_fields disc p reserved)) = Ok p).
  { destruct Hp as (? & ? & ? & ? & ?). unfold Crank.parseParticipant, DISC.
    set (fs := participant_fields disc p reserved).
    field_read fs 1%nat. field_read fs 2%nat. field_read fs 3%nat. field_read fs 4%nat.
    field_read fs 5%nat. field_read fs 6%nat. field_read fs 7%nat. by destruct p. }
  split; [exact Hpp|].
  split; [rewrite <- Hpp; apply front_parseParticipant_agrees|]. destruct Hc as (? & ? & ? & ? & ? & ? & ?).
  assert (u8 (if paused c then 1 else 0)) by (unfold u8; destruct (paused c); lia).
  unfold parseConfig, CONFIG_DISC. set (fs := config_fields disc c reserved).
  field_read fs 1%nat. field_read fs 2%nat. field_read fs 3%nat. field_read fs 4%nat.
  field_read fs 5%nat. field_read fs 6%nat. field_read fs 7%nat. field_read fs 8%nat.
  field_read fs 9%nat. field_read fs 10%nat. field_read fs 11%nat.
  destruct c as [??????? ? [] ? ?]; reflexivity.
Qed.
End borsh_round_trip.

(** ** Witnesses, at concrete accounts *)

Module AccountsWitness.
Local Existing Instance ToyKeys.keys.
Local Existing Instance ToyKeys.laws.

Definition key1 : PublicKey := ToyKeys.mk [x01].
Definition key2 : PublicKey := ToyKeys.mk [x02].

Definition image : RoundImage :=
  mkRoundImage (replicate 8 x00) 82 5 254 (replicate 6 x00) 1700000000 1700000123
    1700000010 key1 1975320 197 2 (replicate 6 x00) (replicate 32 x07) 123 key2
    (key1 :: key2 :: replicate 198 defaultKey) (replicate (Z.to_nat 1608) x00) key1 0 2
    (replicate 30 x00).

Lemma image_ok : round_image_ok image.
Proof. split; by vm_compute. Qed.

Lemma crank_parseRound_roundtrip_witness :
  round_image_ok image /\ Crank.parseRound (encode_round image) = Ok (round_of_image image).
Proof. split; [apply image_ok|]. apply (crank_parseRound_roundtrip image image_ok). Defined.

Lemma parseRound_domain_witness :
  (exists e, Crank.parseRound (replicate 100 x00) = Throw e) /\
  exists r, Crank.parseRound (encode_round image) = Ok r.
Proof.
  split.
  - apply (parseRound_domain (replicate 100 x00)). by vm_compute.
  - apply (parseRound_domain (encode_round image)); by vm_compute.
Defined.

Definition participant : Crank.ParticipantData :=
  Crank.mkParticipantData key1 key2 7 201 110 1100000 3.

Definition config : ParsedConfigLike :=
  mkConfig key1 key2 key1 25 10000 60 2 2 false 255 0.

Lemma borsh_accounts_roundtrip_witness :
  Crank.parseParticipant (concat (participant_fields (replicate 8 x00) participant [])) =
    Ok participant /\
  parseConfig (concat (config_fields (replicate 8 x00) config [])) = Ok config.
Proof.
  destruct (borsh_accounts_roundtrip (replicate 8 x00) [] participant config)
    as (Hp & _ & Hc); [reflexivity|repeat split; by vm_compute..|].
  by split.
Defined.
End AccountsWitness.
