(* ===== verification/JsRuntime.v ===== *)
(** * JsRuntime: the string and number primitives the sources use

    - [includes], the [/\bW\b/] test, [split], [trim] on strings of bytes (the
      sources only search for ASCII text, and UTF-8 keeps ASCII bytes apart);
    - JavaScript numbers as IEEE binary64 values, through the executable
      specification of the Standard Library ([SpecFloat]), for the places where a
      fraction can appear: [Number(text)], division, [Math.floor], [toFixed];
    - [Set] as an insertion-ordered list without repetition. *)

From stdpp Require Import base list gmap strings pretty.
From Stdlib Require Import ZArith Lia Ascii SpecFloat.
From S2P Require Import Prelude.

Local Open Scope Z_scope.
Set Warnings "-clear-no-such-hyp".

(** ** Strings *)

(** [msg.includes(pat)] *)
Definition includes (msg pat : string) : bool :=
  match String.index 0 pat msg with Some _ => true | None => false end.

Definition ascii_between (lo hi : ascii) (c : ascii) : bool :=
  (N_of_ascii lo <=? N_of_ascii c)%N && (N_of_ascii c <=? N_of_ascii hi)%N.

Definition is_digit : ascii -> bool := ascii_between "0" "9".

(** The class [\w] of regular expressions. *)
Definition is_word_char (c : ascii) : bool :=
  is_digit c || ascii_between "a" "z" c || ascii_between "A" "Z" c || (c =? "_")%char.

Definition starts_with_word (s : string) : bool :=
  match s with EmptyString => false | String c _ => is_word_char c end.

(** [/\bW\b/.test(s)] for a word [W]; [prev] tells whether the character before
    [s] is a word character. *)
Fixpoint has_word_from (w : string) (prev : bool) (s : string) : bool :=
  (negb prev && String.prefix w s &&
   negb (starts_with_word (String.substring (String.length w) (String.length s) s))) ||
  match s with
  | EmptyString => false
  | String c rest => has_word_from w (is_word_char c) rest
  end.

Definition has_word (w s : string) : bool := has_word_from w false s.

(** [s.split(sep)] for a one-character separator. *)
Fixpoint split_on (sep : ascii) (s : string) : list string :=
  match s with
  | EmptyString => [EmptyString]
  | String c rest =>
      if (c =? sep)%char then EmptyString :: split_on sep rest
      else match split_on sep rest with
           | [] => [String c EmptyString]
           | w :: ws => String c w :: ws
           end
  end.

(** ASCII white space, as [trim] removes it. *)
Definition is_space (c : ascii) : bool :=
  (c =? " ")%char || ascii_between "009" "013" c.

Fixpoint trim_start (s : string) : string :=
  match s with
  | EmptyString => EmptyString
  | String c rest => if is_space c then trim_start rest else s
  end.

Fixpoint trim_end (s : string) : string :=
  match s with
  | EmptyString => EmptyString
  | String c rest =>
      match trim_end rest with
      | EmptyString => if is_space c then EmptyString else String c EmptyString
      | r => String c r
      end
  end.

Definition trim (s : string) : string := trim_end (trim_start s).

(** ** Numbers *)

Abbreviation num := spec_float.

Definition PREC : Z := 53.
Definition EMAX : Z := 1024.

Definition num_of_Z (z : Z) : num := binary_normalize PREC EMAX z 0 false.
Definition num_plus : num -> num -> num := SFadd PREC EMAX.
Definition num_minus : num -> num -> num := SFsub PREC EMAX.
Definition num_times : num -> num -> num := SFmul PREC EMAX.
Definition num_over : num -> num -> num := SFdiv PREC EMAX.

(** [Number.isFinite(x)] *)
Definition isFinite (x : num) : bool :=
  match x with S754_zero _ | S754_finite _ _ _ => true | _ => false end.

(** [x > 0], false for NaN *)
Definition positive_num (x : num) : bool := SFltb (S754_zero false) x.

(** [Math.floor(x)] of a finite number, as an integer. *)
Definition num_floor (x : num) : option Z :=
  match x with
  | S754_zero _ => Some 0
  | S754_finite s m e =>
      let v := if s then Z.neg m else Z.pos m in
      Some (if 0 <=? e then v * 2 ^ e else v / 2 ^ (- e))
  | _ => None
  end.

(** A finite number as [m * 2^e]. *)
Definition mantissa (x : num) : option (Z * Z) :=
  match x with
  | S754_zero _ => Some (0, 0)
  | S754_finite s m e => Some (if s then Z.neg m else Z.pos m, e)
  | _ => None
  end.

(** [Math.round(x)] of a finite number: half a unit rounds up. *)
Definition num_round (x : num) : option Z :=
  match mantissa x with
  | Some (m, e) => Some (if 0 <=? e then m * 2 ^ e else (2 * m + 2 ^ (- e)) / (2 * 2 ^ (- e)))
  | None => None
  end.

(** The number nearest to [± m * 10^e]. *)
Definition num_of_decimal (neg : bool) (m : Z) (e : Z) : num :=
  match m with
  | Z.pos p =>
      if 0 <=? e then
        match m * 10 ^ e with
        | Z.pos q => binary_round PREC EMAX neg q 0
        | _ => S754_zero neg
        end
      else
        match 10 ^ (- e) with
        | Z.pos q => num_over (S754_finite neg p 0) (S754_finite false q 0)
        | _ => S754_nan
        end
  | _ => S754_zero neg
  end.

(** Reads digits: their value, how many, and the rest. *)
Fixpoint read_digits (acc : Z) (n : nat) (s : string) : Z * nat * string :=
  match s with
  | EmptyString => (acc, n, EmptyString)
  | String c rest =>
      if is_digit c
      then read_digits (acc * 10 + (Z.of_N (N_of_ascii c) - 48)) (S n) rest
      else (acc, n, s)
  end.

(** The exponent part of a decimal literal, [None] when malformed. *)
Definition read_exponent (s : string) : option Z :=
  match s with
  | EmptyString => Some 0
  | String c rest =>
      if (c =? "e")%char || (c =? "E")%char then
        let '(neg, rest) :=
          match rest with
          | String d r => if (d =? "-")%char then (true, r)
                          else if (d =? "+")%char then (false, r) else (false, rest)
          | EmptyString => (false, rest)
          end in
        match read_digits 0 0 rest with
        | (v, S _, EmptyString) => Some (if neg : bool then - v else v)
        | _ => None
        end
      else None
  end.

(** An unsigned decimal literal, [S754_nan] when malformed. *)
Definition read_decimal (neg : bool) (s : string) : num :=
  if String.eqb s "Infinity" then S754_infinity neg
  else
    let '(ip, ni, rest) := read_digits 0 0 s in
    let '(m, nf, rest') :=
      match rest with
      | String c r => if (c =? ".")%char then read_digits ip 0 r else (ip, 0%nat, rest)
      | EmptyString => (ip, 0%nat, rest)
      end in
    match (ni + nf)%nat with
    | O => S754_nan
    | _ => match read_exponent rest' with
           | Some e => num_of_decimal neg m (e - Z.of_nat nf)
           | None => S754_nan
           end
    end.

(** The value of a digit in bases up to 16. *)
Definition digit_value (c : ascii) : option Z :=
  let n := Z.of_N (N_of_ascii c) in
  if is_digit c then Some (n - 48)
  else if ascii_between "a" "f" c then Some (n - 87)
  else if ascii_between "A" "F" c then Some (n - 55)
  else None.

(** The digits of a hexadecimal, octal or binary literal, to the end of the text. *)
Fixpoint read_radix (base acc : Z) (s : string) : option Z :=
  match s with
  | EmptyString => Some acc
  | String c rest =>
      match digit_value c with
      | Some d => if d <? base then read_radix base (acc * base + d) rest else None
      | None => None
      end
  end.

(** A literal with a base prefix after its [0]: [None] when there is none. *)
Definition read_prefixed (s : string) : option num :=
  match s with
  | String c digits =>
      let base := if (c =? "x")%char || (c =? "X")%char then 16
                  else if (c =? "o")%char || (c =? "O")%char then 8
                  else if (c =? "b")%char || (c =? "B")%char then 2 else 0 in
      if base =? 0 then None
      else Some (match digits with
                 | EmptyString => S754_nan
                 | _ => match read_radix base 0 digits with
                        | Some z => num_of_Z z
                        | None => S754_nan
                        end
                 end)
  | EmptyString => None
  end.

(** [Number(text)] *)
Definition Number (text : string) : num :=
  match trim text with
  | EmptyString => S754_zero false
  | String c rest =>
      match (if (c =? "0")%char then read_prefixed rest else None) with Some x => x | None =>
      if (c =? "-")%char then read_decimal true rest
      else if (c =? "+")%char then read_decimal false rest
      else read_decimal false (String c rest)
      end
  end.

(** [Number(big)] of an integer, and the division by [10 ** 6] that turns USDC
    base units into USDC. *)
Definition usdc_of_raw (raw : Z) : num := num_over (num_of_Z raw) (num_of_Z 1000000).

(** ** Insertion-ordered sets *)

Section js_set.
Context {A : Type} `{EqDecision A}.

Definition set_has (s : list A) (a : A) : bool := bool_decide (a ∈ s).
Definition set_add (s : list A) (a : A) : list A := if set_has s a then s else s ++ [a].
Definition set_delete (s : list A) (a : A) : list A := filter (fun b => b ≠ a) s.

(** [[...new Set(l)]] *)
Definition set_of_list (l : list A) : list A := fold_left set_add l [].

Lemma set_has_true s a : set_has s a = true <-> a ∈ s.
Proof. apply bool_decide_eq_true. Qed.

Lemma elem_of_set_add s a b : b ∈ set_add s a <-> b = a \/ b ∈ s.
Proof.
  unfold set_add. destruct (set_has s a) eqn:E.
  - apply set_has_true in E. naive_solver.
  - rewrite elem_of_app, list_elem_of_singleton. naive_solver.
Qed.

Lemma NoDup_set_add s a : NoDup s -> NoDup (set_add s a).
Proof.
  intros Hs. unfold set_add. destruct (set_has s a) eqn:E; [done|].
  apply bool_decide_eq_false in E. apply NoDup_app.
  split_and!; [done| |apply NoDup_singleton].
  intros b Hb ->%list_elem_of_singleton. done.
Qed.

Lemma elem_of_set_delete s a b : b ∈ set_delete s a <-> b ≠ a /\ b ∈ s.
Proof. unfold set_delete. by rewrite list_elem_of_filter. Qed.

Lemma NoDup_set_delete s a : NoDup s -> NoDup (set_delete s a).
Proof. apply NoDup_filter. Qed.

Lemma set_of_list_acc l s :
  NoDup s ->
  NoDup (fold_left set_add l s) /\ forall b, b ∈ fold_left set_add l s <-> b ∈ s \/ b ∈ l.
Proof.
  revert s. induction l as [|a l IH]; intros s Hs; simpl.
  { split; [done|]. intros b. rewrite elem_of_nil. naive_solver. }
  destruct (IH (set_add s a)) as [Hn He]; [by apply NoDup_set_add|].
  split; [done|]. intros b. rewrite He, elem_of_set_add, elem_of_cons. naive_solver.
Qed.

Lemma NoDup_set_of_list l : NoDup (set_of_list l).
Proof. apply set_of_list_acc, NoDup_nil_2. Qed.

Lemma elem_of_set_of_list l b : b ∈ set_of_list l <-> b ∈ l.
Proof.
  unfold set_of_list. rewrite (proj2 (set_of_list_acc l [] (NoDup_nil_2))).
  rewrite elem_of_nil. naive_solver.
Qed.
End js_set.

#[export] Hint Resolve NoDup_set_add NoDup_set_delete NoDup_set_of_list : crank.
