(* ===== verification/RuntimeLogic.v ===== *)
(** * RuntimeLogic: crank/src/runtimeLogic.ts

    The pure decisions of the crank's cleanup scheduler: error classification,
    retry delays and backoff, stuck-round warnings.  Seconds and counts are
    integers. *)

From stdpp Require Import base list gmap strings pretty.
From Stdlib Require Import ZArith Lia.
From S2P Require Import Prelude Buffers Accounts JsRuntime.

Local Open Scope string_scope.
Local Open Scope list_scope.
Local Open Scope Z_scope.
Set Warnings "-clear-no-such-hyp".

Record StuckThresholds := mkThresholds {
  lockedSec : Z;
  vrfRequestedSec : Z;
  settledSec : Z;
  cancelledSec : Z
}.

Record ParticipantCleanupRetryInput := mkRetryInput {
  ri_existing : Z;
  ri_closed : Z;
  ri_blockedByRefund : Z
}.

(** [fast] is an optional flag; absent and [false] behave alike. *)
Record CleanupRetryScheduleInput := mkScheduleInput {
  si_nowSec : Z;
  si_reason : string;
  si_minDelaySec : Z;
  si_maxDelaySec : Z;
  si_currentDelaySec : option Z;
  si_retryCount : option Z;
  si_fast : option bool
}.

Record CleanupRetryScheduleUpdate := mkScheduleUpdate {
  nextDelaySec : Z;
  nextAttemptAtSec : Z;
  nextRetryCount : Z;
  lastReason : string
}.

Inductive CleanupRetryOutcome :=
| participants_pending (stats : ParticipantCleanupRetryInput)
| left_terminal_state (status : Z)
| close_round_failed (message : string)
| background_error (message : string).

Record RetryDescription := mkDescription { d_reason : string; d_fast : bool }.

Definition isMinRequirementsErrorMessage (message : string) : bool :=
  includes message "NotEnoughTickets" ||
  includes message "NotEnoughParticipants" ||
  has_word "6010" message ||
  has_word "6009" message.

Definition computeCleanupRetryDelay (currentDelaySec : option Z)
    (minDelaySec maxDelaySec : Z) (fast : option bool) : Z :=
  let currentDelaySec := default minDelaySec currentDelaySec in
  if bool_decide (fast = Some true) then Z.min minDelaySec 2
  else Z.min maxDelaySec (Z.max minDelaySec (currentDelaySec * 2)).

Definition getStuckThresholdSec (status : Z) (thresholds : StuckThresholds) : option Z :=
  if status =? RoundStatus.Locked then Some (lockedSec thresholds)
  else if status =? RoundStatus.VrfRequested then Some (vrfRequestedSec thresholds)
  else if status =? RoundStatus.Settled then Some (settledSec thresholds)
  else if status =? RoundStatus.Cancelled then Some (cancelledSec thresholds)
  else None.

Definition shouldEmitStuckWarning (nowSec observedStatus targetStatus observedSinceSec : Z)
    (thresholdSec lastWarnSec : option Z) (repeatSec : Z) : bool :=
  match thresholdSec with
  | None => false
  | Some thresholdSec =>
      if thresholdSec <=? 0 then false
      else if negb (observedStatus =? targetStatus) then false
      else
        let ageSec := nowSec - observedSinceSec in
        if ageSec <? thresholdSec then false
        else
          let lastWarnSec := default 0 lastWarnSec in
          repeatSec <=? nowSec - lastWarnSec
  end.

Definition describeParticipantCleanupRetry (stats : ParticipantCleanupRetryInput)
    : option RetryDescription :=
  let remainingParticipants := ri_existing stats - ri_closed stats in
  if remainingParticipants <=? 0 then None
  else
    let reason :=
      if 0 <? ri_blockedByRefund stats then
        "waiting user refunds (" +:+ pretty (ri_blockedByRefund stats) +:+
        " participant PDAs still funded)"
      else if 0 <? ri_closed stats then
        "participant cleanup in progress (" +:+ pretty remainingParticipants +:+ " remaining)"
      else
        "participant cleanup pending (" +:+ pretty remainingParticipants +:+ " remaining)" in
    Some (mkDescription reason (0 <? ri_closed stats)).

Definition buildCleanupRetryScheduleUpdate (args : CleanupRetryScheduleInput)
    : CleanupRetryScheduleUpdate :=
  let nextDelaySec :=
    computeCleanupRetryDelay
      (Some (default (si_minDelaySec args) (si_currentDelaySec args)))
      (si_minDelaySec args) (si_maxDelaySec args) (si_fast args) in
  mkScheduleUpdate nextDelaySec (si_nowSec args + nextDelaySec)
    (default 0 (si_retryCount args) + 1) (si_reason args).

Definition planParticipantCleanupRetrySchedule (nowSec : Z)
    (stats : ParticipantCleanupRetryInput) (minDelaySec maxDelaySec : Z)
    (currentDelaySec retryCount : option Z) : option CleanupRetryScheduleUpdate :=
  match describeParticipantCleanupRetry stats with
  | None => None
  | Some retry =>
      Some (buildCleanupRetryScheduleUpdate
        (mkScheduleInput nowSec (d_reason retry) minDelaySec maxDelaySec
           currentDelaySec retryCount (Some (d_fast retry))))
  end.

Definition describeCleanupRetryOutcome (outcome : CleanupRetryOutcome)
    : option RetryDescription :=
  match outcome with
  | participants_pending stats => describeParticipantCleanupRetry stats
  | left_terminal_state status =>
      Some (mkDescription ("round left terminal state (" +:+ pretty status +:+ ")") false)
  | close_round_failed message =>
      Some (mkDescription ("close_round failed: " +:+ message) false)
  | background_error message =>
      Some (mkDescription ("background error: " +:+ message) false)
  end.

Definition planCleanupRetryScheduleForOutcome (nowSec : Z) (outcome : CleanupRetryOutcome)
    (minDelaySec maxDelaySec : Z) (currentDelaySec retryCount : option Z)
    : option CleanupRetryScheduleUpdate :=
  match describeCleanupRetryOutcome outcome with
  | None => None
  | Some desc =>
      Some (buildCleanupRetryScheduleUpdate
        (mkScheduleInput nowSec (d_reason desc) minDelaySec maxDelaySec
           currentDelaySec retryCount (Some (d_fast desc))))
  end.

(** ** Backoff *)

(** The delay after [n] failed attempts in a row, none of them fast. *)
Fixpoint backoff_after (minDelaySec maxDelaySec : Z) (n : nat) : Z :=
  match n with
  | O => minDelaySec
  | S n => computeCleanupRetryDelay (Some (backoff_after minDelaySec maxDelaySec n))
             minDelaySec maxDelaySec None
  end.

Section backoff.
Context (minDelaySec maxDelaySec : Z).
Hypothesis Hmin : 0 < minDelaySec <= maxDelaySec.

Lemma slow_delay cur fast :
  fast <> Some true ->
  computeCleanupRetryDelay cur minDelaySec maxDelaySec fast =
    Z.min maxDelaySec (Z.max minDelaySec (default minDelaySec cur * 2)).
Proof. intros. unfold computeCleanupRetryDelay. by rewrite bool_decide_false. Qed.

(** The retry delay backs off exponentially and is capped: after [n] slow
    retries it is [min (max, min * 2^n)], so it reaches the cap and stays there;
    a fast retry never waits longer than two seconds. *)
Theorem backoff_exponential (n : nat) :
  backoff_after minDelaySec maxDelaySec n = Z.min maxDelaySec (minDelaySec * 2 ^ Z.of_nat n) /\
  computeCleanupRetryDelay (Some (backoff_after minDelaySec maxDelaySec n))
    minDelaySec maxDelaySec (Some true) = Z.min minDelaySec 2.
Proof.
  split; [|done]. induction n as [|n IH]; [simpl; lia|].
  cbn [backoff_after]. rewrite slow_delay by done. cbn [default from_option id].
  rewrite IH, Nat2Z.inj_succ, Z.pow_succ_r by lia.
  pose proof (Z.pow_pos_nonneg 2 (Z.of_nat n)). nia.
Qed.

Lemma delay_bounds cur fast :
  (forall c, cur = Some c -> 0 < c) ->
  0 < computeCleanupRetryDelay cur minDelaySec maxDelaySec fast <= maxDelaySec.
Proof.
  intros Hc. unfold computeCleanupRetryDelay. case_bool_decide; [lia|].
  destruct cur as [c|]; simpl; [specialize (Hc c eq_refl)|]; lia.
Qed.

(** A planned retry is in the future, at most [maxDelaySec] ahead, counts one
    more attempt and carries the outcome's reason; nothing is planned exactly
    when no participant remains to be closed. *)
Theorem planned_retry_bounds nowSec outcome cur retryCount :
  (forall c, cur = Some c -> 0 < c) ->
  match planCleanupRetryScheduleForOutcome nowSec outcome minDelaySec maxDelaySec cur retryCount with
  | Some u =>
      nextAttemptAtSec u = nowSec + nextDelaySec u /\
      0 < nextDelaySec u <= maxDelaySec /\
      nextRetryCount u = default 0 retryCount + 1 /\
      Some (lastReason u) = d_reason <$> describeCleanupRetryOutcome outcome
  | None =>
      exists stats, outcome = participants_pending stats /\
        ri_existing stats <= ri_closed stats
  end.
Proof.
  intros Hc. unfold planCleanupRetryScheduleForOutcome.
  destruct (describeCleanupRetryOutcome outcome) as [desc|] eqn:E.
  - split_and!; try done; cbn [nextDelaySec buildCleanupRetryScheduleUpdate].
    all: apply delay_bounds; intros c [= <-]; destruct cur; simpl; [by apply Hc|lia].
  - destruct outcome as [stats|?|?|?]; [|done..]. exists stats. split; [done|].
    cbn in E. unfold describeParticipantCleanupRetry in E.
    destruct (Z.leb_spec (ri_existing stats - ri_closed stats) 0); [lia|done].
Qed.
End backoff.

(** ** Stuck warnings *)

(** a stuck warning is emitted exactly when the observed status is the one
    asked about, its threshold is configured and positive, the round has been in
    it at least that long, and the last warning is at least [repeatSec] old (no
    warning counting as the epoch). *)
Theorem stuck_warning_spec nowSec obs target since threshold lastWarn repeatSec :
  shouldEmitStuckWarning nowSec obs target since threshold lastWarn repeatSec = true <->
  exists t, threshold = Some t /\ 0 < t /\ obs = target /\ t <= nowSec - since /\
    repeatSec <= nowSec - default 0 lastWarn.
Proof.
  unfold shouldEmitStuckWarning. destruct threshold as [t|]; [|naive_solver].
  case_bool; simpl; split; try done; try naive_solver lia.
Qed.

(** The two planners agree on pending participants. *)
Lemma participant_plan_agrees nowSec stats lo hi cur rc :
  planParticipantCleanupRetrySchedule nowSec stats lo hi cur rc =
  planCleanupRetryScheduleForOutcome nowSec (participants_pending stats) lo hi cur rc.
Proof. reflexivity. Qed.

(** ** Witnesses *)

Lemma backoff_exponential_witness :
  0 < 5 <= 60 /\ backoff_after 5 60 3 = 40 /\ backoff_after 5 60 6 = 60.
Proof.
  split; [lia|]. split.
  - exact (proj1 (backoff_exponential 5 60 ltac:(lia) 3)).
  - exact (proj1 (backoff_exponential 5 60 ltac:(lia) 6)).
Defined.

Lemma planned_retry_bounds_witness :
  exists u,
    planCleanupRetryScheduleForOutcome 1000 (left_terminal_state 3) 5 60 (Some 5) (Some 2) = Some u /\
    nextAttemptAtSec u = 1000 + nextDelaySec u /\ nextRetryCount u = 3.
Proof.
  eexists. split; [reflexivity|].
  destruct (planned_retry_bounds 5 60 ltac:(lia) 1000 (left_terminal_state 3) (Some 5) (Some 2))
    as (Ha & _ & Hr & _); [intros c [= <-]; lia|].
  split; [exact Ha|exact Hr].
Defined.

Example minRequirements_examples :
  isMinRequirementsErrorMessage "InstructionError:[2,{Custom:6010}]" = true /\
  isMinRequirementsErrorMessage "AnchorError: NotEnoughParticipants" = true /\
  isMinRequirementsErrorMessage "block 160100" = false.
Proof. by vm_compute. Qed.
