(* ===== verification/DegenLogic.v ===== *)
(** * DegenLogic: crank/src/degenLogic.ts

    Candidate derivation from VRF randomness (with the frontend's copy of it in
    src/lib/degenClaim.ts), the executor's configuration parsing, its error
    classification, and the payout computation together with the on-chain one it
    mirrors (jackpot_pinocchio_poc/src/handlers/degen_common.rs).

    SHA-256 is the platform's: [subtleDigest] is a parameter. *)

From stdpp Require Import base list gmap strings pretty.
From Stdlib Require Import ZArith Lia Ascii Strings.Byte SpecFloat.
From S2P Require Import Prelude Buffers Accounts JsRuntime.

Local Open Scope string_scope.
Local Open Scope list_scope.
Local Open Scope Z_scope.
Set Warnings "-clear-no-such-hyp".

(** ** Byte helpers *)

(** [setUint32] stores the value modulo [2^32]. *)
Definition encodeU32LE (value : Z) : bytes := le_encode 4 value.

Definition decodeU32LE (value : bytes) : Res Z := getUint32 value 0.

(** [payload.set(part, offset)] *)
Definition payload_set (payload part : bytes) (offset : nat) : bytes :=
  take offset payload ++ part ++ drop (offset + length part) payload.

(** The loop that copies the parts one after the other into a zeroed buffer. *)
Fixpoint fill_payload (parts : list bytes) (offset : nat) (payload : bytes) : bytes :=
  match parts with
  | [] => payload
  | part :: parts => fill_payload parts (offset + length part) (payload_set payload part offset)
  end.

Definition sha256_payload (parts : list bytes) : bytes :=
  let total := foldl (fun sum part => (sum + length part)%nat) 0%nat parts in
  fill_payload parts 0 (replicate total x00).

(** A derived candidate token. *)
Record Candidate := mkCandidate { c_rank : Z; c_index : Z; c_mint : string }.

#[export] Instance Candidate_eq_dec : EqDecision Candidate.
Proof. solve_decision. Defined.

Section derivation.
(** [globalThis.crypto.subtle.digest("SHA-256", payload)] *)
Context (subtleDigest : bytes -> bytes).

Definition sha256 (parts : list bytes) : bytes := subtleDigest (sha256_payload parts).

(** The pool index drawn for a rank and a nonce. *)
Definition candidateIndex (randomness : bytes) (poolVersion : Z) (poolLen rank nonce : Z)
    : Res Z :=
  let digest := sha256 [randomness; encodeU32LE poolVersion; encodeU32LE rank; encodeU32LE nonce] in
  v ← decodeU32LE (subarray digest 0 4);
  Ok (v mod poolLen).

(** The [while (true)] search for one rank; [None] when [fuel] ran out. *)
Fixpoint searchIndex (fuel : nat) (draw : Z -> Res Z) (used : list Z) (nonce : Z)
    : option (Res Z) :=
  match fuel with
  | O => None
  | S fuel =>
      match draw nonce with
      | Throw e => Some (Throw e)
      | Ok index =>
          if set_has used index then searchIndex fuel draw used (nonce + 1)
          else Some (Ok index)
      end
  end.

(** The loop over the ranks. *)
Fixpoint deriveLoop (fuel : nat) (randomness : bytes) (poolVersion : Z) (pool : list string)
    (ranks : list Z) (used : list Z) (out : list Candidate) : option (Res (list Candidate)) :=
  match ranks with
  | [] => Some (Ok out)
  | rank :: ranks =>
      match searchIndex fuel
              (candidateIndex randomness poolVersion (Z.of_nat (length pool)) rank) used 0 with
      | None => None
      | Some (Throw e) => Some (Throw e)
      | Some (Ok index) =>
          deriveLoop fuel randomness poolVersion pool ranks (set_add used index)
            (out ++ [mkCandidate rank index (default "" (pool !! Z.to_nat index))])
      end
  end.

Definition deriveCandidates (fuel : nat) (randomness : bytes) (poolVersion count : Z)
    (pool : list string) : option (Res (list Candidate)) :=
  let limit := Z.min count (Z.of_nat (length pool)) in
  deriveLoop fuel randomness poolVersion pool (seqZ 0 limit) [] [].
End derivation.

(** ** Configuration *)

(** [raw || text]: the empty string counts as absent. *)
Definition env_or (raw : option string) (text : string) : string :=
  match raw with
  | Some s => if String.eqb s "" then text else s
  | None => text
  end.

Definition is_finite_positive (x : num) : bool := isFinite x && positive_num x.

Definition parseMaxAccountsSequence (raw : option string) : list Z :=
  let values :=
    omap num_floor
      (filter (fun x => is_finite_positive x = true)
         ((fun value => Number (trim value)) <$> split_on ","%char (env_or raw "64,48,36,28,22"))) in
  set_of_list values.

Definition parseSlippageSequence (raw : option string) : list num :=
  filter (fun n => is_finite_positive n = true)
    (Number <$> split_on ","%char (env_or raw "300,400,500,600")).

(** ** Error classification *)

Definition isTxTooLargeError (error : JsError) : bool :=
  let message := err_message error in
  includes message "encoding overruns Uint8Array" ||
  includes message "Transaction too large" ||
  includes message "VersionedTransaction too large" ||
  includes message "too large:".

Definition isSlippageError (msg : string) : bool :=
  includes msg "6046" ||
  includes msg "DegenOutputNotReceived" ||
  includes msg "SlippageToleranceExceeded".

(** ** Payout *)

Definition VRF_REIMBURSE_AMOUNT : Z := 200000.

(** [BigInt] arithmetic: exact, with division truncating towards zero. *)
Definition computeBeginDegenPayout (totalUsdc feeBps : Z) (reimburseVrf : bool) : Z :=
  let vrfDeduct := if reimburseVrf then VRF_REIMBURSE_AMOUNT else 0 in
  let pool := totalUsdc - vrfDeduct in
  let fee := Z.quot (pool * feeBps) 10000 in
  pool - fee.

(** [compute_claim_amounts] of the on-chain program: [u64] arithmetic, checked
    subtraction, a [u128] product and the truncating cast back to [u64]. *)
Record ClaimAmounts := mkAmounts { a_payout : Z; a_fee : Z; a_vrf_reimburse : Z }.

Definition checked_sub (a b : Z) : option Z := if b <=? a then Some (a - b) else None.

Definition compute_claim_amounts (total_usdc fee_bps : Z) (reimburse_vrf : bool)
    : option ClaimAmounts :=
  let vrf_reimburse := if reimburse_vrf then Z.min 200000 total_usdc else 0 in
  pot_after_reimburse ← checked_sub total_usdc vrf_reimburse;
  let fee := (pot_after_reimburse * fee_bps / 10000) mod 2 ^ 64 in
  payout ← checked_sub pot_after_reimburse fee;
  Some (mkAmounts payout fee vrf_reimburse).

(** ** Facts about the payload and the draws *)

Lemma fill_payload_concat parts pre rest :
  length rest = length (concat parts) ->
  fill_payload parts (length pre) (pre ++ rest) = pre ++ concat parts.
Proof.
  revert pre rest. induction parts as [|p parts IH]; intros pre rest Hlen; simpl in *.
  - destruct rest; [done|discriminate].
  - rewrite length_app in Hlen. unfold payload_set.
    rewrite take_app_length, drop_app_ge by lia.
    replace (length pre + length p - length pre)%nat with (length p) by lia.
    rewrite app_assoc, <- length_app, IH.
    + by rewrite <- app_assoc.
    + rewrite length_drop. lia.
Qed.

Lemma foldl_length_sum (parts : list bytes) n :
  foldl (fun sum part => (sum + length part)%nat) n parts = (n + length (concat parts))%nat.
Proof.
  revert n. induction parts as [|p parts IH]; intros n; simpl; [lia|].
  rewrite IH, length_app. lia.
Qed.

(** What is hashed is the concatenation of the parts. *)
Lemma sha256_payload_concat parts : sha256_payload parts = concat parts.
Proof.
  unfold sha256_payload. rewrite foldl_length_sum.
  apply (fill_payload_concat parts []). by rewrite length_replicate.
Qed.

Lemma encodeU32LE_mod z : encodeU32LE (z mod 2 ^ 32) = encodeU32LE z.
Proof.
  unfold encodeU32LE. rewrite <- (le_encode_decode (le_encode 4 z)).
  rewrite length_le_encode, le_decode_encode. done.
Qed.

Lemma u32_roundtrip z : 0 <= z < 2 ^ 32 -> decodeU32LE (encodeU32LE z) = Ok z.
Proof.
  intros Hz. unfold decodeU32LE. eapply getUint32_view; [|reflexivity|exact Hz].
  unfold encodeU32LE. rewrite view_bytes_ok by (unfold blen; rewrite length_le_encode; lia).
  done.
Qed.

Section search.
Context (draw : Z -> Res Z) (used : list Z).

(** [index] is what the search must return from [nonce]: the draw at the first
    nonce [k >= nonce] whose index is not used. *)
Definition first_unused (nonce index : Z) : Prop :=
  exists k, nonce <= k /\ draw k = Ok index /\ (index ∉ used) /\
    forall j, nonce <= j < k -> exists i, draw j = Ok i /\ i ∈ used.

Lemma searchIndex_sound fuel nonce index :
  searchIndex fuel draw used nonce = Some (Ok index) -> first_unused nonce index.
Proof.
  revert nonce. induction fuel as [|fuel IH]; intros nonce; [done|].
  cbn [searchIndex]. destruct (draw nonce) as [i|e] eqn:Ed; [|done].
  destruct (set_has used i) eqn:Eh.
  - intros (k & Hk & Hd & Hu & Hall)%IH. apply set_has_true in Eh.
    exists k. split_and!; [lia|done|done|]. intros j Hj.
    destruct (decide (j = nonce)) as [->|]; [by exists i|]. apply Hall. lia.
  - intros [= <-]. apply bool_decide_eq_false in Eh.
    exists nonce. split_and!; [lia|done|done|]. lia.
Qed.

(** A search with enough fuel finds the first unused draw. *)
Lemma searchIndex_complete fuel nonce k index :
  nonce <= k < nonce + Z.of_nat fuel -> draw k = Ok index -> index ∉ used ->
  (forall j, nonce <= j < k -> exists i, draw j = Ok i /\ i ∈ used) ->
  searchIndex fuel draw used nonce = Some (Ok index).
Proof.
  revert nonce. induction fuel as [|fuel IH]; intros nonce Hk Hd Hu Hall; [lia|].
  cbn [searchIndex]. destruct (decide (k = nonce)) as [->|].
  - rewrite Hd. unfold set_has. by rewrite bool_decide_false.
  - destruct (Hall nonce) as (i & Hi & Hin); [lia|]. rewrite Hi.
    apply set_has_true in Hin. rewrite Hin. apply IH; try done; [lia|].
    intros j Hj. apply Hall. lia.
Qed.

Lemma searchIndex_mono fuel fuel' nonce r :
  (fuel <= fuel')%nat ->
  searchIndex fuel draw used nonce = Some r -> searchIndex fuel' draw used nonce = Some r.
Proof.
  revert fuel' nonce. induction fuel as [|fuel IH]; intros [|fuel'] nonce Hle; try done; [lia|].
  cbn [searchIndex]. destruct (draw nonce) as [i|e]; [|done].
  destruct (set_has used i); [|done]. apply IH. lia.
Qed.

(** The first unused draw below a bound, when there is one. *)
Lemma least_unused (n : nat) nonce :
  (forall j, exists i, draw j = Ok i) ->
  (exists k i, nonce <= k < nonce + Z.of_nat n /\ draw k = Ok i /\ i ∉ used) ->
  exists k i, nonce <= k < nonce + Z.of_nat n /\ draw k = Ok i /\ (i ∉ used) /\
    forall j, nonce <= j < k -> exists i, draw j = Ok i /\ i ∈ used.
Proof.
  intros Htot. revert nonce. induction n as [|n IH]; intros nonce (k & i & Hk & Hd & Hu); [lia|].
  destruct (Htot nonce) as [i0 Hi0]. destruct (decide (i0 ∈ used)) as [Hin|Hin].
  - destruct (IH (nonce + 1)) as (k' & i' & Hk' & Hd' & Hu' & Hall').
    { exists k, i. split_and!; try done; [|lia].
      destruct (decide (k = nonce)) as [->|]; [|lia]. congruence. }
    exists k', i'. split_and!; [lia|lia|done|done|]. intros j Hj.
    destruct (decide (j = nonce)) as [->|]; [by exists i0|]. apply Hall'. lia.
  - exists nonce, i0. split_and!; [lia|lia|done|done|lia].
Qed.

(** Termination of one rank's search.  The nonce is hashed as 32 bits, so the
    draws repeat with period [2^32]: the [while (true)] loop returns if and only
    if some nonce below [2^32] draws an unused index, and then [2^32] iterations
    are enough. *)
Lemma search_terminates_iff :
  (forall n, draw n = draw (n mod 2 ^ 32)) -> (forall n, exists i, draw n = Ok i) ->
  ((exists fuel r, searchIndex fuel draw used 0 = Some r) <->
   exists n i, 0 <= n < 2 ^ 32 /\ draw n = Ok i /\ i ∉ used) /\
  ((exists n i, 0 <= n < 2 ^ 32 /\ draw n = Ok i /\ i ∉ used) ->
   exists i, searchIndex (Z.to_nat (2 ^ 32)) draw used 0 = Some (Ok i)).
Proof.
  intros Hper Htot.
  assert (Hdone : (exists n i, 0 <= n < 2 ^ 32 /\ draw n = Ok i /\ i ∉ used) ->
    exists i, searchIndex (Z.to_nat (2 ^ 32)) draw used 0 = Some (Ok i)).
  { intros Hex. destruct (least_unused (Z.to_nat (2 ^ 32)) 0 Htot)
      as (k & i & Hk & Hd & Hu & Hall).
    { destruct Hex as (n & i & ? & ? & ?). exists n, i. split_and!; done || lia. }
    exists i. by apply (searchIndex_complete _ _ k). }
  split; [|done]. split.
  - intros (fuel & [i|e] & Hs).
    + apply searchIndex_sound in Hs as (k & Hk & Hd & Hu & _).
      exists (k mod 2 ^ 32), i. rewrite <- Hper. split_and!; try done;
      apply (Z.mod_pos_bound k (2 ^ 32)); lia.
    + exfalso. revert Hs. generalize 0. induction fuel as [|fuel IH]; intros n; [done|].
      cbn [searchIndex]. destruct (Htot n) as [i ->].
      destruct (set_has used i); [apply IH|done].
  - intros Hex. destruct (Hdone Hex) as [i Hi]. by eexists _, _.
Qed.
End search.

(** ** Facts about the derivation *)

Section derivation_facts.
Context (subtleDigest : bytes -> bytes).
Context (randomness : bytes) (poolVersion : Z) (pool : list string).

Abbreviation draw := (candidateIndex subtleDigest randomness poolVersion (Z.of_nat (length pool))).
Local Abbreviation loop fuel := (deriveLoop subtleDigest fuel randomness poolVersion pool).

Lemma draw_range rank nonce i :
  (0 < length pool)%nat -> draw rank nonce = Ok i -> 0 <= i < Z.of_nat (length pool).
Proof.
  intros Hp Hd. unfold candidateIndex in Hd. res_inv Hd. apply Z.mod_pos_bound. lia.
Qed.

Lemma draw_periodic rank nonce : draw rank nonce = draw rank (nonce mod 2 ^ 32).
Proof. unfold candidateIndex. by rewrite (encodeU32LE_mod nonce). Qed.

Lemma draw_total rank nonce :
  (forall b, length (subtleDigest b) = 32%nat) -> exists i, draw rank nonce = Ok i.
Proof.
  intros Hd. unfold candidateIndex, decodeU32LE, getUint32.
  rewrite view_bytes_ok; [by eexists|].
  unfold blen. rewrite length_subarray; [lia|lia|]. unfold blen, sha256. rewrite Hd. lia.
Qed.

(** The candidate at position [i] of [out] is the one its rank must draw after the
    candidates before it. *)
Definition derived_at (out : list Candidate) (i : nat) (c : Candidate) : Prop :=
  c_rank c = Z.of_nat i /\
  0 <= c_index c < Z.of_nat (length pool) /\
  pool !! Z.to_nat (c_index c) = Some (c_mint c) /\
  first_unused (draw (Z.of_nat i)) (c_index <$> take i out) 0 (c_index c).

Definition derived (out : list Candidate) : Prop :=
  NoDup (c_index <$> out) /\ forall i c, out !! i = Some c -> derived_at out i c.

Lemma derived_at_app out ext i c :
  (i < length out)%nat -> derived_at out i c -> derived_at (out ++ ext) i c.
Proof. intros Hi. unfold derived_at. by rewrite take_app_le by lia. Qed.

Lemma first_unused_fresh d used n i : first_unused d used n i -> i ∉ used.
Proof. by intros (k & _ & _ & ? & _). Qed.

Lemma set_add_fresh (used : list Z) i : i ∉ used -> set_add used i = used ++ [i].
Proof. intros. unfold set_add, set_has. by rewrite bool_decide_false. Qed.

Lemma derived_snoc out index mint :
  (0 < length pool)%nat -> derived out ->
  first_unused (draw (Z.of_nat (length out))) (c_index <$> out) 0 index ->
  pool !! Z.to_nat index = Some mint ->
  derived (out ++ [mkCandidate (Z.of_nat (length out)) index mint]).
Proof.
  intros Hp [Hnd Hall] Hf Hm. split.
  - rewrite fmap_app. apply NoDup_app. split_and!; [done| |apply NoDup_singleton].
    intros j Hj ->%list_elem_of_singleton. by apply first_unused_fresh in Hf.
  - intros i c [Hc|[Hlen Hc]]%lookup_app_Some.
    + pose proof (lookup_lt_Some _ _ _ Hc). apply derived_at_app; auto.
    + apply list_lookup_singleton_Some in Hc as [Hi <-].
      assert (i = length out) as -> by lia. unfold derived_at. cbn.
      rewrite take_app_length. split_and!; try done.
      all: destruct Hf as (k & _ & Hd & _); apply draw_range in Hd; [lia|done].
Qed.

Lemma deriveLoop_sound fuel ranks out res :
  (0 < length pool)%nat ->
  ranks = seqZ (Z.of_nat (length out)) (Z.of_nat (length ranks)) ->
  derived out ->
  loop fuel ranks (c_index <$> out) out = Some (Ok res) ->
  derived res /\ length res = (length out + length ranks)%nat /\ out `prefix_of` res.
Proof.
  intros Hp. revert out. induction ranks as [|r ranks IH]; intros out Hr Hd; cbn [deriveLoop].
  { intros [= <-]. split_and!; [done|simpl; lia|done]. }
  rewrite seqZ_cons in Hr by (simpl; lia). injection Hr as Hr0 Hr'.
  destruct (searchIndex _ _ _ _) as [[index|e]|] eqn:Es; [|done..].
  apply searchIndex_sound in Es. rewrite Hr0 in *.
  pose proof Es as (k & _ & Hdraw & _). apply draw_range in Hdraw; [|done].
  destruct (lookup_lt_is_Some_2 pool (Z.to_nat index)) as [mint Hm]; [lia|].
  rewrite set_add_fresh by (by eapply first_unused_fresh). rewrite Hm. simpl.
  pose proof (derived_snoc out index mint Hp Hd Es Hm) as Hd'.
  set (c := mkCandidate _ index mint) in *.
  replace ((c_index <$> out) ++ [index]) with (c_index <$> (out ++ [c]))
    by (by rewrite fmap_app).
  intros Hl. apply IH in Hl as (Hres & Hlen & Hpre); [|rewrite length_app; simpl|done].
  - split_and!; [done|rewrite Hlen, length_app; simpl; lia|].
    etransitivity; [|done]. by apply prefix_app_r.
  - rewrite Hr' at 1. f_equal; simpl; lia.
Qed.

Lemma seqZ_limit count :
  seqZ 0 (Z.min count (Z.of_nat (length pool))) =
  seqZ 0 (Z.of_nat (length (seqZ 0 (Z.min count (Z.of_nat (length pool)))))).
Proof. rewrite length_seqZ. unfold seqZ. f_equal. f_equal. lia. Qed.

Lemma derived_nil : derived [].
Proof. split; [apply NoDup_nil_2|]. intros i c Hc. by rewrite lookup_nil in Hc. Qed.

Lemma deriveLoop_extends fuel ranks used out out1 :
  loop fuel ranks used out = Some (Ok out1) -> exists ext, out1 = out ++ ext.
Proof.
  revert used out. induction ranks as [|r ranks IH]; intros used out; cbn [deriveLoop].
  { intros [= <-]. exists []. by rewrite app_nil_r. }
  destruct (searchIndex _ _ _ _) as [[index|e]|]; [|done..].
  intros [ext ->]%IH. rewrite <- app_assoc. by eexists.
Qed.

Lemma deriveLoop_app fuel r1 r2 used out :
  loop fuel (r1 ++ r2) used out =
  match loop fuel r1 used out with
  | Some (Ok out1) => loop fuel r2 (fold_left set_add (c_index <$> drop (length out) out1) used) out1
  | o => o
  end.
Proof.
  revert used out. induction r1 as [|r r1 IH]; intros used out; cbn [deriveLoop app].
  { by rewrite drop_all. }
  destruct (searchIndex _ _ _ _) as [[index|e]|]; [|done..].
  rewrite IH. set (c := mkCandidate r index _).
  destruct (loop fuel r1 (set_add used index) (out ++ [c])) as [[out1|e]|] eqn:E; [|done..].
  f_equal. apply deriveLoop_extends in E as [ext ->].
  rewrite (drop_app_length (out ++ [c]) ext), <- app_assoc, drop_app_length. done.
Qed.
End derivation_facts.

(** ** The derivation's guarantees *)

(** The specification of a returned derivation. *)
Lemma deriveCandidates_spec subtleDigest fuel randomness poolVersion count pool out :
  deriveCandidates subtleDigest fuel randomness poolVersion count pool = Some (Ok out) ->
  Z.of_nat (length out) = Z.max 0 (Z.min count (Z.of_nat (length pool))) /\
  derived subtleDigest randomness poolVersion pool out.
Proof.
  unfold deriveCandidates. intros Hd.
  destruct (decide (Z.min count (Z.of_nat (length pool)) <= 0)) as [Hle|Hgt].
  - rewrite seqZ_nil in Hd by done. injection Hd as <-.
    split; [simpl; lia|apply derived_nil].
  - rewrite seqZ_limit in Hd.
    apply (deriveLoop_sound _ _ _ _ _ _ []) in Hd as (Hd & Hlen & _).
    + split; [|done]. rewrite Hlen, !length_seqZ. simpl. lia.
    + lia.
    + f_equal. rewrite !length_seqZ. lia.
    + apply derived_nil.
Qed.


(** A smaller window derives a prefix of what a larger window derives, so the
    candidates shown, the candidates executed and the candidates recomputed by a
    verifier never disagree on the ranks they share. *)
Theorem deriveCandidates_prefix subtleDigest fuel randomness poolVersion pool m n out :
  0 <= m <= n ->
  deriveCandidates subtleDigest fuel randomness poolVersion n pool = Some (Ok out) ->
  deriveCandidates subtleDigest fuel randomness poolVersion m pool =
    Some (Ok (take (Z.to_nat m) out)).
Proof.
  intros Hmn Hn. pose proof (deriveCandidates_spec _ _ _ _ _ _ _ Hn) as [Hlen _].
  unfold deriveCandidates in *.
  set (lm := Z.min m (Z.of_nat (length pool))) in *.
  set (ln := Z.min n (Z.of_nat (length pool))) in *.
  assert (Hsplit : seqZ 0 ln = seqZ 0 lm ++ seqZ lm (ln - lm)).
  { replace ln with (lm + (ln - lm)) at 1 by lia. rewrite seqZ_app by lia. done. }
  rewrite Hsplit, deriveLoop_app in Hn.
  destruct (deriveLoop _ _ _ _ _ (seqZ 0 lm) [] []) as [[outm|e]|] eqn:Em; [|done..].
  assert (Hlm : Z.of_nat (length outm) = lm).
  { pose proof (deriveCandidates_spec subtleDigest fuel randomness poolVersion m pool outm Em)
      as [-> _]. lia. }
  apply deriveLoop_extends in Hn as [ext ->]. do 2 f_equal.
  destruct (decide (lm = m)) as [E|E].
  - rewrite <- E, <- Hlm, Nat2Z.id. by rewrite take_app_length.
  - rewrite length_app in Hlen. assert (length ext = 0%nat) as ->%nil_length_inv by lia.
    rewrite app_nil_r, take_ge by lia. done.
Qed.

(** A list without repetition has an element outside any shorter list. *)
Lemma pigeonhole_fresh (hits used : list Z) :
  NoDup hits -> (length used < length hits)%nat -> exists i, i ∈ hits /\ i ∉ used.
Proof.
  intros Hn Hl.
  destruct (decide (Forall (fun i => i ∈ used) hits)) as [Hall|Hex].
  - exfalso. rewrite Forall_forall in Hall.
    pose proof (submseteq_length _ _ (NoDup_submseteq hits used Hn Hall)). lia.
  - apply not_Forall_Exists in Hex; [|intros ?; apply _].
    apply Exists_exists in Hex as (i & ? & ?). by exists i.
Qed.

Section termination.
Context (subtleDigest : bytes -> bytes).
Hypothesis digest_length : forall b, length (subtleDigest b) = 32%nat.
Context (randomness : bytes) (poolVersion : Z) (pool : list string) (count : Z).

(** SHA-256 spreads each rank over the pool: among its [2^32] nonces at least as
    many different indices are drawn as candidates are asked for. *)
Hypothesis digest_spreads : forall rank,
  0 <= rank < Z.min count (Z.of_nat (length pool)) ->
  exists hits, NoDup hits /\ Z.min count (Z.of_nat (length pool)) <= Z.of_nat (length hits) /\
    Forall (fun i => exists nonce, 0 <= nonce < 2 ^ 32 /\
      candidateIndex subtleDigest randomness poolVersion (Z.of_nat (length pool)) rank nonce = Ok i)
      hits.

Lemma deriveLoop_terminates ranks out :
  Forall (fun r => 0 <= r < Z.min count (Z.of_nat (length pool))) ranks ->
  Z.of_nat (length out) + Z.of_nat (length ranks) <= Z.min count (Z.of_nat (length pool)) ->
  exists res, deriveLoop subtleDigest (Z.to_nat (2 ^ 32)) randomness poolVersion pool ranks
    (c_index <$> out) out = Some (Ok res).
Proof.
  intros Hr. revert out. induction Hr as [|r ranks Hr _ IH]; intros out Hlen; [by eexists|].
  cbn [deriveLoop]. destruct (digest_spreads r Hr) as (hits & Hn & Hl & Hdraw).
  destruct (pigeonhole_fresh hits (c_index <$> out) Hn) as (i & Hi & Hfresh).
  { rewrite length_fmap. simpl in Hlen. lia. }
  rewrite Forall_forall in Hdraw. destruct (Hdraw i Hi) as (nonce & Hnonce & Hd).
  edestruct search_terminates_iff as [_ Hterm].
  { intros n. apply (draw_periodic subtleDigest randomness poolVersion pool r n). }
  { intros n. by apply draw_total. }
  destruct Hterm as [index Hs]; [by exists nonce, i|]. rewrite Hs.
  apply searchIndex_sound, first_unused_fresh in Hs.
  rewrite set_add_fresh by done. set (c := mkCandidate r index _).
  destruct (IH (out ++ [c])) as [res Hres].
  { rewrite length_app. simpl in *. lia. }
  exists res. by rewrite fmap_app in Hres.
Qed.

(** The derivation terminates with a result: [2^32] nonces per rank are enough
    when the digest spreads over the pool. *)
Theorem deriveCandidates_terminates :
  exists out,
    deriveCandidates subtleDigest (Z.to_nat (2 ^ 32)) randomness poolVersion count pool =
      Some (Ok out).
Proof.
  unfold deriveCandidates.
  destruct (decide (Z.min count (Z.of_nat (length pool)) <= 0)) as [Hle|Hgt].
  { rewrite seqZ_nil by done. by eexists. }
  apply (deriveLoop_terminates _ []).
  - apply Forall_forall. intros r [j [-> Hj]%lookup_seqZ]%list_elem_of_lookup_1. lia.
  - rewrite length_seqZ. simpl. lia.
Qed.
End termination.

(** ** The frontend's derivation, src/lib/degenClaim.ts *)

Section frontend.
Context (subtleDigest : bytes -> bytes).
(** The generated pool and its version (src/generated/degenPool.ts). *)
Context (DEGEN_POOL : list string) (DEGEN_POOL_VERSION : Z).

Definition DEVNET_DEGEN_POOL : list string :=
  ["So11111111111111111111111111111111111111112"].

Definition getDegenPool (isMainnet : bool) : list string :=
  if isMainnet then DEGEN_POOL else DEVNET_DEGEN_POOL.

Definition getDegenPoolVersion (isMainnet : bool) : Z :=
  if isMainnet then DEGEN_POOL_VERSION else 0.

(** The frontend's loop: same search, [index] drawn with its own pool. *)
Fixpoint deriveDegenLoop (fuel : nat) (randomness : bytes) (poolVersion : Z)
    (pool : list string) (limit : nat) (rank : Z) (used : list Z) (out : list Candidate)
    : option (Res (list Candidate)) :=
  match limit with
  | O => Some (Ok out)
  | S limit =>
      match searchIndex fuel
              (candidateIndex subtleDigest randomness poolVersion (Z.of_nat (length pool)) rank)
              used 0 with
      | None => None
      | Some (Throw e) => Some (Throw e)
      | Some (Ok index) =>
          deriveDegenLoop fuel randomness poolVersion pool limit (rank + 1)
            (set_add used index)
            (out ++ [mkCandidate rank index (default "" (pool !! Z.to_nat index))])
      end
  end.

Definition deriveDegenCandidates (fuel : nat) (randomness : bytes) (poolVersion count : Z)
    (isMainnet : bool) : option (Res (list Candidate)) :=
  let pool := getDegenPool isMainnet in
  let limit := Z.min count (Z.of_nat (length pool)) in
  deriveDegenLoop fuel randomness poolVersion pool (Z.to_nat limit) 0 [] [].

Lemma deriveDegenLoop_eq fuel randomness poolVersion pool limit rank used out :
  deriveDegenLoop fuel randomness poolVersion pool limit rank used out =
  deriveLoop subtleDigest fuel randomness poolVersion pool (seqZ rank (Z.of_nat limit)) used out.
Proof.
  revert rank used out. induction limit as [|limit IH]; intros rank used out; [done|].
  rewrite seqZ_cons by lia. cbn [deriveDegenLoop deriveLoop].
  destruct (searchIndex _ _ _ _) as [[index|e]|]; [|done..].
  rewrite IH. f_equal. f_equal; lia.
Qed.

(** What the frontend shows is what the executor runs: for the same pool the
    two derivations are the same function of the randomness. *)
Theorem frontend_derivation_agrees fuel randomness poolVersion count isMainnet :
  deriveDegenCandidates fuel randomness poolVersion count isMainnet =
  deriveCandidates subtleDigest fuel randomness poolVersion count (getDegenPool isMainnet).
Proof.
  unfold deriveDegenCandidates, deriveCandidates. rewrite deriveDegenLoop_eq. f_equal.
  unfold seqZ. do 2 f_equal. lia.
Qed.
End frontend.

(** ** The payout *)

Lemma quot_fee_bounds pool feeBps :
  0 <= feeBps <= 10000 ->
  (0 <= pool -> 0 <= Z.quot (pool * feeBps) 10000 <= pool) /\
  (pool < 0 -> pool <= Z.quot (pool * feeBps) 10000 <= 0).
Proof.
  intros Hf. split; intros Hp.
  - rewrite Z.quot_div_nonneg by nia. split; [apply Z.div_pos; nia|].
    apply Z.div_le_upper_bound; nia.
  - replace (pool * feeBps) with (- (- pool * feeBps)) by ring.
    rewrite Z.quot_opp_l, Z.quot_div_nonneg by nia.
    assert (0 <= (- pool * feeBps) / 10000) by (apply Z.div_pos; nia).
    assert ((- pool * feeBps) / 10000 <= - pool) by (apply Z.div_le_upper_bound; nia).
    lia.
Qed.

(** C38: the executor's payout is the one the program transfers: for every [u64] pot
    and every fee up to 100%, the on-chain computation succeeds without overflow,
    its payout, fee and VRF reimbursement add up to the pot, and its payout is the
    executor's figure clipped at zero.  So the executor's [payout <= 0n] guard
    rejects exactly the rounds that would pay nothing. *)
Theorem begin_degen_payout_matches_chain totalUsdc feeBps reimburseVrf :
  0 <= totalUsdc < 2 ^ 64 -> 0 <= feeBps <= 10000 ->
  exists a, compute_claim_amounts totalUsdc feeBps reimburseVrf = Some a /\
    a_payout a = Z.max 0 (computeBeginDegenPayout totalUsdc feeBps reimburseVrf) /\
    a_payout a + a_fee a + a_vrf_reimburse a = totalUsdc /\
    (computeBeginDegenPayout totalUsdc feeBps reimburseVrf <= 0 <-> a_payout a = 0).
Proof.
  intros Ht Hf. unfold compute_claim_amounts, computeBeginDegenPayout, VRF_REIMBURSE_AMOUNT.
  set (v := if reimburseVrf then Z.min 200000 totalUsdc else 0).
  set (d := if reimburseVrf then 200000 else 0).
  assert (Hv : 0 <= v <= totalUsdc /\ v <= d /\ (v < d -> v = totalUsdc))
    by (unfold v, d; destruct reimburseVrf; lia).
  unfold checked_sub. rewrite (proj2 (Z.leb_le v totalUsdc)) by lia. cbn [mbind option_bind].
  destruct (quot_fee_bounds (totalUsdc - v) feeBps Hf) as [Hpos _].
  destruct (quot_fee_bounds (totalUsdc - d) feeBps Hf) as [_ Hneg].
  specialize (Hpos ltac:(lia)).
  rewrite Z.quot_div_nonneg in Hpos by nia.
  rewrite Z.mod_small by lia. rewrite (proj2 (Z.leb_le _ _)) by lia. cbn [mbind option_bind].
  eexists. split; [reflexivity|]. cbn.
  destruct (decide (v < d)) as [Hlt|Hge].
  - specialize (Hneg ltac:(lia)). replace (totalUsdc - v) with 0 in * by lia.
    rewrite Z.mul_0_l, Z.div_0_l in * by lia. lia.
  - replace d with v in * by lia. rewrite Z.quot_div_nonneg by nia. lia.
Qed.

(** ** The configuration sequences *)

Lemma positive_floor_nonneg x z :
  is_finite_positive x = true -> num_floor x = Some z -> 0 <= z.
Proof.
  unfold is_finite_positive, positive_num, isFinite. intros [Hf Hp]%andb_true_iff.
  destruct x as [b| | |[] m e]; try done; cbn; intros [= <-].
  case_bool; [nia|]. apply Z.div_pos; lia.
Qed.

(** The sequence of account limits has no repetition and no negative entry; with no
    environment variable both sequences are the documented defaults.  A fraction
    below one passes the filter, which runs before the rounding, and becomes 0. *)
Lemma parseMaxAccountsSequence_spec raw :
  NoDup (parseMaxAccountsSequence raw) /\
  Forall (fun v => 0 <= v) (parseMaxAccountsSequence raw).
Proof.
  split; [apply NoDup_set_of_list|]. apply Forall_forall. intros v.
  unfold parseMaxAccountsSequence. rewrite elem_of_set_of_list, list_elem_of_omap.
  intros (x & Hx & Hv). apply list_elem_of_filter in Hx as [Hx _].
  by eapply positive_floor_nonneg.
Qed.

Example sequence_defaults :
  parseMaxAccountsSequence None = [64; 48; 36; 28; 22] /\
  parseMaxAccountsSequence (Some "10, 10.5,x,-3,0") = [10] /\
  parseMaxAccountsSequence (Some "0.5") = [0] /\
  omap num_floor (parseSlippageSequence None) = [300; 400; 500; 600].
Proof. vm_compute. done. Qed.

(** ** Witnesses *)

Module DegenWitness.
(** A digest that keeps the nonce: 32 bytes, the last four of the payload first. *)
Definition digest (b : bytes) : bytes :=
  take 32 (drop (length b - 4) b ++ replicate 32 x00).

Definition pool : list string := ["A"; "B"; "C"].

Lemma derived3 :
  deriveCandidates digest 10 [] 1 2 pool =
    Some (Ok [mkCandidate 0 0 "A"; mkCandidate 1 1 "B"]).
Proof. vm_compute. reflexivity. Qed.


Lemma deriveCandidates_prefix_witness :
  deriveCandidates digest 10 [] 1 1 pool = Some (Ok [mkCandidate 0 0 "A"]).
Proof.
  refine (deriveCandidates_prefix digest 10 [] 1 pool 1 2 _ _ derived3). lia.
Defined.

Lemma digest_length b : length (digest b) = 32%nat.
Proof. unfold digest. rewrite length_take, length_app, length_replicate. lia. Qed.

Lemma digest_spreads rank :
  0 <= rank < Z.min 2 (Z.of_nat (length pool)) ->
  exists hits, NoDup hits /\ Z.min 2 (Z.of_nat (length pool)) <= Z.of_nat (length hits) /\
    Forall (fun i => exists nonce, 0 <= nonce < 2 ^ 32 /\
      candidateIndex digest [] 1 (Z.of_nat (length pool)) rank nonce = Ok i) hits.
Proof.
  intros Hr. exists [0; 1]. split_and!; [|done|].
  { apply NoDup_cons; split; [|apply NoDup_singleton]. rewrite list_elem_of_singleton. lia. }
  assert (rank = 0 \/ rank = 1) as [-> | ->] by (unfold pool in Hr; simpl in Hr; lia).
  all: repeat constructor; [exists 0|exists 1]; (split; [lia|vm_compute; reflexivity]).
Qed.

Lemma deriveCandidates_terminates_witness :
  exists out,
    deriveCandidates digest (Z.to_nat (2 ^ 32)) [] 1 2 pool = Some (Ok out).
Proof. exact (deriveCandidates_terminates digest digest_length [] 1 pool 2 digest_spreads). Defined.

(** A pot below the VRF reimbursement: the program pays 0, the executor's figure is
    negative. *)
Lemma begin_degen_payout_matches_chain_witness :
  computeBeginDegenPayout 150000 25 true = -49875 /\
  exists a, compute_claim_amounts 150000 25 true = Some a /\
    a_payout a = Z.max 0 (computeBeginDegenPayout 150000 25 true) /\
    a_payout a + a_fee a + a_vrf_reimburse a = 150000 /\
    (computeBeginDegenPayout 150000 25 true <= 0 <-> a_payout a = 0).
Proof.
  split; [reflexivity|]. apply (begin_degen_payout_matches_chain 150000 25 true); lia.
Defined.
End DegenWitness.
