(* ===== verification/Fenwick.v ===== *)
(** * Fenwick: the ticket tree of a round account

    The on-chain program keeps every participant's tickets in a binary indexed tree of
    [u64] nodes, at indices 1 to 200 of the round account
    (jackpot_pinocchio_poc/src/legacy_layouts.rs; jackpot_anchor_v4 has the same loops):
    a deposit adds to it, a cancellation subtracts, and the winning ticket is looked up in
    it.  The loops are modelled on the list of nodes, at any size.  An update needs at most
    as much fuel as there are nodes, because the index grows; the lookup halves its step,
    so the width of an index is enough.

    The abstract state is the function [t] from an index to the tickets held there; [tree]
    relates it to the nodes.  The lookup is shown to return the holder of a ticket, and
    each index to be returned for exactly as many tickets as it holds. *)

From stdpp Require Import base list gmap strings.
From Stdlib Require Import ZArith Lia.
From S2P Require Import Prelude DegenLogic.

Local Open Scope Z_scope.

(** ** Results of the on-chain program *)

Inductive Result (E A : Type) := ROk (a : A) | RErr (e : E).
Arguments ROk {E A} a.
Arguments RErr {E A} e.

#[export] Instance Result_eq_dec {E A} `{EqDecision E, EqDecision A} : EqDecision (Result E A).
Proof. solve_decision. Defined.

#[export] Instance Result_ret {E} : MRet (Result E) := fun A a => ROk a.
#[export] Instance Result_bind {E} : MBind (Result E) := fun A B f m =>
  match m with ROk a => f a | RErr e => RErr e end.

(** [x.ok_or(e)?] and [.map_err(f)] *)
Definition ok_or {E A} (x : option A) (e : E) : Result E A :=
  match x with Some a => ROk a | None => RErr e end.
Definition map_err {E F A} (f : E -> F) (m : Result E A) : Result F A :=
  match m with ROk a => ROk a | RErr e => RErr (f e) end.

Lemma result_bind_ok {E A B} (m : Result E A) (f : A -> Result E B) b :
  mbind f m = ROk b -> exists a, m = ROk a /\ f a = ROk b.
Proof. destruct m; [by eexists|done]. Qed.

Module Fenwick.

Inductive LayoutError := SliceTooShort | InvalidBool | MathOverflow.

#[export] Instance LayoutError_eq_dec : EqDecision LayoutError.
Proof. solve_decision. Defined.

(** ** The code *)

Definition U64 : Z := 2 ^ 64.
Definition MAX_PARTICIPANTS : Z := 200.
Definition ROUND_FENWICK_NODE_COUNT : Z := MAX_PARTICIPANTS + 1.

(** [a.checked_add(b)] of [u64]. *)
Definition checked_add (a b : Z) : option Z := if a + b <? U64 then Some (a + b) else None.

(** [i & (!i + 1)] of a [usize]. *)
Definition lowbit (i : Z) : Z := Z.land i ((U64 - 1 - i + 1) mod U64).

(** [while index <= n { bit[index] = op(bit[index])?; index += index & (!index + 1); }] *)
Fixpoint bit_loop (op : Z -> option Z) (n : Z) (fuel : nat) (bit : list Z) (index : Z)
    : Result LayoutError (list Z) :=
  if n <? index then ROk bit
  else match fuel with
       | O => RErr SliceTooShort
       | S fuel =>
           current ← ok_or (bit !! Z.to_nat index) SliceTooShort;
           next ← ok_or (op current) MathOverflow;
           bit_loop op n fuel (<[Z.to_nat index := next]> bit) (index + lowbit index)
       end.

Definition last_index (bit : list Z) : Z := Z.of_nat (length bit) - 1.

(** The guard on the index, then the loop. *)
Definition bit_update (op : Z -> option Z) (bit : list Z) (index : Z)
    : Result LayoutError (list Z) :=
  let n := last_index bit in
  if (index =? 0) || (n <? index) then RErr SliceTooShort
  else bit_loop op n (length bit) bit index.

Definition bit_add (bit : list Z) (index delta : Z) : Result LayoutError (list Z) :=
  bit_update (fun current => checked_add current delta) bit index.

Definition bit_sub (bit : list Z) (index delta : Z) : Result LayoutError (list Z) :=
  bit_update (fun current => checked_sub current delta) bit index.

(** [while bit_mask <= n { bit_mask <<= 1; }] *)
Fixpoint mask_loop (fuel : nat) (n bit_mask : Z) : Z :=
  match fuel with
  | O => bit_mask
  | S fuel => if n <? bit_mask then bit_mask else mask_loop fuel n (Z.shiftl bit_mask 1)
  end.

(** [while step > 0 { ...; step >>= 1; }] *)
Fixpoint find_loop (fuel : nat) (bit : list Z) (n target step idx cur : Z) : Result LayoutError Z :=
  match fuel with
  | O => ROk idx
  | S fuel =>
      if step <=? 0 then ROk idx
      else
        let next := idx + step in
        if next <=? n then
          node ← ok_or (bit !! Z.to_nat next) SliceTooShort;
          cand ← ok_or (checked_add cur node) MathOverflow;
          if cand <? target then find_loop fuel bit n target (Z.shiftr step 1) next cand
          else find_loop fuel bit n target (Z.shiftr step 1) idx cur
        else find_loop fuel bit n target (Z.shiftr step 1) idx cur
  end.

Definition bit_find_prefix (bit : list Z) (target : Z) : Result LayoutError Z :=
  let n := last_index bit in
  idx ← find_loop 65 bit n target (mask_loop 64 n 1) 0 0;
  ROk (idx + 1).

(** ** The abstract state *)

(** [prefix t k] is [t 1 + ... + t k]. *)
Fixpoint prefix_nat (t : Z -> Z) (k : nat) : Z :=
  match k with O => 0 | S k' => prefix_nat t k' + t (Z.of_nat k) end.

Definition prefix (t : Z -> Z) (k : Z) : Z := prefix_nat t (Z.to_nat k).

Definition update (t : Z -> Z) (i d : Z) : Z -> Z := fun j => if j =? i then t j + d else t j.

(** Node [k] holds the sum of [t] over the [lowbit k] indices that end at [k]. *)
Definition tree (t : Z -> Z) (bit : list Z) : Prop :=
  (1 <= length bit)%nat /\ last_index bit < 2 ^ 63 /\
  forall k, 1 <= k <= last_index bit ->
    bit !! Z.to_nat k = Some (prefix t k - prefix t (k - lowbit k)).

(** Nobody holds a negative number of tickets, and the sum is a [u64]. *)
Definition holdings (t : Z -> Z) (n : Z) : Prop :=
  (forall i, 1 <= i <= n -> 0 <= t i) /\ prefix t n < U64.

Lemma prefix_0 t : prefix t 0 = 0.
Proof. done. Qed.

Lemma prefix_succ t k : 0 <= k -> prefix t (k + 1) = prefix t k + t (k + 1).
Proof.
  intros Hk. unfold prefix. replace (Z.to_nat (k + 1)) with (S (Z.to_nat k)) by lia.
  cbn [prefix_nat]. do 2 f_equal. lia.
Qed.

Lemma prefix_mono t n a b :
  (forall i, 1 <= i <= n -> 0 <= t i) -> 0 <= a -> a <= b -> b <= n -> prefix t a <= prefix t b.
Proof.
  intros Ht Ha Hab. pattern b. apply (Zlt_lower_bound_ind _ a); [|done]. clear b Hab.
  intros b IH Hab Hb. destruct (Z.eq_dec a b) as [->|]; [lia|].
  replace b with ((b - 1) + 1) by lia. rewrite prefix_succ by lia.
  specialize (IH (b - 1) ltac:(lia) ltac:(lia)). specialize (Ht (b - 1 + 1) ltac:(lia)). lia.
Qed.

Lemma prefix_update t i d k :
  1 <= i -> 0 <= k -> prefix (update t i d) k = prefix t k + (if i <=? k then d else 0).
Proof.
  intros Hi Hk. pattern k. apply (Zlt_lower_bound_ind _ 0); [|done]. clear k Hk.
  intros k IH Hk. destruct (Z.eq_dec k 0) as [->|].
  { rewrite !prefix_0. destruct (Z.leb_spec i 0); lia. }
  replace k with ((k - 1) + 1) by lia. rewrite !prefix_succ by lia.
  rewrite IH by lia. unfold update. replace (k - 1 + 1) with k by lia.
  destruct (Z.leb_spec i (k - 1)), (Z.leb_spec i k), (Z.eqb_spec k i); lia.
Qed.

(** ** The lowest bit *)

(** [i] is an odd multiple of the power of two [s]. *)
Definition low (i s : Z) : Prop := exists e a, 0 <= e /\ s = 2 ^ e /\ i = s * (2 * a + 1).

Lemma land_odd_opp a : Z.land (2 * a + 1) (- (2 * a + 1)) = 1.
Proof.
  apply Z.bits_inj'. intros k Hk. rewrite Z.land_spec.
  replace (- (2 * a + 1)) with (2 * Z.lnot a + 1) by (unfold Z.lnot; lia).
  destruct (Z.eq_dec k 0) as [->|].
  - by rewrite !Z.testbit_odd_0.
  - replace k with (Z.succ (k - 1)) by lia.
    rewrite !Z.testbit_odd_succ, Z.lnot_spec by lia. rewrite andb_negb_r.
    change 1 with (2 * 0 + 1). by rewrite Z.testbit_odd_succ, Z.bits_0 by lia.
Qed.

Lemma lowbit_of_low i s : 0 < i < U64 -> low i s -> lowbit i = s.
Proof.
  intros Hi (e & a & He & Es & Ei). unfold lowbit.
  replace (U64 - 1 - i + 1) with (- i + 1 * U64) by lia. rewrite Z.mod_add by done.
  assert (Z.land i (- i) = s) as E.
  { rewrite Ei, Es. rewrite Z.mul_comm. replace (- ((2 * a + 1) * 2 ^ e)) with (- (2 * a + 1) * 2 ^ e) by lia.
    rewrite <- !Z.shiftl_mul_pow2, <- Z.shiftl_land, land_odd_opp by done.
    rewrite Z.shiftl_mul_pow2 by done. lia. }
  rewrite <- E. unfold U64 in *. rewrite <- Z.land_ones by lia.
  rewrite Z.land_assoc, (Z.land_comm i (- i)), <- Z.land_assoc.
  by rewrite Z.land_ones, Z.mod_small by lia.
Qed.

Lemma low_exists i : 0 < i -> exists s, low i s.
Proof.
  intros Hi. pattern i. apply (Zlt_lower_bound_ind _ 1); [|lia]. clear i Hi.
  intros i IH Hi. destruct (Z.Even_or_Odd i) as [[b Eb]|[b Eb]].
  - destruct (IH b ltac:(lia)) as (s & e & a & He & Es & Ei).
    exists (2 * s), (e + 1), a. rewrite Z.pow_add_r, Es in * by lia. split; [lia|]. split; lia.
  - exists 1, 0, b. split; [lia|]. split; lia.
Qed.

Lemma lowbit_low i : 0 < i < U64 -> low i (lowbit i).
Proof.
  intros Hi. destruct (low_exists i ltac:(lia)) as [s Hs]. by rewrite (lowbit_of_low i s).
Qed.

(** Two powers of two: one divides the other. *)
Lemma pow2_compare e g : 0 <= e -> 0 <= g ->
  (exists q, 0 < q /\ 2 ^ g = 2 ^ e * q) \/ (exists q, 0 < q /\ 2 ^ e = 2 ^ (g + 1) * q).
Proof.
  intros He Hg. destruct (Z_le_gt_dec e g).
  - left. exists (2 ^ (g - e)). split; [apply Z.pow_pos_nonneg; lia|].
    rewrite <- Z.pow_add_r by lia. f_equal. lia.
  - right. exists (2 ^ (e - (g + 1))). split; [apply Z.pow_pos_nonneg; lia|].
    rewrite <- Z.pow_add_r by lia. f_equal. lia.
Qed.

Lemma low_pos i s : low i s -> 0 < s.
Proof. intros (e & a & He & -> & _). apply Z.pow_pos_nonneg; lia. Qed.

Lemma low_le i s : 0 < i -> low i s -> s <= i.
Proof. intros Hi Hl. pose proof (low_pos _ _ Hl). destruct Hl as (e & a & _ & _ & ->). assert (0 < 2 * a + 1) by nia. nia. Qed.

(** Between an index and the next one visited, the nodes cover only what is above. *)
Lemma cover_gap i s k r : low i s -> low k r -> i < k < i + s -> i <= k - r.
Proof.
  intros Hi Hk Hb. pose proof (low_pos _ _ Hi). pose proof (low_pos _ _ Hk).
  destruct Hi as (e & a & He & -> & ->), Hk as (g & c & Hg & -> & ->).
  destruct (pow2_compare e g He Hg) as [(q & Hq & E)|(q & Hq & E)].
  - exfalso. rewrite E, <- Z.mul_assoc in Hb. set (s := 2 ^ e) in *.
    destruct Hb as [Hb1%Z.mul_lt_mono_pos_l Hb2]; [|done].
    replace (s * (2 * a + 1) + s) with (s * (2 * a + 2)) in Hb2 by lia.
    apply Z.mul_lt_mono_pos_l in Hb2; lia.
  - rewrite Z.pow_add_r, Z.pow_1_r in E by lia. rewrite E in *. set (r := 2 ^ g) in *.
    destruct Hb as [Hb _]. replace (r * 2 * q * (2 * a + 1)) with (r * (2 * (q * (2 * a + 1)))) in * by lia.
    apply Z.mul_lt_mono_pos_l in Hb; [|done].
    replace (r * (2 * c + 1) - r) with (r * (2 * c)) by lia. apply Z.mul_le_mono_pos_l; lia.
Qed.

(** A node above the next index covers the index exactly when it covers the next. *)
Lemma cover_above i s k r : low i s -> low k r -> i + s <= k -> k - r < i + s -> k - r < i.
Proof.
  intros Hi Hk Hge Hlt. pose proof (low_pos _ _ Hi). pose proof (low_pos _ _ Hk).
  destruct Hi as (e & a & He & -> & ->), Hk as (g & c & Hg & -> & ->).
  destruct (pow2_compare e g He Hg) as [(q & Hq & E)|(q & Hq & E)].
  - rewrite E in *. set (s := 2 ^ e) in *.
    replace (s * q * (2 * c + 1) - s * q) with (s * (2 * (q * c))) in * by lia.
    replace (s * (2 * a + 1) + s) with (s * (2 * a + 2)) in * by lia.
    apply Z.mul_lt_mono_pos_l in Hlt; [|done]. apply Z.mul_lt_mono_pos_l; lia.
  - rewrite Z.pow_add_r, Z.pow_1_r in E by lia. rewrite E in *. set (r := 2 ^ g) in *.
    replace (r * 2 * q * (2 * a + 1) + r * 2 * q) with (r * (2 * (q * (2 * a + 2)))) in * by lia.
    replace (r * (2 * c + 1) - r) with (r * (2 * c)) in * by lia.
    apply Z.mul_le_mono_pos_l in Hge; [|done]. apply Z.mul_lt_mono_pos_l in Hlt; lia.
Qed.

Lemma cover_step i k :
  0 < i < U64 -> 0 < k < U64 ->
  (k - lowbit k < i <= k <-> k = i \/ k - lowbit k < i + lowbit i <= k).
Proof.
  intros Hi Hk. pose proof (lowbit_low i Hi) as Li. pose proof (lowbit_low k Hk) as Lk.
  pose proof (low_pos _ _ Li). pose proof (low_pos _ _ Lk). split.
  - intros [Hlt Hle]. destruct (Z.eq_dec k i) as [|Hne]; [by left|right]. split; [lia|].
    destruct (Z_lt_le_dec k (i + lowbit i)) as [Hk'|]; [|done].
    pose proof (cover_gap _ _ _ _ Li Lk ltac:(lia)). lia.
  - intros [->|[Hlt Hge]]; [lia|]. split; [|lia]. by apply (cover_above i (lowbit i)).
Qed.

(** ** Updates *)

(** The loop applies [op] to the nodes that cover the index and to no other. *)
Lemma bit_loop_spec op g n fuel bit index :
  last_index bit = n -> 0 <= n < 2 ^ 63 -> 0 < index < U64 -> n < index + Z.of_nat fuel ->
  (forall k v, index <= k <= n -> k - lowbit k < index -> bit !! Z.to_nat k = Some v ->
     op v = Some (g v)) ->
  exists bit', bit_loop op n fuel bit index = ROk bit' /\ length bit' = length bit /\
    forall k, 1 <= k <= n ->
      bit' !! Z.to_nat k = (if (k - lowbit k <? index) && (index <=? k) then g else id) <$> bit !! Z.to_nat k.
Proof.
  intros Hn Hb. revert bit index Hn. induction fuel as [|fuel IH]; intros bit index Hn Hi Hf Hop.
  - simpl. rewrite (proj2 (Z.ltb_lt _ _)) by lia. exists bit. split; [done|]. split; [done|].
    intros k Hk. rewrite (proj2 (Z.leb_gt index k)), andb_false_r by lia. by destruct (bit !! _).
  - simpl. destruct (Z.ltb_spec n index) as [Hlt|Hge].
    { exists bit. split; [done|]. split; [done|]. intros k Hk.
      rewrite (proj2 (Z.leb_gt index k)), andb_false_r by lia. by destruct (bit !! _). }
    pose proof (lowbit_low index Hi) as Li. pose proof (low_pos _ _ Li) as Hpos.
    pose proof (low_le index _ ltac:(lia) Li) as Hle.
    destruct (lookup_lt_is_Some_2 bit (Z.to_nat index)) as [v Ev].
    { unfold last_index in Hn. lia. }
    rewrite Ev. cbn [ok_or mbind Result_bind].
    rewrite (Hop index v) by (done || lia). cbn [ok_or mbind Result_bind].
    assert (U64 = 2 * 2 ^ 63) as EU by reflexivity.
    destruct (IH (<[Z.to_nat index := g v]> bit) (index + lowbit index)) as (bit' & Er & El & Hk').
    + unfold last_index in *. by rewrite length_insert.
    + lia.
    + lia.
    + intros k w Hk Hc Hw. rewrite list_lookup_insert_ne in Hw by lia.
      apply (Hop k w); [lia| |done]. apply (cover_step index k); lia.
    + exists bit'. split; [done|]. split; [by rewrite El, length_insert|].
      intros k Hk. rewrite Hk' by done. pose proof (cover_step index k Hi ltac:(lia)) as Hc.
      destruct (Z.eq_dec k index) as [->|Hne].
      * rewrite list_lookup_insert_eq by (unfold last_index in Hn; lia). rewrite Ev. simpl.
        rewrite (proj2 (Z.leb_gt (index + lowbit index) index)), andb_false_r by lia.
        rewrite (proj2 (Z.ltb_lt _ _)), (proj2 (Z.leb_le index index)) by lia. done.
      * rewrite list_lookup_insert_ne by lia.
        assert ((k - lowbit k <? index + lowbit index) && (index + lowbit index <=? k) =
                (k - lowbit k <? index) && (index <=? k)) as ->; [|done].
        apply eq_true_iff_eq. rewrite !andb_true_iff, !Z.ltb_lt, !Z.leb_le. lia.
Qed.

(** What a deposit of [d] tickets, or of [-d] on a cancellation, makes of the tree. *)
Lemma bit_update_tree op d t bit index :
  tree t bit -> 1 <= index <= last_index bit ->
  (forall k, index <= k <= last_index bit -> k - lowbit k < index ->
     let v := prefix t k - prefix t (k - lowbit k) in op v = Some (v + d)) ->
  exists bit', bit_update op bit index = ROk bit' /\ length bit' = length bit /\
    tree (update t index d) bit'.
Proof.
  intros (Hl & Hn & Ht) Hi Hop. unfold bit_update.
  assert (U64 = 2 * 2 ^ 63) as EU by reflexivity.
  rewrite (proj2 (Z.eqb_neq index 0)), (proj2 (Z.ltb_ge _ index)) by lia. simpl.
  destruct (bit_loop_spec op (fun v => v + d) (last_index bit) (length bit) bit index)
    as (bit' & Er & El & Hk); [done|unfold last_index in *; lia|lia|unfold last_index in *; lia| |].
  { intros k v Hk Hc Hv. rewrite Ht in Hv by lia. injection Hv as <-. by apply Hop. }
  exists bit'. split; [done|]. split; [done|].
  assert (last_index bit' = last_index bit) as En by (unfold last_index; by rewrite El).
  split; [by rewrite El|]. rewrite En. split; [done|]. intros k Hk'. rewrite Hk, Ht by done. simpl.
  pose proof (lowbit_low k ltac:(lia)) as Lk. pose proof (low_pos _ _ Lk).
  pose proof (low_le k _ ltac:(lia) Lk). f_equal. rewrite !prefix_update by lia.
  destruct (Z.ltb_spec (k - lowbit k) index), (Z.leb_spec index k),
    (Z.leb_spec index (k - lowbit k)); simpl; unfold id; lia.
Qed.

Lemma holdings_node t n k :
  holdings t n -> 1 <= k <= n -> n < 2 ^ 63 ->
  0 <= prefix t k - prefix t (k - lowbit k) <= prefix t n.
Proof.
  intros [Ht Hs] Hk Hn. assert (U64 = 2 * 2 ^ 63) as EU by reflexivity.
  pose proof (lowbit_low k ltac:(lia)) as Lk. pose proof (low_pos _ _ Lk).
  pose proof (low_le k _ ltac:(lia) Lk).
  pose proof (prefix_mono t n (k - lowbit k) k Ht ltac:(lia) ltac:(lia) ltac:(lia)).
  pose proof (prefix_mono t n k n Ht ltac:(lia) ltac:(lia) ltac:(lia)).
  pose proof (prefix_mono t n 0 (k - lowbit k) Ht ltac:(lia) ltac:(lia) ltac:(lia)).
  rewrite prefix_0 in *. lia.
Qed.

Lemma bit_add_tree t bit index delta :
  tree t bit -> holdings t (last_index bit) -> 1 <= index <= last_index bit -> 0 <= delta ->
  prefix t (last_index bit) + delta < U64 ->
  exists bit', bit_add bit index delta = ROk bit' /\ length bit' = length bit /\
    tree (update t index delta) bit'.
Proof.
  intros Ht Hh Hi Hd Hs. apply bit_update_tree; [done..|]. intros k Hk Hc v.
  pose proof (holdings_node t _ k Hh ltac:(lia) ltac:(by destruct Ht as (_ & ? & _))) as Hv.
  unfold checked_add, v in *. by rewrite (proj2 (Z.ltb_lt _ _)) by lia.
Qed.

(** The tickets of one index are part of every node that covers it. *)
Lemma holdings_covered t n i k :
  holdings t n -> 1 <= i -> i <= k <= n -> k - lowbit k < i -> n < 2 ^ 63 ->
  t i <= prefix t k - prefix t (k - lowbit k).
Proof.
  intros [Ht Hs] Hi Hk Hc Hn. assert (U64 = 2 * 2 ^ 63) as EU by reflexivity.
  pose proof (lowbit_low k ltac:(lia)) as Lk. pose proof (low_le k _ ltac:(lia) Lk).
  pose proof (prefix_mono t n (k - lowbit k) (i - 1) Ht ltac:(lia) ltac:(lia) ltac:(lia)).
  pose proof (prefix_mono t n i k Ht ltac:(lia) ltac:(lia) ltac:(lia)).
  pose proof (prefix_succ t (i - 1) ltac:(lia)) as E. replace (i - 1 + 1) with i in E by lia. lia.
Qed.

Lemma bit_sub_tree t bit index delta :
  tree t bit -> holdings t (last_index bit) -> 1 <= index <= last_index bit ->
  delta <= t index ->
  exists bit', bit_sub bit index delta = ROk bit' /\ length bit' = length bit /\
    tree (update t index (- delta)) bit'.
Proof.
  intros Ht Hh Hi Hd. apply bit_update_tree; [done..|]. intros k Hk Hc v.
  pose proof (holdings_covered t _ index k Hh ltac:(lia) Hk Hc ltac:(by destruct Ht as (_ & ? & _))).
  unfold checked_sub, v in *. by rewrite (proj2 (Z.leb_le _ _)) by lia.
Qed.

Lemma holdings_update t n i d :
  holdings t n -> 1 <= i <= n -> 0 <= t i + d -> prefix t n + d < U64 -> holdings (update t i d) n.
Proof.
  intros [Ht Hs] Hi Hd Hsum. split.
  - intros j Hj. unfold update. destruct (Z.eqb_spec j i) as [->|]; [done|by apply Ht].
  - rewrite prefix_update by lia. destruct (Z.leb_spec i n); lia.
Qed.

(** ** The lookup *)

Lemma mask_loop_spec fuel n m e :
  m = 2 ^ e -> 0 <= e -> n < 2 ^ (e + Z.of_nat fuel) ->
  exists e', e <= e' <= e + Z.of_nat fuel /\ mask_loop fuel n m = 2 ^ e' /\ n < 2 ^ e'.
Proof.
  revert m e. induction fuel as [|fuel IH]; intros m e -> He Hn; simpl.
  - exists e. rewrite Z.add_0_r in Hn. split; [lia|done].
  - destruct (Z.ltb_spec n (2 ^ e)); [exists e; split; [lia|done]|].
    destruct (IH (Z.shiftl (2 ^ e) 1) (e + 1)) as (e' & He' & Em & Hlt).
    + rewrite Z.shiftl_mul_pow2, Z.pow_add_r by lia. lia.
    + lia.
    + by replace (e + 1 + Z.of_nat fuel) with (e + Z.of_nat (S fuel)) by lia.
    + exists e'. split; [lia|done].
Qed.

Section lookup.
Context (t : Z -> Z) (bit : list Z) (target : Z).
Local Abbreviation n := (last_index bit).
Context (Htree : tree t bit) (Hhold : holdings t n) (Htarget : 1 <= target <= prefix t n).

(** What is searched for lies above [idx], a multiple of [gap], and not above
    [idx + gap]. *)
Definition between (idx gap : Z) : Prop :=
  0 <= idx <= n /\ (exists a, idx = gap * a) /\ prefix t idx < target /\
  (idx + gap <= n -> target <= prefix t (idx + gap)).

Lemma node_at idx e :
  0 <= e -> 0 <= idx -> (exists a, idx = 2 * 2 ^ e * a) -> idx + 2 ^ e <= n ->
  bit !! Z.to_nat (idx + 2 ^ e) = Some (prefix t (idx + 2 ^ e) - prefix t idx).
Proof.
  intros He Hi [a Ea] Hn. destruct Htree as (_ & Hmax & Hnode).
  assert (U64 = 2 * 2 ^ 63) as EU by reflexivity.
  assert (0 < 2 ^ e) by (apply Z.pow_pos_nonneg; lia).
  rewrite Hnode by lia. do 3 f_equal.
  rewrite (lowbit_of_low _ (2 ^ e)); [lia|lia|]. exists e, a. split; [done|]. split; [done|lia].
Qed.

Lemma find_step fuel e idx :
  0 <= e -> between idx (2 * 2 ^ e) ->
  exists idx', between idx' (2 ^ e) /\
    find_loop (S fuel) bit n target (2 ^ e) idx (prefix t idx) =
    find_loop fuel bit n target (Z.shiftr (2 ^ e) 1) idx' (prefix t idx').
Proof.
  intros He (Hi & [a Ea] & Hlo & Hhi). assert (0 < 2 ^ e) by (apply Z.pow_pos_nonneg; lia).
  cbn [find_loop]. rewrite (proj2 (Z.leb_gt _ _)) by lia.
  destruct (Z.leb_spec (idx + 2 ^ e) n) as [Hle|Hgt].
  - rewrite (node_at idx e) by (done || lia || by exists a). cbn [ok_or mbind Result_bind].
    destruct Hhold as [Hnn Hs].
    pose proof (prefix_mono t n (idx + 2 ^ e) n Hnn ltac:(lia) ltac:(lia) ltac:(lia)).
    unfold checked_add. rewrite (proj2 (Z.ltb_lt _ _)) by lia. cbn [ok_or mbind Result_bind].
    replace (prefix t idx + (prefix t (idx + 2 ^ e) - prefix t idx)) with (prefix t (idx + 2 ^ e)) by lia.
    destruct (Z.ltb_spec (prefix t (idx + 2 ^ e)) target).
    + exists (idx + 2 ^ e). split; [|done]. split; [lia|]. split; [exists (2 * a + 1); lia|].
      split; [done|]. by replace (idx + 2 ^ e + 2 ^ e) with (idx + 2 * 2 ^ e) by lia.
    + exists idx. split; [|done]. split; [lia|]. split; [exists (2 * a); lia|]. by split.
  - exists idx. split; [|done]. split; [lia|]. split; [exists (2 * a); lia|]. split; [done|lia].
Qed.

Lemma find_loop_between s fuel idx :
  (s < fuel)%nat -> between idx (2 * 2 ^ Z.of_nat s) ->
  exists r, find_loop fuel bit n target (2 ^ Z.of_nat s) idx (prefix t idx) = ROk r /\ between r 1.
Proof.
  revert fuel idx. induction s as [|s IH]; intros [|fuel] idx Hf Hb; try lia.
  - destruct (find_step fuel 0 idx ltac:(lia) Hb) as (r & Hr & E). exists r.
    change (2 ^ Z.of_nat 0) with (2 ^ 0). rewrite E. by destruct fuel.
  - destruct (find_step fuel (Z.of_nat (S s)) idx ltac:(lia) Hb) as (r & Hr & E).
    assert (2 ^ Z.of_nat (S s) = 2 * 2 ^ Z.of_nat s) as E2
      by (rewrite Nat2Z.inj_succ, Z.pow_succ_r by lia; done).
    rewrite E, E2, Z.shiftr_div_pow2, Z.pow_1_r, Z.mul_comm, Z.div_mul by lia.
    apply IH; [lia|]. by rewrite <- E2.
Qed.

Lemma bit_find_prefix_spec :
  exists r, bit_find_prefix bit target = ROk r /\ 1 <= r <= n /\
    prefix t (r - 1) < target <= prefix t r.
Proof.
  destruct Htree as (Hlen & Hmax & _). unfold bit_find_prefix.
  destruct (mask_loop_spec 64 n 1 0) as (e & He & Em & Hlt); [done|lia| |].
  { assert (2 ^ (0 + Z.of_nat 64) = 2 * 2 ^ 63) as -> by reflexivity. lia. }
  rewrite Em. replace e with (Z.of_nat (Z.to_nat e)) in * by lia.
  destruct (find_loop_between (Z.to_nat e) 65 0) as (r & Er & (Hr & _ & Hlo & Hhi)).
  - lia.
  - split; [unfold last_index in *; lia|]. split; [exists 0; lia|]. rewrite prefix_0. split; [lia|].
    intros. lia.
  - change (prefix t 0) with 0 in Er. rewrite Er. cbn [mbind Result_bind]. exists (r + 1).
    split; [done|]. replace (r + 1 - 1) with r by lia.
    destruct (Z.eq_dec r n) as [->|]; [lia|]. split; [lia|]. split; [done|]. apply Hhi. lia.
Qed.
End lookup.

(** The tickets [1 .. total]. *)
Definition tickets (total : Z) : list Z := seqZ 1 total.

Lemma prefix_interval t n i j x :
  (forall i, 1 <= i <= n -> 0 <= t i) -> 1 <= i <= n -> 1 <= j <= n ->
  prefix t (i - 1) < x <= prefix t i -> prefix t (j - 1) < x <= prefix t j -> i = j.
Proof.
  intros Ht Hi Hj Hx Hy. destruct (Z.lt_trichotomy i j) as [Hlt|[|Hlt]]; [|done|].
  - pose proof (prefix_mono t n i (j - 1) Ht ltac:(lia) ltac:(lia) ltac:(lia)). lia.
  - pose proof (prefix_mono t n j (i - 1) Ht ltac:(lia) ltac:(lia) ltac:(lia)). lia.
Qed.

Lemma count_interval (P : Z -> Prop) `{forall x, Decision (P x)} a b total :
  0 <= a <= b -> b <= total -> (forall x, 1 <= x <= total -> P x <-> a < x <= b) ->
  Z.of_nat (length (filter P (tickets total))) = b - a.
Proof.
  intros Ha Hb HP. unfold tickets.
  replace total with (a + ((b - a) + (total - b))) at 1 by lia. rewrite !seqZ_app, !filter_app by lia.
  rewrite (filter_drops P (seqZ 1 a)).
  2:{ apply Forall_forall. intros x Hx%elem_of_seqZ. rewrite HP; lia. }
  rewrite (filter_keeps P (seqZ (1 + a) _)).
  2:{ apply Forall_forall. intros x Hx%elem_of_seqZ. apply HP; lia. }
  rewrite (filter_drops P (seqZ (1 + a + _) _)).
  2:{ apply Forall_forall. intros x Hx%elem_of_seqZ. rewrite HP; lia. }
  simpl. rewrite app_nil_r, length_seqZ. lia.
Qed.

Lemma find_iff t bit x i :
  tree t bit -> holdings t (last_index bit) -> 1 <= x <= prefix t (last_index bit) ->
  1 <= i <= last_index bit ->
  bit_find_prefix bit x = ROk i <-> prefix t (i - 1) < x <= prefix t i.
Proof.
  intros Ht Hh Hx Hi. destruct (bit_find_prefix_spec t bit x Ht Hh Hx) as (r & -> & Hr & Hin).
  split; [by intros [= ->]|]. intros Hin'. f_equal.
  by apply (prefix_interval t (last_index bit) r i x (proj1 Hh)).
Qed.

(** The tree's lookup is exact and fair.  In a tree that holds [t], every ticket from 1
    to the total is found, at the one index whose range of tickets contains it; and each
    index is found for exactly as many of the tickets as it holds.  No lookup overflows. *)
Theorem lookup_is_fair t bit :
  tree t bit -> holdings t (last_index bit) ->
  (forall x, 1 <= x <= prefix t (last_index bit) ->
     exists i, bit_find_prefix bit x = ROk i /\ 1 <= i <= last_index bit /\
       prefix t (i - 1) < x <= prefix t i) /\
  (forall i, 1 <= i <= last_index bit ->
     Z.of_nat (length (filter (fun x => bit_find_prefix bit x = ROk i)
       (tickets (prefix t (last_index bit))))) = t i).
Proof.
  intros Ht Hh. split.
  - intros x Hx. by apply bit_find_prefix_spec.
  - intros i Hi. pose proof (prefix_succ t (i - 1) ltac:(lia)) as E.
    replace (i - 1 + 1) with i in E by lia. destruct Hh as [Hnn Hs].
    pose proof (prefix_mono t _ 0 (i - 1) Hnn ltac:(lia) ltac:(lia) ltac:(lia)) as H0.
    pose proof (Hnn i Hi). rewrite prefix_0 in H0.
    pose proof (prefix_mono t _ i (last_index bit) Hnn ltac:(lia) ltac:(lia) ltac:(lia)).
    rewrite (count_interval _ (prefix t (i - 1)) (prefix t i)); [lia|lia|lia|].
    intros x Hx. by apply find_iff.
Qed.

(** ** Sequences of updates *)

Inductive Op := Add (index delta : Z) | Sub (index delta : Z).

Definition step_tree (bit : list Z) (op : Op) : Result LayoutError (list Z) :=
  match op with Add i d => bit_add bit i d | Sub i d => bit_sub bit i d end.

Definition step_spec (t : Z -> Z) (op : Op) : Z -> Z :=
  match op with Add i d => update t i d | Sub i d => update t i (- d) end.

(** What the program ensures of an update before it makes it. *)
Definition op_ok (t : Z -> Z) (n : Z) (op : Op) : Prop :=
  match op with
  | Add i d => 1 <= i <= n /\ 0 <= d /\ prefix t n + d < U64
  | Sub i d => 1 <= i <= n /\ 0 <= d <= t i
  end.

Fixpoint run_tree (bit : list Z) (ops : list Op) : Result LayoutError (list Z) :=
  match ops with [] => ROk bit | op :: ops => bit' ← step_tree bit op; run_tree bit' ops end.

Fixpoint ops_ok (t : Z -> Z) (n : Z) (ops : list Op) : Prop :=
  match ops with [] => True | op :: ops => op_ok t n op /\ ops_ok (step_spec t op) n ops end.

Lemma step_refines t bit op :
  tree t bit -> holdings t (last_index bit) -> op_ok t (last_index bit) op ->
  exists bit', step_tree bit op = ROk bit' /\ last_index bit' = last_index bit /\
    tree (step_spec t op) bit' /\ holdings (step_spec t op) (last_index bit).
Proof.
  intros Ht Hh. destruct op as [i d|i d]; simpl.
  - intros (Hi & Hd & Hs). destruct (bit_add_tree t bit i d) as (bit' & E & El & Ht'); [done..|].
    exists bit'. split; [done|]. split; [unfold last_index; by rewrite El|]. split; [done|].
    apply holdings_update; [done|done| |done]. pose proof (proj1 Hh i Hi). lia.
  - intros (Hi & Hd). destruct (bit_sub_tree t bit i d) as (bit' & E & El & Ht'); [done..|lia|].
    exists bit'. split; [done|]. split; [unfold last_index; by rewrite El|]. split; [done|].
    apply holdings_update; [done|done|lia|]. pose proof (proj2 Hh). lia.
Qed.

(** Zero nodes hold no tickets. *)
Lemma empty_tree n : (1 <= n)%nat -> Z.of_nat n < 2 ^ 63 ->
  tree (fun _ => 0) (replicate n 0) /\ holdings (fun _ => 0) (Z.of_nat n - 1).
Proof.
  intros Hn Hm. assert (forall k, prefix (fun _ => 0) k = 0) as E.
  { intros k. unfold prefix. induction (Z.to_nat k) as [|m IH]; [done|]. simpl. by rewrite IH. }
  unfold tree, holdings, last_index. rewrite length_replicate. split; [split; [done|]; split; [lia|]|].
  - intros k Hk. rewrite !E. apply lookup_replicate_2. lia.
  - rewrite E. by split.
Qed.

Lemma run_tree_spec ops :
  ops_ok (fun _ => 0) MAX_PARTICIPANTS ops ->
  exists bit, run_tree (replicate (Z.to_nat ROUND_FENWICK_NODE_COUNT) 0) ops = ROk bit /\
    last_index bit = MAX_PARTICIPANTS /\
    tree (fold_left step_spec ops (fun _ => 0)) bit /\
    holdings (fold_left step_spec ops (fun _ => 0)) MAX_PARTICIPANTS.
Proof.
  destruct (empty_tree 201) as [Ht Hh]; [lia|lia|].
  change (Z.to_nat ROUND_FENWICK_NODE_COUNT) with 201%nat.
  change (Z.of_nat 201 - 1) with MAX_PARTICIPANTS in Hh.
  assert (last_index (replicate 201 0) = MAX_PARTICIPANTS) as En by done.
  revert Ht Hh En. generalize (replicate 201 0) as bit. generalize (fun _ : Z => 0) as t.
  induction ops as [|op ops IH]; intros t bit Ht Hh En; simpl; [by exists bit|].
  intros [Hop Hops]. rewrite <- En in Hop, Hh.
  destruct (step_refines t bit op Ht Hh Hop) as (bit' & -> & El & Ht' & Hh').
  rewrite En in *. by apply IH.
Qed.

(** C11: The tree of nodes implements the table of tickets.  From the zeroed account, every
    sequence of deposits and cancellations that the program lets through (indices 1 to
    200, the sum a [u64], nobody refunded more than they hold) runs without error and ends
    in a tree that holds exactly the tickets the sequence leaves to each index. *)
Theorem tree_refines_table ops :
  ops_ok (fun _ => 0) MAX_PARTICIPANTS ops ->
  exists bit, run_tree (replicate (Z.to_nat ROUND_FENWICK_NODE_COUNT) 0) ops = ROk bit /\
    last_index bit = MAX_PARTICIPANTS /\
    tree (fold_left step_spec ops (fun _ => 0)) bit /\
    holdings (fold_left step_spec ops (fun _ => 0)) MAX_PARTICIPANTS.
Proof. apply run_tree_spec. Qed.

(** ** A small round *)

(** Three deposits, a top-up and a cancellation. *)
Definition sample : list Op := [Add 1 100; Add 2 50; Add 3 25; Add 1 7; Sub 2 50].

Lemma tree_refines_table_witness :
  exists bit, run_tree (replicate 201 0) sample = ROk bit /\
    tree (fold_left step_spec sample (fun _ => 0)) bit.
Proof.
  destruct (tree_refines_table sample) as (bit & E & _ & Ht & _).
  - by vm_compute.
  - exists bit. split; [exact E|exact Ht].
Defined.

Lemma lookup_is_fair_witness :
  exists bit, run_tree (replicate 201 0) sample = ROk bit /\
    bit_find_prefix bit 107 = ROk 1 /\ bit_find_prefix bit 108 = ROk 3 /\
    Z.of_nat (length (filter (fun x => bit_find_prefix bit x = ROk 3) (tickets 132))) = 25.
Proof.
  destruct (run_tree_spec sample) as (bit & E & En & Ht & Hh); [by vm_compute|].
  exists bit. split; [exact E|].
  pose proof (lookup_is_fair _ bit Ht) as [_ Hf]; [by rewrite En|].
  split; [|split].
  - vm_compute in E. injection E as <-. by vm_compute.
  - vm_compute in E. injection E as <-. by vm_compute.
  - assert (prefix (fold_left step_spec sample (fun _ => 0)) MAX_PARTICIPANTS = 132) as Ep
      by (vm_compute; reflexivity).
    rewrite En, Ep in Hf. rewrite (Hf 3); [vm_compute; reflexivity|unfold MAX_PARTICIPANTS; lia].
Defined.
End Fenwick.
