(* ===== verification/RoundProgram.v ===== *)
(** * RoundProgram: the on-chain life of a round

    The handlers of jackpot_pinocchio_poc/src/handlers that open a round, take deposits,
    lock it, draw the winner, pay out, refund and close, with the token transfers their
    runtime wrappers (src/runtime) make around them.  The frontend, the crank and the
    actions API only ever reach these rounds through the instructions modelled here.

    An account is the record its bytes are a layout of (the byte layouts of the accounts
    the TypeScript code reads are in [Accounts]); [None] is an account that is still all
    zero.  The model follows one round address and its configuration; the checks that an
    account is the program's own (derived address, discriminator, owner) are what makes
    an account part of the state.  A failed instruction changes nothing.  The token
    program is a parameter. *)

From stdpp Require Import base list gmap.
From Stdlib Require Import ZArith Lia Strings.Byte.
From S2P Require Import Prelude DegenLogic Fenwick.
Import Fenwick.

Local Open Scope Z_scope.

(** ** Errors *)

Inductive JackpotCompatError :=
| Paused | RoundNotOpen | RoundNotLocked | RoundNotVrfRequested | RoundNotSettled | NoDepositsYet
| NotEnoughParticipants | NotEnoughTickets | RoundNotEnded | InvalidVault | InvalidTreasury
| InvalidUserUsdcAta | InvalidUsdcBalanceBefore | SlippageExceeded | DepositTooSmall
| MaxParticipantsReached | OnlyWinnerCanClaim | CompatMathOverflow | Unauthorized
| RoundNotCancellable | NoDepositToRefund | RoundNotCloseable | RoundExpired
| ParticipantRoundMismatch | MaxDepositExceeded | ParticipantNotEmpty | CancelNotAllowed
| DegenClaimLocked.

(** [Panicked] is a division by zero, [TokenError] an error of the token program. *)
Inductive ProgramError :=
| Custom (e : JackpotCompatError)
| InvalidAccountData | AccountAlreadyInitialized | MissingRequiredSignature
| Panicked | TokenError.

Definition map_layout_err (err : LayoutError) : ProgramError :=
  match err with MathOverflow => Custom CompatMathOverflow | _ => InvalidAccountData end.

Definition fails {A} (e : JackpotCompatError) : Result ProgramError A := RErr (Custom e).

(** [if cond { return Err(e) }] *)
Definition refuse_if (cond : bool) (e : ProgramError) : Result ProgramError unit :=
  if cond then RErr e else ROk tt.

Definition overflow {A} (x : option A) : Result ProgramError A := ok_or x (Custom CompatMathOverflow).

(** [checked_add] of [i64] and [u16], [checked_div] of [u64]. *)
Definition checked_add_i64 (a b : Z) : option Z :=
  if (- 2 ^ 63 <=? a + b) && (a + b <? 2 ^ 63) then Some (a + b) else None.
Definition checked_add_u16 (a b : Z) : option Z := if a + b <? 2 ^ 16 then Some (a + b) else None.
Definition checked_add_u32 (a b : Z) : option Z := if a + b <? 2 ^ 32 then Some (a + b) else None.
Definition checked_div (a b : Z) : option Z := if b =? 0 then None else Some (a / b).

(** ** Statuses *)

Definition ROUND_STATUS_OPEN : Z := 0.
Definition ROUND_STATUS_LOCKED : Z := 1.
Definition ROUND_STATUS_VRF_REQUESTED : Z := 2.
Definition ROUND_STATUS_SETTLED : Z := 3.
Definition ROUND_STATUS_CLAIMED : Z := 4.
Definition ROUND_STATUS_CANCELLED : Z := 5.
Definition DEGEN_MODE_NONE : Z := 0.

(** ** Accounts *)

Section program.
Context {Key : Type} `{Countable Key} (zero_key : Key).

Record ConfigView := mkConfigView {
  admin : Key;
  usdc_mint : Key;
  treasury_usdc_ata : Key;
  fee_bps : Z;
  ticket_unit : Z;
  round_duration_sec : Z;
  min_participants : Z;
  min_total_tickets : Z;
  paused : bool;
  max_deposit_per_user : Z
}.

Record Round := mkRound {
  round_id : Z;
  status : Z;
  bump : Z;
  start_ts : Z;
  end_ts : Z;
  first_deposit_ts : Z;
  total_usdc : Z;
  total_tickets : Z;
  participants_count : Z;
  r_vault : Key;
  r_randomness : bytes;
  r_winning_ticket : Z;
  r_winner : Key;
  r_participants : list Key;
  r_bit : list Z;
  r_vrf_payer : Key;
  r_vrf_reimbursed : Z;
  r_degen_mode : Z
}.

Record ParticipantView := mkParticipantView {
  p_round : Key;
  p_user : Key;
  p_index : Z;
  p_bump : Z;
  tickets_total : Z;
  usdc_total : Z;
  deposits_count : Z
}.

(** A token account; [ta_frozen] is looked at by the token program alone. *)
Record TokenAccount := mkTokenAccount {
  ta_mint : Key;
  ta_owner : Key;
  ta_amount : Z;
  ta_frozen : bool
}.

Definition set_status (r : Round) (s : Z) : Round :=
  mkRound (round_id r) s (bump r) (start_ts r) (end_ts r) (first_deposit_ts r) (total_usdc r)
    (total_tickets r) (participants_count r) (r_vault r) (r_randomness r) (r_winning_ticket r)
    (r_winner r) (r_participants r) (r_bit r) (r_vrf_payer r) (r_vrf_reimbursed r) (r_degen_mode r).

Definition set_vrf_payer (r : Round) (k : Key) : Round :=
  mkRound (round_id r) (status r) (bump r) (start_ts r) (end_ts r) (first_deposit_ts r) (total_usdc r)
    (total_tickets r) (participants_count r) (r_vault r) (r_randomness r) (r_winning_ticket r)
    (r_winner r) (r_participants r) (r_bit r) k (r_vrf_reimbursed r) (r_degen_mode r).

Definition set_vrf_reimbursed (r : Round) (b : Z) : Round :=
  mkRound (round_id r) (status r) (bump r) (start_ts r) (end_ts r) (first_deposit_ts r) (total_usdc r)
    (total_tickets r) (participants_count r) (r_vault r) (r_randomness r) (r_winning_ticket r)
    (r_winner r) (r_participants r) (r_bit r) (r_vrf_payer r) b (r_degen_mode r).

Definition set_bit (r : Round) (b : list Z) : Round :=
  mkRound (round_id r) (status r) (bump r) (start_ts r) (end_ts r) (first_deposit_ts r) (total_usdc r)
    (total_tickets r) (participants_count r) (r_vault r) (r_randomness r) (r_winning_ticket r)
    (r_winner r) (r_participants r) b (r_vrf_payer r) (r_vrf_reimbursed r) (r_degen_mode r).

(** [write_to_account_data] of the lifecycle view: the fields it carries. *)
Definition set_totals (r : Round) (s ets fts usdc tickets count : Z) : Round :=
  mkRound (round_id r) s (bump r) (start_ts r) ets fts usdc
    tickets count (r_vault r) (r_randomness r) (r_winning_ticket r)
    (r_winner r) (r_participants r) (r_bit r) (r_vrf_payer r) (r_vrf_reimbursed r) (r_degen_mode r).

Definition set_participants (r : Round) (ps : list Key) : Round :=
  mkRound (round_id r) (status r) (bump r) (start_ts r) (end_ts r) (first_deposit_ts r) (total_usdc r)
    (total_tickets r) (participants_count r) (r_vault r) (r_randomness r) (r_winning_ticket r)
    (r_winner r) ps (r_bit r) (r_vrf_payer r) (r_vrf_reimbursed r) (r_degen_mode r).

Definition set_outcome (r : Round) (rand : bytes) (ticket : Z) (w : Key) : Round :=
  mkRound (round_id r) (status r) (bump r) (start_ts r) (end_ts r) (first_deposit_ts r) (total_usdc r)
    (total_tickets r) (participants_count r) (r_vault r) rand ticket
    w (r_participants r) (r_bit r) (r_vrf_payer r) (r_vrf_reimbursed r) (r_degen_mode r).

(** ** Handlers *)

Local Abbreviation R := (Result ProgramError).
Local Notation "a != b" := (negb (bool_decide (a = b))) (at level 70).

(** start_round.rs; the rest of a fresh account is zero. *)
Definition start_round (round_pubkey vault_pubkey usdc_mint_pubkey : Key) (round_bump now : Z)
    (config : ConfigView) (round : option Round) (vault : TokenAccount) (id : Z) : R Round :=
  refuse_if (paused config) (Custom Paused) ;;
  refuse_if (usdc_mint config != usdc_mint_pubkey) (Custom InvalidVault) ;;
  refuse_if (bool_decide (round <> None)) AccountAlreadyInitialized ;;
  refuse_if ((ta_mint vault != usdc_mint config) || (ta_owner vault != round_pubkey)) (Custom InvalidVault) ;;
  mret (mkRound id ROUND_STATUS_OPEN round_bump now 0 0 0 0 0 vault_pubkey (replicate 32 x00) 0
          zero_key (replicate (Z.to_nat MAX_PARTICIPANTS) zero_key)
          (replicate (Z.to_nat ROUND_FENWICK_NODE_COUNT) 0) zero_key 0 DEGEN_MODE_NONE).

Record DepositAnyArgs := mkDepositAnyArgs {
  da_round_id : Z;
  da_usdc_balance_before : Z;
  da_min_out : Z
}.

(** A zeroed account becomes a participant of no round. *)
Definition read_or_init_participant (data : option ParticipantView) (user_pubkey : Key)
    (participant_bump : Z) : ParticipantView :=
  match data with
  | None => mkParticipantView zero_key user_pubkey 0 participant_bump 0 0 0
  | Some p => p
  end.

(** The registration of a participant of another round: the participant, the new count and
    the round with the key written. *)
Definition register_participant (round_pubkey user_pubkey : Key) (participant_bump : Z)
    (round : Round) (participant : ParticipantView) : R (Round * ParticipantView * Z) :=
  if p_round participant != round_pubkey then
    next ← overflow (checked_add_u16 (participants_count round) 1);
    refuse_if (MAX_PARTICIPANTS <? next) (Custom MaxParticipantsReached) ;;
    mret (set_participants round (<[Z.to_nat (next - 1) := user_pubkey]> (r_participants round)),
          mkParticipantView round_pubkey user_pubkey next participant_bump 0 0 0, next)
  else mret (round, participant, participants_count round).

Definition deposit_any (user_pubkey round_pubkey vault_pubkey : Key) (participant_bump now : Z)
    (config : ConfigView) (round : Round) (data : option ParticipantView)
    (user_usdc_ata vault_ata : TokenAccount) (args : DepositAnyArgs)
    : R (Z * Round * ParticipantView) :=
  refuse_if (paused config) (Custom Paused) ;;
  refuse_if (round_id round != da_round_id args) InvalidAccountData ;;
  refuse_if (status round != ROUND_STATUS_OPEN) (Custom RoundNotOpen) ;;
  refuse_if (r_vault round != vault_pubkey) (Custom InvalidVault) ;;
  refuse_if ((ta_mint vault_ata != usdc_mint config) || (ta_owner vault_ata != round_pubkey))
    (Custom InvalidVault) ;;
  refuse_if ((ta_mint user_usdc_ata != usdc_mint config) || (ta_owner user_usdc_ata != user_pubkey))
    (Custom InvalidUserUsdcAta) ;;
  refuse_if ((end_ts round != 0) && (end_ts round <=? now)) (Custom RoundExpired) ;;
  refuse_if (ta_amount user_usdc_ata <? da_usdc_balance_before args) (Custom InvalidUsdcBalanceBefore) ;;
  delta ← overflow (checked_sub (ta_amount user_usdc_ata) (da_usdc_balance_before args));
  refuse_if (delta <? da_min_out args) (Custom SlippageExceeded) ;;
  tickets_added ← overflow (checked_div delta (ticket_unit config));
  refuse_if (tickets_added =? 0) (Custom DepositTooSmall) ;;
  let participant := read_or_init_participant data user_pubkey participant_bump in
  registered ← register_participant round_pubkey user_pubkey participant_bump round participant;
  let '(round, participant, count) := registered in
  let first := if first_deposit_ts round =? 0 then now else first_deposit_ts round in
  ends ← (if (end_ts round =? 0) && (min_participants config <=? count)
          then overflow (checked_add_i64 now (round_duration_sec config))
          else mret (end_ts round));
  new_usdc_total ← overflow (checked_add (usdc_total participant) delta);
  refuse_if ((0 <? max_deposit_per_user config) && (max_deposit_per_user config <? new_usdc_total))
    (Custom MaxDepositExceeded) ;;
  new_tickets ← overflow (checked_add (tickets_total participant) tickets_added);
  deposits ← overflow (checked_add_u32 (deposits_count participant) 1);
  tickets ← overflow (checked_add (total_tickets round) tickets_added);
  usdc ← overflow (checked_add (total_usdc round) delta);
  let round := set_totals round (status round) ends first usdc tickets count in
  let participant := mkParticipantView (p_round participant) (p_user participant)
    (p_index participant) (p_bump participant) new_tickets new_usdc_total deposits in
  bit ← map_err map_layout_err (bit_add (r_bit round) (p_index participant) tickets_added);
  mret (delta, set_bit round bit, participant).

Definition lock_round (config : ConfigView) (round : Round) (now : Z) : R Round :=
  refuse_if (status round != ROUND_STATUS_OPEN) (Custom RoundNotOpen) ;;
  refuse_if (first_deposit_ts round =? 0) (Custom NoDepositsYet) ;;
  refuse_if (participants_count round <? min_participants config) (Custom NotEnoughParticipants) ;;
  refuse_if (total_tickets round <? min_total_tickets config) (Custom NotEnoughTickets) ;;
  refuse_if (now <? end_ts round) (Custom RoundNotEnded) ;;
  mret (set_status round ROUND_STATUS_LOCKED).

Definition request_vrf (payer : Key) (config : ConfigView) (round : Round) : R Round :=
  refuse_if (status round != ROUND_STATUS_LOCKED) (Custom RoundNotLocked) ;;
  refuse_if (participants_count round <? min_participants config) (Custom NotEnoughParticipants) ;;
  refuse_if (total_tickets round <? min_total_tickets config) (Custom NotEnoughTickets) ;;
  mret (set_vrf_payer (set_status round ROUND_STATUS_VRF_REQUESTED) payer).

(** [u128::from_le_bytes(randomness[..16]) % (total as u128)) as u64 + 1]; the remainder of
    a division by zero panics. *)
Definition derive_winning_ticket (randomness : bytes) (total : Z) : R Z :=
  refuse_if (total =? 0) Panicked ;; mret (le_decode (take 16 randomness) mod total + 1).

Definition vrf_callback (config : ConfigView) (round : Round) (randomness : bytes) : R Round :=
  refuse_if (status round != ROUND_STATUS_VRF_REQUESTED) (Custom RoundNotVrfRequested) ;;
  refuse_if (participants_count round <? min_participants config) (Custom NotEnoughParticipants) ;;
  refuse_if (total_tickets round <? min_total_tickets config) (Custom NotEnoughTickets) ;;
  winning_ticket ← derive_winning_ticket randomness (total_tickets round);
  winner_idx ← map_err map_layout_err (bit_find_prefix (r_bit round) winning_ticket);
  winner ← ok_or (r_participants round !! Z.to_nat (winner_idx - 1)) InvalidAccountData;
  mret (set_status (set_outcome round randomness winning_ticket winner) ROUND_STATUS_SETTLED).

(** Whether the VRF payer is reimbursed: only when its token account was passed. *)
Definition reimburse_vrf (config : ConfigView) (round : Round) (payer_ata : option TokenAccount) : bool :=
  (r_vrf_payer round != zero_key) && (r_vrf_reimbursed round =? 0) &&
  match payer_ata with
  | Some ata => bool_decide (ta_mint ata = usdc_mint config) && bool_decide (ta_owner ata = r_vrf_payer round)
  | None => false
  end.

(** claim.rs and auto_claim.rs differ in who is asked to be the winner: [None] is
    [auto_claim], which takes the winner from the round. *)
Definition claim_checked (claimer : option Key) (round_pubkey vault_pubkey : Key) (config : ConfigView)
    (round : Round) (vault winner_ata : TokenAccount) (treasury_pubkey : Key)
    (treasury_ata : TokenAccount) (payer_ata : option TokenAccount) : R (ClaimAmounts * Round) :=
  refuse_if (status round != ROUND_STATUS_SETTLED) (Custom RoundNotSettled) ;;
  refuse_if (r_degen_mode round != DEGEN_MODE_NONE) (Custom DegenClaimLocked) ;;
  refuse_if (match claimer with Some w => r_winner round != w | None => false end) (Custom OnlyWinnerCanClaim) ;;
  refuse_if ((r_vault round != vault_pubkey) || (ta_mint vault != usdc_mint config) ||
         (ta_owner vault != round_pubkey)) (Custom InvalidVault) ;;
  refuse_if ((ta_mint winner_ata != usdc_mint config) || (ta_owner winner_ata != r_winner round))
    (Custom InvalidUserUsdcAta) ;;
  refuse_if ((treasury_pubkey != treasury_usdc_ata config) || (ta_mint treasury_ata != usdc_mint config))
    (Custom InvalidTreasury) ;;
  amounts ← overflow (compute_claim_amounts (total_usdc round) (fee_bps config)
                        (reimburse_vrf config round payer_ata));
  let round := set_status round ROUND_STATUS_CLAIMED in
  mret (amounts, if 0 <? a_vrf_reimburse amounts then set_vrf_reimbursed round 1 else round).

Definition claim (winner : Key) := claim_checked (Some winner).
Definition auto_claim := claim_checked None.

Definition cancel_round (user_pubkey round_pubkey vault_pubkey : Key) (config : ConfigView)
    (round : Round) (participant : ParticipantView) (vault user_usdc_ata : TokenAccount)
    : R (Z * Round * ParticipantView) :=
  refuse_if (p_user participant != user_pubkey) (Custom Unauthorized) ;;
  refuse_if (p_round participant != round_pubkey) (Custom Unauthorized) ;;
  let refund_amount := usdc_total participant in
  refuse_if (refund_amount =? 0) (Custom NoDepositToRefund) ;;
  refuse_if (status round != ROUND_STATUS_OPEN) (Custom RoundNotCancellable) ;;
  refuse_if (total_usdc round != refund_amount) (Custom CancelNotAllowed) ;;
  refuse_if ((r_vault round != vault_pubkey) || (ta_owner vault != round_pubkey)) (Custom InvalidVault) ;;
  refuse_if ((ta_owner user_usdc_ata != user_pubkey) || (ta_mint user_usdc_ata != usdc_mint config))
    (Custom InvalidUserUsdcAta) ;;
  let cancelled_tickets := tickets_total participant in
  refuse_if (p_index participant =? 0) InvalidAccountData ;;
  bit ← map_err map_layout_err (bit_sub (r_bit round) (p_index participant) cancelled_tickets);
  usdc ← overflow (checked_sub (total_usdc round) refund_amount);
  tickets ← overflow (checked_sub (total_tickets round) cancelled_tickets);
  let st := if usdc =? 0 then ROUND_STATUS_CANCELLED else status round in
  mret (refund_amount,
        set_totals (set_bit round bit) st (end_ts round) (first_deposit_ts round) usdc tickets
          (participants_count round),
        mkParticipantView (p_round participant) (p_user participant) (p_index participant)
          (p_bump participant) 0 0 (deposits_count participant)).

Definition claim_refund (user_pubkey round_pubkey vault_pubkey : Key) (config : ConfigView)
    (round : Round) (participant : ParticipantView) (vault user_usdc_ata : TokenAccount)
    : R (Z * ParticipantView) :=
  refuse_if (p_user participant != user_pubkey) (Custom Unauthorized) ;;
  refuse_if (p_round participant != round_pubkey) (Custom ParticipantRoundMismatch) ;;
  let refund_amount := usdc_total participant in
  refuse_if (refund_amount =? 0) (Custom NoDepositToRefund) ;;
  refuse_if (status round != ROUND_STATUS_CANCELLED) (Custom RoundNotCancellable) ;;
  refuse_if ((r_vault round != vault_pubkey) || (ta_owner vault != round_pubkey)) (Custom InvalidVault) ;;
  refuse_if ((ta_owner user_usdc_ata != user_pubkey) || (ta_mint user_usdc_ata != usdc_mint config))
    (Custom InvalidUserUsdcAta) ;;
  mret (refund_amount,
        mkParticipantView (p_round participant) (p_user participant) (p_index participant)
          (p_bump participant) 0 0 (deposits_count participant)).

Definition admin_force_cancel (admin_pubkey : Key) (config : ConfigView) (round : Round) : R Round :=
  refuse_if (admin config != admin_pubkey) (Custom Unauthorized) ;;
  refuse_if (negb ((status round =? ROUND_STATUS_OPEN) || (status round =? ROUND_STATUS_LOCKED) ||
               (status round =? ROUND_STATUS_VRF_REQUESTED))) (Custom RoundNotCancellable) ;;
  mret (set_status round ROUND_STATUS_CANCELLED).

Definition closeable (round : Round) : bool :=
  (status round =? ROUND_STATUS_CLAIMED) || (status round =? ROUND_STATUS_CANCELLED).

Definition close_participant (user_pubkey round_pubkey : Key) (round : Round)
    (participant : ParticipantView) : R unit :=
  refuse_if (negb (closeable round)) (Custom RoundNotCloseable) ;;
  refuse_if (p_round participant != round_pubkey) (Custom ParticipantRoundMismatch) ;;
  refuse_if (p_user participant != user_pubkey) (Custom Unauthorized) ;;
  refuse_if ((status round =? ROUND_STATUS_CANCELLED) &&
         (negb (usdc_total participant =? 0) || negb (tickets_total participant =? 0)))
    (Custom ParticipantNotEmpty).

(** The handler returns what is left in the vault. *)
Definition close_round (round_pubkey : Key) (round : Round) (vault : TokenAccount) : R Z :=
  refuse_if (negb (closeable round)) (Custom RoundNotCloseable) ;;
  refuse_if (ta_owner vault != round_pubkey) (Custom InvalidVault) ;;
  mret (ta_amount vault).

(** ** The token program *)

Local Abbreviation Tokens := (gmap Key TokenAccount).

Definition set_amount (t : TokenAccount) (n : Z) : TokenAccount :=
  mkTokenAccount (ta_mint t) (ta_owner t) n (ta_frozen t).

(** [n] units moved from one account to another. *)
Definition moved (ts : Tokens) (from to : Key) (f t : TokenAccount) (n : Z) : Tokens :=
  <[to := set_amount t (ta_amount t + n)]> (<[from := set_amount f (ta_amount f - n)]> ts).

(** [Transfer] and [CloseAccount], with the key that signs. *)
Class TokenProgram := {
  tk_transfer : Tokens -> Key -> Key -> Key -> Z -> Result ProgramError Tokens;
  tk_close : Tokens -> Key -> Key -> Result ProgramError Tokens
}.

Class TokenProgramLaws `{TokenProgram} : Prop := {
  (** what a transfer does when it succeeds *)
  transfer_effect : forall ts from to auth n ts', tk_transfer ts from to auth n = ROk ts' ->
    exists f t, ts !! from = Some f /\ ts !! to = Some t /\ 0 <= n <= ta_amount f /\
      ta_mint f = ta_mint t /\ (from <> to -> ts' = moved ts from to f t n) /\ (from = to -> ts' = ts);
  (** when it does: the owner signs, nothing is frozen, the balance is enough *)
  transfer_works : forall ts from to n f t, from <> to ->
    ts !! from = Some f -> ts !! to = Some t -> ta_mint f = ta_mint t ->
    ta_frozen f = false -> ta_frozen t = false -> 0 <= n <= ta_amount f ->
    ta_amount t + n < U64 ->
    tk_transfer ts from to (ta_owner f) n = ROk (moved ts from to f t n);
  (** closing needs the owner and an empty account *)
  close_works : forall ts k t, ts !! k = Some t -> ta_amount t = 0 ->
    tk_close ts k (ta_owner t) = ROk (delete k ts);
  close_effect : forall ts k auth ts', tk_close ts k auth = ROk ts' -> ts' = delete k ts
}.

(** ** The runtime *)

(** The accounts of one round: its own, its participants' by user, and token accounts. *)
Record Chain := mkChain {
  ch_round : option Round;
  ch_participants : gmap Key ParticipantView;
  ch_tokens : Tokens
}.

Section runtime.
Context `{TokenProgram} (config : ConfigView) (round_key : Key).

Definition the_round (s : Chain) : R Round := ok_or (ch_round s) InvalidAccountData.
Definition token (s : Chain) (k : Key) : R TokenAccount := ok_or (ch_tokens s !! k) InvalidAccountData.
Definition participant_of (s : Chain) (user : Key) : R ParticipantView :=
  ok_or (ch_participants s !! user) InvalidAccountData.

(** A program-derived address signs no transaction. *)
Definition require_signer (k : Key) : R unit :=
  refuse_if (bool_decide (k = round_key)) MissingRequiredSignature.

Definition process_start_round (vault_key : Key) (bump now id : Z) (s : Chain) : R Chain :=
  vault ← token s vault_key;
  r ← start_round round_key vault_key (usdc_mint config) bump now config (ch_round s) vault id;
  mret (mkChain (Some r) (ch_participants s) (ch_tokens s)).

Definition process_deposit_any (user user_ata_key vault_key : Key) (bump now : Z)
    (args : DepositAnyArgs) (s : Chain) : R Chain :=
  require_signer user ;;
  r ← the_round s;
  user_ata ← token s user_ata_key;
  vault ← token s vault_key;
  res ← deposit_any user round_key vault_key bump now config r (ch_participants s !! user)
          user_ata vault args;
  let '(delta, r', p') := res in
  ts ← tk_transfer (ch_tokens s) user_ata_key vault_key user delta;
  mret (mkChain (Some r') (<[user := p']> (ch_participants s)) ts).

Definition process_lock_round (now : Z) (s : Chain) : R Chain :=
  r ← the_round s; r' ← lock_round config r now;
  mret (mkChain (Some r') (ch_participants s) (ch_tokens s)).

(** The request to the oracle in between changes none of these accounts. *)
Definition process_request_vrf (payer : Key) (s : Chain) : R Chain :=
  r ← the_round s; r' ← request_vrf payer config r;
  mret (mkChain (Some r') (ch_participants s) (ch_tokens s)).

Definition process_vrf_callback (randomness : bytes) (s : Chain) : R Chain :=
  r ← the_round s; r' ← vrf_callback config r randomness;
  mret (mkChain (Some r') (ch_participants s) (ch_tokens s)).

(** The three transfers of a claim, in their order. *)
Definition transfer_claim_amounts (ts : Tokens) (vault_key winner_ata_key treasury_key : Key)
    (payer_ata_key : option Key) (amounts : ClaimAmounts) : R Tokens :=
  ts ← (match payer_ata_key with
        | Some k => if 0 <? a_vrf_reimburse amounts
                    then tk_transfer ts vault_key k round_key (a_vrf_reimburse amounts)
                    else mret ts
        | None => mret ts
        end);
  ts ← tk_transfer ts vault_key winner_ata_key round_key (a_payout amounts);
  if 0 <? a_fee amounts then tk_transfer ts vault_key treasury_key round_key (a_fee amounts)
  else mret ts.

(** [claimer] is the winner of [claim], [None] for [auto_claim], which anyone may send. *)
Definition process_claim (claimer : option Key) (vault_key winner_ata_key treasury_key : Key)
    (payer_ata_key : option Key) (s : Chain) : R Chain :=
  r ← the_round s;
  vault ← token s vault_key;
  winner_ata ← token s winner_ata_key;
  treasury ← token s treasury_key;
  payer_ata ← (match payer_ata_key with Some k => t ← token s k; mret (Some t) | None => mret None end);
  res ← claim_checked claimer round_key vault_key config r vault winner_ata treasury_key treasury payer_ata;
  let '(amounts, r') := res in
  ts ← transfer_claim_amounts (ch_tokens s) vault_key winner_ata_key treasury_key payer_ata_key amounts;
  mret (mkChain (Some r') (ch_participants s) ts).

Definition process_cancel_round (user vault_key user_ata_key : Key) (s : Chain) : R Chain :=
  require_signer user ;;
  r ← the_round s;
  p ← participant_of s user;
  vault ← token s vault_key;
  user_ata ← token s user_ata_key;
  res ← cancel_round user round_key vault_key config r p vault user_ata;
  let '(refund, r', p') := res in
  ts ← tk_transfer (ch_tokens s) vault_key user_ata_key round_key refund;
  mret (mkChain (Some r') (<[user := p']> (ch_participants s)) ts).

Definition process_claim_refund (user vault_key user_ata_key : Key) (s : Chain) : R Chain :=
  require_signer user ;;
  r ← the_round s;
  p ← participant_of s user;
  vault ← token s vault_key;
  user_ata ← token s user_ata_key;
  res ← claim_refund user round_key vault_key config r p vault user_ata;
  let '(refund, p') := res in
  ts ← tk_transfer (ch_tokens s) vault_key user_ata_key round_key refund;
  mret (mkChain (ch_round s) (<[user := p']> (ch_participants s)) ts).

Definition process_admin_force_cancel (adm : Key) (s : Chain) : R Chain :=
  r ← the_round s; r' ← admin_force_cancel adm config r;
  mret (mkChain (Some r') (ch_participants s) (ch_tokens s)).

(** The account is closed: its rent goes to the user. *)
Definition process_close_participant (user : Key) (s : Chain) : R Chain :=
  r ← the_round s;
  p ← participant_of s user;
  close_participant user round_key r p ;;
  mret (mkChain (ch_round s) (delete user (ch_participants s)) (ch_tokens s)).

(** With the optional seventh account, whatever the vault holds is first sent there; the
    account is only required to be writable. *)
Definition process_close_round (vault_key : Key) (treasury_key : option Key) (s : Chain) : R Chain :=
  r ← the_round s;
  vault ← token s vault_key;
  refuse_if (negb (bool_decide (ta_owner vault = round_key))) (Custom InvalidVault) ;;
  dust ← close_round round_key r vault;
  ts ← (match treasury_key with
        | Some k => if dust =? 0 then mret (ch_tokens s)
                    else tk_transfer (ch_tokens s) vault_key k round_key dust
        | None => mret (ch_tokens s)
        end);
  ts ← tk_close ts vault_key round_key;
  mret (mkChain None (ch_participants s) ts).
End runtime.
End program.
