(* ===== verification/RoundProgramSpec.v ===== *)
(** * RoundProgramSpec: what a round's accounts guarantee

    The reachable states of a round, from the moment its address is fresh, under every
    interleaving of the instructions of [RoundProgram] except the closing of the round,
    and of transfers by others that leave the vault alone.  The invariant [ledger] ties
    the Fenwick tree, the totals, the participant accounts and the vault together; from it
    follow that the winner holds the winning ticket, and that the vault covers what the
    round owes until it is paid out.

    The last section is about [close_round], which the invariant does not survive. *)

From stdpp Require Import base list gmap.
From Stdlib Require Import ZArith Lia Strings.Byte.
From S2P Require Import Prelude DegenLogic Fenwick RoundProgram.
Import Fenwick.

Local Open Scope Z_scope.

(** ** Inverting a successful instruction *)

Lemma refuse_if_ok c e u : refuse_if c e = ROk u -> c = false.
Proof. by destruct c. Qed.

Lemma ok_or_ok {E A} (x : option A) (e : E) a : ok_or x e = ROk a -> x = Some a.
Proof. destruct x; simpl; congruence. Qed.

Lemma map_err_ok {E F A} (f : E -> F) (m : Result E A) a : map_err f m = ROk a -> m = ROk a.
Proof. destruct m; simpl; congruence. Qed.

Ltac rinv H :=
  lazymatch type of H with
  | mbind _ _ = ROk _ =>
      let a := fresh "v" in let Ha := fresh "Hv" in
      apply result_bind_ok in H; destruct H as (a & Ha & H); rinv Ha; rinv H
  | refuse_if _ _ = ROk _ => apply refuse_if_ok in H
  | map_err _ _ = ROk _ => apply map_err_ok in H
  | overflow _ = ROk _ => apply ok_or_ok in H
  | ok_or _ _ = ROk _ => apply ok_or_ok in H
  | mret _ = ROk _ => injection H as H; try subst
  | _ => idtac
  end.

(** The guards as propositions. *)
Ltac guards :=
  repeat match goal with
  | H : _ || _ = false |- _ => apply orb_false_iff in H; destruct H
  | H : negb _ = false |- _ => apply negb_false_iff in H
  | H : bool_decide _ = true |- _ => apply bool_decide_eq_true_1 in H
  | H : bool_decide _ = false |- _ => apply bool_decide_eq_false_1 in H
  | H : Z.eqb _ _ = true |- _ => apply Z.eqb_eq in H
  | H : Z.eqb _ _ = false |- _ => apply Z.eqb_neq in H
  | H : Z.ltb _ _ = false |- _ => apply Z.ltb_ge in H
  end.

Lemma checked_add_some a b c : checked_add a b = Some c -> c = a + b /\ c < U64.
Proof. unfold checked_add. destruct (Z.ltb_spec (a + b) U64); [|done]. intros [= <-]. lia. Qed.

Lemma checked_sub_some a b c : checked_sub a b = Some c -> c = a - b /\ b <= a.
Proof. unfold checked_sub. destruct (Z.leb_spec b a); [|done]. intros [= <-]. lia. Qed.

Section spec.
Context {Key : Type} `{Countable Key} (zero_key : Key).
Context `{!TokenProgram (Key := Key)} `{!TokenProgramLaws (Key := Key)}.
Context (config : ConfigView (Key := Key)) (round_key : Key).

Local Abbreviation Round := (Round (Key := Key)).
Local Abbreviation ParticipantView := (ParticipantView (Key := Key)).
Local Abbreviation Chain := (Chain (Key := Key)).
Local Abbreviation Tokens := (gmap Key (TokenAccount (Key := Key))).

(** ** Runs *)

Inductive Instr :=
| StartRound (vault : Key) (bump now id : Z)
| DepositAny (user user_ata vault : Key) (bump now : Z) (args : DepositAnyArgs)
| LockRound (now : Z)
| RequestVrf (payer : Key)
| VrfCallback (randomness : bytes)
| Claim (claimer : option Key) (vault winner_ata treasury : Key) (payer_ata : option Key)
| CancelRound (user vault user_ata : Key)
| ClaimRefund (user vault user_ata : Key)
| ForceCancel (adm : Key)
| CloseParticipant (user : Key).

Definition exec (i : Instr) (s : Chain) : Result ProgramError Chain :=
  match i with
  | StartRound vault bump now id => process_start_round zero_key config round_key vault bump now id s
  | DepositAny user ata vault bump now args =>
      process_deposit_any zero_key config round_key user ata vault bump now args s
  | LockRound now => process_lock_round config now s
  | RequestVrf payer => process_request_vrf config payer s
  | VrfCallback randomness => process_vrf_callback config randomness s
  | Claim claimer vault w t p => process_claim zero_key config round_key claimer vault w t p s
  | CancelRound user vault ata => process_cancel_round config round_key user vault ata s
  | ClaimRefund user vault ata => process_claim_refund config round_key user vault ata s
  | ForceCancel adm => process_admin_force_cancel config adm s
  | CloseParticipant user => process_close_participant round_key user s
  end.

(** Balances are unsigned. *)
Definition tokens_ok (ts : Tokens) : Prop := forall k t, ts !! k = Some t -> 0 <= ta_amount t.

(** What others do with their tokens: the round's vault may only gain. *)
Definition foreign_transfers (s s' : Chain) : Prop :=
  ch_round s' = ch_round s /\ ch_participants s' = ch_participants s /\
  (tokens_ok (ch_tokens s) -> tokens_ok (ch_tokens s')) /\
  forall r v, ch_round s = Some r -> ch_tokens s !! r_vault r = Some v -> ta_owner v = round_key ->
    exists v', ch_tokens s' !! r_vault r = Some v' /\ ta_owner v' = round_key /\
      ta_mint v' = ta_mint v /\ ta_amount v <= ta_amount v'.

Inductive step (s s' : Chain) : Prop :=
| step_instr i : exec i s = ROk s' -> step s s'
| step_foreign : foreign_transfers s s' -> step s s'.

(** A round address nobody has used: no round, no participant of it. *)
Definition fresh (s : Chain) : Prop :=
  ch_round s = None /\ tokens_ok (ch_tokens s) /\
  forall user p, ch_participants s !! user = Some p -> p_round p <> round_key.

Inductive reachable : Chain -> Prop :=
| reach_fresh s : fresh s -> reachable s
| reach_step s s' : reachable s -> step s s' -> reachable s'.

(** ** The invariant *)

(** The round still counts its tickets: open, locked, drawn or settled. *)
Definition active (r : Round) : Prop := status r <= ROUND_STATUS_SETTLED.

(** A participant account of this round agrees with the tables [t] of tickets and [u] of
    deposits, and with the round's list of keys. *)
Record member (t u : Z -> Z) (r : Round) (user : Key) (p : ParticipantView) : Prop := {
  m_user : p_user p = user;
  m_signer : user <> round_key;
  m_index : 1 <= p_index p <= participants_count r;
  m_key : r_participants r !! Z.to_nat (p_index p - 1) = Some user;
  m_usdc : u (p_index p) = usdc_total p;
  m_tickets : active r -> t (p_index p) = tickets_total p
}.

Record ledger (t u : Z -> Z) (r : Round) (s : Chain) : Prop := {
  l_round : ch_round s = Some r;
  l_status : 0 <= status r <= ROUND_STATUS_CANCELLED;
  l_tokens : tokens_ok (ch_tokens s);
  l_tree : tree t (r_bit r);
  l_size : last_index (r_bit r) = MAX_PARTICIPANTS;
  l_keys : Z.of_nat (length (r_participants r)) = MAX_PARTICIPANTS;
  l_count : 0 <= participants_count r <= MAX_PARTICIPANTS;
  l_tickets : holdings t MAX_PARTICIPANTS;
  l_usdc : holdings u MAX_PARTICIPANTS;
  l_beyond : forall i, participants_count r < i -> t i = 0 /\ u i = 0;
  l_members : forall user p, ch_participants s !! user = Some p -> p_round p = round_key ->
    member t u r user p;
  l_everyone : active r -> forall i, 1 <= i <= participants_count r ->
    exists user p, ch_participants s !! user = Some p /\ p_round p = round_key /\ p_index p = i;
  l_totals : active r ->
    total_tickets r = prefix t MAX_PARTICIPANTS /\ total_usdc r = prefix u MAX_PARTICIPANTS;
  l_started : active r -> first_deposit_ts r <> 0 -> 0 < total_tickets r;
  l_drawing : status r = ROUND_STATUS_LOCKED \/ status r = ROUND_STATUS_VRF_REQUESTED ->
    first_deposit_ts r <> 0;
  l_winner : status r = ROUND_STATUS_SETTLED -> exists i, 1 <= i <= participants_count r /\
    r_participants r !! Z.to_nat (i - 1) = Some (r_winner r) /\
    prefix t (i - 1) < r_winning_ticket r <= prefix t i /\
    r_winning_ticket r = le_decode (take 16 (r_randomness r)) mod total_tickets r + 1;
  l_vault : status r <> ROUND_STATUS_CLAIMED -> exists v, ch_tokens s !! r_vault r = Some v /\
    ta_owner v = round_key /\ ta_mint v = usdc_mint config /\ prefix u MAX_PARTICIPANTS <= ta_amount v
}.

Definition inv (s : Chain) : Prop := fresh s \/ exists t u r, ledger t u r s.

(** ** Transfers *)

Implicit Types (ts : Tokens) (from to vault user : Key).

Lemma lookup_moved_to ts from to f t n : moved ts from to f t n !! to = Some (set_amount t (ta_amount t + n)).
Proof. apply lookup_insert_eq. Qed.

Lemma lookup_moved_from ts from to f t n :
  from <> to -> moved ts from to f t n !! from = Some (set_amount f (ta_amount f - n)).
Proof.
  intros Hne. unfold moved. rewrite lookup_insert_ne by done.
  apply lookup_insert_eq.
Qed.

Lemma lookup_moved_other (ts : Tokens) from to f t n k :
  k <> from -> k <> to -> moved ts from to f t n !! k = ts !! k.
Proof.
  intros ??. unfold moved. by rewrite !lookup_insert_ne by done.
Qed.

Lemma transfer_tokens_ok ts from to auth n ts' :
  tk_transfer ts from to auth n = ROk ts' -> tokens_ok ts -> tokens_ok ts'.
Proof.
  intros E Hok. destruct (transfer_effect _ _ _ _ _ _ E) as (f & t & Ef & Et & Hn & _ & Hm & Hs).
  destruct (decide (from = to)) as [->|Hne]; [by rewrite Hs|]. rewrite Hm by done.
  pose proof (Hok _ _ Ef). pose proof (Hok _ _ Et). intros k a. unfold moved.
  rewrite !lookup_insert_Some.
  intros [[_ <-]|[_ [[_ <-]|[_ Ha]]]]; simpl; [lia|lia|by apply (Hok k)].
Qed.

Lemma transfer_out ts vault to auth n ts' v :
  tk_transfer ts vault to auth n = ROk ts' -> ts !! vault = Some v -> vault <> to ->
  ts' !! vault = Some (set_amount v (ta_amount v - n)).
Proof.
  intros E Ev Hne. destruct (transfer_effect _ _ _ _ _ _ E) as (f & t & Ef & Et & Hn & _ & Hm & _).
  rewrite Hm by done. rewrite lookup_moved_from by done. congruence.
Qed.

Lemma transfer_in ts from vault auth n ts' v :
  tk_transfer ts from vault auth n = ROk ts' -> ts !! vault = Some v -> from <> vault ->
  ts' !! vault = Some (set_amount v (ta_amount v + n)).
Proof.
  intros E Ev Hne. destruct (transfer_effect _ _ _ _ _ _ E) as (f & t & Ef & Et & Hn & _ & Hm & _).
  rewrite Hm by done. rewrite lookup_moved_to. congruence.
Qed.

(** ** Instructions that keep the tables *)

Lemma member_ext t u r r' user p :
  member t u r user p -> participants_count r' = participants_count r ->
  r_participants r' = r_participants r -> (active r' -> active r) -> member t u r' user p.
Proof. intros [? ? Hi Hk ? ?] Ec Ek Ha. constructor; rewrite ?Ec, ?Ek; auto. Qed.

Local Ltac stat := unfold active, ROUND_STATUS_OPEN, ROUND_STATUS_LOCKED, ROUND_STATUS_VRF_REQUESTED,
  ROUND_STATUS_SETTLED, ROUND_STATUS_CLAIMED, ROUND_STATUS_CANCELLED in *; simpl in *.

(** A change of status alone, with the vault untouched. *)
Lemma ledger_status t u r r' s :
  ledger t u r s ->
  (exists st k, r' = set_vrf_payer (set_status r st) k /\ 0 <= st <= ROUND_STATUS_CANCELLED /\
     status r <= st /\ st <> ROUND_STATUS_CLAIMED /\ status r <> ROUND_STATUS_CLAIMED /\
     (st = ROUND_STATUS_LOCKED \/ st = ROUND_STATUS_VRF_REQUESTED -> first_deposit_ts r <> 0) /\
     st <> ROUND_STATUS_SETTLED) ->
  ledger t u r' (mkChain (Some r') (ch_participants s) (ch_tokens s)).
Proof.
  intros L (st & k & -> & Hst & Hle & Hc & Hc' & Hd & Hs). destruct L. constructor; simpl; try done.
  - intros user p Hp Hr. eapply member_ext; [by apply l_members0|done|done|stat; lia].
  - intros Ha. apply l_everyone0. stat; lia.
  - intros Ha. apply l_totals0. stat; lia.
  - intros Ha. apply l_started0. stat; lia.
  - intros. by apply l_vault0.
Qed.

Lemma lock_keeps t u r s now s' :
  ledger t u r s -> exec (LockRound now) s = ROk s' -> exists r', ledger t u r' s'.
Proof.
  intros L E. simpl in E. unfold process_lock_round, the_round in E. rewrite (l_round _ _ _ _ L) in E.
  rinv E. unfold lock_round in Hv0. rinv Hv0. guards. injection Hv as <-.
  eexists. apply (ledger_status t u r); [done|]. exists ROUND_STATUS_LOCKED, (r_vrf_payer r).
  split; [done|]. stat. split; [lia|]. split; [lia|]. split; [lia|]. split; [lia|]. split; [done|lia].
Qed.

Lemma request_keeps t u r s payer s' :
  ledger t u r s -> exec (RequestVrf payer) s = ROk s' -> exists r', ledger t u r' s'.
Proof.
  intros L E. simpl in E. unfold process_request_vrf, the_round in E. rewrite (l_round _ _ _ _ L) in E.
  rinv E. unfold request_vrf in Hv0. rinv Hv0. guards. injection Hv as <-.
  eexists. apply (ledger_status t u r); [done|]. exists ROUND_STATUS_VRF_REQUESTED, payer.
  split; [done|]. stat. split; [lia|]. split; [lia|]. split; [lia|]. split; [lia|].
  split; [|lia]. intros _. apply (l_drawing _ _ _ _ L). by left.
Qed.

Lemma force_cancel_keeps t u r s adm s' :
  ledger t u r s -> exec (ForceCancel adm) s = ROk s' -> exists r', ledger t u r' s'.
Proof.
  intros L E. simpl in E. unfold process_admin_force_cancel, the_round in E.
  rewrite (l_round _ _ _ _ L) in E. rinv E. unfold admin_force_cancel in Hv0. rinv Hv0. guards.
  injection Hv as <-.
  assert (status r <= ROUND_STATUS_VRF_REQUESTED).
  { destruct (Z.eqb_spec (status r) ROUND_STATUS_OPEN), (Z.eqb_spec (status r) ROUND_STATUS_LOCKED),
      (Z.eqb_spec (status r) ROUND_STATUS_VRF_REQUESTED); stat; try done; lia. }
  eexists. apply (ledger_status t u r); [done|]. exists ROUND_STATUS_CANCELLED, (r_vrf_payer r).
  split; [done|]. stat. split; [lia|]. split; [lia|]. split; [lia|]. split; [lia|]. split; lia.
Qed.

(** The index found for a ticket is one that is in use. *)
Lemma found_in_use t u r s x i :
  ledger t u r s -> bit_find_prefix (r_bit r) x = ROk i ->
  1 <= x <= prefix t MAX_PARTICIPANTS ->
  1 <= i <= participants_count r /\ prefix t (i - 1) < x <= prefix t i.
Proof.
  intros L E Hx. pose proof (l_size _ _ _ _ L) as En. pose proof (l_tickets _ _ _ _ L) as Ht.
  destruct (bit_find_prefix_spec t (r_bit r) x) as (j & Ej & Hj & Hin);
    [by destruct L|by rewrite En|by rewrite En|].
  rewrite E in Ej. injection Ej as <-. rewrite En in Hj. split; [|done]. split; [lia|].
  destruct (Z_le_gt_dec i (participants_count r)); [done|].
  pose proof (prefix_succ t (i - 1) ltac:(lia)) as Ep. replace (i - 1 + 1) with i in Ep by lia.
  destruct (l_beyond _ _ _ _ L i ltac:(lia)) as [E0 _]. lia.
Qed.

Lemma derive_ticket_range randomness total x :
  0 < total -> derive_winning_ticket randomness total = ROk x ->
  x = le_decode (take 16 randomness) mod total + 1 /\ 1 <= x <= total.
Proof.
  intros Ht E. unfold derive_winning_ticket in E. rinv E.
  pose proof (Z.mod_pos_bound (le_decode (take 16 randomness)) total Ht). lia.
Qed.

(** The draw, in full: what a successful callback writes. *)
Lemma callback_draws t u r s randomness r' :
  ledger t u r s -> vrf_callback config r randomness = ROk r' ->
  exists i winner, r' = set_status (set_outcome r randomness
      (le_decode (take 16 randomness) mod total_tickets r + 1) winner) ROUND_STATUS_SETTLED /\
    status r = ROUND_STATUS_VRF_REQUESTED /\
    1 <= i <= participants_count r /\ r_participants r !! Z.to_nat (i - 1) = Some winner /\
    prefix t (i - 1) < le_decode (take 16 randomness) mod total_tickets r + 1 <= prefix t i.
Proof.
  intros L E. unfold vrf_callback in E. rinv E. guards.
  assert (active r) as Ha by (stat; lia).
  assert (0 < total_tickets r) as Ht.
  { apply (l_started _ _ _ _ L); [done|]. apply (l_drawing _ _ _ _ L). by right. }
  destruct (derive_ticket_range _ _ _ Ht Hv2) as [-> Hx].
  destruct (l_totals _ _ _ _ L Ha) as [Et _].
  destruct (found_in_use t u r s _ _ L Hv3) as [Hi Hin]; [by rewrite <- Et|].
  by eexists _, _.
Qed.

Lemma callback_keeps t u r s randomness s' :
  ledger t u r s -> exec (VrfCallback randomness) s = ROk s' -> exists r', ledger t u r' s'.
Proof.
  intros L E. simpl in E. unfold process_vrf_callback, the_round in E.
  rewrite (l_round _ _ _ _ L) in E. rinv E. injection Hv as <-.
  destruct (callback_draws t u r s randomness _ L Hv0) as (i & w & -> & Hst & Hi & Hw & Hx).
  eexists. assert (active r) as Ha by (stat; lia). destruct L. constructor; simpl; try done; auto.
  - intros user p Hp Hr. eapply member_ext; [by apply l_members0|done|done|done].
  - intros _. by exists i.
  - intros _. apply l_vault0. stat. lia.
Qed.

Lemma close_participant_keeps t u r s user s' :
  ledger t u r s -> exec (CloseParticipant user) s = ROk s' -> ledger t u r s'.
Proof.
  intros L E. simpl in E. unfold process_close_participant, the_round, participant_of in E.
  pose proof (l_round _ _ _ _ L) as Er. rewrite Er in E. rinv E. injection Hv as <-.
  unfold close_participant in Hv1. rinv Hv1.
  assert (~ active r) as Hna.
  { unfold closeable in *. guards. stat. destruct (Z.eqb_spec (status r) 4), (Z.eqb_spec (status r) 5); try done; lia. }
  destruct L. constructor; simpl; try done.
  intros user' p Hp Hr. apply lookup_delete_Some in Hp as [_ Hp]. by apply l_members0.
Qed.

Lemma foreign_keeps t u r s s' : ledger t u r s -> foreign_transfers s s' -> ledger t u r s'.
Proof.
  intros L (Er & Ep & Hok & Hv). destruct L. constructor; rewrite ?Er, ?Ep; auto.
  intros Hs. destruct (l_vault0 Hs) as (v & Ev & Eo & Em & Hle).
  destruct (Hv r v l_round0 Ev Eo) as (v' & ? & ? & ? & ?). exists v'.
  split; [done|]. split; [done|]. split; [congruence|lia].
Qed.

(** ** Opening *)

Lemma start_opens s vault bump now id s' :
  fresh s -> exec (StartRound vault bump now id) s = ROk s' ->
  exists r, ledger (fun _ => 0) (fun _ => 0) r s'.
Proof.
  intros (Er & Hok & Hf) E. simpl in E. unfold process_start_round, token in E. rinv E.
  unfold start_round in Hv0. rinv Hv0. guards.
  destruct (empty_tree 201) as [Ht Hh]; [lia|lia|].
  assert (forall k, prefix (fun _ => 0) k = 0) as Ep.
  { intros k. unfold prefix. induction (Z.to_nat k) as [|m IH]; [done|]. simpl. by rewrite IH. }
  eexists. constructor; simpl; try done; stat; try lia.
  - intros user p Hp Hr. by destruct (Hf user p Hp).
  - intros _. exists v. split; [done|]. split; [done|]. split; [done|]. rewrite Ep. by apply (Hok _ _ Hv).
Qed.

(** ** Deposits *)

(** The tables after a deposit by the participant at index [i]. *)
Lemma table_update t n i d :
  holdings t n -> 1 <= i <= n -> 0 <= d -> prefix t n + d < U64 ->
  holdings (update t i d) n /\ prefix (update t i d) n = prefix t n + d.
Proof.
  intros Hh Hi Hd Hs. split.
  - apply holdings_update; [done|done| |done]. pose proof (proj1 Hh i Hi). lia.
  - rewrite prefix_update by lia. by rewrite (proj2 (Z.leb_le _ _)) by lia.
Qed.

Lemma update_other t i d j : j <> i -> update t i d j = t j.
Proof. intros Hj. unfold update. by rewrite (proj2 (Z.eqb_neq _ _)). Qed.

Lemma update_same t i d : update t i d i = t i + d.
Proof. unfold update. by rewrite Z.eqb_refl. Qed.

(** Registration gives the depositor an index of its own and keeps the tables. *)
Lemma register_member t u r s user bump r' p' count :
  round_key <> zero_key -> user <> round_key -> active r -> ledger t u r s ->
  register_participant round_key user bump r
    (read_or_init_participant zero_key (ch_participants s !! user) user bump) = ROk (r', p', count) ->
  p_round p' = round_key /\ p_user p' = user /\ participants_count r <= count <= MAX_PARTICIPANTS /\
  1 <= p_index p' <= count /\ u (p_index p') = usdc_total p' /\ t (p_index p') = tickets_total p' /\
  r' = set_participants r (r_participants r') /\ length (r_participants r') = length (r_participants r) /\
  r_participants r' !! Z.to_nat (p_index p' - 1) = Some user /\
  (forall user' p, user' <> user -> ch_participants s !! user' = Some p -> p_round p = round_key ->
     p_index p <> p_index p' /\
     r_participants r' !! Z.to_nat (p_index p - 1) = r_participants r !! Z.to_nat (p_index p - 1)) /\
  (forall i, 1 <= i <= count -> i <> p_index p' -> i <= participants_count r) /\
  (forall p, ch_participants s !! user = Some p -> p_round p = round_key -> p_index p = p_index p').
Proof.
  intros Hz Hu Ha L E. unfold register_participant in E.
  destruct (bool_decide (p_round _ = round_key)) eqn:Hp; simpl in E.
  - apply bool_decide_eq_true_1 in Hp. injection E as <- <- <-.
    destruct (ch_participants s !! user) as [p|] eqn:Ep; simpl in *; [|congruence].
    destruct (l_members _ _ _ _ L user p Ep Hp) as [? _ Hi Hk Hus Htk].
    pose proof (l_count _ _ _ _ L). split_and!; auto; try lia.
    + by destruct r.
    + intros user' p2 Hne Ep2 Hp2. destruct (l_members _ _ _ _ L user' p2 Ep2 Hp2) as [_ _ _ Hk2 _ _].
      split; [|done]. congruence.
    + congruence.
  - apply bool_decide_eq_false_1 in Hp. rinv E. guards.
    unfold checked_add_u16 in Hv. destruct (_ <? _); [|done]. injection Hv as <-.
    pose proof (l_count _ _ _ _ L) as Hc. pose proof (l_keys _ _ _ _ L) as Hl.
    destruct (l_beyond _ _ _ _ L (participants_count r + 1) ltac:(lia)) as [Et Eu].
    simpl. split_and!; auto; try lia.
    + by rewrite length_insert.
    + apply list_lookup_insert_eq. lia.
    + intros user' p2 Hne Ep2 Hp2. destruct (l_members _ _ _ _ L user' p2 Ep2 Hp2) as [_ _ Hi2 _ _ _].
      split; [lia|]. apply list_lookup_insert_ne. lia.
    + intros p2 Ep2. rewrite Ep2 in Hp. by simpl in Hp.
Qed.

(** What a successful deposit has checked and written. *)
Lemma deposit_effect user vault bump now r data ua va args delta r' p' :
  0 <= ticket_unit config ->
  deposit_any zero_key user round_key vault bump now config r data ua va args = ROk (delta, r', p') ->
  status r = ROUND_STATUS_OPEN /\ r_vault r = vault /\ ta_owner ua = user /\ ta_owner va = round_key /\
  exists r1 p1 count ends first added bit,
    0 <= delta /\ 0 < added /\
    register_participant round_key user bump r (read_or_init_participant zero_key data user bump)
      = ROk (r1, p1, count) /\
    total_tickets r1 + added < U64 /\ total_usdc r1 + delta < U64 /\
    bit_add (r_bit r1) (p_index p1) added = ROk bit /\
    r' = set_bit (set_totals r1 (status r1) ends first (total_usdc r1 + delta)
                    (total_tickets r1 + added) count) bit /\
    p' = mkParticipantView (p_round p1) (p_user p1) (p_index p1) (p_bump p1)
           (tickets_total p1 + added) (usdc_total p1 + delta) (deposits_count p1 + 1).
Proof.
  intros Hu E. unfold deposit_any in E. rinv E.
  lazymatch goal with Hr : register_participant _ _ _ _ _ = ROk ?v |- _ =>
    destruct v as [[r1 p1] count] end.
  rinv E. guards.
  repeat match goal with
  | Hs : checked_sub _ _ = Some _ |- _ => apply checked_sub_some in Hs as [-> ?]
  | Hs : checked_add _ _ = Some _ |- _ => apply checked_add_some in Hs as [-> ?]
  | Hs : checked_add_u32 _ _ = Some _ |- _ =>
      unfold checked_add_u32 in Hs; destruct (_ <? _) in Hs; [injection Hs as <-|done]
  | Hs : checked_div _ _ = Some _ |- _ =>
      unfold checked_div in Hs; destruct (Z.eqb_spec (ticket_unit config) 0); [done|injection Hs as <-]
  end.
  split_and!; try congruence. eexists r1, p1, count, _, _, _, _.
  split; [|split; [|split; [done|]; split; [done|]; split; [done|]; split; [done|]; split; done]].
  - lia.
  - pose proof (Z.div_pos (ta_amount ua - da_usdc_balance_before args) (ticket_unit config)). lia.
Qed.

Lemma deposit_keeps t u r s user ata vault bump now args s' :
  round_key <> zero_key -> 0 <= ticket_unit config ->
  ledger t u r s -> exec (DepositAny user ata vault bump now args) s = ROk s' ->
  exists t' u' r', ledger t' u' r' s'.
Proof.
  intros Hz Hunit L E. simpl in E. unfold process_deposit_any, the_round, token, require_signer in E.
  rewrite (l_round _ _ _ _ L) in E. rinv E. destruct v3 as [[delta r'] p']. rinv E. guards.
  injection Hv0 as <-. rename Hv into Hsig.
  apply deposit_effect in Hv3 as (Hst & <- & Hua & Hva & r1 & p1 & count & ends & first & added & bit &
    Hdelta & Hadd & Hreg & Ht64 & Hu64 & Hbit & -> & ->); [|done].
  assert (active r) as Ha by (stat; lia).
  destruct (register_member t u r s user bump r1 p1 count Hz Hsig Ha L Hreg)
    as (Hpr & Hpu & Hcount & Hidx & Eus & Etk & Er1 & Hlen & Hkey & Hothers & Hbelow & Hself).
  destruct (l_totals _ _ _ _ L Ha) as [Ett Etu]. pose proof (l_size _ _ _ _ L) as Esz.
  assert (total_tickets r1 = total_tickets r /\ total_usdc r1 = total_usdc r /\ r_bit r1 = r_bit r /\
    status r1 = status r /\ r_vault r1 = r_vault r) as (E1 & E2 & E3 & E4 & E5) by (by rewrite Er1).
  rewrite E1 in Ht64. rewrite E2 in Hu64. rewrite E3 in Hbit.
  destruct (bit_add_tree t (r_bit r) (p_index p1) added) as (bit' & Eb & Elb & Htree);
    [apply L|rewrite Esz; apply L|lia|lia|rewrite Esz; lia|].
  rewrite Hbit in Eb. injection Eb as <-.
  destruct (table_update t MAX_PARTICIPANTS (p_index p1) added) as [Hht Ept];
    [apply L|lia|lia|lia|].
  destruct (table_update u MAX_PARTICIPANTS (p_index p1) delta) as [Hhu Epu];
    [apply L|lia|lia|lia|].
  pose proof (prefix_mono t MAX_PARTICIPANTS 0 MAX_PARTICIPANTS (proj1 (l_tickets _ _ _ _ L))
    ltac:(lia) ltac:(done) ltac:(lia)) as Hnn. rewrite prefix_0 in Hnn.
  eexists (update t (p_index p1) added), (update u (p_index p1) delta), (set_bit _ bit).
  constructor; [reflexivity|..]; simpl; rewrite ?E1, ?E2, ?E4, ?E5, ?Hst; try done.
  - by eapply transfer_tokens_ok; [|apply L].
  - by rewrite <- Esz; unfold last_index; rewrite Elb.
  - rewrite Hlen. apply L.
  - pose proof (l_count _ _ _ _ L). lia.
  - intros i Hi. rewrite !update_other by lia. apply (l_beyond _ _ _ _ L). lia.
  - intros user' p Hp Hr. apply lookup_insert_Some in Hp as [[<- <-]|[Hne Hp]].
    + constructor; simpl; rewrite ?update_same, ?Eus, ?Etk; done || lia.
    + destruct (l_members _ _ _ _ L user' p Hp Hr) as [? ? Hi Hk Hus Htk].
      destruct (Hothers user' p) as [Hni Hk']; [done..|].
      constructor; simpl; rewrite ?update_other by done; auto; [lia|congruence].
  - intros _ i Hi. destruct (decide (i = p_index p1)) as [->|Hne].
    + exists user. eexists. rewrite lookup_insert_eq. by split.
    + destruct (l_everyone _ _ _ _ L Ha i) as (user' & p & Hp & Hr & Ei); [specialize (Hbelow i Hi Hne); lia|].
      exists user', p. rewrite lookup_insert_ne; [done|]. intros <-. by rewrite (Hself p Hp Hr) in Ei.
  - intros _. lia.
  - intros _ _. lia.
  - intros [Hd|Hd]; stat; lia.
  - intros _. destruct (l_vault _ _ _ _ L) as (w & Ew & Ewo & Ewm & Hw); [stat; lia|].
    assert (ata <> r_vault r) as Hne by congruence.
    rewrite (transfer_in _ _ _ _ _ _ _ Hv4 Ew Hne). eexists. split; [done|]. split; [done|].
    split; [done|]. simpl. lia.
Qed.

(** ** Refunds *)

(** The tables after the participant at index [i] got everything back. *)
Lemma table_refund t n i d :
  holdings t n -> 1 <= i <= n -> 0 <= d -> d = t i ->
  holdings (update t i (- d)) n /\ prefix (update t i (- d)) n = prefix t n - d.
Proof.
  intros Hh Hi Hd E. split.
  - apply holdings_update; [done|done|lia|]. pose proof (proj2 Hh). lia.
  - rewrite prefix_update by lia. rewrite (proj2 (Z.leb_le _ _)) by lia. lia.
Qed.

(** A participant whose deposit was paid back out of the vault. *)
Lemma refund_members t u r r' s user p p' :
  ledger t u r s -> ch_participants s !! user = Some p -> p_round p = round_key -> ~ active r' ->
  participants_count r' = participants_count r -> r_participants r' = r_participants r ->
  p' = mkParticipantView (p_round p) (p_user p) (p_index p) (p_bump p) 0 0 (deposits_count p) ->
  forall t' user' q, <[user := p']> (ch_participants s) !! user' = Some q -> p_round q = round_key ->
    member t' (update u (p_index p) (- usdc_total p)) r' user' q.
Proof.
  intros L Ep Hr Hna Ec Ek -> t' user' q Hq Hqr.
  destruct (l_members _ _ _ _ L user p Ep Hr) as [Hu Hs Hi Hk Hus _].
  apply lookup_insert_Some in Hq as [[<- <-]|[Hne Hq]].
  - constructor; simpl; rewrite ?Ec, ?Ek, ?update_same; done || lia.
  - destruct (l_members _ _ _ _ L user' q Hq Hqr) as [? ? Hi' Hk' Hus' _].
    assert (p_index q <> p_index p) by congruence.
    constructor; simpl; rewrite ?Ec, ?Ek, ?update_other by done; done.
Qed.

Lemma refund_vault t u r s user_ata refund ts' v ua auth :
  ledger t u r s -> status r <> ROUND_STATUS_CLAIMED ->
  ch_tokens s !! r_vault r = Some v -> ch_tokens s !! user_ata = Some ua ->
  ta_owner ua <> round_key ->
  tk_transfer (ch_tokens s) (r_vault r) user_ata auth refund = ROk ts' ->
  exists w, ts' !! r_vault r = Some w /\ ta_owner w = round_key /\ ta_mint w = usdc_mint config /\
    prefix u MAX_PARTICIPANTS - refund <= ta_amount w.
Proof.
  intros L Hst Ev Eua Ho E. destruct (l_vault _ _ _ _ L Hst) as (w & Ew & Ewo & Ewm & Hw).
  assert (r_vault r <> user_ata) as Hne by congruence.
  rewrite (transfer_out _ _ _ _ _ _ _ E Ew Hne). eexists. split; [done|]. split; [done|].
  split; [done|]. simpl. lia.
Qed.

Lemma claim_refund_keeps t u r s user vault ata s' :
  ledger t u r s -> exec (ClaimRefund user vault ata) s = ROk s' -> exists t' u' r', ledger t' u' r' s'.
Proof.
  intros L E. simpl in E.
  unfold process_claim_refund, the_round, token, participant_of, require_signer in E.
  pose proof (l_round _ _ _ _ L) as Er. rewrite Er in E. rinv E. destruct v4 as [refund p']. rinv E.
  injection Hv0 as <-. unfold claim_refund in Hv4. rinv Hv4. guards. subst.
  assert (~ active r) as Hna by (stat; lia).
  destruct (l_members _ _ _ _ L _ _ Hv1 ltac:(done)) as [_ _ Hi _ Hus _].
  pose proof (l_count _ _ _ _ L). pose proof (proj1 (l_usdc _ _ _ _ L) (p_index v1) ltac:(lia)) as Hpos.
  destruct (table_refund u MAX_PARTICIPANTS (p_index v1) (usdc_total v1)) as [Hh Ep];
    [apply L|lia|lia|done|].
  exists t, (update u (p_index v1) (- usdc_total v1)), r. pose proof L as L'. destruct L.
  constructor; simpl; try done.
  - by eapply transfer_tokens_ok.
  - intros i Hic. rewrite update_other by lia. auto.
  - eapply refund_members; done.
  - intros _. rewrite Ep. eapply (refund_vault t u r s); [done|stat; lia|done|done|congruence|done].
Qed.

Lemma cancel_keeps t u r s user vault ata s' :
  ledger t u r s -> exec (CancelRound user vault ata) s = ROk s' -> exists t' u' r', ledger t' u' r' s'.
Proof.
  intros L E. simpl in E.
  unfold process_cancel_round, the_round, token, participant_of, require_signer in E.
  pose proof (l_round _ _ _ _ L) as Er. rewrite Er in E. rinv E. destruct v4 as [[refund r'] p']. rinv E.
  injection Hv0 as <-. unfold cancel_round in Hv4. rinv Hv4. guards. subst.
  repeat match goal with Hs : checked_sub _ _ = Some _ |- _ => apply checked_sub_some in Hs as [-> ?] end.
  assert (active r) as Ha by (stat; lia).
  destruct (l_members _ _ _ _ L _ _ Hv1 ltac:(done)) as [_ _ Hi _ Hus Htk]. specialize (Htk Ha).
  pose proof (l_count _ _ _ _ L). pose proof (proj1 (l_usdc _ _ _ _ L) (p_index v1) ltac:(lia)) as Hpos.
  pose proof (proj1 (l_tickets _ _ _ _ L) (p_index v1) ltac:(lia)) as Hpos'.
  destruct (table_refund u MAX_PARTICIPANTS (p_index v1) (usdc_total v1)) as [Hh Ep];
    [apply L|lia|lia|done|].
  destruct (table_refund t MAX_PARTICIPANTS (p_index v1) (tickets_total v1)) as [Hht Ept];
    [apply L|lia|lia|done|].
  pose proof (l_size _ _ _ _ L) as Esz.
  destruct (bit_sub_tree t (r_bit r) (p_index v1) (tickets_total v1)) as (bit & Eb & Elb & Htree);
    [apply L|rewrite Esz; apply L|lia|lia|].
  match goal with Hb : bit_sub _ _ _ = ROk ?b |- _ => rewrite Eb in Hb; injection Hb as <- end.
  rewrite (proj2 (Z.eqb_eq (total_usdc r - usdc_total v1) 0)) in * by lia.
  eexists (update t (p_index v1) (- tickets_total v1)), (update u (p_index v1) (- usdc_total v1)), _.
  constructor; [reflexivity|..]; simpl; try (stat; done || lia).
  - eapply transfer_tokens_ok; [done|apply L].
  - by rewrite <- Esz; unfold last_index; rewrite Elb.
  - apply L.
  - intros i Hic. rewrite !update_other by lia. by apply (l_beyond _ _ _ _ L).
  - eapply refund_members; try done. stat. lia.
  - intros _. rewrite Ep. eapply (refund_vault t u r s); [done|stat; lia|done|done|congruence|done].
Qed.

(** ** The payout *)

Lemma claim_transfers_ok ts vault w t p amounts ts' :
  transfer_claim_amounts round_key ts vault w t p amounts = ROk ts' -> tokens_ok ts -> tokens_ok ts'.
Proof.
  intros E Hok. unfold transfer_claim_amounts in E. rinv E.
  assert (tokens_ok v) as Hok1.
  { destruct p as [k|]; [|by injection Hv as <-].
    destruct (0 <? a_vrf_reimburse amounts); [by eapply transfer_tokens_ok|by injection Hv as <-]. }
  assert (tokens_ok v0) as Hok2 by (by eapply transfer_tokens_ok).
  destruct (0 <? a_fee amounts); [by eapply transfer_tokens_ok|by injection E as <-].
Qed.

Lemma claim_keeps t u r s claimer vault w tr p s' :
  ledger t u r s -> exec (Claim claimer vault w tr p) s = ROk s' -> exists r', ledger t u r' s'.
Proof.
  intros L E. simpl in E. unfold process_claim, the_round, token in E.
  pose proof (l_round _ _ _ _ L) as Er. rewrite Er in E. rinv E. destruct v4 as [amounts r']. rinv E.
  injection Hv as <-. clear Hv3. unfold claim_checked in Hv4. rinv Hv4. guards.
  pose proof (claim_transfers_ok _ _ _ _ _ _ _ Hv5 (l_tokens _ _ _ _ L)) as Hok.
  set (r1 := set_status r ROUND_STATUS_CLAIMED).
  set (r2 := if _ : bool then _ else _).
  assert (r2 = set_vrf_reimbursed r1 (r_vrf_reimbursed r2)) as E2 by (unfold r2; by destruct (0 <? _)).
  exists r2. rewrite E2. destruct L. constructor; simpl; try (stat; done || lia).
  intros user q Hq Hr. eapply member_ext; [by apply l_members0|done|done|stat; lia].
Qed.

(** ** Reachable states *)

Section invariant.
Context (Hzero : round_key <> zero_key) (Hunit : 0 <= ticket_unit config).

Lemma exec_keeps t u r s i s' :
  ledger t u r s -> exec i s = ROk s' -> exists t' u' r', ledger t' u' r' s'.
Proof.
  intros L E. destruct i.
  - simpl in E. unfold process_start_round in E. rinv E. unfold start_round in Hv0. rinv Hv0. guards.
    rewrite (l_round _ _ _ _ L) in *. by destruct (decide (Some r = None)).
  - by eapply deposit_keeps.
  - destruct (lock_keeps _ _ _ _ _ _ L E). eauto.
  - destruct (request_keeps _ _ _ _ _ _ L E). eauto.
  - destruct (callback_keeps _ _ _ _ _ _ L E). eauto.
  - destruct (claim_keeps _ _ _ _ _ _ _ _ _ _ L E). eauto.
  - by eapply cancel_keeps.
  - by eapply claim_refund_keeps.
  - destruct (force_cancel_keeps _ _ _ _ _ _ L E). eauto.
  - pose proof (close_participant_keeps _ _ _ _ _ _ L E). eauto.
Qed.

(** Before the round is opened, only its opening succeeds. *)
Lemma exec_fresh s i s' :
  fresh s -> exec i s = ROk s' -> exists r, ledger (fun _ => 0) (fun _ => 0) r s'.
Proof.
  intros Hf E. destruct i; [by eapply start_opens|..]; exfalso; destruct Hf as [Er _]; simpl in E;
    unfold process_deposit_any, process_lock_round, process_request_vrf, process_vrf_callback,
      process_claim, process_cancel_round, process_claim_refund, process_admin_force_cancel,
      process_close_participant, the_round in E; rewrite Er in E; rinv E; done.
Qed.

Lemma round_reachable_inv s : reachable s -> inv s.
Proof.
  induction 1 as [s Hf|s s' _ [Hf|(t & u & r & L)] [i E|Ht]].
  - by left.
  - right. destruct (exec_fresh s i s' Hf E). eauto.
  - left. destruct Ht as (Er & Ep & Hok & _), Hf as (Er' & Hok' & Hp). split; [congruence|].
    split; [auto|]. by rewrite Ep.
  - right. by eapply exec_keeps.
  - right. exists t, u, r. by eapply foreign_keeps.
Qed.

(** ** Consequences *)

(** The participant accounts of this round, by user. *)
Definition participants_of (s : Chain) : list (Key * ParticipantView) :=
  map_to_list (filter (fun kp => p_round (snd kp) = round_key) (ch_participants s)).

Definition sumZ (l : list Z) : Z := foldr Z.add 0 l.

(** What the round's participants have deposited and not been given back. *)
Definition owed (s : Chain) : Z := sumZ ((fun kp => usdc_total (snd kp)) <$> participants_of s).

Lemma sum_submseteq (l k : list Z) : l ⊆+ k -> Forall (fun x => 0 <= x) k -> 0 <= sumZ l <= sumZ k.
Proof.
  induction 1 as [|x l k Hs IH|x y l|x l k Hs IH|l1 l2 l3 Hs1 IH1 Hs2 IH2]; simpl.
  - lia.
  - intros [Hx Hk]%Forall_cons. specialize (IH Hk). lia.
  - intros Hf. rewrite !Forall_cons in Hf. destruct Hf as (Hx & Hy & Hf).
    assert (0 <= sumZ l); [|lia].
    clear -Hf. induction Hf; simpl; lia.
  - intros [Hx Hk]%Forall_cons. specialize (IH Hk). lia.
  - intros Hf. specialize (IH2 Hf). assert (Forall (fun x => 0 <= x) l2) as Hf2.
    { apply Forall_forall. intros x Hx. rewrite Forall_forall in Hf. apply Hf.
      by eapply elem_of_submseteq. }
    specialize (IH1 Hf2). lia.
Qed.

Lemma sum_prefix (f : Z -> Z) (n : nat) : sumZ (f <$> seqZ 1 (Z.of_nat n)) = prefix f (Z.of_nat n).
Proof.
  induction n as [|n IH]; [done|]. rewrite seqZ_S, fmap_app.
  replace (Z.of_nat (S n)) with (Z.of_nat n + 1) by lia.
  rewrite prefix_succ by lia. rewrite <- IH. simpl. replace (1 + Z.of_nat n) with (Z.of_nat n + 1) by lia.
  generalize (f <$> seqZ 1 (Z.of_nat n)) as l. intros l.
  induction l as [|x l IHl]; simpl; [lia|]. rewrite IHl. lia.
Qed.

Lemma participants_of_spec s user p :
  (user, p) ∈ participants_of s <-> ch_participants s !! user = Some p /\ p_round p = round_key.
Proof. unfold participants_of. by rewrite elem_of_map_to_list, map_lookup_filter_Some. Qed.

(** Two participants of a round never share an index. *)
Lemma indices_distinct t u r s :
  ledger t u r s -> NoDup ((fun kp => p_index (snd kp)) <$> participants_of s).
Proof.
  intros L. apply NoDup_fmap_2_strong; [|apply NoDup_map_to_list].
  intros [k p] [k' p'] [Hp Hr]%participants_of_spec [Hp' Hr']%participants_of_spec. simpl. intros E.
  pose proof (m_key _ _ _ _ _ (l_members _ _ _ _ L k p Hp Hr)) as Hk.
  pose proof (m_key _ _ _ _ _ (l_members _ _ _ _ L k' p' Hp' Hr')) as Hk'. congruence.
Qed.

Lemma owed_by_index t u r s :
  ledger t u r s -> owed s = sumZ (u <$> ((fun kp => p_index (snd kp)) <$> participants_of s)).
Proof.
  intros L. unfold owed. f_equal.
  rewrite <- list_fmap_compose. apply list_fmap_ext. intros i [k p] Hi. simpl.
  apply list_elem_of_lookup_2, participants_of_spec in Hi as [Hp Hr].
  by rewrite (m_usdc _ _ _ _ _ (l_members _ _ _ _ L k p Hp Hr)).
Qed.

Lemma index_range t u r s i :
  ledger t u r s -> i ∈ (fun kp => p_index (snd kp)) <$> participants_of s ->
  1 <= i <= participants_count r.
Proof.
  intros L ([k p] & -> & [Hp Hr]%participants_of_spec)%list_elem_of_fmap.
  apply (m_index _ _ _ _ _ (l_members _ _ _ _ L k p Hp Hr)).
Qed.

Lemma owed_covered t u r s : ledger t u r s -> 0 <= owed s <= prefix u MAX_PARTICIPANTS.
Proof.
  intros L. rewrite (owed_by_index t u r s L).
  change MAX_PARTICIPANTS with (Z.of_nat 200). rewrite <- sum_prefix.
  apply sum_submseteq.
  - apply fmap_submseteq, NoDup_submseteq; [by eapply indices_distinct|].
    intros i Hi%(index_range t u r s i L). apply elem_of_seqZ.
    pose proof (l_count _ _ _ _ L). unfold MAX_PARTICIPANTS in *. simpl. lia.
  - apply Forall_fmap, Forall_forall. intros i Hi%elem_of_seqZ. simpl.
    apply (proj1 (l_usdc _ _ _ _ L)). unfold MAX_PARTICIPANTS. lia.
Qed.

#[local] Instance sumZ_perm : Proper ((≡ₚ) ==> eq) sumZ.
Proof. intros l k. induction 1; simpl; lia. Qed.

Lemma prefix_beyond (f : Z -> Z) n m :
  0 <= n -> (forall i, n < i -> f i = 0) -> prefix f (n + Z.of_nat m) = prefix f n.
Proof.
  intros Hn Hf. induction m as [|m IH]; [by rewrite Z.add_0_r|].
  replace (n + Z.of_nat (S m)) with (n + Z.of_nat m + 1) by lia.
  rewrite prefix_succ, IH, Hf by lia. lia.
Qed.

(** Until the round is over, the pot is exactly what is owed. *)
Lemma owed_is_total t u r s : ledger t u r s -> active r -> owed s = total_usdc r.
Proof.
  intros L Ha. rewrite (owed_by_index t u r s L), (proj2 (l_totals _ _ _ _ L Ha)).
  pose proof (l_count _ _ _ _ L) as Hc.
  replace MAX_PARTICIPANTS with
    (participants_count r + Z.of_nat (Z.to_nat (MAX_PARTICIPANTS - participants_count r))) by lia.
  rewrite prefix_beyond by (try lia; intros i Hi; apply (l_beyond _ _ _ _ L i Hi)).
  rewrite <- (Z2Nat.id (participants_count r)), <- sum_prefix by lia.
  apply sumZ_perm, fmap_Permutation, NoDup_Permutation.
  - by eapply indices_distinct.
  - apply NoDup_seqZ.
  - intros i. rewrite elem_of_seqZ. split.
    + intros Hi%(index_range t u r s i L). lia.
    + intros Hi. destruct (l_everyone _ _ _ _ L Ha i) as (user & p & Hp & Hr & <-); [lia|].
      apply list_elem_of_fmap. exists (user, p). split; [done|]. by apply participants_of_spec.
Qed.

(** What remains owed to the others is not negative. *)
Lemma owed_nonneg t u r s user :
  ledger t u r s ->
  0 <= owed (mkChain (ch_round s) (delete user (ch_participants s)) (ch_tokens s)).
Proof.
  intros L. unfold owed. apply (sum_submseteq _ _ (reflexivity _)).
  apply Forall_fmap, Forall_forall. intros [k p] [Hp Hr]%participants_of_spec. simpl in *.
  apply lookup_delete_Some in Hp as [_ Hp]. destruct (l_members _ _ _ _ L k p Hp Hr) as [_ _ Hi _ <- _].
  apply (proj1 (l_usdc _ _ _ _ L)). pose proof (l_count _ _ _ _ L). lia.
Qed.

Lemma ledger_of s r : reachable s -> ch_round s = Some r -> exists t u, ledger t u r s.
Proof.
  intros Hs Hr. destruct (round_reachable_inv s Hs) as [[Er _]|(t & u & r' & L)]; [congruence|].
  exists t, u. rewrite (l_round _ _ _ _ L) in Hr. by injection Hr as <-.
Qed.

(** A settled round has tickets. *)
Lemma settled_total t u r s : ledger t u r s -> status r = ROUND_STATUS_SETTLED -> 0 < total_tickets r.
Proof.
  intros L Hst. assert (active r) as Ha by (stat; lia).
  destruct (l_totals _ _ _ _ L Ha) as [-> _]. destruct (l_winner _ _ _ _ L Hst) as (i & Hi & _ & Hx & _).
  pose proof (l_count _ _ _ _ L). pose proof (proj1 (l_tickets _ _ _ _ L)) as Hnn.
  pose proof (prefix_mono t MAX_PARTICIPANTS i MAX_PARTICIPANTS Hnn ltac:(lia) ltac:(lia) ltac:(lia)).
  pose proof (prefix_mono t MAX_PARTICIPANTS 0 (i - 1) Hnn ltac:(lia) ltac:(lia) ltac:(lia)).
  rewrite prefix_0 in *. lia.
Qed.

(** C5: The winner of a settled round holds the winning ticket.  In every state a round can
    reach before it is closed, in whatever order the instructions are sent and whoever sends them, the winner
    recorded in a settled round is a registered participant of it with at least one
    ticket; the winning ticket is the first 16 bytes of the randomness, as a little-endian
    number, modulo the number of tickets, plus one; and it lies in the winner's range when
    the participants' tickets are laid out in the order of their indices. *)
Theorem winner_holds_winning_ticket s r :
  reachable s -> ch_round s = Some r -> status r = ROUND_STATUS_SETTLED ->
  exists p t, ch_participants s !! r_winner r = Some p /\ p_round p = round_key /\
    0 < tickets_total p /\
    (forall user q, ch_participants s !! user = Some q -> p_round q = round_key ->
       t (p_index q) = tickets_total q) /\
    prefix t MAX_PARTICIPANTS = total_tickets r /\
    r_winning_ticket r = le_decode (take 16 (r_randomness r)) mod total_tickets r + 1 /\
    prefix t (p_index p - 1) < r_winning_ticket r <= prefix t (p_index p).
Proof.
  intros Hs Hr Hst. destruct (ledger_of s r Hs Hr) as (t & u & L).
  assert (active r) as Ha by (stat; lia).
  destruct (l_winner _ _ _ _ L Hst) as (i & Hi & Hk & Hx & Et).
  destruct (l_everyone _ _ _ _ L Ha i Hi) as (user & p & Hp & Hpr & Ei).
  destruct (l_members _ _ _ _ L user p Hp Hpr) as [_ _ _ Hk' _ Htk]. specialize (Htk Ha).
  rewrite Ei, Hk in Hk'. injection Hk' as <-.
  destruct (l_totals _ _ _ _ L Ha) as [Ett _].
  exists p, t. rewrite Ei in *. split; [done|]. split; [done|]. split.
  - pose proof (prefix_succ t (i - 1) ltac:(lia)) as Ep. replace (i - 1 + 1) with i in Ep by lia. lia.
  - split; [|by split]. intros user' q Hq Hqr. by apply (m_tickets _ _ _ _ _ (l_members _ _ _ _ L user' q Hq Hqr)).
Qed.

(** C1: A round is solvent until it is paid out.  In every state the round can reach before
    it is closed, as long as the round is not claimed, its vault exists, belongs to the
    round, and holds at least the sum of what its participants have deposited and not got
    back; while the round is open, being drawn or settled, that sum is the recorded pot. *)
Theorem round_is_solvent s r :
  reachable s -> ch_round s = Some r -> status r <> ROUND_STATUS_CLAIMED ->
  exists v, ch_tokens s !! r_vault r = Some v /\ ta_owner v = round_key /\
    0 <= owed s <= ta_amount v /\ (active r -> owed s = total_usdc r).
Proof.
  intros Hs Hr Hst. destruct (ledger_of s r Hs Hr) as (t & u & L).
  destruct (l_vault _ _ _ _ L Hst) as (v & Ev & Eo & _ & Hle). exists v.
  pose proof (owed_covered _ _ _ _ L). split; [done|]. split; [done|]. split; [lia|].
  intros Ha. by apply (owed_is_total t u r s L).
Qed.

(** One participant's part of what is owed. *)
Lemma owed_split s user p :
  ch_participants s !! user = Some p -> p_round p = round_key ->
  owed s = usdc_total p + owed (mkChain (ch_round s) (delete user (ch_participants s)) (ch_tokens s)).
Proof.
  intros Hp Hr. unfold owed, participants_of. simpl. rewrite map_filter_delete.
  rewrite <- (map_to_list_delete _ user p); [done|]. by apply map_lookup_filter_Some.
Qed.

(** A refund that passes the handler's checks. *)
Lemma claim_refund_passes r p v ua user :
  p_user p = user -> p_round p = round_key -> usdc_total p <> 0 -> status r = ROUND_STATUS_CANCELLED ->
  ta_owner v = round_key -> ta_owner ua = user -> ta_mint ua = usdc_mint config ->
  claim_refund user round_key (r_vault r) config r p v ua =
  ROk (usdc_total p, mkParticipantView (p_round p) (p_user p) (p_index p) (p_bump p) 0 0 (deposits_count p)).
Proof.
  intros Eu Er Hu Es Ev Ea Em. unfold claim_refund. rewrite Es, Ev, Ea, Em, Eu, Er.
  rewrite !bool_decide_eq_true_2 by done. by rewrite (proj2 (Z.eqb_neq _ _)).
Qed.

(** C7: A refund is always available.  In every reachable state in which the round is
    cancelled, a participant who still has a deposit and sends claim_refund with a token
    account of their own gets exactly that deposit out of the vault, and cannot get it
    twice: afterwards nothing is recorded for them. *)
Theorem refund_always_paid s r user p ata ua :
  reachable s -> ch_round s = Some r -> status r = ROUND_STATUS_CANCELLED ->
  ch_participants s !! user = Some p -> p_round p = round_key -> 0 < usdc_total p ->
  ch_tokens s !! ata = Some ua -> ta_owner ua = user -> ta_mint ua = usdc_mint config ->
  ta_frozen ua = false -> ta_amount ua + usdc_total p < U64 ->
  (forall v, ch_tokens s !! r_vault r = Some v -> ta_frozen v = false) ->
  exists s', exec (ClaimRefund user (r_vault r) ata) s = ROk s' /\
    (ta_amount <$> ch_tokens s' !! ata) = Some (ta_amount ua + usdc_total p) /\
    (usdc_total <$> ch_participants s' !! user) = Some 0 /\
    owed s' = owed s - usdc_total p /\
    exec (ClaimRefund user (r_vault r) ata) s' = RErr (Custom NoDepositToRefund).
Proof.
  intros Hs Hr Hst Hp Hpr Hpos Hua Hown Hmint Hfr Hcap Hvf.
  destruct (ledger_of s r Hs Hr) as (t & u & L).
  destruct (l_vault _ _ _ _ L) as (v & Ev & Eo & Em & Hle); [stat; lia|].
  destruct (l_members _ _ _ _ L user p Hp Hpr) as [Hpu Hsig Hi _ Hus _].
  assert (usdc_total p <= ta_amount v) as Hcov.
  { pose proof (owed_split s user p Hp Hpr) as E. pose proof (owed_covered t u r s L) as Ho.
    pose proof (owed_nonneg t u r s user L). lia. }
  assert (r_vault r <> ata) as Hne by congruence.
  pose proof (transfer_works (ch_tokens s) (r_vault r) ata (usdc_total p) v ua Hne Ev Hua
    ltac:(congruence) (Hvf v Ev) Hfr ltac:(lia) Hcap) as Etr. rewrite Eo in Etr.
  assert (forall s0, exec (ClaimRefund user (r_vault r) ata) s0 =
    process_claim_refund config round_key user (r_vault r) ata s0) as Ex by done.
  rewrite Ex. unfold process_claim_refund at 1, require_signer, the_round, token, participant_of.
  rewrite Hr, Hp, Ev, Hua, bool_decide_eq_false_2 by done. cbn [ok_or mbind Result_bind refuse_if].
  rewrite claim_refund_passes by (done || lia). cbn [mbind Result_bind]. rewrite Etr.
  eexists. split; [reflexivity|]. cbn [ch_tokens ch_participants]. rewrite lookup_moved_to, lookup_insert_eq.
  split; [done|]. split; [done|]. split.
  - rewrite (owed_split s user p Hp Hpr).
    erewrite (owed_split (mkChain _ (<[user := _]> _) _) user); [|apply lookup_insert_eq|done]. simpl.
    rewrite delete_insert_eq. unfold owed, participants_of. simpl. lia.
  - rewrite Ex. unfold process_claim_refund, require_signer, the_round, token, participant_of.
    cbn [ch_round ch_participants ch_tokens]. rewrite lookup_insert_eq, lookup_moved_to, lookup_moved_from by done.
    rewrite ?Hr, bool_decide_eq_false_2 by done. cbn [ok_or mbind Result_bind refuse_if].
    unfold claim_refund. simpl. by rewrite Hpu, Hpr, !bool_decide_eq_true_2.
Qed.
End invariant.

(** ** What a claim pays *)

Lemma claim_amounts_sum total fee reimburse a :
  0 <= total < U64 -> 0 <= fee <= 10000 -> compute_claim_amounts total fee reimburse = Some a ->
  a_payout a + a_fee a + a_vrf_reimburse a = total /\
  0 <= a_payout a /\ 0 <= a_fee a /\ 0 <= a_vrf_reimburse a /\ (reimburse = false -> a_vrf_reimburse a = 0).
Proof.
  intros Ht Hf E. unfold compute_claim_amounts in E.
  set (v := if reimburse then Z.min 200000 total else 0) in E.
  assert (0 <= v <= total) by (unfold v; destruct reimburse; lia).
  assert (forall x y, y <= x -> checked_sub x y = Some (x - y)) as Hsub.
  { intros x y Hxy. unfold checked_sub. by rewrite (proj2 (Z.leb_le _ _)). }
  rewrite Hsub in E by lia. simpl in E.
  assert (0 <= (total - v) * fee / 10000 <= total - v) as Hq.
  { split; [apply Z.div_pos; nia|]. apply Z.div_le_upper_bound; nia. }
  unfold U64 in *. rewrite Z.mod_small in E by lia.
  rewrite Hsub in E by lia. injection E as <-. simpl.
  split_and!; try lia. intros ->. reflexivity.
Qed.

(** The account a transfer out of the vault credits. *)
Lemma transfer_credit ts vault to auth n ts' a :
  tk_transfer ts vault to auth n = ROk ts' -> ts !! to = Some a -> vault <> to ->
  ts' !! to = Some (set_amount a (ta_amount a + n)).
Proof. apply transfer_in. Qed.

Lemma transfer_elsewhere ts from to auth n ts' k :
  tk_transfer ts from to auth n = ROk ts' -> k <> from -> k <> to -> ts' !! k = ts !! k.
Proof.
  intros E Hf Ht. destruct (transfer_effect _ _ _ _ _ _ E) as (f & t & _ & _ & _ & _ & Hm & Hs).
  destruct (decide (from = to)) as [->|Hne]; [by rewrite Hs|]. rewrite Hm by done.
  by apply lookup_moved_other.
Qed.

(** The three transfers take the sum of the amounts out of the vault. *)
Lemma claim_transfers_out ts vault w t p a ts' v :
  transfer_claim_amounts round_key ts vault w t p a = ROk ts' ->
  ts !! vault = Some v -> vault <> w -> vault <> t -> Some vault <> p ->
  0 <= a_fee a -> 0 <= a_vrf_reimburse a -> (p = None -> a_vrf_reimburse a = 0) ->
  ts' !! vault = Some (set_amount v (ta_amount v - a_vrf_reimburse a - a_payout a - a_fee a)).
Proof.
  intros E Ev Hw Ht Hp Hf Hr Hnone. unfold transfer_claim_amounts in E. rinv E.
  assert (v0 !! vault = Some (set_amount v (ta_amount v - a_vrf_reimburse a))) as E0.
  { assert (a_vrf_reimburse a = 0 -> ts !! vault = Some (set_amount v (ta_amount v - a_vrf_reimburse a))) as H0.
    { intros ->. rewrite Z.sub_0_r. by destruct v. }
    destruct p as [k|]; [|injection Hv as <-; auto].
    destruct (Z.ltb_spec 0 (a_vrf_reimburse a)); [|injection Hv as <-; apply H0; lia].
    eapply transfer_out; [done|done|congruence]. }
  pose proof (transfer_out _ _ _ _ _ _ _ Hv0 E0 Hw) as E1. simpl in E1.
  destruct (Z.ltb_spec 0 (a_fee a)).
  - rewrite (transfer_out _ _ _ _ _ _ _ E E1 Ht). reflexivity.
  - injection E as <-. rewrite E1. replace (a_fee a) with 0 by lia. by rewrite Z.sub_0_r.
Qed.

Lemma claim_needs_settled s s' r claimer vault w tr p :
  ch_round s = Some r -> exec (Claim claimer vault w tr p) s = ROk s' -> status r = ROUND_STATUS_SETTLED.
Proof.
  intros Er E. simpl in E. unfold process_claim, the_round in E. rewrite Er in E. rinv E.
  destruct v4 as [a r']. injection Hv as <-. unfold claim_checked in Hv4. rinv Hv4. by guards.
Qed.


(** ** Closing a round *)

(** Closing a cancelled round forfeits its refunds.  From any state in which the round
    is cancelled, close_round with any token account in the place of the treasury's
    succeeds: whatever the vault still holds, deposits not yet refunded included, goes to
    that account, the round and its vault are gone, and no refund can be claimed. *)
Theorem close_round_takes_refunds s r v k a :
  ch_round s = Some r -> status r = ROUND_STATUS_CANCELLED ->
  ch_tokens s !! r_vault r = Some v -> ta_owner v = round_key -> ta_frozen v = false ->
  0 < ta_amount v -> k <> r_vault r ->
  ch_tokens s !! k = Some a -> ta_mint a = ta_mint v -> ta_frozen a = false ->
  ta_amount a + ta_amount v < U64 ->
  exists s', process_close_round round_key (r_vault r) (Some k) s = ROk s' /\
    (ta_amount <$> ch_tokens s' !! k) = Some (ta_amount a + ta_amount v) /\
    ch_round s' = None /\ ch_tokens s' !! r_vault r = None /\
    forall user vault ata s'', exec (ClaimRefund user vault ata) s' <> ROk s''.
Proof.
  intros Er Es Ev Eo Hfv Hpos Hk Ea Em Hfa Hcap.
  assert (forall user vault ata m ts s'', exec (ClaimRefund user vault ata) (mkChain None m ts) <> ROk s'')
    as Hno by (intros; simpl; unfold process_claim_refund, the_round; simpl; by destruct (require_signer _ _)).
  pose proof (transfer_works (ch_tokens s) (r_vault r) k (ta_amount v) v a ltac:(done) Ev Ea
    ltac:(done) Hfv Hfa ltac:(lia) Hcap) as Etr. rewrite Eo in Etr.
  set (ts := moved _ _ _ _ _ _) in Etr.
  assert (ts !! r_vault r = Some (set_amount v 0)) as Ets.
  { unfold ts. rewrite lookup_moved_from by done. by rewrite Z.sub_diag. }
  pose proof (close_works ts (r_vault r) _ Ets eq_refl) as Ecl. simpl in Ecl. rewrite Eo in Ecl.
  unfold process_close_round, the_round, token. rewrite Er, Ev. cbn [ok_or mbind Result_bind].
  rewrite bool_decide_eq_true_2 by done. cbn [negb refuse_if mbind Result_bind].
  unfold close_round, closeable. rewrite Es, bool_decide_eq_true_2 by done.
  cbn [negb refuse_if mbind Result_bind orb Z.eqb]. 
  change (ROUND_STATUS_CANCELLED =? ROUND_STATUS_CLAIMED) with false.
  change (ROUND_STATUS_CANCELLED =? ROUND_STATUS_CANCELLED) with true.
  cbn [negb refuse_if mbind Result_bind orb mret Result_ret].
  rewrite (proj2 (Z.eqb_neq (ta_amount v) 0)) by lia. rewrite Etr. cbn [mbind Result_bind].
  rewrite Ecl. cbn [mbind Result_bind mret Result_ret]. eexists. split; [reflexivity|]. simpl.
  rewrite lookup_delete_ne, lookup_delete_eq by done. unfold ts. rewrite lookup_moved_to.
  split; [done|]. split; [done|]. split; [done|]. intros. apply Hno.
Qed.

Fixpoint execs (ins : list Instr) (s : Chain) : Result ProgramError Chain :=
  match ins with [] => ROk s | i :: ins => s' ← exec i s; execs ins s' end.

Lemma reachable_execs ins s s' : reachable s -> execs ins s = ROk s' -> reachable s'.
Proof.
  revert s. induction ins as [|i ins IH]; intros s Hs E; simpl in E; [by injection E as <-|].
  rinv E. apply (IH v); [|done]. eapply reach_step; [done|by eapply step_instr].
Qed.
End spec.

(** ** A round in full *)

Module RoundWitness.

Definition toy_transfer (ts : gmap Z (TokenAccount (Key := Z))) (from to auth n : Z)
    : Result ProgramError (gmap Z TokenAccount) :=
  match ts !! from, ts !! to with
  | Some f, Some t =>
      if bool_decide (ta_owner f = auth) && bool_decide (ta_mint f = ta_mint t) &&
         negb (ta_frozen f) && negb (ta_frozen t) && (0 <=? n) && (n <=? ta_amount f) &&
         (ta_amount t + n <? U64)
      then ROk (if decide (from = to) then ts else moved ts from to f t n)
      else RErr TokenError
  | _, _ => RErr TokenError
  end.

Definition toy_close (ts : gmap Z (TokenAccount (Key := Z))) (k auth : Z)
    : Result ProgramError (gmap Z TokenAccount) :=
  match ts !! k with
  | Some t => if bool_decide (ta_owner t = auth) && (ta_amount t =? 0) then ROk (delete k ts)
              else RErr TokenError
  | None => RErr TokenError
  end.

#[export] Instance toy : TokenProgram (Key := Z) := {| tk_transfer := toy_transfer; tk_close := toy_close |}.

#[export] Instance toy_laws : TokenProgramLaws (Key := Z).
Proof.
  constructor; simpl.
  - intros ts from to auth n ts' E. unfold toy_transfer in E.
    destruct (ts !! from) as [f|]; [|done]. destruct (ts !! to) as [t|]; [|done].
    destruct (_ && _) eqn:Hc in E; [|done]. injection E as <-. rewrite !andb_true_iff in Hc.
    destruct Hc as ((((((_ & Hm) & _) & _) & Hn) & Hle) & _).
    apply bool_decide_eq_true_1 in Hm. apply Z.leb_le in Hn, Hle.
    exists f, t. split_and!; try done; by destruct (decide (from = to)).
  - intros ts from to n f t Hne Ef Et Em Hf Ht Hn Hc. unfold toy_transfer. rewrite Ef, Et, Hf, Ht.
    rewrite !bool_decide_eq_true_2, (proj2 (Z.leb_le 0 n)), (proj2 (Z.leb_le n _)), (proj2 (Z.ltb_lt _ _)) by (done || lia).
    simpl. by destruct (decide (from = to)).
  - intros ts k t Et Ha. unfold toy_close. rewrite Et, Ha. by rewrite bool_decide_eq_true_2.
  - intros ts k auth ts' E. unfold toy_close in E. destruct (ts !! k); [|done].
    destruct (_ && _); [by injection E as <-|done].
Qed.

Definition config : ConfigView (Key := Z) := mkConfigView 9 50 60 25 10000 120 2 200 false 0.
Definition ROUND : Z := 100.
Definition VAULT : Z := 101.

Definition account (owner amount : Z) : TokenAccount (Key := Z) := mkTokenAccount 50 owner amount false.

(** Three players, the treasury and an outsider. *)
Definition s0 : Chain (Key := Z) := mkChain None ∅
  (list_to_map [(VAULT, account ROUND 0); (11, account 1 5000000); (12, account 2 5000000);
                (13, account 3 5000000); (60, account 8 0); (99, account 66 0)]).

Definition deposit (user before : Z) : Instr (Key := Z) :=
  DepositAny user (10 + user) VAULT 255 1000 (mkDepositAnyArgs 7 before 0).

Definition opening : list (Instr (Key := Z)) := [StartRound VAULT 254 990 7; deposit 1 3000000; deposit 2 4000000].

Definition randomness : bytes := x05 :: x01 :: replicate 30 x00.

Definition drawing : list (Instr (Key := Z)) := opening ++ [LockRound 1120; RequestVrf 9; VrfCallback randomness].

Definition run (ins : list (Instr (Key := Z))) : Result ProgramError (Chain (Key := Z)) :=
  execs 0 config ROUND ins s0.

Definition after (ins : list (Instr (Key := Z))) : Chain (Key := Z) :=
  match run ins with ROk s => s | RErr _ => s0 end.

Definition round_after (ins : list (Instr (Key := Z))) : option (Round (Key := Z)) := ch_round (after ins).

Lemma s0_fresh : fresh ROUND s0.
Proof.
  split; [done|]. split; [|by intros user p Hp].
  intros k t Hk. apply elem_of_list_to_map_2 in Hk.
  repeat (apply elem_of_cons in Hk as [[= -> ->]|Hk]; [simpl; lia|]). by apply elem_of_nil in Hk.
Qed.

Lemma after_reachable ins : is_Some (match run ins with ROk s => Some s | RErr _ => None end) ->
  reachable 0 config ROUND (after ins).
Proof.
  intros [s Hs]. unfold after. destruct (run ins) as [s'|e] eqn:E; [|done].
  eapply reachable_execs; [|exact E]. apply reach_fresh, s0_fresh.
Qed.

Lemma winner_holds_winning_ticket_witness :
  exists r, round_after drawing = Some r /\ r_winner r = 2 /\ r_winning_ticket r = 262.
Proof.
  assert (reachable 0 config ROUND (after drawing)) as Hr by (apply after_reachable; by vm_compute; eexists).
  destruct (round_after drawing) as [r|] eqn:E; [|by vm_compute in E].
  destruct (winner_holds_winning_ticket 0 config ROUND ltac:(done) ltac:(simpl; lia)
    (after drawing) r Hr E) as (p & t & _).
  - vm_compute in E. by injection E as <-.
  - exists r. vm_compute in E. by injection E as <-.
Defined.

Lemma round_is_solvent_witness :
  exists r v, round_after opening = Some r /\ ch_tokens (after opening) !! VAULT = Some v /\
    total_usdc r = 3000000 /\ owed ROUND (after opening) <= ta_amount v.
Proof.
  assert (reachable 0 config ROUND (after opening)) as Hr by (apply after_reachable; by vm_compute; eexists).
  destruct (round_after opening) as [r|] eqn:E; [|by vm_compute in E].
  destruct (round_is_solvent 0 config ROUND ltac:(done) ltac:(simpl; lia) (after opening) r Hr E)
    as (v & Ev & _ & Ho & _).
  - vm_compute in E. by injection E as <-.
  - exists r, v. split; [done|].
    assert (r_vault r = VAULT /\ total_usdc r = 3000000) as [Erv Et] by (clear -E; vm_compute in E; injection E as <-; repeat split; reflexivity).
    rewrite <- Erv. split; [exact Ev|]. split; [exact Et|]. exact (proj2 Ho).
Defined.

Definition cancelled : list (Instr (Key := Z)) := opening ++ [ForceCancel 9].

Lemma refund_always_paid_witness :
  exists s', exec 0 config ROUND (ClaimRefund 1 VAULT 11) (after cancelled) = ROk s' /\
    (ta_amount <$> ch_tokens s' !! 11) = Some 5000000.
Proof.
  assert (reachable 0 config ROUND (after cancelled)) as Hr by (apply after_reachable; by vm_compute; eexists).
  destruct (round_after cancelled) as [r|] eqn:E; [|by vm_compute in E].
  assert (r_vault r = VAULT /\ status r = ROUND_STATUS_CANCELLED) as [Ev Est]
    by (clear -E; vm_compute in E; injection E as <-; repeat split; reflexivity).
  assert (ch_tokens (after cancelled) !! VAULT = Some (account ROUND 3000000)) as Evault
    by (vm_compute; reflexivity).
  destruct (refund_always_paid 0 config ROUND ltac:(done) ltac:(simpl; lia) (after cancelled) r 1
    (mkParticipantView ROUND 1 1 255 200 2000000 1) 11 (account 1 3000000) Hr E Est)
    as (s' & Es & Ea & _);
    [vm_compute; reflexivity|reflexivity|reflexivity|vm_compute; reflexivity|reflexivity|reflexivity
    |reflexivity|reflexivity| |].
  - rewrite Ev. intros v Hv. rewrite Evault in Hv. by injection Hv as <-.
  - rewrite Ev in Es. exists s'. split; [exact Es|exact Ea].
Defined.


Lemma close_round_takes_refunds_witness :
  exists s', process_close_round ROUND VAULT (Some 99) (after cancelled) = ROk s' /\
    (ta_amount <$> ch_tokens s' !! 99) = Some 3000000 /\ owed ROUND (after cancelled) = 3000000.
Proof.
  destruct (round_after cancelled) as [r|] eqn:E; [|by vm_compute in E].
  assert (r_vault r = VAULT /\ status r = ROUND_STATUS_CANCELLED) as [Ev Es]
    by (clear -E; vm_compute in E; injection E as <-; repeat split; reflexivity).
  destruct (close_round_takes_refunds 0 config ROUND (after cancelled) r (account ROUND 3000000) 99
    (account 66 0) E Es) as (s' & Ec & Ea & _); rewrite ?Ev;
    [vm_compute; reflexivity|reflexivity|reflexivity|reflexivity|discriminate|vm_compute; reflexivity
    |reflexivity|reflexivity|reflexivity|].
  rewrite Ev in Ec. exists s'. split; [exact Ec|]. split; [exact Ea|]. by vm_compute.
Defined.

(** The same round id opened again after the round was claimed and closed: a participant
    account of the first round is not registered anew, so its next deposit is counted
    under the index it had then, which now belongs to somebody else. *)
Definition second_life : option (Chain (Key := Z)) :=
  match exec 0 config ROUND (Claim None VAULT 12 60 None) (after drawing) with
  | ROk s =>
      match process_close_round ROUND VAULT None s with
      | ROk s =>
          let s := mkChain (ch_round s) (ch_participants s) (<[VAULT := account ROUND 0]> (ch_tokens s)) in
          match execs 0 config ROUND [StartRound VAULT 254 2000 7; deposit 3 4000000; deposit 1 2000000] s with
          | ROk s => Some s
          | RErr _ => None
          end
      | RErr _ => None
      end
  | RErr _ => None
  end.

Lemma reused_round_shares_index :
  let s := default s0 second_life in
  match second_life with Some _ => true | None => false end = true /\
  (participants_count <$> ch_round s) = Some 1 /\ (total_tickets <$> ch_round s) = Some 200 /\
  (p_index <$> ch_participants s !! 1) = Some 1 /\ (p_index <$> ch_participants s !! 3) = Some 1 /\
  (take 2 ∘ r_participants <$> ch_round s) = Some [3; 0] /\
  ((fun r => bit_find_prefix (r_bit r) 200) <$> ch_round s) = Some (ROk 1).
Proof. repeat split; vm_compute; reflexivity. Qed.
End RoundWitness.
