(* ===== verification/Effects.v ===== *)
(** * Effects: stateful, fallible, interactive code

    The services keep module-level state, call the outside world (an RPC node,
    HTTP services, the clock) and catch exceptions.  A computation of type [M A]
    maps a [Proc] (the module's state, the world, and the history of the calls made
    so far, newest first) to a result or an exception and the next [Proc].  As in
    JavaScript, an exception does not undo the state changes that preceded it.

    The world is a parameter: nothing is assumed about the answers.  The history is
    not part of the program; it is what the theorems on the order of the calls
    speak about.

    [wp m Q p] says that running [m] from [p] ends in [Q]; the lemmas below are the
    rules the handlers' proofs use. *)

From stdpp Require Import base list gmap strings.
From Stdlib Require Import ZArith Lia.
From S2P Require Import Prelude.

Local Open Scope Z_scope.

Record Proc (S W E : Type) := mkProc { local : S; world : W; history : list E }.
Arguments mkProc {S W E} local world history.
Arguments local {S W E} p.
Arguments world {S W E} p.
Arguments history {S W E} p.

Definition M (S W E A : Type) : Type := Proc S W E -> Res A * Proc S W E.

#[export] Instance M_ret {S W E} : MRet (M S W E) := fun A a p => (Ok a, p).
#[export] Instance M_bind {S W E} : MBind (M S W E) := fun A B f m p =>
  match m p with
  | (Ok a, p') => f a p'
  | (Throw e, p') => (Throw e, p')
  end.

Section operations.
Context {S W E : Type}.
Implicit Types p : Proc S W E.

Definition set_local p (s : S) : Proc S W E := mkProc s (world p) (history p).

(** A call of the outside world, recorded with its answer. *)
Definition invoke {A} (call : W -> Res A * W) (ev : Res A -> E) : M S W E A := fun p =>
  let '(r, w) := call (world p) in (r, mkProc (local p) w (ev r :: history p)).

(** A call that cannot fail. *)
Definition invoke_total {A} (call : W -> A * W) (ev : A -> E) : M S W E A := fun p =>
  let '(a, w) := call (world p) in (Ok a, mkProc (local p) w (ev a :: history p)).

(** An output that nothing answers, such as a log line. *)
Definition emit (ev : E) : M S W E unit := fun p =>
  (Ok tt, mkProc (local p) (world p) (ev :: history p)).

Definition gets {A} (f : S -> A) : M S W E A := fun p => (Ok (f (local p)), p).
Definition modify (f : S -> S) : M S W E unit := fun p => (Ok tt, set_local p (f (local p))).
Definition throw {A} (e : JsError) : M S W E A := fun p => (Throw e, p).
Definition lift {A} (r : Res A) : M S W E A := fun p => (r, p).

(** [try { m } catch (e) { h }] *)
Definition try_catch {A} (m : M S W E A) (h : JsError -> M S W E A) : M S W E A := fun p =>
  match m p with
  | (Ok a, p') => (Ok a, p')
  | (Throw e, p') => h e p'
  end.

(** [for (const a of l) body] *)
Fixpoint for_each {A} (l : list A) (body : A -> M S W E unit) : M S W E unit :=
  match l with
  | [] => mret tt
  | a :: l => body a ;; for_each l body
  end.

(** A loop over [l] that threads an accumulator. *)
Fixpoint for_acc {A B} (l : list A) (body : B -> A -> M S W E B) (b : B) : M S W E B :=
  match l with
  | [] => mret b
  | a :: l => b' ← body b a; for_acc l body b'
  end.

(** ** Weakest preconditions *)

Definition wp {A} (m : M S W E A) (Q : Res A -> Proc S W E -> Prop) p : Prop :=
  Q (fst (m p)) (snd (m p)).

Lemma wp_mono {A} (m : M S W E A) (Q R : Res A -> Proc S W E -> Prop) p :
  wp m Q p -> (forall r p', Q r p' -> R r p') -> wp m R p.
Proof. unfold wp. auto. Qed.

Lemma wp_and {A} (m : M S W E A) (Q R : Res A -> Proc S W E -> Prop) p :
  wp m Q p -> wp m R p -> wp m (fun r p' => Q r p' /\ R r p') p.
Proof. unfold wp. auto. Qed.

Lemma wp_any {A} (m : M S W E A) (Q : Res A -> Proc S W E -> Prop) p :
  (forall r p', Q r p') -> wp m Q p.
Proof. intros HQ. apply HQ. Qed.

Lemma wp_ret {A} (a : A) Q p : Q (Ok a) p -> wp (mret a) Q p.
Proof. done. Qed.

Lemma wp_throw {A} e (Q : Res A -> _ -> Prop) p : Q (Throw e) p -> wp (throw e) Q p.
Proof. done. Qed.

Lemma wp_lift {A} (r : Res A) Q p : Q r p -> wp (lift r) Q p.
Proof. done. Qed.

Lemma wp_gets {A} (f : S -> A) Q p : Q (Ok (f (local p))) p -> wp (gets f) Q p.
Proof. done. Qed.

Lemma wp_modify f Q p : Q (Ok tt) (set_local p (f (local p))) -> wp (modify f) Q p.
Proof. done. Qed.

Lemma wp_emit ev Q p :
  Q (Ok tt) (mkProc (local p) (world p) (ev :: history p)) -> wp (emit ev) Q p.
Proof. done. Qed.

(** The answer of the world is arbitrary. *)
Lemma wp_invoke {A} (call : W -> Res A * W) ev Q p :
  (forall r w, Q r (mkProc (local p) w (ev r :: history p))) -> wp (invoke call ev) Q p.
Proof. intros H. unfold wp, invoke. destruct (call (world p)) as [r w]. apply H. Qed.

Lemma wp_invoke_total {A} (call : W -> A * W) ev Q p :
  (forall a w, Q (Ok a) (mkProc (local p) w (ev a :: history p))) ->
  wp (invoke_total call ev) Q p.
Proof. intros H. unfold wp, invoke_total. destruct (call (world p)) as [a w]. apply H. Qed.

(** The answer of the world, named. *)
Lemma wp_invoke_at {A} (call : W -> Res A * W) ev Q p :
  Q (fst (call (world p)))
    (mkProc (local p) (snd (call (world p))) (ev (fst (call (world p))) :: history p)) ->
  wp (invoke call ev) Q p.
Proof. intros H. unfold wp, invoke. by destruct (call (world p)). Qed.

Lemma wp_invoke_total_at {A} (call : W -> A * W) ev Q p :
  Q (Ok (fst (call (world p))))
    (mkProc (local p) (snd (call (world p))) (ev (fst (call (world p))) :: history p)) ->
  wp (invoke_total call ev) Q p.
Proof. intros H. unfold wp, invoke_total. by destruct (call (world p)). Qed.

Lemma bind_lift {A B} (r : Res A) (f : A -> M S W E B) p :
  mbind f (lift r) p = match r with Ok a => f a p | Throw e => (Throw e, p) end.
Proof. done. Qed.

Lemma wp_bind {A B} (m : M S W E A) (f : A -> M S W E B) Q p :
  wp m (fun r p' => match r with Ok a => wp (f a) Q p' | Throw e => Q (Throw e) p' end) p ->
  wp (mbind f m) Q p.
Proof. unfold wp, mbind, M_bind. by destruct (m p) as [[a|e] p']. Qed.

Lemma wp_try {A} (m : M S W E A) h Q p :
  wp m (fun r p' => match r with Ok a => Q (Ok a) p' | Throw e => wp (h e) Q p' end) p ->
  wp (try_catch m h) Q p.
Proof. unfold wp, try_catch. by destruct (m p) as [[a|e] p']. Qed.

(** A loop keeps an invariant that each iteration keeps. *)
Lemma wp_for_each {A} (I : Proc S W E -> Prop) (l : list A) body p :
  I p ->
  (forall a q, a ∈ l -> I q -> wp (body a) (fun _ q' => I q') q) ->
  wp (for_each l body) (fun _ p' => I p') p.
Proof.
  revert p. induction l as [|a l IH]; intros p Hp Hb; [done|].
  apply wp_bind. eapply wp_mono; [apply Hb; [left|done]|].
  intros [[]|e] p' Hp'; [|done]. apply IH; [done|]. intros b q Hin. apply Hb. by right.
Qed.

Lemma wp_for_acc {A B} (I : B -> Proc S W E -> Prop) (J : Proc S W E -> Prop)
    (l : list A) body b p :
  I b p ->
  (forall a b q, a ∈ l -> I b q ->
     wp (body b a) (fun r q' => match r with Ok b' => I b' q' | Throw _ => J q' end) q) ->
  wp (for_acc l body b)
    (fun r p' => match r with Ok b' => I b' p' | Throw _ => J p' end) p.
Proof.
  revert b p. induction l as [|a l IH]; intros b p Hp Hb; [done|].
  apply wp_bind. eapply wp_mono; [apply Hb; [left|done]|].
  intros [b'|e] p' Hp'; [|done]. apply IH; [done|]. intros a' b'' q Hin. apply Hb. by right.
Qed.

(** ** Frames *)

(** The module's state is untouched and only events that satisfy [P] were added. *)
Definition only_adds (P : E -> Prop) p p' : Prop :=
  local p' = local p /\ exists evs, history p' = evs ++ history p /\ Forall P evs.

Lemma only_adds_refl P p : only_adds P p p.
Proof. split; [done|]. by exists []. Qed.

Lemma only_adds_trans P p q r : only_adds P p q -> only_adds P q r -> only_adds P p r.
Proof.
  intros [E1 (l1 & H1 & F1)] [E2 (l2 & H2 & F2)]. split; [congruence|].
  exists (l2 ++ l1). rewrite H2, H1, app_assoc. split; [done|]. by apply Forall_app.
Qed.

Lemma only_adds_base P p w : only_adds P p (mkProc (local p) w (history p)).
Proof. split; [done|]. by exists []. Qed.

Lemma only_adds_cons (P : E -> Prop) p s w h ev :
  P ev -> only_adds P p (mkProc s w h) -> only_adds P p (mkProc s w (ev :: h)).
Proof.
  intros Hev [E1 (l & H1 & F1)]. split; [done|]. exists (ev :: l). simpl in *.
  split; [by f_equal|by constructor].
Qed.
End operations.

Arguments M_ret {S W E} A a p /.
Arguments set_local {S W E} p s /.

(** One symbolic step of a computation. *)
Ltac wp_step :=
  lazymatch goal with
  | |- wp (mbind _ _) _ _ => apply wp_bind
  | |- wp (mret _) _ _ => apply wp_ret
  | |- wp (throw _) _ _ => apply wp_throw
  | |- wp (lift _) _ _ => apply wp_lift
  | |- wp (gets _) _ _ => apply wp_gets
  | |- wp (modify _) _ _ => apply wp_modify
  | |- wp (emit _) _ _ => apply wp_emit
  | |- wp (invoke _ _) _ _ => apply wp_invoke; intros
  | |- wp (invoke_total _ _) _ _ => apply wp_invoke_total; intros
  | |- wp (try_catch _ _) _ _ => apply wp_try
  end.

(** Closes [only_adds P p p'] where [p'] shows the events added to [p]. *)
Ltac adds :=
  cbn [local world history];
  repeat (eapply only_adds_cons; [by intros []|]);
  first [apply only_adds_refl | apply only_adds_base | assumption].
