(* ===== verification/RpcProxy.v ===== *)
(** * RpcProxy: rpc-proxy/src/index.ts, the worker in front of the Helius node

    An HTTP request is checked against the origin allowlist and forwarded with the API
    key added; a WebSocket upgrade opens a second socket to Helius, and listeners relay
    the messages both ways, holding the client's back in a buffer until Helius is open.

    Header tables are maps from lower-case names.  The runtime ([fetch], reading the
    body, sockets) is the world of an [M] computation: any call of it may throw, as a
    [send] on a closed socket does.  A connection's variables are the state [Conn]; each
    event runs its listeners in the order they were added, and an exception that leaves a
    listener ends only that listener. *)

From stdpp Require Import base list gmap strings pretty.
From Stdlib Require Import ZArith Lia Ascii.
From S2P Require Import Prelude JsRuntime Effects.

Local Open Scope string_scope.
Local Open Scope list_scope.
Local Open Scope Z_scope.
Set Warnings "-clear-no-such-hyp".

Module Proxy.

(** ** Data *)

Record Env := mkEnv { HELIUS_API_KEY : string; ALLOWED_ORIGINS : string }.

(** [s.toLowerCase()] on the bytes a header value consists of. *)
Definition ascii_lower (c : ascii) : ascii :=
  if ascii_between "A" "Z" c then ascii_of_N (N_of_ascii c + 32) else c.

Fixpoint toLowerCase (s : string) : string :=
  match s with
  | EmptyString => EmptyString
  | String c rest => String (ascii_lower c) (toLowerCase rest)
  end.

Definition Headers : Type := gmap string string.

(** [headers.get(name)] and [headers.set(name, value)] *)
Definition headers_get (h : Headers) (name : string) : option string := h !! toLowerCase name.
Definition headers_set (h : Headers) (name value : string) : Headers :=
  <[toLowerCase name := value]> h.

Record Request := mkRequest { rq_method : string; rq_headers : Headers }.

(** What the worker answers: [webSocket] tells whether the client's end of a socket pair
    is attached. *)
Record Response := mkResponse {
  rs_body : option string;
  rs_status : Z;
  rs_headers : Headers;
  rs_webSocket : bool
}.

Inductive WsData := Text (s : string) | Binary (b : bytes).

#[export] Instance WsData_eq_dec : EqDecision WsData.
Proof. solve_decision. Defined.

(** The variables the listeners of one connection share; [keepalive] tells whether the
    interval is still set. *)
Record Conn := mkConn {
  bufferedMessages : list WsData;
  heliusReady : bool;
  keepalive : bool
}.

Definition set_buffered (c : Conn) (b : list WsData) : Conn :=
  mkConn b (heliusReady c) (keepalive c).
Definition set_ready (c : Conn) (b : bool) : Conn := mkConn (bufferedMessages c) b (keepalive c).
Definition set_keepalive (c : Conn) (b : bool) : Conn :=
  mkConn (bufferedMessages c) (heliusReady c) b.

(** ** The runtime *)

Class WorkerServices := {
  PWorld : Type;
  (** [request.text()], [fetch(url, {method: "POST", ..., body})] *)
  pxText : PWorld -> Res string * PWorld;
  pxFetch : string -> string -> PWorld -> Res Response * PWorld;
  (** [new WebSocket(url)] and the operations on the two sockets *)
  pxConnect : string -> PWorld -> Res unit * PWorld;
  pxHeliusSend : WsData -> PWorld -> Res unit * PWorld;
  pxHeliusClose : PWorld -> Res unit * PWorld;
  pxClientSend : WsData -> PWorld -> Res unit * PWorld;
  pxClientClose : Z -> string -> PWorld -> Res unit * PWorld
}.

Inductive PEvent :=
| PText (r : Res string)
| PFetch (url body : string) (r : Res Response)
| PConnect (url : string) (r : Res unit)
| PHeliusSend (d : WsData) (r : Res unit)
| PHeliusClose (r : Res unit)
| PClientSend (d : WsData) (r : Res unit)
| PClientClose (code : Z) (reason : string) (r : Res unit).

(** ** Constants and the origin allowlist *)

Definition HELIUS_RPC : string := "https://mainnet.helius-rpc.com".
Definition HELIUS_WS : string := "wss://mainnet.helius-rpc.com".

Definition getAllowedOrigins (env : Env) : list string :=
  filter (fun o => o <> "") (trim <$> split_on "," (ALLOWED_ORIGINS env)).

(** [!origin] also holds of an empty header. *)
Definition present (origin : option string) : option string :=
  match origin with Some "" | None => None | Some o => Some o end.

Definition isOriginAllowed (origin : option string) (env : Env) : bool :=
  match present origin with
  | None => false
  | Some o => bool_decide (o ∈ getAllowedOrigins env)
  end.

Definition corsHeaders (origin : string) : list (string * string) :=
  [("Access-Control-Allow-Origin", origin);
   ("Access-Control-Allow-Methods", "GET, POST, OPTIONS");
   ("Access-Control-Allow-Headers", "Content-Type, solana-client")].

(** The loop of [headers.set]; [new Headers(record)] is the loop from the empty table. *)
Definition set_all (h : Headers) (kvs : list (string * string)) : Headers :=
  fold_left (fun h '(k, v) => headers_set h k v) kvs h.

(** [new Response(body, {status, headers})]; a status outside 200..599 is a RangeError. *)
Definition new_Response (body : option string) (status : Z) (h : Headers) : Res Response :=
  if (status <? 200) || (599 <? status) then
    Throw (mkError "RangeError" "Responses may only be constructed with status codes in the range 200 to 599, inclusive.")
  else Ok (mkResponse body status h false).

Definition text_response (body : string) (status : Z) : Response :=
  mkResponse (Some body) status ∅ false.

(** [origin && !isOriginAllowed(origin, env)] *)
Definition origin_refused (origin : option string) (env : Env) : bool :=
  match present origin with Some _ => negb (isOriginAllowed origin env) | None => false end.

(** [upgradeHeader && upgradeHeader.toLowerCase() === "websocket"] *)
Definition is_upgrade (request : Request) : bool :=
  match headers_get (rq_headers request) "Upgrade" with
  | Some u => String.eqb (toLowerCase u) "websocket"
  | None => false
  end.

Definition quoted (s : string) : string := String "034" (s +:+ String "034" EmptyString).

(** [JSON.stringify({ jsonrpc: "2.0", id: 0, method: "ping" })] *)
Definition PING : string :=
  "{" +:+ quoted "jsonrpc" +:+ ":" +:+ quoted "2.0" +:+ "," +:+ quoted "id" +:+ ":0," +:+
  quoted "method" +:+ ":" +:+ quoted "ping" +:+ "}".

Section worker.
Context `{WorkerServices}.
Local Abbreviation M := (M Conn PWorld PEvent).

Definition p_text : M string := invoke pxText PText.
Definition p_fetch (url body : string) : M Response := invoke (pxFetch url body) (PFetch url body).
Definition p_connect (url : string) : M unit := invoke (pxConnect url) (PConnect url).
Definition helius_send (d : WsData) : M unit := invoke (pxHeliusSend d) (PHeliusSend d).
Definition helius_close : M unit := invoke pxHeliusClose PHeliusClose.
Definition client_send (d : WsData) : M unit := invoke (pxClientSend d) (PClientSend d).
Definition client_close (code : Z) (reason : string) : M unit :=
  invoke (pxClientClose code reason) (PClientClose code reason).

(** ** HTTP *)

Definition handleHttp (request : Request) (env : Env) : M Response :=
  let origin := headers_get (rq_headers request) "Origin" in
  if String.eqb (rq_method request) "OPTIONS" then
    if negb (isOriginAllowed origin env) then mret (mkResponse None 403 ∅ false)
    else mret (mkResponse None 204 (set_all ∅ (corsHeaders (default "" origin))) false)
  else if negb (String.eqb (rq_method request) "POST") then
    mret (text_response "Method Not Allowed" 405)
  else if origin_refused origin env then mret (text_response "Origin not allowed" 403)
  else
    let url := HELIUS_RPC +:+ "/?api-key=" +:+ HELIUS_API_KEY env in
    body ← p_text;
    rpcResponse ← p_fetch url body;
    let headers := match present origin with
                   | Some o => set_all (rs_headers rpcResponse) (corsHeaders o)
                   | None => rs_headers rpcResponse
                   end in
    lift (new_Response (rs_body rpcResponse) (rs_status rpcResponse) headers).

(** ** WebSocket *)

(** The connection as [handleWs] leaves it: nothing buffered, Helius not open, the
    interval set. *)
Definition handleWs (request : Request) (env : Env) : M Response :=
  let origin := headers_get (rq_headers request) "Origin" in
  if origin_refused origin env then mret (text_response "Origin not allowed" 403)
  else if negb (is_upgrade request) then mret (text_response "Expected WebSocket upgrade" 426)
  else
    let heliusUrl := HELIUS_WS +:+ "/?api-key=" +:+ HELIUS_API_KEY env in
    modify (fun _ => mkConn [] false false) ;;
    p_connect heliusUrl ;;
    modify (fun c => set_keepalive c true) ;;
    mret (mkResponse None 101 ∅ true).

Definition fetch (request : Request) (env : Env) : M Response :=
  if String.eqb (HELIUS_API_KEY env) "" then
    mret (text_response "HELIUS_API_KEY not configured" 500)
  else if is_upgrade request then handleWs request env
  else handleHttp request env.

(** ** Listeners *)

Definition on_helius_open : M unit :=
  modify (fun c => set_ready c true) ;;
  msgs ← gets bufferedMessages;
  for_each msgs helius_send ;;
  modify (fun c => set_buffered c []).

(** [try { ... } catch {}] *)
Definition ignoring (m : M unit) : M unit := try_catch m (fun _ => mret tt).

Definition on_helius_message (d : WsData) : M unit := ignoring (client_send d).
Definition on_helius_close (code : Z) (reason : string) : M unit :=
  ignoring (client_close code reason).
Definition on_helius_error : M unit := ignoring (client_close 1011 "Upstream error").

Definition on_client_message (d : WsData) : M unit :=
  ready ← gets heliusReady;
  if (ready : bool) then helius_send d
  else modify (fun c => set_buffered c (bufferedMessages c ++ [d])).

Definition on_client_close : M unit := ignoring helius_close.

Definition clear_keepalive : M unit := modify (fun c => set_keepalive c false).

Definition on_tick : M unit :=
  try_catch
    (ready ← gets heliusReady; if (ready : bool) then helius_send (Text PING) else mret tt)
    (fun _ => clear_keepalive).

(** ** The connection as a state machine *)

(** What the runtime reports; a [Tick] is the interval firing. *)
Inductive WsEvent :=
| HeliusOpen
| HeliusMessage (d : WsData)
| HeliusClosed (code : Z) (reason : string)
| HeliusError
| ClientMessage (d : WsData)
| ClientClosed
| Tick.

#[export] Instance WsEvent_eq_dec : EqDecision WsEvent.
Proof. solve_decision. Defined.

(** The listeners of an event, in the order they are added; a cleared interval runs
    nothing. *)
Definition listeners (ev : WsEvent) : list (M unit) :=
  match ev with
  | HeliusOpen => [on_helius_open]
  | HeliusMessage d => [on_helius_message d]
  | HeliusClosed code reason => [on_helius_close code reason; clear_keepalive]
  | HeliusError => [on_helius_error]
  | ClientMessage d => [on_client_message d]
  | ClientClosed => [on_client_close; clear_keepalive]
  | Tick => [active ← gets keepalive; if (active : bool) then on_tick else mret tt]
  end.

Definition dispatch (ev : WsEvent) : M unit := for_each (listeners ev) ignoring.

Definition run (evs : list WsEvent) : M unit := for_each evs dispatch.

End worker.

(** ** What a history shows *)

Definition send_of (ev : PEvent) : option WsData :=
  match ev with PHeliusSend d _ => Some d | _ => None end.

(** The data handed to Helius, oldest first, without the pings. *)
Definition forwarded (h : list PEvent) : list WsData :=
  filter (fun d => d <> Text PING) (reverse (omap send_of h)).

Definition is_failed_send (ev : PEvent) : Prop :=
  match ev with PHeliusSend _ (Throw _) => True | _ => False end.

#[export] Instance is_failed_send_dec ev : Decision (is_failed_send ev).
Proof. destruct ev as [| | |d [|]| | |]; simpl; apply _. Defined.

(** The messages of the client among the events, without those whose text is a ping. *)
Definition received (evs : list WsEvent) : list WsData :=
  filter (fun d => d <> Text PING)
    (omap (fun ev => match ev with ClientMessage d => Some d | _ => None end) evs).

Definition opens (evs : list WsEvent) : nat :=
  length (filter (fun ev => ev = HeliusOpen) evs).

(** The events that reach the upstream service. *)
Definition is_upstream (ev : PEvent) : Prop :=
  match ev with PFetch _ _ _ | PConnect _ _ | PHeliusSend _ _ => True | _ => False end.

Lemma forwarded_cons ev h :
  forwarded (ev :: h) =
  forwarded h ++ filter (fun d => d <> Text PING) (option_list (send_of ev)).
Proof.
  unfold forwarded. simpl. destruct (send_of ev) as [d|]; simpl.
  - by rewrite reverse_cons, filter_app.
  - by rewrite app_nil_r.
Qed.

#[local] Arguments forwarded : simpl never.

Lemma forwarded_cons_none ev h : send_of ev = None -> forwarded (ev :: h) = forwarded h.
Proof. intros E. by rewrite forwarded_cons, E, app_nil_r. Qed.

(** ** The relay *)

Section relay.
Context `{WorkerServices}.
Local Abbreviation Proc := (Proc Conn PWorld PEvent).
Implicit Types p q : Proc.

Definition nopings (l : list WsData) : list WsData := filter (fun d => d <> Text PING) l.

(** The messages received so far are all in the buffer until Helius opens; afterwards
    they have been handed on in order, and nothing is left over unless a send failed. *)
Definition relayed (rcv : list WsData) p : Prop :=
  if heliusReady (local p) then
    forwarded (history p) `sublist_of` nopings rcv /\
    (Exists is_failed_send (history p) \/
     (bufferedMessages (local p) = [] /\ forwarded (history p) = nopings rcv))
  else forwarded (history p) = [] /\ bufferedMessages (local p) = rcv.

Lemma relayed_frame rcv p c w ev :
  relayed rcv p ->
  heliusReady c = heliusReady (local p) ->
  bufferedMessages c = bufferedMessages (local p) ->
  send_of ev = None ->
  relayed rcv (mkProc c w (ev :: history p)).
Proof.
  unfold relayed. simpl. intros Hr -> -> E. rewrite forwarded_cons_none by done.
  destruct (heliusReady (local p)); [|done].
  destruct Hr as [? [Hf|?]]; split; auto.
Qed.

Lemma relayed_quiet rcv p c :
  relayed rcv p ->
  heliusReady c = heliusReady (local p) ->
  bufferedMessages c = bufferedMessages (local p) ->
  relayed rcv (set_local p c).
Proof. unfold relayed. simpl. by intros Hr -> ->. Qed.

(** One message handed to Helius once it is open. *)
Lemma relayed_send rcv p d w r :
  relayed rcv p -> heliusReady (local p) = true ->
  relayed (rcv ++ [d]) (mkProc (local p) w (PHeliusSend d r :: history p)).
Proof.
  unfold relayed. simpl. intros Hr E. rewrite E in *. destruct Hr as [Hs Hr].
  rewrite forwarded_cons. unfold nopings in *. rewrite filter_app. simpl.
  split; [by apply sublist_app|].
  destruct Hr as [?|[Hb ->]]; [by left; right|by right].
Qed.

Lemma relayed_ping rcv p w r :
  relayed rcv p -> heliusReady (local p) = true ->
  relayed rcv (mkProc (local p) w (PHeliusSend (Text PING) r :: history p)).
Proof.
  unfold relayed. simpl. intros Hr E. rewrite E in *. rewrite forwarded_cons.
  simpl. rewrite filter_cons_False by (by intros []).
  rewrite filter_nil, app_nil_r. destruct Hr as [? [?|?]]; auto.
Qed.

(** The flush: each message of the buffer once, in order, up to the first failure. *)
Lemma flush_spec l p :
  wp (for_each l helius_send) (fun r q =>
    local q = local p /\
    exists l1 l2, l = l1 ++ l2 /\
      forwarded (history q) = forwarded (history p) ++ nopings l1 /\
      match r with Ok _ => l2 = [] | Throw _ => Exists is_failed_send (history q) end) p.
Proof.
  revert p. induction l as [|d l IH]; intros p; simpl.
  - apply wp_ret. split; [done|]. exists [], []. split; [done|]. split; [|done]. unfold nopings. by rewrite filter_nil, app_nil_r.
  - unfold helius_send. repeat wp_step. destruct r as [[]|e].
    + eapply wp_mono; [apply IH|]. simpl. intros r q (E & l1 & l2 & -> & F & Hr).
      split; [done|]. exists (d :: l1), l2. split; [done|]. split; [|done].
      rewrite F, forwarded_cons. simpl. unfold nopings.
      by rewrite <- app_assoc, <- filter_app.
    + split; [done|]. exists [d], l. split; [done|].
      simpl. split; [by rewrite forwarded_cons|by left].
Qed.

Lemma wp_ignoring (m : M Conn PWorld PEvent unit) (Q : Proc -> Prop) p :
  wp m (fun _ => Q) p -> wp (ignoring m) (fun _ => Q) p.
Proof.
  intros Hm. unfold ignoring. wp_step. eapply wp_mono; [exact Hm|].
  intros [a|e] q Hq; [done|by apply wp_ret].
Qed.

(** Ready once Helius has opened: what an event appends to the messages received. *)
Definition client_data (ev : WsEvent) : list WsData :=
  match ev with ClientMessage d => [d] | _ => [] end.

Lemma open_relayed rcv p :
  relayed rcv p -> heliusReady (local p) = false ->
  wp on_helius_open (fun _ q => relayed rcv q /\ heliusReady (local q) = true) p.
Proof.
  intros Hr E. unfold relayed in Hr. rewrite E in Hr. destruct Hr as [F <-].
  unfold on_helius_open. repeat wp_step. simpl.
  eapply wp_mono; [apply flush_spec|].
  simpl. intros r q (El & l1 & l2 & Eb & Fq & Hr). rewrite F in Fq. simpl in Fq.
  unfold relayed. destruct r as [[]|e].
  - wp_step. simpl. rewrite El. simpl. subst l2. rewrite app_nil_r in Eb.
    rewrite Eb, Fq. split; [|done]. split; [done|]. by right.
  - rewrite El. simpl. split; [|done]. rewrite Eb, Fq. split; [|by left].
    unfold nopings. rewrite filter_app. by apply sublist_inserts_r.
Qed.

(** An event keeps what each of its listeners keeps. *)
Lemma dispatch_keeps (Q : Proc -> Prop) ev p :
  Q p -> (forall m q, m ∈ listeners ev -> Q q -> wp m (fun _ => Q) q) ->
  wp (dispatch ev) (fun _ => Q) p.
Proof.
  intros Hp Hm. unfold dispatch. apply wp_for_each; [done|].
  intros m q Hin Hq. apply wp_ignoring. by apply Hm.
Qed.

Lemma dispatch_keeps_one (Q : Proc -> Prop) ev m p :
  listeners ev = [m] -> wp m (fun _ => Q) p -> wp (dispatch ev) (fun _ => Q) p.
Proof.
  intros E Hm. unfold dispatch. rewrite E. simpl. wp_step.
  eapply wp_mono; [by apply wp_ignoring|]. by intros [[]|].
Qed.

Local Ltac listener Hin :=
  repeat (apply elem_of_cons in Hin as [->|Hin]); [..|by apply elem_of_nil in Hin].

(** Every other event but a message of the client leaves the buffer and the flag alone. *)
Lemma dispatch_quiet rcv b ev p :
  relayed rcv p -> heliusReady (local p) = b -> client_data ev = [] -> ev <> HeliusOpen ->
  wp (dispatch ev) (fun _ q => relayed rcv q /\ heliusReady (local q) = b) p.
Proof.
  intros Hr Hb Hc Ho.
  apply (dispatch_keeps (fun q => relayed rcv q /\ heliusReady (local q) = b)); [done|].
  intros m q Hin [Hq Eq]. destruct ev; try done; simpl in Hin; listener Hin;
    unfold on_helius_message, on_helius_close, on_helius_error, on_client_close, clear_keepalive,
      on_tick, client_send, client_close, helius_close;
    first [apply wp_ignoring | idtac]; repeat wp_step;
    try (split; [by first [apply relayed_frame | apply relayed_quiet]|done]).
  destruct (keepalive (local q)); [|by repeat wp_step]. repeat wp_step.
  destruct (heliusReady (local q)) eqn:E; [|repeat wp_step; split; [done|congruence]].
  unfold helius_send. wp_step. destruct r; repeat wp_step; (split; [|simpl; congruence]).
  - by apply relayed_ping.
  - apply (relayed_quiet _ (mkProc _ _ _)); [by apply relayed_ping|done..].
Qed.

Lemma dispatch_relayed rcv ev p :
  relayed rcv p -> (ev = HeliusOpen -> heliusReady (local p) = false) ->
  wp (dispatch ev)
    (fun _ q => relayed (rcv ++ client_data ev) q /\
                heliusReady (local q) = heliusReady (local p) || bool_decide (ev = HeliusOpen)) p.
Proof.
  intros Hr Ho. destruct (decide (ev = HeliusOpen)) as [->|Hne].
  - rewrite app_nil_r, bool_decide_eq_true_2 by done. eapply dispatch_keeps_one; [done|].
    eapply wp_mono; [by apply open_relayed; auto|]. intros r q [Hq E]. by rewrite E, orb_true_r.
  - rewrite bool_decide_eq_false_2, orb_false_r by done.
    destruct (client_data ev) as [|d ds] eqn:Hc.
    { rewrite app_nil_r. by apply dispatch_quiet. }
    destruct ev as [| | | |d'| |]; try done. injection Hc as -> <-.
    eapply dispatch_keeps_one; [done|]. unfold on_client_message. wp_step. wp_step.
    destruct (heliusReady (local p)) eqn:E.
    + unfold helius_send. wp_step. split; [by apply relayed_send|done].
    + wp_step. simpl. split; [|done]. unfold relayed in *. rewrite E in Hr. simpl. rewrite E.
      by destruct Hr as [? ->].
Qed.

Lemma ignoring_returns (m : M Conn PWorld PEvent unit) p : wp (ignoring m) (fun r _ => r = Ok tt) p.
Proof. unfold ignoring. wp_step. apply wp_any. by intros [[]|e] q. Qed.

Lemma dispatch_returns ev p : wp (dispatch ev) (fun r _ => r = Ok tt) p.
Proof.
  unfold dispatch. generalize (listeners ev) as l. intros l. revert p.
  induction l as [|m l IH]; intros p; simpl; [done|]. wp_step.
  eapply wp_mono; [apply ignoring_returns|]. intros r q ->. apply IH.
Qed.

Lemma run_relayed rcv evs p :
  relayed rcv p -> (if heliusReady (local p) then opens evs = 0 else opens evs <= 1)%nat ->
  wp (run evs)
    (fun _ q => relayed (rcv ++ mjoin (client_data <$> evs)) q /\
      heliusReady (local q) = heliusReady (local p) || bool_decide (HeliusOpen ∈ evs)) p.
Proof.
  revert rcv p. induction evs as [|ev evs IH]; intros rcv p Hr Ho.
  - rewrite app_nil_r, orb_false_r. by apply wp_ret.
  - assert (opens (ev :: evs) = (if decide (ev = HeliusOpen) then 1 else 0) + opens evs)%nat as Eo.
    { unfold opens. rewrite filter_cons. by destruct (decide _). }
    rewrite Eo in Ho. unfold run. simpl. wp_step.
    eapply wp_mono; [apply wp_and; [apply (dispatch_relayed rcv); [done|]|apply dispatch_returns]|].
    { intros ->. destruct (heliusReady (local p)); [|done]. simpl in Ho. lia. }
    intros r q [[Hq Eq] ->].
    eapply wp_mono; [apply (IH (rcv ++ client_data ev) q Hq)|].
    + rewrite Eq. destruct (decide (ev = HeliusOpen)) as [->|].
      * rewrite bool_decide_eq_true_2 by done. destruct (heliusReady (local p)); simpl; lia.
      * rewrite bool_decide_eq_false_2, orb_false_r by done. by destruct (heliusReady (local p)).
    + intros r q' [Hq' Eq']. rewrite app_assoc. split; [done|]. rewrite Eq', Eq, <- orb_assoc.
      f_equal. rewrite (bool_decide_ext (HeliusOpen ∈ ev :: evs) (ev = HeliusOpen \/ HeliusOpen ∈ evs)).
      { by rewrite bool_decide_or. }
      rewrite elem_of_cons. naive_solver.
Qed.

Lemma client_data_received evs : nopings (mjoin (client_data <$> evs)) = received evs.
Proof.
  unfold nopings, received. f_equal.
  induction evs as [|[] evs IH]; try done. simpl. f_equal. exact IH.
Qed.

(** C24: The relay from the client to Helius is a first-in first-out queue.  For every
    sequence of socket events in which Helius opens at most once, whatever the sends
    answer: what is handed to Helius is a sublist, in the order received, of the client's
    messages (nothing is duplicated, reordered or made up); nothing is sent before Helius
    opens; and if no send failed then the messages handed on followed by those still in
    the buffer are exactly the messages received, the buffer being empty once Helius has
    opened. *)
Theorem relay_fifo p evs :
  local p = mkConn [] false true -> omap send_of (history p) = [] -> (opens evs <= 1)%nat ->
  wp (run evs) (fun _ q =>
    forwarded (history q) `sublist_of` received evs /\
    (HeliusOpen ∉ evs -> forwarded (history q) = []) /\
    (Forall (fun ev => ~ is_failed_send ev) (history q) ->
     forwarded (history q) ++ nopings (bufferedMessages (local q)) = received evs /\
     (HeliusOpen ∈ evs -> bufferedMessages (local q) = []))) p.
Proof.
  intros El Eh Ho.
  assert (relayed [] p) as Hr.
  { unfold relayed, forwarded. by rewrite El, Eh. }
  eapply wp_mono; [apply (run_relayed [] evs p Hr); by rewrite El|].
  intros r q [Hq Eq]. rewrite El in Eq. unfold relayed in Hq. rewrite Eq in Hq. simpl in *.
  rewrite client_data_received in Hq. case_bool_decide as Hin.
  - destruct Hq as [Hs Hq]. split; [done|]. split; [done|]. intros Hf.
    destruct Hq as [Hx|[-> ->]].
    + apply Exists_exists in Hx as (ev & Hin' & Hev). rewrite Forall_forall in Hf. by destruct (Hf ev).
    + split; [|done]. unfold nopings. by rewrite filter_nil, app_nil_r.
  - destruct Hq as [-> Eb]. split; [apply sublist_nil_l|]. split; [done|]. intros _.
    split; [|done]. by rewrite Eb, client_data_received.
Qed.

(** ** After a close *)

Definition hung_up (ev : WsEvent) : bool :=
  match ev with ClientClosed | HeliusClosed _ _ => true | _ => false end.

(** The events that may make the worker send to Helius besides a tick. *)
Definition may_send (ev : WsEvent) : bool :=
  match ev with ClientMessage _ | HeliusOpen => true | _ => false end.

Lemma dispatch_cleared ev p :
  keepalive (local p) = false \/ hung_up ev = true -> may_send ev = false ->
  wp (dispatch ev) (fun _ q =>
    keepalive (local q) = false /\ omap send_of (history q) = omap send_of (history p)) p.
Proof.
  intros Hk Hs. unfold dispatch.
  destruct ev; try done; simpl;
    unfold on_helius_message, on_helius_close, on_helius_error, on_client_close, clear_keepalive,
      client_send, client_close, helius_close;
    destruct Hk as [Hk|?]; try done;
    repeat first [wp_step | apply wp_try | progress unfold ignoring
                 | match goal with r : Res _ |- _ => destruct r end];
    try done.
  all: try (rewrite Hk; repeat wp_step; done).
Qed.

Lemma run_cleared evs p :
  keepalive (local p) = false -> forallb (fun ev => negb (may_send ev)) evs = true ->
  wp (run evs) (fun _ q =>
    keepalive (local q) = false /\ omap send_of (history q) = omap send_of (history p)) p.
Proof.
  intros Hk Hs. apply (wp_for_each (fun q =>
    keepalive (local q) = false /\ omap send_of (history q) = omap send_of (history p))); [done|].
  intros ev q Hin [Hq Eq]. eapply wp_mono.
  - apply dispatch_cleared; [by left|]. rewrite forallb_forall in Hs.
    apply negb_true_iff, Hs. by apply list_elem_of_In.
  - intros r q' [Hq' Eq']. by rewrite <- Eq.
Qed.

(** After either side has closed the connection, the keepalive is gone for good: from any
    state, the events after the close send nothing to Helius but what the client still
    says or a flush holds. *)
Theorem no_keepalive_after_close ev evs p :
  hung_up ev = true -> forallb (fun ev => negb (may_send ev)) evs = true ->
  wp (run (ev :: evs)) (fun _ q => omap send_of (history q) = omap send_of (history p)) p.
Proof.
  intros Hu Hs. unfold run. simpl. wp_step.
  eapply wp_mono; [apply wp_and; [apply dispatch_cleared; [by right|by destruct ev]|apply dispatch_returns]|].
  intros r q [[Hk Eq] ->]. eapply wp_mono; [by apply run_cleared|].
  intros r q' [_ Eq']. by rewrite Eq', Eq.
Qed.
End relay.

(** ** Requests *)

Section requests.
Context `{WorkerServices}.
Local Abbreviation Proc := (Proc Conn PWorld PEvent).
Implicit Types p q : Proc.

Lemma present_some o : o <> "" -> present (Some o) = Some o.
Proof. by destruct o. Qed.

Lemma allowed_spec o env :
  o <> "" -> isOriginAllowed (Some o) env = bool_decide (o ∈ trim <$> split_on "," (ALLOWED_ORIGINS env)).
Proof.
  intros Ho. unfold isOriginAllowed, getAllowedOrigins. rewrite present_some by done.
  apply bool_decide_ext. rewrite list_elem_of_filter. naive_solver.
Qed.

(** The origin allowlist is enforced before anything leaves the worker.  A request
    whose Origin header is present and is not one of the trimmed, comma-separated entries
    of ALLOWED_ORIGINS is answered with an error status, 403 when it would otherwise have
    been served, without a socket and without reading the body, fetching, or connecting:
    the world and the history are untouched. *)
Theorem disallowed_origin_stops request env o p :
  headers_get (rq_headers request) "Origin" = Some o -> o <> "" ->
  o ∉ trim <$> split_on "," (ALLOWED_ORIGINS env) ->
  exists r, fetch request env p = (Ok r, p) /\ rs_webSocket r = false /\
    headers_get (rs_headers r) "Access-Control-Allow-Origin" = None /\
    rs_status r = if String.eqb (HELIUS_API_KEY env) "" then 500
                  else if negb (is_upgrade request) &&
                          negb (String.eqb (rq_method request) "OPTIONS") &&
                          negb (String.eqb (rq_method request) "POST") then 405
                  else 403.
Proof.
  intros Eo Ho Hn.
  assert (isOriginAllowed (Some o) env = false) as Ha.
  { rewrite allowed_spec by done. by apply bool_decide_eq_false_2. }
  unfold fetch, handleWs, handleHttp, origin_refused. rewrite Eo, present_some, Ha by done.
  destruct (String.eqb (HELIUS_API_KEY env) ""); [by eexists|].
  destruct (is_upgrade request); simpl; [by eexists|].
  destruct (String.eqb _ "OPTIONS"); simpl; [by eexists|].
  destruct (String.eqb _ "POST"); simpl; by eexists.
Qed.

Lemma get_set_same h k v : headers_get (headers_set h k v) k = Some v.
Proof. apply lookup_insert_eq. Qed.

Lemma get_set_other h k k' v :
  toLowerCase k <> toLowerCase k' -> headers_get (headers_set h k v) k' = headers_get h k'.
Proof. intros Hk. by apply (lookup_insert_ne (M := gmap string)). Qed.

Lemma get_set_all_cors h o :
  headers_get (set_all h (corsHeaders o)) "Access-Control-Allow-Origin" = Some o.
Proof.
  unfold corsHeaders, set_all. cbn [fold_left].
  rewrite !get_set_other by (by vm_compute). apply get_set_same.
Qed.

(** A POST that passes the check is relayed faithfully: the worker makes exactly one
    fetch, to the Helius URL with the API key, with the request's body, and answers with
    that response's status and body; to a request with an Origin header the answer allows
    that origin and no other, whatever header the upstream set.  The other outcomes are an
    exception of the body, of the fetch, or an upstream status no response can carry. *)
Theorem post_is_relayed request env p :
  HELIUS_API_KEY env <> "" -> is_upgrade request = false -> rq_method request = "POST" ->
  origin_refused (headers_get (rq_headers request) "Origin") env = false ->
  wp (fetch request env) (fun r q =>
    local q = local p /\
    match r with
    | Ok resp => exists body up,
        history q = PFetch (HELIUS_RPC +:+ "/?api-key=" +:+ HELIUS_API_KEY env) body (Ok up)
                      :: PText (Ok body) :: history p /\
        rs_body resp = rs_body up /\ rs_status resp = rs_status up /\ 200 <= rs_status resp <= 599 /\
        match present (headers_get (rq_headers request) "Origin") with
        | Some o => isOriginAllowed (Some o) env = true /\
            headers_get (rs_headers resp) "Access-Control-Allow-Origin" = Some o
        | None => rs_headers resp = rs_headers up
        end
    | Throw e =>
        history q = PText (Throw e) :: history p \/
        (exists body, history q =
           PFetch (HELIUS_RPC +:+ "/?api-key=" +:+ HELIUS_API_KEY env) body (Throw e)
             :: PText (Ok body) :: history p) \/
        (exists body up, history q =
           PFetch (HELIUS_RPC +:+ "/?api-key=" +:+ HELIUS_API_KEY env) body (Ok up)
             :: PText (Ok body) :: history p /\ ~ 200 <= rs_status up <= 599)
    end) p.
Proof.
  intros Hkey Hup Hpost Ho. unfold fetch. rewrite Hup. rewrite (proj2 (String.eqb_neq _ _) Hkey).
  unfold handleHttp. rewrite Hpost, Ho. simpl. unfold p_text, p_fetch.
  do 2 wp_step. destruct r as [body|e]; [|by split; [|left]]. do 2 wp_step.
  destruct r as [up|e]; [|split; [done|right; left; by exists body]]. wp_step.
  unfold new_Response.
  destruct (Z.ltb_spec (rs_status up) 200); simpl; [split; [done|]; right; right; exists body, up; split; [done|lia]|].
  destruct (Z.ltb_spec 599 (rs_status up)); simpl; [split; [done|]; right; right; exists body, up; split; [done|lia]|].
  split; [done|]. exists body, up. split; [done|]. split; [done|]. split; [done|]. split; [lia|].
  unfold origin_refused, isOriginAllowed in *.
  destruct (present _) as [o|] eqn:E; [|done]. split; [|apply get_set_all_cors].
  assert (o <> "") as Hne. { destruct (headers_get _ _) as [[|? ?]|]; naive_solver. }
  rewrite present_some by done. by apply negb_false_iff.
Qed.

(** An upgrade that passes the check opens exactly one connection, to the Helius URL
    with the API key, and starts from the state the relay's theorems assume: nothing
    buffered, Helius not open, keepalive set; the only exception is the connection's. *)
Theorem upgrade_starts_relay request env p :
  HELIUS_API_KEY env <> "" -> is_upgrade request = true ->
  origin_refused (headers_get (rq_headers request) "Origin") env = false ->
  wp (fetch request env) (fun r q =>
    exists c, history q = PConnect (HELIUS_WS +:+ "/?api-key=" +:+ HELIUS_API_KEY env) c :: history p /\
    match c with
    | Ok _ => r = Ok (mkResponse None 101 ∅ true) /\ local q = mkConn [] false true
    | Throw e => r = Throw e
    end) p.
Proof.
  intros Hkey Hup Ho. unfold fetch. rewrite Hup. rewrite (proj2 (String.eqb_neq _ _) Hkey).
  unfold handleWs. rewrite Hup, Ho. simpl. unfold p_connect. repeat wp_step.
  destruct r as [[]|e]; repeat wp_step; by eexists.
Qed.
End requests.
End Proxy.

(** ** Concrete runs *)

Module RpcProxyWitness.
Import Proxy.

(** A runtime whose world counts the sends to Helius still to succeed. *)
Definition toy : WorkerServices := {|
  PWorld := nat;
  pxText := fun w => (Ok "rpc", w);
  pxFetch := fun _ _ w =>
    (Ok (mkResponse (Some "result") 200 {["access-control-allow-origin" := "*"]} false), w);
  pxConnect := fun _ w => (Ok tt, w);
  pxHeliusSend := fun _ w =>
    match w with O => (Throw (mkError "TypeError" "closed"), O) | S n => (Ok tt, n) end;
  pxHeliusClose := fun w => (Ok tt, w);
  pxClientSend := fun _ w => (Ok tt, w);
  pxClientClose := fun _ _ w => (Ok tt, w)
|}.

#[local] Existing Instance toy.

Definition env : Env := mkEnv "key" "https://winny.fun, https://www.winny.fun".

Definition request (origin method : string) : Request :=
  mkRequest method {["origin" := origin]}.

Definition upgrade : Request := mkRequest "GET" {["upgrade" := "WebSocket"]}.

Definition start (sends : nat) : Proc Conn PWorld PEvent := mkProc (mkConn [] false true) sends [].

Definition traffic : list WsEvent :=
  [ClientMessage (Text "a"); ClientMessage (Text "b"); Tick; HeliusOpen; Tick;
   ClientMessage (Text "c"); ClientClosed; Tick].

Lemma relay_fifo_witness :
  forwarded (history (snd (run traffic (start 9)))) = [Text "a"; Text "b"; Text "c"] /\
  forwarded (history (snd (run traffic (start 1)))) `sublist_of` received traffic.
Proof.
  split; [by vm_compute|].
  destruct (relay_fifo (start 1) traffic) as [Hs _]; [reflexivity|reflexivity|vm_compute; lia|].
  exact Hs.
Defined.

Lemma no_keepalive_after_close_witness :
  omap send_of (history (snd (run [ClientClosed; Tick; HeliusError] (start 3)))) = [].
Proof. exact (no_keepalive_after_close ClientClosed [Tick; HeliusError] (start 3) eq_refl eq_refl). Defined.

Lemma disallowed_origin_stops_witness :
  exists r, fetch (request "https://evil.example" "POST") env (start 0) = (Ok r, start 0) /\
    rs_status r = 403.
Proof.
  destruct (disallowed_origin_stops (request "https://evil.example" "POST") env
    "https://evil.example" (start 0)) as (r & Hr & _ & _ & Hs);
    [reflexivity|discriminate|by apply (bool_decide_unpack _); vm_compute|].
  exists r. split; [exact Hr|]. rewrite Hs. reflexivity.
Defined.

Lemma post_is_relayed_witness :
  exists resp, fst (fetch (request "https://www.winny.fun" "POST") env (start 0)) = Ok resp /\
    headers_get (rs_headers resp) "Access-Control-Allow-Origin" = Some "https://www.winny.fun".
Proof.
  pose proof (post_is_relayed (request "https://www.winny.fun" "POST") env (start 0)
    ltac:(discriminate) eq_refl eq_refl eq_refl) as [_ H].
  eexists. split; [reflexivity|]. destruct H as (body & up & _ & _ & _ & _ & _ & E). exact E.
Defined.

Lemma upgrade_starts_relay_witness :
  local (snd (fetch upgrade env (start 0))) = mkConn [] false true.
Proof.
  pose proof (upgrade_starts_relay upgrade env (start 0) ltac:(discriminate) eq_refl eq_refl)
    as (c & Eh & Hc).
  destruct c as [u|e]; [exact (proj2 Hc)|discriminate Eh].
Defined.
End RpcProxyWitness.
