(* ===== verification/Wheel.v ===== *)
(** * Wheel: the jackpot wheel and its animation

    The pure functions of src/src/lib/wheelUtils.ts and the state machine of
    src/src/components/JackpotWheel.tsx: the segments of the participants, the effects that
    start a spin and a landing when the props change, and the animation loop.

    The code computes in binary64.  The definitions here are written once over an
    interface of numbers, [Arith], with two instances: [binary64], which is what a browser
    runs, and [exact], the rationals, for which the theorems are stated: they say where the
    wheel stops up to rounding (the code keeps a tenth of the segment on both sides).
    [Math.pow], [Math.cos] and [Math.sin], which ECMAScript leaves to the implementation,
    are parameters of both.

    What is on the canvas is the texture (the segments it was drawn from), the angle it is
    rotated by and the segment that glows; strokes, gradients and sounds are not modelled. *)

From stdpp Require Import base list strings.
From Stdlib Require Import Ascii ZArith QArith Qround Lqa Lia SpecFloat.
From S2P Require Import Prelude JsRuntime Effects.
Open Scope Z_scope.
Set Warnings "-clear-no-such-hyp".

(** ** Numbers *)

Class Arith := {
  number : Type;
  of_Z : Z -> number;
  decimal : Z -> Z -> number;                 (* m * 10^-e *)
  plus : number -> number -> number;
  minus : number -> number -> number;
  times : number -> number -> number;
  over : number -> number -> number;
  rem : number -> number -> number;           (* % *)
  less : number -> number -> bool;
  same : number -> number -> bool;            (* === *)
  Math_floor : number -> number;
  Math_ceil : number -> number;
  Math_round : number -> option Z;
  Math_PI : number;
  Math_pow : number -> number -> number;
  Math_cos : number -> number;
  Math_sin : number -> number
}.

Declare Scope num_scope.
Delimit Scope num_scope with num.
Infix "+" := plus : num_scope.
Infix "-" := minus : num_scope.
Infix "*" := times : num_scope.
Infix "/" := over : num_scope.
Infix "<?" := less : num_scope.

(** [-x] is only applied to expressions of finite value. *)
Definition minus_num `{Arith} (x : number) : number := (of_Z 0 - x)%num.

(** [x || 1]: neither zero nor NaN. *)
Definition or_one `{Arith} (x : number) : number :=
  if same x x && negb (same x (of_Z 0)) then x else of_Z 1.

(** [Math.min] and [Math.max]; with a NaN the sum is one. *)
Definition Math_min `{Arith} (a b : number) : number :=
  if same a a && same b b then if less b a then b else a else (a + b)%num.
Definition Math_max `{Arith} (a b : number) : number :=
  if same a a && same b b then if less a b then b else a else (a + b)%num.

(** *** binary64 *)

(** [x % y]: the exact remainder of the truncated quotient. *)
Definition num_rem (x y : num) : num :=
  match mantissa x, y with
  | Some _, S754_infinity _ => x
  | Some (mx, ex), S754_finite _ my ey =>
      let e := Z.min ex ey in
      binary_normalize PREC EMAX (Z.rem (mx * 2 ^ (ex - e)) (Z.pos my * 2 ^ (ey - e))) e (mx <? 0)
  | _, _ => S754_nan
  end.

(** [f] of the integers below and above a finite number, [x] itself otherwise. *)
Definition via_Z (f : num -> option Z) (x : num) : num :=
  match x with
  | S754_finite _ _ _ => match f x with Some z => num_of_Z z | None => x end
  | _ => x
  end.

Definition num_ceil (x : num) : option Z := (fun z => - z) <$> num_floor (SFopp x).

Definition PI64 : num := S754_finite false 7074237752028440 (-51).

Definition binary64 (pow : num -> num -> num) (cos sin : num -> num) : Arith := {|
  number := num;
  of_Z := num_of_Z;
  decimal m e := num_of_decimal false m (- e);
  plus := num_plus;
  minus := num_minus;
  times := num_times;
  over := num_over;
  rem := num_rem;
  less := SFltb;
  same := SFeqb;
  Math_floor := via_Z num_floor;
  Math_ceil := via_Z num_ceil;
  Math_round := num_round;
  Math_PI := PI64;
  Math_pow := pow;
  Math_cos := cos;
  Math_sin := sin
|}.

(** *** Rationals, with the value of the constant [Math.PI] *)

Definition PIQ : Q := 7074237752028440 # 2251799813685248.

Definition Q_rem (x y : Q) : Q :=
  let q := (x / y)%Q in (x - y * inject_Z (Z.quot (Qnum q) (Zpos (Qden q))))%Q.

Definition exact (pow : Q -> Q -> Q) (cos sin : Q -> Q) : Arith := {|
  number := Q;
  of_Z := inject_Z;
  decimal m e := (inject_Z m / inject_Z (10 ^ e))%Q;
  plus := Qplus;
  minus := Qminus;
  times := Qmult;
  over := Qdiv;
  rem := Q_rem;
  less x y := negb (Qle_bool y x);
  same := Qeq_bool;
  Math_floor x := inject_Z (Qfloor x);
  Math_ceil x := inject_Z (Qceiling x);
  Math_round x := Some (Qfloor (x + (1 # 2)));
  Math_PI := PIQ;
  Math_pow := pow;
  Math_cos := cos;
  Math_sin := sin
|}.

(** ** wheelUtils.ts *)

Section utils.
Context `{Arith}.
Local Open Scope num_scope.

Definition EASE_EXPONENT : number := decimal 35 1.

Definition landingEase (t : number) : number := of_Z 1 - Math_pow (of_Z 1 - t) EASE_EXPONENT.

Definition SEGMENT_COLORS : list string :=
  ["#4f46e5"; "#0d59f2"; "#0891b2"; "#059669"; "#d97706"; "#dc2626"; "#9333ea"; "#e11d48";
   "#2563eb"; "#0d9488"; "#ca8a04"; "#7c3aed"].

Record SegmentData := mkSegment {
  startAngle : number;
  endAngle : number;
  sg_color : string;
  sg_label : string;
  sg_pct : number
}.

Record SegmentParticipant := mkSegmentParticipant {
  sp_color : string;
  sp_displayName : string;
  usdcAmount : number
}.

(** [participants.reduce((s, p) => s + p.usdcAmount, 0) || 1] *)
Definition total_amount (participants : list SegmentParticipant) : number :=
  or_one (fold_left (fun s p => s + usdcAmount p) participants (of_Z 0)).

(** [(p.usdcAmount / total) * Math.PI * 2] *)
Definition sweep_of (total : number) (p : SegmentParticipant) : number :=
  usdcAmount p / total * Math_PI * of_Z 2.

Definition segment_color (p : SegmentParticipant) (i : nat) : string :=
  if String.eqb (sp_color p) "" then default "" (SEGMENT_COLORS !! (i mod 12)%nat) else sp_color p.

Fixpoint segments_from (total angle : number) (i : nat) (participants : list SegmentParticipant)
    : list SegmentData :=
  match participants with
  | [] => []
  | p :: rest =>
      let sweep := sweep_of total p in
      mkSegment angle (angle + sweep) (segment_color p i) (sp_displayName p)
        (usdcAmount p / total * of_Z 100)
      :: segments_from total (angle + sweep) (S i) rest
  end.

Definition buildSegments (participants : list SegmentParticipant) : list SegmentData :=
  segments_from (total_amount participants) (of_Z 0) 0 participants.

(** *** Colours *)

(** The hexadecimal digits at the start of a text, as [parseInt(text, 16)] reads them. *)
Fixpoint hex_prefix (acc : option Z) (s : string) : option Z :=
  match s with
  | EmptyString => acc
  | String c rest =>
      match digit_value c with
      | Some d => hex_prefix (Some (default 0 acc * 16 + d)%Z) rest
      | None => acc
      end
  end.

(** [hex.replace('#', '')]: the first one is removed. *)
Fixpoint remove_hash (s : string) : string :=
  match s with
  | EmptyString => EmptyString
  | String c rest => if (c =? "#")%char then rest else String c (remove_hash rest)
  end.

(** Of colours, whose text starts with a digit after the hash; NaN is 0 for the shifts. *)
Definition hexToRgb (hex : string) : Z * Z * Z :=
  let v := default 0%Z (hex_prefix None (remove_hash hex)) in
  (Z.land (Z.shiftr v 16) 255, Z.land (Z.shiftr v 8) 255, Z.land v 255).

Definition hex_digit (d : Z) : ascii := default "0"%char (String.get (Z.to_nat d) "0123456789abcdef").

(** [Math.max(0, Math.min(255, Math.round(c))).toString(16).padStart(2, '0')]; the text of a
    NaN is left out, as no channel is one. *)
Definition channel (c : number) : string :=
  match Math_round c with
  | Some z => let z := Z.max 0 (Z.min 255 z) in
              String (hex_digit (z / 16)%Z) (String (hex_digit (z mod 16)%Z) EmptyString)
  | None => "NaN"
  end.

Definition rgbToHex (r g b : number) : string := "#" +:+ channel r +:+ channel g +:+ channel b.

Definition lighten (hex : string) (pct : Z) : string :=
  let '(r, g, b) := hexToRgb hex in
  let f := of_Z pct / of_Z 100 in
  let up c := of_Z c + (of_Z 255 - of_Z c) * f in
  rgbToHex (up r) (up g) (up b).

Definition darken (hex : string) (pct : Z) : string :=
  let '(r, g, b) := hexToRgb hex in
  let f := of_Z 1 - of_Z pct / of_Z 100 in
  rgbToHex (of_Z r * f) (of_Z g * f) (of_Z b * f).
End utils.

(** ** JackpotWheel.tsx *)

Definition PIN_COUNT : Z := 36.
Definition LANDING_DURATION : Z := 6000.
Definition CENTER : Z := 200.

Inductive WheelPhase := Idle | Spinning | Landing | Celebration.

#[export] Instance WheelPhase_eq_dec : EqDecision WheelPhase.
Proof. solve_decision. Defined.

Section wheel.
Context `{Arith}.
Local Open Scope num_scope.

Record ConfettiParticle := mkParticle {
  cp_x : number; cp_y : number; cp_vx : number; cp_vy : number;
  cp_size : number; cp_color : string; cp_rot : number; cp_rotV : number; cp_life : number
}.

Record AnimState := mkAnim {
  phase : WheelPhase;
  angle : number;
  velocity : number;
  targetAngle : number;
  an_startAngle : number;
  landingStart : number;
  celebrationStart : number;
  lastPinIdx : number;
  idleTime : number;
  particles : list ConfettiParticle
}.

(** The texture: [None] is the empty wheel. *)
Record Texture := mkTexture { tx_dark : bool; tx_segments : option (list SegmentData) }.

(** The props with the theme; [pr_id] is the identity of the array of participants, on
    which React's dependencies depend. *)
Record Props := mkProps {
  pr_id : Z;
  participants : list SegmentParticipant;
  spinning : bool;
  winnerIndex : option Z;
  isDark : bool
}.

(** The refs of the component, and the props of the last render. *)
Record Wheel := mkWheel {
  anim : AnimState;
  prevWinnerIndex : option Z;
  wasSpinning : bool;
  frozenSegments : option (list SegmentData);
  texture : option Texture;
  props : option Props
}.

Definition initial_wheel : Wheel :=
  mkWheel (mkAnim Idle (of_Z 0) (of_Z 0) (of_Z 0) (of_Z 0) (of_Z 0) (of_Z 0) (of_Z (-1)) (of_Z 0) [])
    None false None None None.

Definition set_anim (w : Wheel) (a : AnimState) : Wheel :=
  mkWheel a (prevWinnerIndex w) (wasSpinning w) (frozenSegments w) (texture w) (props w).
Definition set_frozen (w : Wheel) (f : option (list SegmentData)) : Wheel :=
  mkWheel (anim w) (prevWinnerIndex w) (wasSpinning w) f (texture w) (props w).
Definition set_texture (w : Wheel) (t : Texture) : Wheel :=
  mkWheel (anim w) (prevWinnerIndex w) (wasSpinning w) (frozenSegments w) (Some t) (props w).
Definition set_prev (w : Wheel) (i : option Z) : Wheel :=
  mkWheel (anim w) i (wasSpinning w) (frozenSegments w) (texture w) (props w).
Definition set_was (w : Wheel) (b : bool) : Wheel :=
  mkWheel (anim w) (prevWinnerIndex w) b (frozenSegments w) (texture w) (props w).
Definition set_props (w : Wheel) (p : Props) : Wheel :=
  mkWheel (anim w) (prevWinnerIndex w) (wasSpinning w) (frozenSegments w) (texture w) (Some p).

Definition set_phase (a : AnimState) (ph : WheelPhase) : AnimState :=
  mkAnim ph (angle a) (velocity a) (targetAngle a) (an_startAngle a) (landingStart a)
    (celebrationStart a) (lastPinIdx a) (idleTime a) (particles a).
Definition set_motion (a : AnimState) (ang vel : number) : AnimState :=
  mkAnim (phase a) ang vel (targetAngle a) (an_startAngle a) (landingStart a)
    (celebrationStart a) (lastPinIdx a) (idleTime a) (particles a).
Definition set_idleTime (a : AnimState) (t : number) : AnimState :=
  mkAnim (phase a) (angle a) (velocity a) (targetAngle a) (an_startAngle a) (landingStart a)
    (celebrationStart a) (lastPinIdx a) t (particles a).
Definition set_pin (a : AnimState) (i : number) : AnimState :=
  mkAnim (phase a) (angle a) (velocity a) (targetAngle a) (an_startAngle a) (landingStart a)
    (celebrationStart a) i (idleTime a) (particles a).
Definition set_particles (a : AnimState) (ps : list ConfettiParticle) : AnimState :=
  mkAnim (phase a) (angle a) (velocity a) (targetAngle a) (an_startAngle a) (landingStart a)
    (celebrationStart a) (lastPinIdx a) (idleTime a) ps.
Definition begin_landing (a : AnimState) (target now : number) : AnimState :=
  mkAnim Landing (angle a) (velocity a) target (angle a) now
    (celebrationStart a) (lastPinIdx a) (idleTime a) (particles a).
Definition begin_celebration (a : AnimState) (now : number) : AnimState :=
  mkAnim Celebration (an_startAngle a + (targetAngle a - an_startAngle a)) (of_Z 0) (targetAngle a)
    (an_startAngle a) (landingStart a) now (lastPinIdx a) (idleTime a) (particles a).

(** The browser: [Math.random] and [performance.now]. *)
Class WheelServices := {
  WWorld : Type;
  wxRandom : WWorld -> number * WWorld;
  wxNow : WWorld -> number * WWorld
}.

(** What happens: the sounds, the callback, and what a frame shows (the texture, the
    rotation, and the segment that glows). *)
Inductive WEvent :=
| WRandom (r : number)
| WNow (t : number)
| WTick
| WWinSound
| WSpinComplete
| WFrame (t : option Texture) (rotation : number) (glow : option SegmentData).

Context `{WheelServices}.
Local Abbreviation M := (M Wheel WWorld WEvent).

Definition random : M number := invoke_total wxRandom WRandom.
Definition performance_now : M number := invoke_total wxNow WNow.

Definition update (f : AnimState -> AnimState) : M unit := modify (fun w => set_anim w (f (anim w))).

Definition rebuildTexture (dark : bool) (segs : list SegmentData) (parts : list SegmentParticipant) : Texture :=
  mkTexture dark (match parts with [] => None | _ => Some segs end).

(** [arr[i]] for an integer index. *)
Definition at_index {A} (l : list A) (i : Z) : option A :=
  if (i <? 0)%Z then None else l !! Z.to_nat i.

(** *** Confetti *)

Definition spawn_one (colors : list string) (acc : list ConfettiParticle) (i : nat) : M (list ConfettiParticle) :=
  ra ← random;
  let a := ra * Math_PI * of_Z 2 in
  rs ← random;
  let speed := of_Z 2 + rs * of_Z 5 in
  rsize ← random;
  rcolor ← random;
  rrot ← random;
  rrotV ← random;
  mret (acc ++ [mkParticle (of_Z CENTER) (of_Z CENTER) (Math_cos a * speed) (Math_sin a * speed - of_Z 2)
    (of_Z 3 + rsize * of_Z 4)
    (default "" (k ← Math_round (Math_floor (rcolor * of_Z (Z.of_nat (length colors)))); at_index colors k))
    (rrot * Math_PI * of_Z 2) ((rrotV - decimal 5 1) * decimal 3 1) (of_Z 1)]).

Definition spawnConfetti (color : string) : M (list ConfettiParticle) :=
  for_acc (seq 0 70) (spawn_one [color; lighten color 30; "#ffd700"; "#ffffff"; "#f59e0b"]) [].

(** The particle after a frame; [None] once its life is over. *)
Definition update_particle (p : ConfettiParticle) : option ConfettiParticle :=
  let life := cp_life p - decimal 12 3 in
  if of_Z 0 <? life then
    Some (mkParticle (cp_x p + cp_vx p) (cp_y p + cp_vy p) (cp_vx p * decimal 99 2)
            (cp_vy p + decimal 12 2) (cp_size p) (cp_color p) (cp_rot p + cp_rotV p) (cp_rotV p) life)
  else None.

Definition updateAndDrawConfetti (ps : list ConfettiParticle) : list ConfettiParticle := omap update_particle ps.

(** *** Effects *)

Definition texture_effect (p : Props) : M unit :=
  ph ← gets (fun w => phase (anim w));
  if bool_decide (ph = Landing) || bool_decide (ph = Celebration) then mret tt
  else modify (fun w => set_texture w (rebuildTexture (isDark p) (buildSegments (participants p)) (participants p))).

(** [for (let i = 0; i < winnerIndex; i++) accAngle += ...]: an index past the end throws. *)
Fixpoint acc_loop (total : number) (n : nat) (parts : list SegmentParticipant) (acc : number) : Res number :=
  match n, parts with
  | O, _ => Ok acc
  | S n, p :: rest => acc_loop total n rest (acc + usdcAmount p / total * Math_PI * of_Z 2)
  | S _, [] => Throw (mkError "TypeError" "Cannot read properties of undefined (reading 'usdcAmount')")
  end.

(** The angle to stop at. *)
Definition positive_mod (x : number) : number :=
  rem (rem x (Math_PI * of_Z 2) + Math_PI * of_Z 2) (Math_PI * of_Z 2).

(** The part of a turn from [current] to the angle that has [targetPoint] at the pointer. *)
Definition delta_to (current targetPoint : number) : number :=
  let desiredAngle := minus_num Math_PI / of_Z 2 - targetPoint in
  let currentMod := positive_mod current in
  let targetMod := positive_mod desiredAngle in
  let delta := targetMod - currentMod in
  if delta <? of_Z 0 then delta + Math_PI * of_Z 2 else delta.

(** With the full turns that match the speed of the wheel, at least four. *)
Definition total_delta (current vel targetPoint : number) : number :=
  let delta := delta_to current targetPoint in
  let currentVelRadSec := vel * of_Z 60 in
  let naturalTotal := currentVelRadSec * (of_Z LANDING_DURATION / of_Z 1000) / EASE_EXPONENT in
  let rawSpins := (naturalTotal - delta) / (Math_PI * of_Z 2) in
  let spins := Math_max (Math_ceil rawSpins) (of_Z 4) in
  spins * Math_PI * of_Z 2 + delta.

Definition land (p : Props) (idx : Z) : M unit :=
  modify (fun w => set_was w false) ;;
  let frozenParts := participants p in
  let frozenSegs := buildSegments frozenParts in
  modify (fun w => set_texture (set_frozen w (Some frozenSegs)) (rebuildTexture (isDark p) frozenSegs frozenParts)) ;;
  let total := total_amount frozenParts in
  accAngle ← lift (acc_loop total (Z.to_nat idx) frozenParts (of_Z 0));
  segAngle ← lift (match at_index frozenParts idx with
                   | Some q => Ok (usdcAmount q / total * Math_PI * of_Z 2)
                   | None => Throw (mkError "TypeError" "Cannot read properties of undefined (reading 'usdcAmount')")
                   end);
  r ← random;
  let padding := decimal 10 2 in
  let randomT := padding + r * (of_Z 1 - of_Z 2 * padding) in
  let targetPoint := accAngle + segAngle * randomT in
  a ← gets anim;
  let target := angle a + total_delta (angle a) (velocity a) targetPoint in
  now ← performance_now;
  update (fun a => begin_landing a target now).

Definition shouldTriggerLanding (prev : option Z) (p : Props) (was : bool) : bool :=
  (bool_decide (prev = None) && bool_decide (winnerIndex p <> None) && was) ||
  (bool_decide (prev = winnerIndex p) && bool_decide (winnerIndex p <> None) && was && negb (spinning p)).

Definition landing_effect (p : Props) : M unit :=
  prev ← gets prevWinnerIndex;
  modify (fun w => set_prev w (winnerIndex p)) ;;
  was ← gets wasSpinning;
  ph ← gets (fun w => phase (anim w));
  if shouldTriggerLanding prev p was && bool_decide (ph <> Landing)
  then land p (default 0%Z (winnerIndex p)) else mret tt.

Definition spin_effect (p : Props) : M unit :=
  if negb (spinning p) then mret tt
  else
    modify (fun w => set_was w true) ;;
    ph ← gets (fun w => phase (anim w));
    match ph with
    | Idle => update (fun a => set_phase (set_motion a (angle a) (decimal 2 2)) Spinning)
    | Celebration | Landing =>
        update (fun a => set_particles (set_phase (set_motion a (angle a) (decimal 2 2)) Spinning) []) ;;
        modify (fun w => set_texture (set_frozen w None)
          (rebuildTexture (isDark p) (buildSegments (participants p)) (participants p)))
    | Spinning => mret tt
    end.

Definition when (b : bool) (m : M unit) : M unit := if b then m else mret tt.

(** Whether a dependency differs from the last render; all do on mount. *)
Definition changed {A} `{EqDecision A} (f : Props -> A) (old : option Props) (p : Props) : bool :=
  match old with Some o => negb (bool_decide (f o = f p)) | None => true end.

(** A render with new props: the effects whose dependencies changed, in their order. *)
Definition render (p : Props) : M unit :=
  old ← gets props;
  modify (fun w => set_props w p) ;;
  when (changed isDark old p || changed pr_id old p) (texture_effect p) ;;
  when (changed winnerIndex old p || changed isDark old p || changed spinning old p) (landing_effect p) ;;
  when (changed spinning old p) (spin_effect p).

(** *** The animation loop *)

Definition step_spinning (spin : bool) (a : AnimState) : AnimState :=
  if negb spin then
    let v := velocity a * decimal 98 2 in
    let '(ph, v) := if v <? decimal 1 3 then (Idle, of_Z 0) else (phase a, v) in
    set_phase (set_motion a (angle a + v) v) ph
  else
    let v := Math_min (velocity a + decimal 8 3 * (of_Z 1 / of_Z 60) * of_Z 60) (decimal 25 2) in
    set_motion a (angle a + v) v.

Definition active_segments (p : Props) (w : Wheel) : list SegmentData :=
  default (buildSegments (participants p)) (frozenSegments w).

Definition step_landing (p : Props) (now : number) : M unit :=
  a ← gets anim;
  let elapsed := now - landingStart a in
  let t := Math_min (elapsed / of_Z LANDING_DURATION) (of_Z 1) in
  let eased := landingEase t in
  update (fun a => set_motion a (an_startAngle a + (targetAngle a - an_startAngle a) * eased) (velocity a)) ;;
  if negb (t <? of_Z 1) && same t t then
    update (fun a => begin_celebration a now) ;;
    activeSegs ← gets (active_segments p);
    let winIdx := default 0%Z (winnerIndex p) in
    let color := match at_index activeSegs winIdx with
                 | Some s => if String.eqb (sg_color s) "" then "#ffd700" else sg_color s
                 | None => "#ffd700"
                 end in
    ps ← spawnConfetti color;
    update (fun a => set_particles a ps) ;;
    emit WWinSound ;;
    emit WSpinComplete
  else mret tt.

Definition step_celebration (now : number) : M unit :=
  a ← gets anim;
  match particles a with
  | [] => if of_Z 3000 <? now - celebrationStart a then
            update (fun a => set_phase a Idle) ;;
            modify (fun w => set_frozen w None)
          else mret tt
  | _ => mret tt
  end.

Definition pin_index (ang : number) : number :=
  let pointerAngle := minus_num Math_PI / of_Z 2 in
  let normalizedAngle := positive_mod (minus_num ang + pointerAngle) in
  Math_floor (normalizedAngle / (Math_PI * of_Z 2 / of_Z PIN_COUNT)).

Definition tick_sound : M unit :=
  a ← gets anim;
  if bool_decide (phase a = Spinning) || bool_decide (phase a = Landing) then
    let pinIdx := pin_index (angle a) in
    if negb (same pinIdx (lastPinIdx a)) then update (fun a => set_pin a pinIdx) ;; emit WTick else mret tt
  else mret tt.

(** The drawing: what is shown, then the confetti move. *)
Definition draw (p : Props) : M unit :=
  w ← gets (fun w => w);
  let glow := if bool_decide (phase (anim w) = Celebration)
              then i ← winnerIndex p; at_index (active_segments p w) i else None in
  emit (WFrame (texture w) (angle (anim w)) glow) ;;
  update (fun a => set_particles a (updateAndDrawConfetti (particles a))).

Definition loop (p : Props) (now : number) : M unit :=
  ph ← gets (fun w => phase (anim w));
  match ph with
  | Idle => update (fun a => set_motion (set_idleTime a (now * decimal 1 3)) (angle a + decimal 1 3) (velocity a))
  | Spinning => update (step_spinning (spinning p))
  | Landing => step_landing p now
  | Celebration => step_celebration now
  end ;;
  tick_sound ;;
  draw p.

(** Between renders the loop runs with the props of the last one. *)
Inductive WheelInput := Render (p : Props) | Frame (now : number).

Definition wheel_step (i : WheelInput) : M unit :=
  match i with
  | Render p => render p
  | Frame now => old ← gets props; match old with Some p => loop p now | None => mret tt end
  end.

Definition run_wheel (l : list WheelInput) : M unit := for_each l wheel_step.
End wheel.
