(* ===== verification/WheelSpec.v ===== *)
(** * WheelSpec: where the wheel stops

    In exact arithmetic, for whatever [Math.pow], [Math.cos] and [Math.sin] compute: the
    segments divide the circle in the proportion of the deposits; whenever the wheel
    celebrates, the pointer is on the segment of the winner the wheel was given; a landing
    ends after six seconds with one call of the callback, and the celebration ends. *)

From stdpp Require Import base list strings.
From Stdlib Require Import ZArith QArith Qround Lqa Lia SpecFloat.
From S2P Require Import Prelude JsRuntime Effects Wheel.
Open Scope Z_scope.
Set Warnings "-clear-no-such-hyp".

Section spec.
Context (pow : Q -> Q -> Q) (cos sin : Q -> Q).
#[local] Instance arith : Arith := exact pow cos sin.
#[local] Arguments inject_Z : simpl never.
Local Open Scope Q_scope.

Local Abbreviation pmod := (@positive_mod arith).

(** ** Angles *)

(** A full turn. *)
Definition turn : Q := PIQ * inject_Z 2.

Lemma inject_Z_minus (a b : Z) : inject_Z (a - b) == inject_Z a - inject_Z b.
Proof. unfold Z.sub. by rewrite inject_Z_plus, inject_Z_opp. Qed.

Lemma turn_pos : 0 < turn.
Proof. done. Qed.

(** The integer part towards zero and the rest. *)
Lemma Q_trunc (q : Q) :
  let k := Z.quot (Qnum q) (Zpos (Qden q)) in
  -1 < q - inject_Z k < 1 /\ (0 <= q -> 0 <= q - inject_Z k).
Proof.
  destruct q as [n d]. intros k. cbn [Qnum Qden] in k.
  pose proof (Z.quot_rem' n (Zpos d)) as Eq. pose proof (Z.rem_bound_abs n (Zpos d) ltac:(done)) as Hb.
  fold k in Eq.
  assert ((n # d) - inject_Z k == (Z.rem n (Zpos d) # d)) as E.
  { unfold Qeq, inject_Z, Qminus, Qplus, Qopp. cbn [Qnum Qden]. lia. }
  rewrite E. unfold Qlt, Qle. cbn [Qnum Qden]. split; [lia|].
  intros Hq. pose proof (Z.rem_nonneg n (Zpos d) ltac:(done)). lia.
Qed.

(** [x % y] of a positive divisor: a multiple away, within one of it, with the sign of [x]. *)
Lemma Q_rem_spec x y :
  0 < y -> (exists k : Z, Q_rem x y == x + y * inject_Z k) /\ - y < Q_rem x y < y /\
  (0 <= x -> 0 <= Q_rem x y).
Proof.
  intros Hy. unfold Q_rem. destruct (Q_trunc (x / y)) as [Hb Hn].
  set (k := Z.quot _ _) in *.
  assert (x - y * inject_Z k == y * (x / y - inject_Z k)) as E by (field; lra).
  split; [exists (- k)%Z; rewrite inject_Z_opp; ring|]. rewrite E.
  split; [split; nra|]. intros Hx. apply Qmult_le_0_compat; [lra|]. apply Hn.
  apply Qle_shift_div_l; lra.
Qed.

(** [((x % 2pi) + 2pi) % 2pi] is the representative of [x] in the first turn. *)
Lemma positive_mod_spec x :
  (exists k : Z, pmod x == x + turn * inject_Z k) /\ 0 <= pmod x < turn.
Proof.
  unfold positive_mod. simpl. fold turn. pose proof turn_pos as Ht.
  destruct (Q_rem_spec x turn Ht) as ((k & E) & Hb & _).
  destruct (Q_rem_spec (Q_rem x turn + turn) turn Ht) as ((k' & E') & Hb' & Hn).
  split; [|lra]. exists (k + 1 + k')%Z. rewrite E', E, !inject_Z_plus. ring.
Qed.

Lemma inject_Z_small (k : Z) : -1 < inject_Z k < 1 -> k = 0%Z.
Proof. unfold Qlt, inject_Z. cbn. lia. Qed.

(** It is the only one. *)
Lemma positive_mod_unique x y (k : Z) : 0 <= y < turn -> x == y + turn * inject_Z k -> pmod x == y.
Proof.
  intros Hy E. destruct (positive_mod_spec x) as [(j & Ej) Hm]. pose proof turn_pos.
  assert (pmod x == y + turn * inject_Z (k + j)) as E'.
  { rewrite Ej, E, inject_Z_plus. ring. }
  assert ((k + j)%Z = 0%Z) as Ez. { apply inject_Z_small. split; nra. }
  rewrite E', Ez. ring.
Qed.

(** The angle of the pointer. *)
Definition top : Q := @over arith (@minus_num arith Math_PI) (of_Z 2).

(** The point of the wheel under the pointer, which is at the top, when the wheel is
    turned by [ang]. *)
Definition pointer_on (ang : Q) : Q := pmod (top - ang).

#[local] Instance positive_mod_proper : Proper (Qeq ==> Qeq) pmod.
Proof.
  intros x y E. destruct (positive_mod_spec y) as [(k & Ek) Hb].
  apply (positive_mod_unique x _ (- k)); [done|]. rewrite Ek, E, inject_Z_opp. ring.
Qed.

#[local] Instance pointer_on_proper : Proper (Qeq ==> Qeq) pointer_on.
Proof. intros x y E. unfold pointer_on. by rewrite E. Qed.

Lemma less_spec x y : @less arith x y = true <-> x < y.
Proof.
  simpl. rewrite negb_true_iff, <- not_true_iff_false, Qle_bool_iff. split; [apply Qnot_le_lt|apply Qlt_not_le].
Qed.

Lemma less_false x y : @less arith x y = false <-> y <= x.
Proof. simpl. by rewrite negb_false_iff, Qle_bool_iff. Qed.

Lemma delta_to_spec (current tp : Q) :
  (exists k : Z, delta_to current tp == top - tp - current + turn * inject_Z k) /\
  0 <= delta_to current tp.
Proof.
  unfold delta_to. fold top.
  destruct (positive_mod_spec current) as [(k & Ek) Hk].
  destruct (positive_mod_spec (top - tp)) as [(j & Ej) Hj].
  set (d := pmod (top - tp) - pmod current).
  change (@minus arith _ _) with d. change (@plus arith d _) with (d + turn).
  assert (d == top - tp - current + turn * inject_Z (j - k)) as Ed.
  { unfold d. rewrite Ej, Ek, inject_Z_minus. ring. }
  destruct (@less arith _ _) eqn:El.
  - split; [|unfold d; lra]. exists (j - k + 1)%Z. rewrite Ed, inject_Z_plus. ring.
  - apply less_false in El. split; [|done]. by exists (j - k)%Z.
Qed.

Lemma same_refl x : @same arith x x = true.
Proof. apply Qeq_bool_iff. reflexivity. Qed.

Lemma Math_max_Z (a b : Z) : @Math_max arith (inject_Z a) (inject_Z b) = inject_Z (Z.max a b).
Proof.
  unfold Math_max. rewrite !same_refl. simpl. destruct (Qle_bool _ _) eqn:E; simpl; f_equal.
  - apply Qle_bool_iff in E. rewrite <- Zle_Qle in E. lia.
  - apply not_true_iff_false in E. rewrite Qle_bool_iff, <- Zle_Qle in E. lia.
Qed.

(** The landing takes at least four turns and ends with [targetPoint] under the pointer. *)
Lemma total_delta_spec (current vel tp : Q) :
  0 <= tp < turn ->
  4 * turn <= total_delta current vel tp /\ pointer_on (current + total_delta current vel tp) == tp.
Proof.
  intros Htp. unfold total_delta. destruct (delta_to_spec current tp) as [(k & Ek) Hd].
  set (raw := @over arith _ _). change (@Math_ceil arith raw) with (inject_Z (Qceiling raw)).
  change (@of_Z arith 4) with (inject_Z 4). rewrite Math_max_Z. set (n := Z.max _ _).
  assert (4 <= inject_Z n) as Hn. { change 4 with (inject_Z 4). rewrite <- Zle_Qle. lia. }
  simpl. clearbody n raw. pose proof turn_pos.
  assert (inject_Z n * PIQ * inject_Z 2 == turn * inject_Z n) as E by (unfold turn; ring).
  split; [rewrite E; nra|].
  unfold pointer_on. apply (positive_mod_unique _ _ (- n - k)%Z); [done|].
  rewrite E, Ek, inject_Z_minus, inject_Z_opp. ring.
Qed.

(** ** Segments *)

Local Abbreviation Participant := (@SegmentParticipant arith).
Local Abbreviation Segment := (@SegmentData arith).

Definition sum_amounts (ps : list Participant) : Q := foldr (fun p s => usdcAmount p + s) 0 ps.

(** Nobody has deposited a negative amount, and somebody has deposited. *)
Definition staked (ps : list Participant) : Prop :=
  Forall (fun p : Participant => 0 <= usdcAmount p) ps /\ 0 < sum_amounts ps.

Lemma fold_sum ps a : fold_left (fun s (p : Participant) => s + usdcAmount p) ps a == a + sum_amounts ps.
Proof.
  revert a. induction ps as [|p ps IH]; intros a; simpl; [ring|]. rewrite IH. ring.
Qed.

Lemma total_amount_sum ps : 0 < sum_amounts ps -> total_amount ps == sum_amounts ps.
Proof.
  intros Hs. unfold total_amount, or_one.
  pose proof (fold_sum ps 0) as E. rewrite Qplus_0_l in E.
  set (t := fold_left _ _ _). change t with (fold_left (fun s (p : Participant) => s + usdcAmount p) ps 0).
  rewrite same_refl. simpl. destruct (Qeq_bool _ _) eqn:E0; simpl; [|done].
  apply Qeq_bool_iff in E0. rewrite E in E0. change (inject_Z 0) with 0 in E0. lra.
Qed.

(** The angle that a unit of deposit takes. *)
Definition unit_angle (total : Q) : Q := turn / total.

Lemma sweep_unit total (p : Participant) : 0 < total -> sweep_of total p == usdcAmount p * unit_angle total.
Proof. intros Ht. unfold sweep_of, unit_angle, turn. simpl. field. lra. Qed.

Lemma unit_pos total : 0 < total -> 0 < unit_angle total.
Proof. intros. unfold unit_angle. apply Qlt_shift_div_l; [done|]. rewrite Qmult_0_l. apply turn_pos. Qed.

(** Segment [n] starts where those before it end and spans its share of a turn. *)
Lemma segments_from_lookup total ps a i n :
  segments_from total a i ps !! n =
  p ← ps !! n;
  Some (let start := fold_left (fun s p => s + sweep_of total p) (take n ps) a in
        mkSegment start (start + sweep_of total p) (segment_color p (i + n)) (sp_displayName p)
          (usdcAmount p / total * inject_Z 100)).
Proof.
  revert a i n. induction ps as [|p ps IH]; intros a i n; [done|]. destruct n as [|n]; simpl.
  - by rewrite Nat.add_0_r.
  - rewrite IH. by rewrite <- Nat.add_succ_comm.
Qed.

Lemma fold_sweep total ps a :
  0 < total -> fold_left (fun s p => s + sweep_of total p) ps a == a + sum_amounts ps * unit_angle total.
Proof.
  intros Ht. revert a. induction ps as [|p ps IH]; intros a; cbn [fold_left sum_amounts foldr].
  - ring.
  - rewrite IH, sweep_unit by done. fold (sum_amounts ps). ring.
Qed.

Lemma sum_amounts_app ps qs : sum_amounts (ps ++ qs) == sum_amounts ps + sum_amounts qs.
Proof. induction ps as [|p ps IH]; simpl; [ring|]. rewrite IH. ring. Qed.

Lemma sum_nonneg ps : Forall (fun p : Participant => 0 <= usdcAmount p) ps -> 0 <= sum_amounts ps.
Proof. induction 1; simpl; lra. Qed.

(** What is before participant [n]. *)
Definition before (ps : list Participant) (n : nat) : Q := sum_amounts (take n ps).

Lemma before_bounds ps n p :
  Forall (fun p : Participant => 0 <= usdcAmount p) ps -> ps !! n = Some p ->
  0 <= before ps n /\ before ps n + usdcAmount p <= sum_amounts ps.
Proof.
  intros Hf Hn. unfold before.
  assert (sum_amounts ps == sum_amounts (take n ps) + (usdcAmount p + sum_amounts (drop (S n) ps))) as ->.
  { rewrite <- (take_drop_middle ps n p Hn) at 1. apply sum_amounts_app. }
  pose proof (sum_nonneg _ (Forall_take _ n _ Hf)).
  pose proof (sum_nonneg _ (Forall_drop _ (S n) _ Hf)). lra.
Qed.

(** The segments of a round: segment [n] covers the share of participant [n], after the
    shares of those before. *)
Lemma segment_spec ps n p :
  staked ps -> ps !! n = Some p ->
  exists seg, buildSegments ps !! n = Some seg /\ sg_label seg = sp_displayName p /\
    startAngle seg == before ps n * unit_angle (sum_amounts ps) /\
    endAngle seg == (before ps n + usdcAmount p) * unit_angle (sum_amounts ps) /\
    0 <= startAngle seg /\ endAngle seg <= turn.
Proof.
  intros [Hf Hs] Hn. pose proof (total_amount_sum ps Hs) as Et.
  assert (0 < total_amount ps) as Ht by lra.
  unfold buildSegments. rewrite segments_from_lookup, Hn. simpl. eexists. split; [done|].
  cbn [startAngle endAngle sg_label]. split; [done|].
  assert (unit_angle (total_amount ps) == unit_angle (sum_amounts ps)) as Eu.
  { unfold unit_angle. by rewrite Et. }
  pose proof (fold_sweep (total_amount ps) (take n ps) 0 Ht) as Es. rewrite Eu, Qplus_0_l in Es.
  pose proof (sweep_unit (total_amount ps) p Ht) as Ew. rewrite Eu in Ew.
  destruct (before_bounds ps n p Hf Hn) as [Hb He]. pose proof (unit_pos _ Hs) as Hu.
  assert (sum_amounts ps * unit_angle (sum_amounts ps) == turn) as Eturn.
  { unfold unit_angle. field. lra. }
  change (inject_Z 0) with 0. fold (before ps n) in Es.
  split; [done|]. split; [rewrite Es, Ew; ring|]. rewrite Es, Ew. split.
  - apply Qmult_le_0_compat; lra.
  - rewrite <- Eturn. rewrite <- Qmult_plus_distr_l. apply Qmult_le_compat_r; lra.
Qed.

Lemma before_step ps n m p :
  Forall (fun p : Participant => 0 <= usdcAmount p) ps -> ps !! n = Some p -> (n < m)%nat ->
  before ps n + usdcAmount p <= before ps m.
Proof.
  intros Hf Hn Hm. pose proof (before_bounds (take m ps) n p (Forall_take _ _ _ Hf)) as [_ Hb].
  { by rewrite lookup_take_lt. }
  unfold before in *. rewrite take_take, Nat.min_l in Hb by lia. done.
Qed.

(** Some share contains every amount below the sum. *)
Lemma share_of ps x : 0 <= x < sum_amounts ps ->
  exists n p, ps !! n = Some p /\ before ps n <= x < before ps n + usdcAmount p.
Proof.
  revert x. induction ps as [|p ps IH]; intros x Hx; cbn [sum_amounts foldr] in Hx; [lra|].
  fold (sum_amounts ps) in Hx. destruct (Qlt_le_dec x (usdcAmount p)) as [Hlt|Hle].
  - exists 0%nat, p. split; [done|]. unfold before. simpl. lra.
  - destruct (IH (x - usdcAmount p)) as (n & q & Hq & Hb); [lra|].
    exists (S n), q. split; [done|]. unfold before in *.
    change (sum_amounts (take (S n) (p :: ps))) with (usdcAmount p + sum_amounts (take n ps)). lra.
Qed.

(** The segments divide the circle in the proportion of the deposits.  When nobody's
    amount is negative and the pot is not empty, participant [n] has segment [n], under
    their name, whose angle is their share of the pot of a full turn; and every point of the
    circle lies in exactly one segment. *)
Theorem segments_divide_circle ps :
  staked ps ->
  length (buildSegments ps) = length ps /\
  (forall n p, ps !! n = Some p -> exists seg, buildSegments ps !! n = Some seg /\
     sg_label seg = sp_displayName p /\
     endAngle seg - startAngle seg == usdcAmount p / sum_amounts ps * turn) /\
  forall x, 0 <= x < turn ->
    exists n seg, buildSegments ps !! n = Some seg /\ startAngle seg <= x < endAngle seg /\
      forall m seg', buildSegments ps !! m = Some seg' -> startAngle seg' <= x < endAngle seg' -> m = n.
Proof.
  intros Hs. pose proof Hs as [Hf Hp]. pose proof (unit_pos _ Hp) as Hu.
  set (u := unit_angle (sum_amounts ps)) in *.
  assert (length (buildSegments ps) = length ps) as Hlen.
  { unfold buildSegments. generalize (total_amount ps) (of_Z 0) 0%nat.
    clear. induction ps as [|p ps IH]; intros t a i; simpl; [done|]. f_equal. apply IH. }
  split; [done|]. split.
  - intros n p Hn. destruct (segment_spec ps n p Hs Hn) as (seg & E & El & Ea & Ee & _).
    exists seg. split; [done|]. split; [done|]. rewrite Ea, Ee. unfold u, unit_angle. field. lra.
  - intros x Hx.
    assert (sum_amounts ps * u == turn) as Eturn by (unfold u, unit_angle; field; lra).
    destruct (share_of ps (x / u)) as (n & p & Hn & Hb).
    { split; [apply Qle_shift_div_l; lra|]. apply Qlt_shift_div_r; lra. }
    assert (x == x / u * u) as Ex by (field; lra). set (y := x / u) in *. clearbody y.
    destruct (segment_spec ps n p Hs Hn) as (seg & E & _ & Ea & Ee & _). fold u in Ea, Ee.
    exists n, seg. split; [done|]. split; [rewrite Ea, Ee, Ex; split; nra|].
    intros m seg' E' Hx'.
    destruct (lookup_lt_is_Some_2 ps m) as [q Hq].
    { rewrite <- Hlen. by eapply lookup_lt_Some. }
    destruct (segment_spec ps m q Hs Hq) as (seg'' & E'' & _ & Ea' & Ee' & _). fold u in Ea', Ee'.
    rewrite E' in E''. injection E'' as <-. rewrite Ea', Ee', Ex in Hx'.
    destruct (Nat.lt_trichotomy m n) as [Hlt|[->|Hlt]]; [exfalso|done|exfalso].
    + pose proof (before_step ps m n q Hf Hq Hlt). nra.
    + pose proof (before_step ps n m p Hf Hn Hlt). nra.
Qed.

(** ** The animation *)

Context {services : @WheelServices arith}.
Hypothesis random_range : forall w, 0 <= fst (wxRandom w) < 1.

Local Abbreviation Wheel := (@Wheel arith).
Local Abbreviation Props := (@Props arith).
Local Abbreviation WheelM := (M Wheel WWorld (@WEvent arith)).
Local Abbreviation State := (Proc Wheel WWorld (@WEvent arith)).

(** The winner the wheel is given is one of the participants and has a deposit: the page
    looks the winner up among the participants it passes. *)
Definition proper_winner (p : Props) : Prop :=
  forall i, winnerIndex p = Some i -> exists q, at_index (participants p) i = Some q /\
    Forall (fun p : Participant => 0 <= usdcAmount p) (participants p) /\ 0 < usdcAmount q.

(** The wheel shows the participants of a render with a winner, and will stop with the
    pointer on the winner's segment. *)
Definition aimed (seen : list Props) (w : Wheel) : Prop :=
  exists p i seg, p ∈ seen /\ winnerIndex p = Some i /\
    frozenSegments w = Some (buildSegments (participants p)) /\
    (tx_segments <$> texture w) = Some (Some (buildSegments (participants p))) /\
    at_index (buildSegments (participants p)) i = Some seg /\
    startAngle seg < pointer_on (targetAngle (anim w)) < endAngle seg.

Definition wheel_ok (seen : list Props) (w : Wheel) : Prop :=
  (forall p, props w = Some p -> p ∈ seen) /\
  match phase (anim w) with
  | Landing => aimed seen w /\ an_startAngle (anim w) + 4 * turn <= targetAngle (anim w)
  | Celebration => aimed seen w /\ angle (anim w) == targetAngle (anim w)
  | Idle | Spinning => True
  end.

Lemma at_index_some {A} (l : list A) (i : Z) x : at_index l i = Some x -> (0 <= i)%Z /\ l !! Z.to_nat i = Some x.
Proof. unfold at_index. destruct (Z.ltb_spec i 0); [done|]. by split. Qed.

Lemma acc_loop_start total n ps a q :
  ps !! n = Some q -> acc_loop total n ps a = Ok (fold_left (fun s p => s + sweep_of total p) (take n ps) a).
Proof. revert n a. induction ps as [|p ps IH]; intros [|n] a Hn; [done..|]. simpl. by rewrite IH. Qed.

(** The point a landing aims at, for the random number [r]. *)
Definition aim (ps : list Participant) (n : nat) (q : Participant) (r : Q) : Q :=
  fold_left (fun s p => s + sweep_of (total_amount ps) p) (take n ps) (@of_Z arith 0) +
  sweep_of (total_amount ps) q * (@decimal arith 10 2 + r * (@of_Z arith 1 - @of_Z arith 2 * @decimal arith 10 2)).

Lemma aim_inside ps n q r :
  staked ps -> ps !! n = Some q -> 0 < usdcAmount q -> 0 <= r < 1 ->
  exists seg, buildSegments ps !! n = Some seg /\ startAngle seg < aim ps n q r < endAngle seg /\
    0 <= aim ps n q r < turn.
Proof.
  intros Hs Hq Hpos Hr. destruct (segment_spec _ _ _ Hs Hq) as (seg & Eseg & _ & _ & _ & H0 & H1).
  exists seg. split; [done|]. destruct Hs as [Hf Hsum].
  assert (0 < sweep_of (total_amount ps) q) as Hw.
  { pose proof (total_amount_sum ps Hsum). rewrite sweep_unit by lra.
    apply Qmult_lt_0_compat; [done|]. apply unit_pos. lra. }
  unfold buildSegments in Eseg. rewrite segments_from_lookup, Hq in Eseg.
  cbn [mbind option_bind] in Eseg. unfold aim.
  set (sw := sweep_of (total_amount ps) q) in *. clearbody sw.
  injection Eseg as <-. cbn [startAngle endAngle] in *.
  set (st := fold_left _ _ _) in *. clearbody st.
  change (@decimal arith 10 2) with (10 / 100). change (@of_Z arith 1) with 1. change (@of_Z arith 2) with 2.
  assert (10 / 100 == 1 # 10) as -> by reflexivity.
  set (f := (1 # 10) + r * (1 - 2 * (1 # 10))). assert (0 < f < 1) as Hf' by (unfold f; lra).
  clearbody f. 
  pose proof (Qmult_lt_0_compat sw f Hw ltac:(lra)).
  pose proof (Qmult_lt_0_compat sw (1 - f) Hw ltac:(lra)). lra.
Qed.

Lemma wp_random (P : Res Q -> State -> Prop) s :
  (forall r w, 0 <= r < 1 -> P (Ok r) (mkProc (local s) w (WRandom r :: history s))) -> wp random P s.
Proof. intros HP. apply wp_invoke_total_at, HP, random_range. Qed.

(** The landing is aimed at the winner of its render. *)
Lemma land_spec p i (s : State) :
  winnerIndex p = Some i -> proper_winner p ->
  wp (land p i) (fun r s' => r = Ok tt /\ props (local s') = props (local s) /\
    phase (anim (local s')) = Landing /\
    forall seen, p ∈ seen -> aimed seen (local s') /\
      an_startAngle (anim (local s')) + 4 * turn <= targetAngle (anim (local s'))) s.
Proof.
  intros Ei Hp. destruct (Hp i Ei) as (q & Hq & Hf & Hpos). apply at_index_some in Hq as [Hi Hq].
  assert (staked (participants p)) as Hs.
  { split; [done|]. destruct (before_bounds _ _ _ Hf Hq). lra. }
  unfold land. repeat wp_step. cbn beta iota.
  rewrite (acc_loop_start _ _ _ _ _ Hq). repeat wp_step.
  unfold at_index at 1. rewrite (proj2 (Z.ltb_ge _ _)), Hq by done.
  wp_step. apply wp_random. intros r w Hr. unfold performance_now, update. repeat wp_step.
  split; [done|]. split; [done|]. split; [done|]. intros seen Hin.
  destruct (aim_inside _ _ _ r Hs Hq Hpos Hr) as (seg & Eseg & Hseg & Hturn).
  destruct (total_delta_spec (angle (anim (local s))) (velocity (anim (local s))) _ Hturn) as [H4 Ept].
  set (a0 := angle (anim (local s))) in *. set (td := total_delta _ _ _) in *.
  split; [|by apply (Qplus_le_compat a0 a0 _ td (Qle_refl a0) H4)].
  exists p, i, seg. split; [done|]. split; [done|]. split; [done|]. split.
  { simpl. destruct (participants p); [done|]. done. }
  split. { unfold at_index. by rewrite (proj2 (Z.ltb_ge _ _)). }
  match goal with |- _ < pointer_on ?t < _ => change t with (a0 + td) end. by rewrite Ept.
Qed.

(** ** The invariant *)

Definition keeps (seen : list Props) (m : WheelM unit) : Prop := forall s,
  wheel_ok seen (local s) -> wp m (fun r s' => r = Ok tt /\ wheel_ok seen (local s')) s.

Lemma keeps_bind seen (m : WheelM unit) (f : unit -> WheelM unit) : keeps seen m -> (forall u, keeps seen (f u)) -> keeps seen (m ≫= f).
Proof.
  intros Hm Hf s Hs. wp_step. eapply wp_mono; [by apply Hm|]. intros r s' [-> Hs']. by apply Hf.
Qed.

Lemma keeps_when seen b m : keeps seen m -> keeps seen (when b m).
Proof. intros Hm. destruct b; [done|]. intros s Hs. unfold when. by wp_step. Qed.

Lemma texture_effect_keeps seen p : keeps seen (texture_effect p).
Proof.
  intros s [Hp Hs]. unfold texture_effect. repeat wp_step.
  destruct (_ || _) eqn:E; [by wp_step|].
  apply orb_false_iff in E as [E1%bool_decide_eq_false_1 E2%bool_decide_eq_false_1].
  wp_step. split; [done|]. split; [done|]. simpl. by destruct (phase _).
Qed.

Lemma landing_effect_keeps seen p : p ∈ seen -> proper_winner p -> keeps seen (landing_effect p).
Proof.
  intros Hin Hw s [Hp Hs]. unfold landing_effect. repeat wp_step. cbn [set_local local].
  destruct (shouldTriggerLanding _ _ _) eqn:Et; [|by repeat wp_step].
  destruct (bool_decide (phase _ <> Landing)) eqn:El; [|by repeat wp_step].
  destruct (winnerIndex p) as [i|] eqn:Ei.
  - cbn [default andb]. eapply wp_mono; [by apply land_spec|].
    intros r s' (-> & Ep & Eph & Ha). split; [done|]. unfold wheel_ok. rewrite Ep, Eph.
    split; [done|]. by apply Ha.
  - exfalso. unfold shouldTriggerLanding in Et. rewrite Ei in Et.
    rewrite !(bool_decide_eq_false_2 (None <> None)), !andb_false_r in Et by naive_solver. done.
Qed.

Lemma spin_effect_keeps seen p : keeps seen (spin_effect p).
Proof.
  intros s [Hp Hs]. unfold spin_effect, update. destruct (spinning p); simpl; [|by wp_step].
  repeat wp_step. cbn [set_local local]. destruct (phase _) eqn:Eph; repeat wp_step; (split; [done|]);
    split; try done; simpl in *; by rewrite ?Eph.
Qed.

Lemma render_keeps seen p : p ∈ seen -> proper_winner p -> keeps seen (render p).
Proof.
  intros Hin Hw s [Hp Hs]. unfold render. do 4 wp_step.
  assert (keeps seen (when (changed isDark (props (local s)) p || changed pr_id (props (local s)) p) (texture_effect p) ;;
    when (changed winnerIndex (props (local s)) p || changed isDark (props (local s)) p || changed spinning (props (local s)) p) (landing_effect p) ;;
    when (changed spinning (props (local s)) p) (spin_effect p))) as Hk.
  { apply keeps_bind; [apply keeps_when, texture_effect_keeps|intros _].
    apply keeps_bind; [by apply keeps_when, landing_effect_keeps|intros _].
    apply keeps_when, spin_effect_keeps. }
  apply Hk. split; [|done]. intros p' [= <-]. done.
Qed.

(** The confetti: only random numbers are asked for, and every piece starts with a whole
    life. *)
Definition quiet (ev : @WEvent arith) : Prop := match ev with WSpinComplete => False | _ => True end.

Definition alive (l : Q) (ps : list (@ConfettiParticle arith)) : Prop := Forall (fun p => cp_life p <= l) ps.

Lemma spawnConfetti_spec color (s : State) :
  wp (spawnConfetti color) (fun r s' => exists ps, r = Ok ps /\ alive 1 ps /\ only_adds quiet s s') s.
Proof.
  eapply wp_mono; [apply (wp_for_acc (fun ps q => alive 1 ps /\ only_adds quiet s q) (fun _ => False))|].
  - split; [constructor|]. apply only_adds_refl.
  - intros i ps q _ [Hps Hq]. unfold spawn_one, random. repeat wp_step. split.
    + apply Forall_app. split; [done|]. by repeat constructor.
    + eapply only_adds_trans; [done|]. cbn [local world history]. do 6 (apply only_adds_cons; [done|]). apply only_adds_base.
  - intros [ps|e] s' Hs'; [|done]. destruct Hs'. by exists ps.
Qed.

Fixpoint completions (h : list (@WEvent arith)) : nat :=
  match h with [] => 0 | WSpinComplete :: h => S (completions h) | _ :: h => completions h end.

Lemma completions_quiet evs h : Forall quiet evs -> completions (evs ++ h) = completions h.
Proof. induction 1 as [|[] evs Hq Hf IH]; simpl; try done. Qed.

Lemma quiet_adds (s s' : State) : only_adds quiet s s' -> local s' = local s /\ completions (history s') = completions (history s).
Proof. intros [E (evs & -> & Hf)]. split; [done|]. by apply completions_quiet. Qed.

(** The elapsed part of the landing reaches its end exactly after [LANDING_DURATION]. *)
Lemma landing_over now start :
  let t := @Math_min arith ((now - start) / inject_Z LANDING_DURATION) (@of_Z arith 1) in
  negb (@less arith t (@of_Z arith 1)) && @same arith t t = Qle_bool 6000 (now - start).
Proof.
  intros t. rewrite same_refl, andb_true_r. unfold t, Math_min. rewrite !same_refl. cbn [andb].
  apply eq_true_iff_eq. rewrite negb_true_iff, less_false, Qle_bool_iff.
  change (@of_Z arith 1) with 1. change (inject_Z LANDING_DURATION) with 6000.
  assert ((now - start) / 6000 == (now - start) * (1 # 6000)) as E by (field; done).
  destruct (@less arith _ _) eqn:El; [apply less_spec in El|apply less_false in El]; rewrite E in *; lra.
Qed.

(** A frame of the landing before and after its end. *)
Lemma step_landing_spec p now (s : State) :
  wp (step_landing p now) (fun r s' => r = Ok tt /\
    frozenSegments (local s') = frozenSegments (local s) /\ texture (local s') = texture (local s) /\
    props (local s') = props (local s) /\
    targetAngle (anim (local s')) = targetAngle (anim (local s)) /\
    an_startAngle (anim (local s')) = an_startAngle (anim (local s)) /\
    landingStart (anim (local s')) = landingStart (anim (local s)) /\
    if Qle_bool 6000 (now - landingStart (anim (local s))) then
      phase (anim (local s')) = Celebration /\ angle (anim (local s')) == targetAngle (anim (local s)) /\
      celebrationStart (anim (local s')) = now /\ alive 1 (particles (anim (local s'))) /\
      completions (history s') = S (completions (history s))
    else phase (anim (local s')) = phase (anim (local s)) /\
      completions (history s') = completions (history s)) s.
Proof.
  unfold step_landing, update. do 4 wp_step. cbn [set_local local].
  rewrite (landing_over now). destruct (Qle_bool _ _); [|by wp_step].
  repeat wp_step. eapply wp_mono; [apply spawnConfetti_spec|].
  intros r s' (ps & -> & Hps & Hadd). destruct (quiet_adds _ _ Hadd) as [El Ec].
  repeat wp_step. cbn [set_local local history]. rewrite El. simpl. rewrite Ec. repeat split; try done.
  ring.
Qed.

Lemma tick_sound_spec (s : State) :
  wp tick_sound (fun r s' => r = Ok tt /\ completions (history s') = completions (history s) /\
    exists i, local s' = set_anim (local s) (set_pin (anim (local s)) i)) s.
Proof.
  assert (exists i, local s = set_anim (local s) (set_pin (anim (local s)) i)) as Hi.
  { exists (lastPinIdx (anim (local s))). by destruct (local s) as [[] ? ? ? ? ?]. }
  unfold tick_sound, update. repeat wp_step. cbn beta.
  destruct (_ || _); [|by repeat wp_step]. destruct (negb _); repeat wp_step; [|done].
  split; [done|]. split; [done|]. by eexists.
Qed.

Lemma draw_spec p (s : State) :
  wp (draw p) (fun r s' => r = Ok tt /\ completions (history s') = completions (history s) /\
    local s' = set_anim (local s) (set_particles (anim (local s)) (updateAndDrawConfetti (particles (anim (local s)))))) s.
Proof. unfold draw, update. by repeat wp_step. Qed.

(** Neither the tick nor the drawing changes what the invariant is about. *)
Lemma show_spec p (s : State) :
  wp (tick_sound ;; draw p) (fun r s' => r = Ok tt /\ completions (history s') = completions (history s) /\
    exists i, local s' = set_anim (local s) (set_particles (set_pin (anim (local s)) i)
                (updateAndDrawConfetti (particles (anim (local s)))))) s.
Proof.
  wp_step. eapply wp_mono; [apply tick_sound_spec|]. intros r s' (-> & Ec & i & El).
  eapply wp_mono; [apply draw_spec|]. intros r s'' (-> & Ec' & El').
  split; [done|]. split; [congruence|]. exists i. by rewrite El', El.
Qed.

Lemma show_keeps seen p : keeps seen (tick_sound ;; draw p).
Proof.
  intros s Hs. eapply wp_mono; [apply show_spec|]. intros r s' (-> & _ & i & ->). split; [done|].
  unfold wheel_ok, aimed in *. simpl. done.
Qed.

Lemma step_spinning_phase b a :
  phase a = Spinning -> phase (@step_spinning arith b a) = Spinning \/ phase (@step_spinning arith b a) = Idle.
Proof. intros E. unfold step_spinning. destruct b; simpl; [by left|]. destruct (negb _); simpl; auto. Qed.

Lemma loop_keeps seen p now : keeps seen (loop p now).
Proof.
  intros s [Hp Hs]. unfold loop. do 2 wp_step.
  match goal with |- wp (?m ;; _) _ _ => assert (wp m (fun r s' => r = Ok tt /\ wheel_ok seen (local s')) s) as Hm end.
  { destruct (phase (anim (local s))) eqn:Eph; unfold wheel_ok, update.
    - wp_step. split; [done|]. simpl. by rewrite Eph.
    - wp_step. split; [done|]. split; [done|]. cbn [set_local local set_anim anim].
      by destruct (step_spinning_phase (spinning p) _ Eph) as [->| ->].
    - eapply wp_mono; [apply step_landing_spec|].
      intros r s' (-> & Ef & Et & Ep & Eta & Es & _ & Hc). split; [done|]. rewrite Ep. split; [done|].
      destruct Hs as [Ha H4]. unfold aimed in *.
      destruct (Qle_bool _ _); [destruct Hc as (-> & Ea & _)|destruct Hc as [-> _]; rewrite Eph];
        rewrite Ef, Et, Eta; split; try done. by rewrite Es.
    - unfold step_celebration, update. do 2 wp_step. destruct (particles _); [|wp_step; by rewrite Eph].
      destruct (less _ _); repeat wp_step; [done|]. by rewrite Eph. }
  wp_step. eapply wp_mono; [exact Hm|]. intros r s' [-> Hs']. by apply show_keeps.
Qed.

(** ** Runs *)

Local Abbreviation Input := (@WheelInput arith).

Definition rendered (inputs : list Input) : list Props :=
  omap (fun i => match i with Render p => Some p | Frame _ => None end) inputs.

Lemma elem_of_rendered inputs p : p ∈ rendered inputs <-> Render p ∈ inputs.
Proof.
  unfold rendered. rewrite list_elem_of_omap. split.
  - intros ([q|t] & Hin & E); [|done]. by injection E as <-.
  - intros Hin. by exists (Render p).
Qed.

Lemma run_keeps inputs seen :
  (forall p, Render p ∈ inputs -> p ∈ seen /\ proper_winner p) -> keeps seen (run_wheel inputs).
Proof.
  intros Hv. unfold run_wheel. induction inputs as [|i inputs IH]; intros s Hs; [done|].
  unfold for_each. fold (@for_each Wheel WWorld (@WEvent arith) Input). revert s Hs.
  apply keeps_bind; [|intros _; apply IH; intros p Hp; apply Hv; by right].
  destruct i as [p|now]; simpl.
  - destruct (Hv p) as [Hin Hw]; [by left|]. by apply render_keeps.
  - intros s Hs. do 2 wp_step. destruct (props (local s)) as [p|] eqn:Ep; [|by wp_step].
    by apply loop_keeps.
Qed.


(** ** The end of a landing *)

Lemma confetti_ages l ps : alive l ps -> alive (l - (12 # 1000)) (updateAndDrawConfetti ps).
Proof.
  intros Hl. unfold updateAndDrawConfetti. apply Forall_forall. intros p Hp.
  apply list_elem_of_omap in Hp as (q & Hq & E).
  pose proof (proj1 (Forall_forall _ _) Hl q Hq) as Hlq. simpl in Hlq. unfold update_particle in E. destruct (less _ _); [|done].
  injection E as <-. cbn [cp_life]. change (@decimal arith 12 3) with (12 / 1000).
  change (@minus arith) with Qminus. assert (12 / 1000 == 12 # 1000) as -> by reflexivity. lra.
Qed.

Lemma confetti_gone l ps : alive l ps -> l <= 12 # 1000 -> updateAndDrawConfetti ps = [].
Proof.
  intros Hl Hle. unfold updateAndDrawConfetti. induction Hl as [|p ps Hp Hps IH]; [done|].
  cbn [omap list_omap]. rewrite IH. unfold update_particle at 1. destruct (less _ _) eqn:E; [|done].
  apply less_spec in E. change (@of_Z arith 0) with 0 in E.
  change (@minus arith (cp_life p) (@decimal arith 12 3)) with (cp_life p - 12 / 1000) in E.
  assert (12 / 1000 == 12 # 1000) as E' by reflexivity. rewrite E' in E. lra.
Qed.

(** One frame, for each phase of interest. *)
Lemma frame_spec p now (s : State) :
  props (local s) = Some p ->
  wp (wheel_step (Frame now)) (fun r s' => r = Ok tt /\ props (local s') = Some p /\
    match phase (anim (local s)) with
    | Landing =>
        landingStart (anim (local s')) = landingStart (anim (local s)) /\
        if Qle_bool 6000 (now - landingStart (anim (local s)))
        then phase (anim (local s')) = Celebration /\ celebrationStart (anim (local s')) = now /\
             alive (1 - (12 # 1000)) (particles (anim (local s'))) /\
             completions (history s') = S (completions (history s))
        else phase (anim (local s')) = Landing /\ completions (history s') = completions (history s)
    | Celebration =>
        completions (history s') = completions (history s) /\
        if match particles (anim (local s)) with [] => @less arith 3000 (now - celebrationStart (anim (local s))) | _ => false end
        then phase (anim (local s')) = Idle /\ frozenSegments (local s') = None
        else phase (anim (local s')) = Celebration /\
             celebrationStart (anim (local s')) = celebrationStart (anim (local s)) /\
             particles (anim (local s')) = updateAndDrawConfetti (particles (anim (local s)))
    | Idle => completions (history s') = completions (history s) /\ phase (anim (local s')) = Idle /\
              frozenSegments (local s') = frozenSegments (local s)
    | Spinning => True
    end) s.
Proof.
  intros Ep. match goal with |- wp _ ?P _ => set (post := P) end.
  unfold wheel_step. do 2 wp_step. rewrite Ep. unfold loop. do 3 wp_step.
  assert (forall q : State, props (local q) = Some p ->
    (forall i, post (Ok tt) (mkProc (set_anim (local q) (set_particles (set_pin (anim (local q)) i)
                (updateAndDrawConfetti (particles (anim (local q)))))) (world q) (history q))) ->
    wp (tick_sound ;; draw p) post q) as Hshow.
  { intros q Eq Hpost. eapply wp_mono; [apply show_spec|]. intros r q' (-> & Ec & i & El).
    specialize (Hpost i). unfold post in *. cbn [local history] in Hpost. rewrite Ec, El. exact Hpost. }
  destruct (phase (anim (local s))) eqn:Eph; unfold update.
  - wp_step. by apply Hshow.
  - wp_step. by apply Hshow.
  - eapply wp_mono; [apply step_landing_spec|].
    intros r q (-> & _ & _ & Eq & _ & _ & Els & Hc). apply Hshow; [congruence|]. intros i. unfold post. simpl.
    split; [done|]. split; [congruence|]. split; [done|].
    destruct (Qle_bool _ _); [|by rewrite Eph in Hc].
    destruct Hc as (E1 & _ & E2 & Hal & E3). repeat split; try done. by apply confetti_ages.
  - unfold step_celebration, update. do 2 wp_step. unfold post.
    destruct (particles (anim (local s))) as [|c cs] eqn:Epa; [|wp_step; apply Hshow; [done|]; intros i; unfold post; simpl; by rewrite Epa].
    change (@of_Z arith 3000) with 3000. change (@minus arith) with Qminus.
    destruct (less _ _) eqn:El; [do 3 wp_step|wp_step]; (apply Hshow; [done|]); intros i; unfold post;
      simpl; by rewrite ?Epa.
Qed.

Lemma run_cons i (l : list Input) P (s : State) :
  wp (wheel_step i) (fun r s' => r = Ok tt /\ wp (run_wheel l) P s') s -> wp (run_wheel (i :: l)) P s.
Proof. intros Hw. unfold run_wheel. simpl. wp_step. eapply wp_mono; [exact Hw|]. by intros r s' [-> H]. Qed.

Lemma run_app (l k : list Input) P (s : State) :
  wp (run_wheel l) (fun r s' => r = Ok tt /\ wp (run_wheel k) P s') s -> wp (run_wheel (l ++ k)) P s.
Proof.
  revert s. induction l as [|i l IH]; intros s Hw; [by apply Hw|]. simpl. unfold run_wheel in *. simpl in *.
  unfold wp, mbind, M_bind in *. destruct (wheel_step i s) as [[[]|e] s']; [by apply IH|]. by destruct Hw.
Qed.

(** Frames before the end of the landing change nothing that matters. *)
Lemma landing_waits p (ts : list Q) (s : State) :
  props (local s) = Some p -> phase (anim (local s)) = Landing ->
  Forall (fun t => t - landingStart (anim (local s)) < 6000) ts ->
  wp (run_wheel (Frame <$> ts)) (fun r s' => r = Ok tt /\ props (local s') = Some p /\
    phase (anim (local s')) = Landing /\ landingStart (anim (local s')) = landingStart (anim (local s)) /\
    completions (history s') = completions (history s)) s.
Proof.
  revert s. induction ts as [|t ts IH]; intros s Ep Eph Hts; [done|].
  apply Forall_cons in Hts as [Ht Hts]. cbn [fmap list_fmap]. apply run_cons.
  eapply wp_mono; [by apply frame_spec|]. intros r s' (-> & Ep' & Hc). rewrite Eph in Hc.
  destruct Hc as [El Hc]. destruct (Qle_bool _ _) eqn:E; [apply Qle_bool_iff in E; lra|].
  destruct Hc as [Eph' Ec]. split; [done|]. rewrite <- Ec, <- El. apply IH; [done..|]. by rewrite El.
Qed.

(** A celebration that began at [cs] with confetti of at most [l] to live, or is over. *)
Definition fading (p : Props) (cs l : Q) (s : State) : Prop :=
  props (local s) = Some p /\
  (phase (anim (local s)) = Idle /\ frozenSegments (local s) = None \/
   phase (anim (local s)) = Celebration /\ celebrationStart (anim (local s)) = cs /\
   alive l (particles (anim (local s)))).

Lemma fading_frame p cs l t (s : State) :
  fading p cs l s ->
  wp (wheel_step (Frame t)) (fun r s' => r = Ok tt /\ completions (history s') = completions (history s) /\
    fading p cs (l - (12 # 1000)) s' /\
    (phase (anim (local s)) = Idle \/ particles (anim (local s)) = [] -> 3000 < t - cs -> phase (anim (local s')) = Idle) /\
    (l <= 12 # 1000 -> phase (anim (local s')) = Idle \/ particles (anim (local s')) = [])) s.
Proof.
  intros [Ep Hs]. eapply wp_mono; [by apply frame_spec|]. intros r s' (-> & Ep' & Hc). split; [done|].
  destruct Hs as [[Eph Ef]|(Eph & Ecs & Hal)]; rewrite Eph in Hc.
  - destruct Hc as (Ec & Eph' & Ef'). split; [done|]. split; [|by split; [|left]].
    split; [done|]. left. split; [done|]. congruence.
  - destruct Hc as (Ec & Hc). rewrite Ecs in Hc. split; [done|].
    destruct (match particles _ with [] => _ | _ => _ end) eqn:Eg.
    + destruct Hc as [Eph' Ef']. split; [by split; [|left]|]. by split; [|left].
    + destruct Hc as (Eph' & Ecs' & Epa). split; [|split].
      * split; [done|]. right. split; [done|]. split; [congruence|]. rewrite Epa. by apply confetti_ages.
      * intros [E0|E0] Ht; [congruence|]. rewrite E0 in Eg. apply less_false in Eg. lra.
      * intros Hl. right. rewrite Epa. by eapply confetti_gone.
Qed.

Lemma fading_run p cs (ts : list Q) : forall l (s : State), fading p cs l s ->
  wp (run_wheel (Frame <$> ts)) (fun r s' => r = Ok tt /\ completions (history s') = completions (history s) /\
    fading p cs (l - inject_Z (Z.of_nat (length ts)) * (12 # 1000)) s') s.
Proof.
  induction ts as [|t ts IH]; intros l s Hs.
  - split; [done|]. split; [done|]. destruct Hs as [Ep [Hs|(Eph & Ecs & Hal)]]; split; auto.
    right. split; [done|]. split; [done|]. eapply Forall_impl; [exact Hal|]. intros q Hq. cbv beta in *.
    change (inject_Z (Z.of_nat (length []))) with 0. lra.
  - cbn [fmap list_fmap]. apply run_cons. eapply wp_mono; [by apply fading_frame|].
    intros r s' (-> & Ec & Hs' & _). split; [done|]. eapply wp_mono; [by apply IH|].
    intros r s'' (-> & Ec' & Ep & Hs''). split; [done|]. split; [congruence|]. split; [done|].
    destruct Hs'' as [Hs''|(Eph & Ecs & Hal)]; [by left|right]. split; [done|]. split; [done|].
    eapply Forall_impl; [exact Hal|]. intros q Hq. cbv beta in *.
    cbn [length]. rewrite Nat2Z.inj_succ. unfold Z.succ. rewrite inject_Z_plus.
    change (inject_Z 1) with 1. lra.
Qed.

End spec.

(** ** A round of three *)

Module WheelWitness.

(** [Math.random] gives a half, the clock stands at 1000; the power is the square and the
    sine and cosine are zero. *)
Definition zero (x : Q) : Q := 0.
Definition square (x e : Q) : Q := Qmult x x.
#[local] Instance arithQ : Arith := exact square zero zero.

#[local] Instance servicesQ : WheelServices :=
  {| WWorld := unit; wxRandom u := ((1 # 2) : Q, u); wxNow u := ((1000 # 1) : Q, u) |}.

Definition players : list (@SegmentParticipant arithQ) :=
  [mkSegmentParticipant "" "ann" (1 # 1); mkSegmentParticipant "#ff0000" "bob" (5 # 2);
   mkSegmentParticipant "" "cyd" (3 # 2)].

Definition spin : @WheelInput arithQ := Render (mkProps 1 players true None false).
Definition stop : @WheelInput arithQ := Render (mkProps 2 players false (Some 1) false).
Definition frames (ts : list Z) : list (@WheelInput arithQ) := (fun t => Frame (inject_Z t)) <$> ts.

Definition show : list (@WheelInput arithQ) := spin :: frames [16; 33; 50] ++ stop :: frames [1016; 4000; 7001].

Definition start : Proc (@Wheel arithQ) unit (@WEvent arithQ) := mkProc initial_wheel tt [].

Lemma random_half : forall w : @WWorld arithQ servicesQ, (0 <= fst (wxRandom w) < 1)%Q.
Proof. intros w. simpl. lra. Qed.

Lemma segments_divide_circle_witness :
  staked square zero zero players /\ length (buildSegments players) = 3%nat.
Proof.
  assert (staked square zero zero players) as Hs.
  { split; [|reflexivity]. repeat constructor; discriminate. }
  split; [exact Hs|]. exact (proj1 (segments_divide_circle square zero zero players Hs)).
Defined.

Lemma show_winners : forall p, Render p ∈ show -> proper_winner square zero zero p.
Proof.
  intros p Hp i Ei. assert (p = mkProps 1 players true None false \/ p = mkProps 2 players false (Some 1) false) as Hpp.
  { apply list_elem_of_In in Hp. cbn in Hp.
    repeat (destruct Hp as [Hp|Hp]; [first [discriminate Hp | injection Hp as <-; auto]|]). destruct Hp. }
  destruct Hpp; subst p; [done|]. injection Ei as <-. eexists. split; [reflexivity|]. split; [repeat constructor; discriminate|reflexivity].
Qed.


Definition landing : list (@WheelInput arithQ) := spin :: frames [16; 33; 50] ++ [stop].


(** The same show in binary64 also ends with the pointer in the second segment. *)
Definition arith64 : Arith := binary64 (fun x _ => num_times x x) (fun _ => num_of_Z 0) (fun _ => num_of_Z 0).

Definition services64 : @WheelServices arith64 :=
  {| WWorld := unit; wxRandom u := ((num_of_decimal false 5 (-1) : @number arith64), u);
     wxNow u := ((num_of_Z 1000 : @number arith64), u) |}.

Definition players64 : list (@SegmentParticipant arith64) :=
  [@mkSegmentParticipant arith64 "" "ann" (num_of_Z 1);
   @mkSegmentParticipant arith64 "#ff0000" "bob" (num_of_decimal false 25 (-1));
   @mkSegmentParticipant arith64 "" "cyd" (num_of_decimal false 15 (-1))].

Definition show64 : list (@WheelInput arith64) :=
  let frames ts := (fun t => @Frame arith64 (num_of_Z t)) <$> ts in
  Render (@mkProps arith64 1 players64 true None false) :: frames [16; 33; 50] ++
  Render (@mkProps arith64 2 players64 false (Some 1) false) :: frames [1016; 4000; 7001].

Lemma show64_ends :
  let w := local (snd (@run_wheel arith64 services64 show64 (mkProc (@initial_wheel arith64) tt []))) in
  let under := @positive_mod arith64 (num_minus (num_over (@minus_num arith64 PI64) (num_of_Z 2)) (angle (anim w))) in
  phase (anim w) = Celebration /\
  match at_index (@buildSegments arith64 players64) 1 with
  | Some seg => SFltb (startAngle seg) under && SFltb under (endAngle seg) = true
  | None => False
  end.
Proof. vm_compute. done. Qed.
End WheelWitness.
