(* ===== verification/ActiveRoundScan.v ===== *)
(** * ActiveRoundScan: crank/src/activeRoundScan.ts

    The start-up search for the round the crank resumes at: accounts are fetched in
    batches from a starting id upwards, tolerating gaps of closed rounds, and the
    scan answers the last active round seen or the next free id. *)

From stdpp Require Import base list gmap strings.
From Stdlib Require Import ZArith Lia.
From S2P Require Import Prelude Buffers Accounts Effects.

Local Open Scope Z_scope.
Set Warnings "-clear-no-such-hyp".

Inductive ScanEntry :=
| missing
| invalid
| round (status : Z).

#[export] Instance ScanEntry_eq_dec : EqDecision ScanEntry.
Proof. solve_decision. Defined.

(** [archivedMax] is a JavaScript number: [None] is NaN. *)
Record ActiveRoundScanArgs := mkScanArgs {
  scanStart : Z;
  archivedMax : option Z;
  maxScan : Z;
  batchSize : Z;
  nullStreakLimit : Z
}.

Definition isActiveRoundStatus (status : Z) : bool :=
  (status =? RoundStatus.Open) ||
  (status =? RoundStatus.Locked) ||
  (status =? RoundStatus.VrfRequested) ||
  (status =? RoundStatus.Settled).

(** The variables of the scan. *)
Record ScanState := mkScan { maxExisting : Z; activeRound : Z; nullStreak : Z }.

(** [maxExisting > 0 && nullStreak >= args.nullStreakLimit] *)
Definition scan_stops (limit : Z) (st : ScanState) : bool :=
  (0 <? maxExisting st) && (limit <=? nullStreak st).

(** One iteration of the loop over a batch's entries. *)
Definition scan_entry (st : ScanState) (id : Z) (entry : ScanEntry) : ScanState :=
  match entry with
  | missing => mkScan (maxExisting st) (activeRound st) (nullStreak st + 1)
  | invalid => mkScan (maxExisting st) (activeRound st) 0
  | round status => mkScan id (if isActiveRoundStatus status then id else activeRound st) 0
  end.

(** The loop over a batch's entries; only a missing entry can break it. *)
Fixpoint scan_entries (limit : Z) (entries : list (Z * ScanEntry)) (st : ScanState) : ScanState :=
  match entries with
  | [] => st
  | (id, entry) :: rest =>
      let st' := scan_entry st id entry in
      if bool_decide (entry = missing) && scan_stops limit st' then st'
      else scan_entries limit rest st'
  end.

Section scan.
Context {S W E : Type}.
Context (args : ActiveRoundScanArgs) (fetchBatch : list Z -> M S W E (list ScanEntry)).

(** The loop over the batches; [None] when [fuel] ran out.  The batch's answer has
    one entry per id. *)
Fixpoint scan_loop (fuel : nat) (base : Z) (st : ScanState) : M S W E (option ScanState) :=
  match fuel with
  | O => mret None
  | Datatypes.S fuel =>
      if base <=? scanStart args + maxScan args then
        let ids := (fun i => base + i) <$> seqZ 0 (batchSize args) in
        entries ← fetchBatch ids;
        let st := scan_entries (nullStreakLimit args) (zip ids entries) st in
        if scan_stops (nullStreakLimit args) st then mret (Some st)
        else scan_loop fuel (base + batchSize args) st
      else mret (Some st)
  end.

(** The id the scan settles on: [NaN] ([None]) when no active round was seen and
    [archivedMax] is NaN. *)
Definition scan_result (st : ScanState) : option Z :=
  if 0 <? activeRound st then Some (activeRound st)
  else (fun m => Z.max (maxExisting st) m + 1) <$> archivedMax args.

Definition scanForActiveRound (fuel : nat) : M S W E (option (option Z)) :=
  st ← scan_loop fuel (scanStart args) (mkScan 0 0 0);
  mret (scan_result <$> st).
End scan.

(** ** The scan without batches *)

Section scan_facts.
Context (limit : Z).
Hypothesis limit_pos : 0 < limit.

Lemma scan_entry_stops st id entry :
  scan_stops limit (scan_entry st id entry) = true -> entry = missing.
Proof.
  destruct entry; unfold scan_stops; simpl; try done;
    intros [_ H%Z.leb_le]%andb_true_iff; lia.
Qed.

(** A batch boundary does not change what the scan sees. *)
Lemma scan_entries_app l1 l2 st :
  scan_stops limit st = false ->
  scan_entries limit (l1 ++ l2) st =
  let st1 := scan_entries limit l1 st in
  if scan_stops limit st1 then st1 else scan_entries limit l2 st1.
Proof.
  revert st. induction l1 as [|[id entry] l1 IH]; intros st Hst; simpl.
  { by rewrite Hst. }
  case_bool_decide as Hm; simpl.
  - destruct (scan_stops limit (scan_entry st id entry)) eqn:E; simpl; [by rewrite ?E|by apply IH].
  - apply IH. apply not_true_is_false. by intros ?%scan_entry_stops.
Qed.

(** ** What the scan has seen *)

Context (chain : Z -> ScanEntry).

Definition is_round (id : Z) : Prop := exists status, chain id = round status.
Definition is_active (id : Z) : Prop :=
  exists status, chain id = round status /\ isActiveRoundStatus status = true.

(** [v] is the greatest id in [[lo, hi)] that satisfies [P], or 0. *)
Definition last_such (P : Z -> Prop) (lo hi v : Z) : Prop :=
  (v = 0 /\ forall j, lo <= j < hi -> ~ P j) \/
  (lo <= v < hi /\ P v /\ forall j, v < j < hi -> ~ P j).

(** The state after visiting the ids of [[lo, hi)]. *)
Record scanned (lo hi : Z) (st : ScanState) : Prop := {
  scanned_streak : 0 <= nullStreak st <= hi - lo;
  scanned_missing : forall j, hi - nullStreak st <= j < hi -> chain j = missing;
  scanned_existing : last_such is_round lo hi (maxExisting st);
  scanned_active : last_such is_active lo hi (activeRound st)
}.

Lemma last_such_keep P lo hi v : lo <= hi -> last_such P lo hi v -> ~ P hi ->
  last_such P lo (hi + 1) v.
Proof.
  intros Hle [[-> Hn]|(Hv & Hp & Hn)] Hno; [left|right]; split_and!; try done; try lia.
  all: intros j Hj; destruct (decide (j = hi)) as [->|]; [done|apply Hn; lia].
Qed.

Lemma last_such_new (P : Z -> Prop) lo hi : lo <= hi -> P hi -> last_such P lo (hi + 1) hi.
Proof. intros. right. split_and!; [lia|lia|done|]. intros j Hj. lia. Qed.

Lemma scanned_step lo hi st :
  lo <= hi -> scanned lo hi st -> scanned lo (hi + 1) (scan_entry st hi (chain hi)).
Proof.
  intros Hle [Hk Hm He Ha].
  destruct (chain hi) as [| |status] eqn:E; split; simpl; try lia.
  - intros j Hj. destruct (decide (j = hi)) as [->|]; [done|]. apply Hm. lia.
  - apply last_such_keep; try done. intros [s Hs]. congruence.
  - apply last_such_keep; try done. intros (s & Hs & _). congruence.
  - apply last_such_keep; try done. intros [s Hs]. congruence.
  - apply last_such_keep; try done. intros (s & Hs & _). congruence.
  - apply last_such_new; [done|]. by exists status.
  - destruct (isActiveRoundStatus status) eqn:Es.
    + apply last_such_new; [done|]. by exists status.
    + apply last_such_keep; try done. intros (s & Hs & ?). congruence.
Qed.

Definition entries_from (lo : Z) (n : nat) : list (Z * ScanEntry) :=
  (fun id => (id, chain id)) <$> seqZ lo (Z.of_nat n).

Lemma entries_from_cons lo n :
  entries_from lo (S n) = (lo, chain lo) :: entries_from (lo + 1) n.
Proof.
  unfold entries_from. rewrite seqZ_cons by lia. simpl. do 2 f_equal. f_equal; lia.
Qed.

Lemma entries_from_app lo n k :
  entries_from lo (n + k) = entries_from lo n ++ entries_from (lo + Z.of_nat n) k.
Proof.
  unfold entries_from. rewrite <- fmap_app, <- seqZ_app by lia. by rewrite Nat2Z.inj_add.
Qed.

(** The scan visits ids from [mid] and stops at the end or after a long gap. *)
Lemma scan_entries_scanned lo mid n st :
  lo <= mid -> scanned lo mid st ->
  exists hi, mid <= hi <= mid + Z.of_nat n /\
    scanned lo hi (scan_entries limit (entries_from mid n) st) /\
    (hi = mid + Z.of_nat n \/
     scan_stops limit (scan_entries limit (entries_from mid n) st) = true).
Proof.
  revert mid st. induction n as [|n IH]; intros mid st Hle Hs.
  { exists mid. split_and!; try lia; done. }
  rewrite entries_from_cons. simpl.
  pose proof (scanned_step _ _ _ Hle Hs) as Hs'.
  destruct (bool_decide (chain mid = missing) && _) eqn:E.
  - apply andb_true_iff in E as [_ E]. exists (mid + 1). split_and!; try lia; try done; by right.
  - destruct (IH (mid + 1) _ ltac:(lia) Hs') as (hi & ? & ? & [?|?]);
      exists hi; split_and!; try lia; try done; first [left; lia|by right].
Qed.

(** Gaps of [limit] missing accounts only occur after the last account. *)
Definition no_wide_gap (lo stop : Z) : Prop :=
  forall j e, lo <= j -> j + limit <= e -> e < stop -> chain e <> missing ->
    exists k, j <= k < j + limit /\ chain k <> missing.

Lemma last_such_extend P lo hi stop v :
  hi <= stop -> last_such P lo hi v -> (forall j, hi <= j < stop -> ~ P j) -> last_such P lo stop v.
Proof.
  intros Hle [[-> Hn]|(Hv & Hp & Hn)] Hrest; [left|right]; split_and!; try done; try lia.
  all: intros j Hj; destruct (decide (j < hi)); [apply Hn; lia|apply Hrest; lia].
Qed.

Lemma scan_entries_complete lo n :
  no_wide_gap lo (lo + Z.of_nat n) ->
  let st := scan_entries limit (entries_from lo n) (mkScan 0 0 0) in
  last_such is_round lo (lo + Z.of_nat n) (maxExisting st) /\
  last_such is_active lo (lo + Z.of_nat n) (activeRound st).
Proof.
  intros Hgap st.
  destruct (scan_entries_scanned lo lo n (mkScan 0 0 0)) as (hi & Hhi & Hs & Hend); [lia| |].
  { split; simpl; try lia; left; split; lia || done. }
  fold st in Hs, Hend.
  assert (Hrest : forall j, hi <= j < lo + Z.of_nat n -> chain j = missing).
  { intros j Hj. destruct Hend as [->|Hstop]; [lia|].
    apply andb_true_iff in Hstop as [_ Hl%Z.leb_le].
    destruct (decide (chain j = missing)) as [|Hne]; [done|exfalso].
    pose proof (scanned_streak _ _ _ Hs).
    destruct (Hgap (hi - nullStreak st) j) as (k & Hk & Hck); try lia; [done|].
    destruct (decide (k < hi)) as [Hlt|]; [|lia].
    apply Hck. apply (scanned_missing _ _ _ Hs). lia. }
  destruct Hs as [_ _ He Ha].
  split; (eapply last_such_extend; [|done|]; [lia|]); intros j Hj.
  - intros [s Hs]. rewrite Hrest in Hs by lia. done.
  - intros (s & Hs & _). rewrite Hrest in Hs by lia. done.
Qed.
End scan_facts.

(** ** The batched scan *)

Section batched.
Context {S W E : Type} (args : ActiveRoundScanArgs).
Context (fetchBatch : list Z -> M S W E (list ScanEntry)) (chain : Z -> ScanEntry).

(** The accounts do not change while the scan runs. *)
Hypothesis fetch_chain : forall ids p, fst (fetchBatch ids p) = Ok (chain <$> ids).
Hypothesis start_pos : 0 < scanStart args.
Hypothesis maxScan_nonneg : 0 <= maxScan args.
Hypothesis batch_pos : 0 < batchSize args.
Hypothesis limit_pos : 0 < nullStreakLimit args.

(** The number of batches and the end of the scanned window. *)
Definition batches : nat := Z.to_nat (maxScan args / batchSize args + 1).
Definition scan_end : Z := scanStart args + Z.of_nat batches * batchSize args.

Lemma batch_entries base :
  zip ((fun i => base + i) <$> seqZ 0 (batchSize args))
    (chain <$> ((fun i => base + i) <$> seqZ 0 (batchSize args))) =
  entries_from chain base (Z.to_nat (batchSize args)).
Proof.
  unfold entries_from. rewrite Z2Nat.id by lia.
  replace ((fun i => base + i) <$> seqZ 0 (batchSize args)) with (seqZ base (batchSize args)).
  - generalize (seqZ base (batchSize args)). induction l as [|a l IH]; [done|].
    simpl. by f_equal.
  - rewrite <- (Z.add_0_r base) at 1. by rewrite <- fmap_add_seqZ.
Qed.

Lemma scan_loop_flat k fuel st p :
  (k <= batches)%nat -> (k < fuel)%nat -> scan_stops (nullStreakLimit args) st = false ->
  let base := scan_end - Z.of_nat k * batchSize args in
  fst (scan_loop args fetchBatch fuel base st p) =
  Ok (Some (scan_entries (nullStreakLimit args)
              (entries_from chain base (k * Z.to_nat (batchSize args))) st)).
Proof.
  revert fuel st p. induction k as [|k IH]; intros fuel st p Hk Hf Hst base;
    (destruct fuel as [|fuel]; [lia|]); cbn [scan_loop].
  - rewrite (proj2 (Z.leb_gt _ _)); [done|]. unfold base, scan_end, batches.
    pose proof (Z.mul_succ_div_gt (maxScan args) (batchSize args)). nia.
  - rewrite (proj2 (Z.leb_le _ _)).
    2:{ unfold base, scan_end, batches in *.
        pose proof (Z.mul_div_le (maxScan args) (batchSize args)). nia. }
    cbn zeta. unfold mbind, M_bind.
    pose proof (fetch_chain ((fun i => base + i) <$> seqZ 0 (batchSize args)) p) as Hfetch.
    destruct (fetchBatch _ p) as [r p']. simpl in Hfetch. subst r.
    rewrite batch_entries. change (Datatypes.S k * Z.to_nat (batchSize args))%nat
      with (Z.to_nat (batchSize args) + k * Z.to_nat (batchSize args))%nat.
    rewrite entries_from_app, scan_entries_app by done. cbn zeta.
    destruct (scan_stops _ (scan_entries _ _ _)) eqn:Estop; [done|].
    rewrite Z2Nat.id by lia.
    replace (base + batchSize args) with (scan_end - Z.of_nat k * batchSize args)
      by (unfold base; lia).
    apply IH; [lia|lia|done].
Qed.

Lemma scanForActiveRound_flat p :
  fst (scanForActiveRound args fetchBatch (Datatypes.S batches) p) =
  Ok (Some (scan_result args (scan_entries (nullStreakLimit args)
    (entries_from chain (scanStart args) (batches * Z.to_nat (batchSize args))) (mkScan 0 0 0)))).
Proof.
  unfold scanForActiveRound, mbind, M_bind.
  pose proof (scan_loop_flat batches (Datatypes.S batches) (mkScan 0 0 0) p) as Hl.
  cbn zeta in Hl. replace (scan_end - _) with (scanStart args) in Hl by (unfold scan_end; lia).
  destruct (scan_loop _ _ _ _ _ p) as [r p']. simpl in Hl. rewrite Hl; [done|lia|lia|done].
Qed.

(** The start-up scan resumes at the right round.  It terminates within
    [maxScan / batchSize + 1] batches whatever the batch size; when the accounts
    have no gap of [nullStreakLimit] before the last one, it answers the greatest
    active round of the window, and when there is none an id above every existing
    round and above every archived one, so that no round id is ever used twice. *)
Theorem scan_resumes p am :
  archivedMax args = Some am ->
  no_wide_gap (nullStreakLimit args) chain (scanStart args) scan_end ->
  exists r,
    fst (scanForActiveRound args fetchBatch (Datatypes.S batches) p) = Ok (Some (Some r)) /\
    ((scanStart args <= r < scan_end /\ is_active chain r /\
      forall j, r < j < scan_end -> ~ is_active chain j) \/
     (am < r /\ (forall j, scanStart args <= j < scan_end -> ~ is_active chain j) /\
      forall j, r <= j < scan_end -> scanStart args <= j -> ~ is_round chain j)).
Proof.
  intros Ham Hgap. rewrite scanForActiveRound_flat.
  assert (Hend : scan_end =
    scanStart args + Z.of_nat (batches * Z.to_nat (batchSize args))) by (unfold scan_end; lia).
  rewrite Hend in *.
  destruct (scan_entries_complete _ chain _ _ Hgap) as [He Ha].
  set (st := scan_entries _ _ _) in *. eexists. split; [unfold scan_result; rewrite Ham|].
  { instantiate (1 := if 0 <? activeRound st then activeRound st
                      else Z.max (maxExisting st) am + 1).
    by destruct (0 <? activeRound st). }
  destruct Ha as [[Ha Hn]|(Ha & Hp & Hn)].
  - right. rewrite Ha. simpl. split_and!; [lia|done|]. intros j Hj Hj'.
    destruct He as [[_ He]|(_ & _ & He)]; apply He; lia.
  - left. rewrite (proj2 (Z.ltb_lt 0 (activeRound st))) by lia. done.
Qed.
End batched.

(** ** Witness *)

Module ScanWitness.
(** Rounds 3 (claimed), 4 (settled) and 6 (open); the others are closed. *)
Definition chain (id : Z) : ScanEntry :=
  if id =? 3 then round 4 else if id =? 4 then round 3 else if id =? 6 then round 0 else missing.

Definition args : ActiveRoundScanArgs := mkScanArgs 1 (Some 2) 10 4 3.

Definition fetch : list Z -> M unit unit unit (list ScanEntry) := fun ids p => (Ok (chain <$> ids), p).

Lemma scan_resumes_witness :
  fst (scanForActiveRound args fetch 4 (mkProc tt tt [])) = Ok (Some (Some 6)) /\
  exists r, fst (scanForActiveRound args fetch 4 (mkProc tt tt [])) = Ok (Some (Some r)) /\
    ((1 <= r < 13 /\ is_active chain r /\ forall j, r < j < 13 -> ~ is_active chain j) \/
     (2 < r /\ (forall j, 1 <= j < 13 -> ~ is_active chain j) /\
      forall j, r <= j < 13 -> 1 <= j -> ~ is_round chain j)).
Proof.
  split; [vm_compute; reflexivity|].
  apply (scan_resumes args fetch chain); try done; try (simpl; lia).
  simpl. intros j e Hj Hje He Hc. unfold chain in Hc.
  assert (e = 3 \/ e = 4 \/ e = 6) as He'.
  { destruct (Z.eqb_spec e 3), (Z.eqb_spec e 4), (Z.eqb_spec e 6); try lia; done. }
  exists 3. assert (j = 1 \/ j = 2 \/ j = 3) as [-> | [-> | ->]] by lia; (split; [lia|done]).
Defined.
End ScanWitness.
