(* ===== verification/Solana.v ===== *)
(** * Solana: the libraries and services the programs call

    Everything here stands for code outside the repository: bn.js, @solana/spl-token,
    Anchor's instruction builder, the RPC node, [fetch], the clock.  Each is an
    operation of a type class; the laws the theorems rely on are separate classes.
    [ToySolana] is a concrete instance on which the definitions evaluate. *)

From stdpp Require Import base list gmap strings pretty.
From Stdlib Require Import ZArith Lia Strings.Byte.
From S2P Require Import Prelude Buffers Accounts JsRuntime Effects.

Local Open Scope string_scope.
Local Open Scope list_scope.
Local Open Scope Z_scope.
Set Warnings "-register-all".

(** ** Accounts, instructions and transactions *)

(** What the code reads of an account: its data and the program that owns it. *)
Record AccountInfo `{Web3Keys} := mkInfo { ai_data : bytes; ai_owner : PublicKey }.
Arguments mkInfo {_} ai_data ai_owner.

Record AccountMeta `{Web3Keys} := mkMeta {
  pubkey : PublicKey;
  isSigner : bool;
  isWritable : bool
}.
Arguments mkMeta {_} pubkey isSigner isWritable.

Record TransactionInstruction `{Web3Keys} := mkIx {
  programId : PublicKey;
  ix_keys : list AccountMeta;
  ix_data : bytes
}.
Arguments mkIx {_} programId ix_keys ix_data.

Record Transaction `{Web3Keys} := mkTx {
  tx_instructions : list TransactionInstruction;
  feePayer : PublicKey;
  recentBlockhash : string
}.
Arguments mkTx {_} tx_instructions feePayer recentBlockhash.

(** The arguments the builders pass to Anchor methods. *)
Inductive Arg `{Web3Keys} :=
| ABn (z : Z)
| ANum (z : Z)
| ABytes (b : list Z)
| AKey (k : PublicKey)
| AStruct (fields : list (string * Arg)).
Arguments ABn {_} z.
Arguments ANum {_} z.
Arguments ABytes {_} b.
Arguments AKey {_} k.
Arguments AStruct {_} fields.

(** ** JSON and HTTP *)

Inductive Json :=
| JNull
| JBool (b : bool)
| JNum (n : num)
| JStr (s : string)
| JArr (l : list Json)
| JObj (fields : list (string * Json)).

Record HttpRequest := mkRequest {
  rq_url : string;
  rq_method : string;
  rq_headers : list (string * string);
  (** the value given to [JSON.stringify], when there is a body *)
  rq_body : option Json
}.

(** [json] and [text] read the body, which can fail. *)
Record HttpResponse := mkResponse {
  rs_status : Z;
  rs_text : Res string;
  rs_json : Res Json
}.

(** [res.ok] *)
Definition rs_ok (r : HttpResponse) : bool := (200 <=? rs_status r) && (rs_status r <=? 299).

(** [data.key] of a parsed object; [undefined] is [None]. *)
Definition json_field (j : Json) (key : string) : option Json :=
  match j with
  | JObj fields => (fun p : nat * (string * Json) => snd (snd p)) <$> list_find (fun kv => fst kv = key) fields
  | _ => None
  end.

(** ** Libraries *)

(** An account of a transaction instruction, as the IDL declares it. *)
Record IdlAccount := mkIdlAccount { ia_name : string; ia_writable : bool; ia_signer : bool }.

Class SolanaLibs `{Web3Keys} := {
  (** [new BN(x)] of a number, and [toArrayLike(Buffer, "le", 8)] *)
  newBN : Z -> Res Z;
  toArrayLikeLE8 : Z -> Res bytes;
  (** @solana/spl-token *)
  getAssociatedTokenAddress : PublicKey -> PublicKey -> bool -> Res PublicKey;
  TOKEN_PROGRAM_ID : PublicKey;
  ASSOCIATED_TOKEN_PROGRAM_ID : PublicKey;
  SystemProgram_programId : PublicKey;
  (** [ComputeBudgetProgram] *)
  setComputeUnitLimit : Z -> TransactionInstruction;
  setComputeUnitPrice : Z -> TransactionInstruction;
  (** [program.methods.m(args).accounts(accs).instruction()] for the program of the
      given address and the repository's IDL; an account may be [null] *)
  methodInstruction : PublicKey -> string -> list Arg -> list (string * option PublicKey) ->
    Res TransactionInstruction
}.

(** ** Services *)

Class Services `{Web3Keys} := {
  World : Type;
  callDateNow : World -> Z * World;
  callGetAccountInfo : PublicKey -> World -> Res (option AccountInfo) * World;
  callGetMultipleAccountsInfo : list PublicKey -> World -> Res (list (option AccountInfo)) * World;
  callGetLatestBlockhash : World -> Res string * World;
  (** [sendAndConfirmTransaction(connection, tx, [payer], { skipPreflight, ... })] *)
  callSendAndConfirm : Transaction -> bool -> World -> Res string * World;
  (** [program.account.participant.fetch(pda)]: [usdcTotal] and [ticketsTotal] *)
  callParticipantFetch : PublicKey -> World -> Res (Z * Z) * World;
  callFetch : HttpRequest -> World -> Res HttpResponse * World
}.

(** ** Calls, recorded *)

Inductive Event `{Web3Keys} :=
| EvNow (ms : Z)
| EvAccount (pda : PublicKey) (r : Res (option AccountInfo))
| EvAccounts (pdas : list PublicKey) (r : Res (list (option AccountInfo)))
| EvBlockhash (r : Res string)
| EvSend (tx : Transaction) (skipPreflight : bool) (r : Res string)
| EvParticipant (pda : PublicKey) (r : Res (Z * Z))
| EvFetch (rq : HttpRequest) (r : Res HttpResponse)
| EvPublish (roundId : Z) (winnerWallet : string) (totalUsdc : num) (wallets : list string)
| EvLog (msg : string).
Arguments EvNow {_} ms.
Arguments EvAccount {_} pda r.
Arguments EvAccounts {_} pdas r.
Arguments EvBlockhash {_} r.
Arguments EvSend {_} tx skipPreflight r.
Arguments EvParticipant {_} pda r.
Arguments EvFetch {_} rq r.
Arguments EvPublish {_} roundId winnerWallet totalUsdc wallets.
Arguments EvLog {_} msg.

(** The events that send a transaction. *)
Definition is_send `{Web3Keys} (ev : Event) : Prop :=
  match ev with EvSend _ _ _ => True | _ => False end.

#[export] Instance is_send_dec `{Web3Keys} (ev : Event) : Decision (is_send ev).
Proof. destruct ev; simpl; apply _. Defined.

Section calls.
Context `{Services} {S : Type}.
Local Abbreviation M := (M S World Event).

Definition dateNow : M Z := invoke_total callDateNow EvNow.
Definition getAccountInfo (pda : PublicKey) : M (option AccountInfo) :=
  invoke (callGetAccountInfo pda) (EvAccount pda).
Definition getMultipleAccountsInfo (pdas : list PublicKey) : M (list (option AccountInfo)) :=
  invoke (callGetMultipleAccountsInfo pdas) (EvAccounts pdas).
Definition getLatestBlockhash : M string := invoke callGetLatestBlockhash EvBlockhash.
Definition sendAndConfirmTransaction (tx : Transaction) (skipPreflight : bool) : M string :=
  invoke (callSendAndConfirm tx skipPreflight) (EvSend tx skipPreflight).
Definition participantFetch (pda : PublicKey) : M (Z * Z) :=
  invoke (callParticipantFetch pda) (EvParticipant pda).
Definition fetch (rq : HttpRequest) : M HttpResponse := invoke (callFetch rq) (EvFetch rq).
Definition log (msg : string) : M unit := emit (EvLog msg).
End calls.

(** One step of a computation, service calls included: the answer is arbitrary. *)
Ltac svc_step :=
  lazymatch goal with
  | |- wp dateNow _ _ => unfold dateNow; wp_step
  | |- wp (getAccountInfo _) _ _ => unfold getAccountInfo; wp_step
  | |- wp (getMultipleAccountsInfo _) _ _ => unfold getMultipleAccountsInfo; wp_step
  | |- wp getLatestBlockhash _ _ => unfold getLatestBlockhash; wp_step
  | |- wp (sendAndConfirmTransaction _ _) _ _ => unfold sendAndConfirmTransaction; wp_step
  | |- wp (participantFetch _) _ _ => unfold participantFetch; wp_step
  | |- wp (fetch _) _ _ => unfold fetch; wp_step
  | |- wp (log _) _ _ => unfold log; wp_step
  | |- _ => wp_step
  end.

(** ** A concrete instance *)

Module ToySolana.
#[local] Existing Instance ToyKeys.keys.

Definition bn_assert : JsError := mkError "Error" "Assertion failed".

Definition text (s : string) : bytes := Ascii.byte_of_ascii <$> String.list_ascii_of_string s.

Definition key (s : string) : PublicKey := ToyKeys.mk (text s).

Definition arg_bytes (a : Arg) : bytes :=
  match a with
  | ABn z | ANum z => le_encode 8 z
  | ABytes b => byte_of <$> b
  | AKey k => toBuffer k
  | AStruct _ => []
  end.

(** Anchor reduced to what it is given: every account writable, none a signer. *)
Definition libs : SolanaLibs := {|
  newBN := fun z => if Z.abs z <? 2 ^ 53 then Ok z else Throw bn_assert;
  toArrayLikeLE8 := fun z => Ok (le_encode 8 (Z.abs z));
  getAssociatedTokenAddress := fun mint owner _ =>
    Ok (ToyKeys.mk (take 16 (toBuffer mint) ++ toBuffer owner));
  TOKEN_PROGRAM_ID := key "token";
  ASSOCIATED_TOKEN_PROGRAM_ID := key "ata";
  SystemProgram_programId := ToyKeys.mk [];
  setComputeUnitLimit := fun z => mkIx (key "budget") [] (x02 :: le_encode 4 z);
  setComputeUnitPrice := fun z => mkIx (key "budget") [] (x03 :: le_encode 8 z);
  methodInstruction := fun program m args accounts =>
    Ok (mkIx program ((fun a => mkMeta (default program (snd a)) false true) <$> accounts)
          (text m ++ concat (arg_bytes <$> args)))
|}.

(** A world whose answers are scripted: a clock that advances by 1000 ms at each
    reading, and fixed accounts. *)
Record script := mkScript {
  sc_clock : Z;
  sc_accounts : list (bytes * bytes);
  sc_send : Res string
}.

Definition sc_lookup (w : script) (k : PublicKey) : option AccountInfo :=
  (fun p : nat * (bytes * bytes) => mkInfo (snd (snd p)) (key "owner")) <$>
    list_find (fun kv : bytes * bytes => fst kv = toBuffer k) (sc_accounts w).

Definition services : Services := {|
  World := script;
  callDateNow := fun w =>
    (sc_clock w, mkScript (sc_clock w + 1000) (sc_accounts w) (sc_send w));
  callGetAccountInfo := fun k w => (Ok (sc_lookup w k), w);
  callGetMultipleAccountsInfo := fun ks w => (Ok (sc_lookup w <$> ks), w);
  callGetLatestBlockhash := fun w => (Ok "hash", w);
  callSendAndConfirm := fun _ _ w => (sc_send w, w);
  callParticipantFetch := fun _ w => (Throw (mkError "Error" "Account does not exist"), w);
  callFetch := fun _ w => (Ok (mkResponse 200 (Ok "") (Ok JNull)), w)
|}.
End ToySolana.
