(* ===== verification/Instructions.v ===== *)
(** * Instructions: crank/src/constants.ts, crank/src/instructions.ts and the
    builders of src/lib/program.ts

    Addresses, program-derived addresses, the instruction builders of the crank and
    of the frontend, and [signAndSend].  The account lists of the repository's IDL
    (src/idl/jackpot.json) are data; Anchor's resolution of them is the law
    [AnchorLaws]. *)

From stdpp Require Import base list gmap strings pretty.
From Stdlib Require Import ZArith Lia Strings.Byte.
From S2P Require Import Prelude Buffers Accounts JsRuntime DegenLogic Effects Solana.

Local Open Scope string_scope.
Local Open Scope list_scope.
Local Open Scope Z_scope.
Set Warnings "-clear-no-such-hyp".

(** ** Addresses *)

Section constants.
Context `{Web3Keys}.

(** [process.env] *)
Abbreviation Env := (string -> option string).

Record Addresses := mkAddresses {
  PROGRAM_ID : PublicKey;
  USDC_MINT : PublicKey;
  TREASURY_USDC_ATA : PublicKey;
  ADMIN_PUBKEY : PublicKey;
  VRF_PROGRAM_ID : PublicKey;
  DEFAULT_QUEUE : PublicKey;
  SLOT_HASHES : PublicKey
}.

Record NetworkConfig := mkNetwork {
  n_programId : string;
  n_usdcMint : string;
  n_treasuryUsdcAta : string;
  n_adminPubkey : string
}.

Definition network_config (env : Env) : NetworkConfig :=
  if bool_decide (env "NETWORK" = Some "mainnet") then
    mkNetwork
      (env_or (env "PROGRAM_ID") "3wi11KBqF3Qa7JPP6CH4AFrcXbvaYEXMsEr9cmWQy8Zj")
      "EPjFWdd5AufqSSqeM2qN1xzybapC8G4wEGGkZwyTDt1v"
      (env_or (env "TREASURY_ATA") "8dccLsxnj9jwfEeokJrQH2wioJz4sS3mEQGd3miWB5YE")
      (env_or (env "ADMIN_PUBKEY") "D4DBCi5ASYf4EinyLJUsKbEzxYoNiAY9bY9aXeXh1ym")
  else
    mkNetwork
      "4PhNzNQ7XZAPrFmwcBFMe2ZY8ZaQWos8nJjcsjv1CHyh"
      "GXJV8YiRpXpbUHdf3q6n4hEKNeBPXK9Kn9uGjm6gZksq"
      "HukbjaCBAJz5VmzkiDcpNjF2BUsxo8z9WwgSzHgGACMd"
      "B4RSFCHfHGspoXRu4FnfYXM6s7GEYkQfsJeDm9ABMzjJ".

(** The module's initialisation; an invalid key in the environment makes it throw. *)
Definition load_constants (env : Env) : Res Addresses :=
  let cfg := network_config env in
  PROGRAM_ID ← keyOfString (n_programId cfg);
  USDC_MINT ← keyOfString (n_usdcMint cfg);
  TREASURY_USDC_ATA ← keyOfString (n_treasuryUsdcAta cfg);
  ADMIN_PUBKEY ← keyOfString (n_adminPubkey cfg);
  VRF_PROGRAM_ID ← keyOfString "Vrf1RNUjXmQGjmQrQLvJHs9SNkvDJEsRVFPkfSQUwGz";
  DEFAULT_QUEUE ← keyOfString "Cuj97ggrhhidhbu39TijNVqE74xvKJ69gDervRUXAxGh";
  SLOT_HASHES ← keyOfString "SysvarS1otHashes111111111111111111111111111";
  Ok (mkAddresses PROGRAM_ID USDC_MINT TREASURY_USDC_ATA ADMIN_PUBKEY VRF_PROGRAM_ID
        DEFAULT_QUEUE SLOT_HASHES).

(** [Buffer.from(text)] of ASCII text. *)
Definition buffer_of (s : string) : bytes :=
  Ascii.byte_of_ascii <$> String.list_ascii_of_string s.

Definition SEED_CFG : bytes := buffer_of "cfg".
Definition SEED_ROUND : bytes := buffer_of "round".
Definition SEED_PARTICIPANT : bytes := buffer_of "p".
Definition SEED_DEGEN_CLAIM : bytes := buffer_of "degen_claim".
Definition SEED_DEGEN_CFG : bytes := buffer_of "degen_cfg".
End constants.

(** ** Program-derived addresses *)

Section pdas.
Context `{SolanaLibs} (A : Addresses).

Definition getConfigPda : PublicKey := fst (findProgramAddressSync [SEED_CFG] (PROGRAM_ID A)).

Definition getRoundPda (roundId : Z) : Res PublicKey :=
  id ← newBN roundId;
  le ← toArrayLikeLE8 id;
  Ok (fst (findProgramAddressSync [SEED_ROUND; le] (PROGRAM_ID A))).

Definition getParticipantPda (round user : PublicKey) : PublicKey :=
  fst (findProgramAddressSync [SEED_PARTICIPANT; toBuffer round; toBuffer user] (PROGRAM_ID A)).

Definition getDegenClaimPda (roundId : Z) (winner : PublicKey) : Res PublicKey :=
  id ← newBN roundId;
  le ← toArrayLikeLE8 id;
  Ok (fst (findProgramAddressSync [SEED_DEGEN_CLAIM; le; toBuffer winner] (PROGRAM_ID A))).

Definition getDegenConfigPda : PublicKey :=
  fst (findProgramAddressSync [SEED_DEGEN_CFG] (PROGRAM_ID A)).

Definition getIdentityPda : PublicKey :=
  fst (findProgramAddressSync [buffer_of "identity"] (PROGRAM_ID A)).
End pdas.

(** ** The crank's builders *)

(** [vrfPayer && !vrfPayer.equals(PublicKey.default)] *)
Definition present_key `{Web3Keys} (k : option PublicKey) : option PublicKey :=
  match k with
  | Some k => if bool_decide (k = defaultKey) then None else Some k
  | None => None
  end.

(** [keys.splice(i, 0, ...l)] for an index up to the length. *)
Definition splice_at {X} (i : nat) (l keys : list X) : list X := take i keys ++ l ++ drop i keys.

Module CrankIx.
Section builders.
Context `{SolanaLibs} (A : Addresses).

Definition buildStartRound (payer : PublicKey) (roundId : Z) : Res TransactionInstruction :=
  roundPda ← getRoundPda A roundId;
  vaultAta ← getAssociatedTokenAddress (USDC_MINT A) roundPda true;
  id ← newBN roundId;
  methodInstruction (PROGRAM_ID A) "startRound" [ABn id]
    [("payer", Some payer);
     ("config", Some (getConfigPda A));
     ("round", Some roundPda);
     ("vaultUsdcAta", Some vaultAta);
     ("usdcMint", Some (USDC_MINT A));
     ("associatedTokenProgram", Some ASSOCIATED_TOKEN_PROGRAM_ID);
     ("tokenProgram", Some TOKEN_PROGRAM_ID);
     ("systemProgram", Some SystemProgram_programId)].

Definition buildLockRound (caller : PublicKey) (roundId : Z) : Res TransactionInstruction :=
  id ← newBN roundId;
  roundPda ← getRoundPda A roundId;
  methodInstruction (PROGRAM_ID A) "lockRound" [ABn id]
    [("caller", Some caller);
     ("config", Some (getConfigPda A));
     ("round", Some roundPda)].

Definition buildRequestVrf (payer : PublicKey) (roundId : Z) : Res TransactionInstruction :=
  id ← newBN roundId;
  roundPda ← getRoundPda A roundId;
  methodInstruction (PROGRAM_ID A) "requestVrf" [ABn id]
    [("payer", Some payer);
     ("config", Some (getConfigPda A));
     ("round", Some roundPda);
     ("programIdentity", Some (getIdentityPda A));
     ("oracleQueue", Some (DEFAULT_QUEUE A));
     ("vrfProgram", Some (VRF_PROGRAM_ID A));
     ("slotHashes", Some (SLOT_HASHES A));
     ("systemProgram", Some SystemProgram_programId)].

(** The associated token account of a payer that is set, [null] otherwise. *)
Definition vrfPayerAta (usdcMint : PublicKey) (vrfPayer : option PublicKey)
    : Res (option PublicKey) :=
  match present_key vrfPayer with
  | Some k => Some <$> getAssociatedTokenAddress usdcMint k false
  | None => Ok None
  end.

Definition buildAutoClaim (payer winner : PublicKey) (roundId : Z) (vrfPayer : option PublicKey)
    : Res TransactionInstruction :=
  roundPda ← getRoundPda A roundId;
  vaultAta ← getAssociatedTokenAddress (USDC_MINT A) roundPda true;
  winnerAta ← getAssociatedTokenAddress (USDC_MINT A) winner false;
  vrfPayerUsdcAta ← vrfPayerAta (USDC_MINT A) vrfPayer;
  id ← newBN roundId;
  methodInstruction (PROGRAM_ID A) "autoClaim" [ABn id]
    [("payer", Some payer);
     ("config", Some (getConfigPda A));
     ("round", Some roundPda);
     ("vaultUsdcAta", Some vaultAta);
     ("winnerUsdcAta", Some winnerAta);
     ("treasuryUsdcAta", Some (TREASURY_USDC_ATA A));
     ("vrfPayerUsdcAta", vrfPayerUsdcAta);
     ("tokenProgram", Some TOKEN_PROGRAM_ID)].

Definition buildAutoClaimDegenFallback (payer winner : PublicKey) (roundId fallbackReason : Z)
    : Res TransactionInstruction :=
  roundPda ← getRoundPda A roundId;
  vaultAta ← getAssociatedTokenAddress (USDC_MINT A) roundPda true;
  winnerAta ← getAssociatedTokenAddress (USDC_MINT A) winner false;
  id ← newBN roundId;
  degenClaim ← getDegenClaimPda A roundId winner;
  methodInstruction (PROGRAM_ID A) "autoClaimDegenFallback" [ABn id; ANum fallbackReason]
    [("payer", Some payer);
     ("config", Some (getConfigPda A));
     ("round", Some roundPda);
     ("degenClaim", Some degenClaim);
     ("vaultUsdcAta", Some vaultAta);
     ("winnerUsdcAta", Some winnerAta);
     ("treasuryUsdcAta", Some (TREASURY_USDC_ATA A));
     ("tokenProgram", Some TOKEN_PROGRAM_ID)].

Definition buildClaimRefund (user : PublicKey) (roundId : Z) : Res TransactionInstruction :=
  roundPda ← getRoundPda A roundId;
  vaultAta ← getAssociatedTokenAddress (USDC_MINT A) roundPda true;
  userUsdcAta ← getAssociatedTokenAddress (USDC_MINT A) user false;
  id ← newBN roundId;
  methodInstruction (PROGRAM_ID A) "claimRefund" [ABn id]
    [("config", Some (getConfigPda A));
     ("round", Some roundPda);
     ("user", Some user);
     ("participant", Some (getParticipantPda A roundPda user));
     ("vaultUsdcAta", Some vaultAta);
     ("userUsdcAta", Some userUsdcAta);
     ("tokenProgram", Some TOKEN_PROGRAM_ID)].

Definition buildTransferAdmin (admin newAdmin : PublicKey) : Res TransactionInstruction :=
  methodInstruction (PROGRAM_ID A) "transferAdmin" [AKey newAdmin]
    [("admin", Some admin); ("config", Some (getConfigPda A))].

Definition buildSetTreasuryUsdcAta (admin newTreasuryUsdcAta expectedOwner : PublicKey)
    : Res TransactionInstruction :=
  methodInstruction (PROGRAM_ID A) "setTreasuryUsdcAta" []
    [("admin", Some admin);
     ("config", Some (getConfigPda A));
     ("newTreasuryUsdcAta", Some newTreasuryUsdcAta);
     ("expectedOwner", Some expectedOwner)].

(** The treasury account is appended so that the program can sweep dust. *)
Definition buildCloseRound (payer recipient : PublicKey) (roundId : Z)
    : Res TransactionInstruction :=
  roundPda ← getRoundPda A roundId;
  vaultAta ← getAssociatedTokenAddress (USDC_MINT A) roundPda true;
  id ← newBN roundId;
  baseIx ← methodInstruction (PROGRAM_ID A) "closeRound" [ABn id]
    [("payer", Some payer);
     ("recipient", Some recipient);
     ("round", Some roundPda);
     ("vaultUsdcAta", Some vaultAta);
     ("tokenProgram", Some TOKEN_PROGRAM_ID);
     ("systemProgram", Some SystemProgram_programId)];
  Ok (mkIx (programId baseIx) (ix_keys baseIx ++ [mkMeta (TREASURY_USDC_ATA A) false true])
        (ix_data baseIx)).

Definition buildCloseParticipant (payer user : PublicKey) (roundId : Z)
    : Res TransactionInstruction :=
  roundPda ← getRoundPda A roundId;
  id ← newBN roundId;
  methodInstruction (PROGRAM_ID A) "closeParticipant" [ABn id]
    [("payer", Some payer);
     ("user", Some user);
     ("round", Some roundPda);
     ("participant", Some (getParticipantPda A roundPda user))].

(** The accounts of the VRF payer, when it is to be reimbursed, are spliced in after
    the treasury. *)
Definition buildBeginDegenExecution (executor winner : PublicKey)
    (roundId candidateRank tokenIndex minOutRaw : Z) (routeHash : list Z)
    (selectedTokenMint receiverTokenAta : PublicKey) (vrfPayer : option PublicKey)
    : Res TransactionInstruction :=
  roundPda ← getRoundPda A roundId;
  vaultAta ← getAssociatedTokenAddress (USDC_MINT A) roundPda true;
  executorAta ← getAssociatedTokenAddress (USDC_MINT A) executor false;
  id ← newBN roundId;
  degenClaim ← getDegenClaimPda A roundId winner;
  baseIx ← methodInstruction (PROGRAM_ID A) "beginDegenExecution"
    [ABn id; ANum candidateRank; ANum tokenIndex; ABn minOutRaw; ABytes routeHash]
    [("executor", Some executor);
     ("config", Some (getConfigPda A));
     ("degenConfig", Some (getDegenConfigPda A));
     ("round", Some roundPda);
     ("degenClaim", Some degenClaim);
     ("vaultUsdcAta", Some vaultAta);
     ("executorUsdcAta", Some executorAta);
     ("treasuryUsdcAta", Some (TREASURY_USDC_ATA A));
     ("selectedTokenMint", Some selectedTokenMint);
     ("receiverTokenAta", Some receiverTokenAta);
     ("tokenProgram", Some TOKEN_PROGRAM_ID)];
  match present_key vrfPayer with
  | Some vrfPayer =>
      vrfPayerUsdcAta ← getAssociatedTokenAddress (USDC_MINT A) vrfPayer false;
      Ok (mkIx (programId baseIx)
            (splice_at 8 [mkMeta vrfPayer false true; mkMeta vrfPayerUsdcAta false true]
               (ix_keys baseIx))
            (ix_data baseIx))
  | None => Ok baseIx
  end.

Definition buildFinalizeDegenSuccess (executor winner : PublicKey) (roundId : Z)
    (receiverTokenAta : PublicKey) : Res TransactionInstruction :=
  executorAta ← getAssociatedTokenAddress (USDC_MINT A) executor false;
  id ← newBN roundId;
  roundPda ← getRoundPda A roundId;
  degenClaim ← getDegenClaimPda A roundId winner;
  methodInstruction (PROGRAM_ID A) "finalizeDegenSuccess" [ABn id]
    [("executor", Some executor);
     ("degenConfig", Some (getDegenConfigPda A));
     ("round", Some roundPda);
     ("degenClaim", Some degenClaim);
     ("executorUsdcAta", Some executorAta);
     ("receiverTokenAta", Some receiverTokenAta);
     ("tokenProgram", Some TOKEN_PROGRAM_ID)].

Definition buildUpsertDegenConfig (admin executor : PublicKey) (fallbackTimeoutSec : Z)
    : Res TransactionInstruction :=
  methodInstruction (PROGRAM_ID A) "upsertDegenConfig"
    [AStruct [("executor", AKey executor); ("fallbackTimeoutSec", ANum fallbackTimeoutSec)]]
    [("admin", Some admin);
     ("config", Some (getConfigPda A));
     ("degenConfig", Some (getDegenConfigPda A));
     ("systemProgram", Some SystemProgram_programId)].
End builders.
End CrankIx.

(** ** Sending *)

Definition envInt (env : string -> option string) (name : string) (fallback : Z) : Z :=
  match env name with
  | None => fallback
  | Some raw =>
      if String.eqb raw "" then fallback
      else
        let n := Number raw in
        if is_finite_positive n then default fallback (num_floor n) else fallback
  end.

Section sending.
Context `{SolanaLibs} `{!Services} {S : Type}.
Context (env : string -> option string).

Definition CRANK_COMPUTE_UNIT_LIMIT : Z := envInt env "CRANK_COMPUTE_UNIT_LIMIT" 600000.
Definition CRANK_PRIORITY_FEE_MICROLAMPORTS : Z :=
  envInt env "CRANK_PRIORITY_FEE_MICROLAMPORTS" 20000.

(** The instructions of the transaction that carries [ixs]. *)
Definition crank_tx_instructions (ixs : list TransactionInstruction)
    : list TransactionInstruction :=
  [setComputeUnitLimit CRANK_COMPUTE_UNIT_LIMIT;
   setComputeUnitPrice CRANK_PRIORITY_FEE_MICROLAMPORTS] ++ ixs.

Definition signAndSend (ixs : list TransactionInstruction) (payer : PublicKey)
    (skipPreflight : bool) : M S World Event string :=
  blockhash ← getLatestBlockhash;
  sendAndConfirmTransaction (mkTx (crank_tx_instructions ixs) payer blockhash) skipPreflight.
End sending.

(** ** The frontend's builders, src/lib/program.ts *)

Module FrontIx.
Section builders.
Context `{SolanaLibs} (A : Addresses).

Definition buildStartRound (payer : PublicKey) (roundId : Z) (usdcMint : PublicKey)
    : Res TransactionInstruction :=
  roundPda ← getRoundPda A roundId;
  vaultAta ← getAssociatedTokenAddress usdcMint roundPda true;
  id ← newBN roundId;
  methodInstruction (PROGRAM_ID A) "startRound" [ABn id]
    [("payer", Some payer);
     ("config", Some (getConfigPda A));
     ("round", Some roundPda);
     ("vaultUsdcAta", Some vaultAta);
     ("usdcMint", Some usdcMint);
     ("associatedTokenProgram", Some ASSOCIATED_TOKEN_PROGRAM_ID);
     ("tokenProgram", Some TOKEN_PROGRAM_ID);
     ("systemProgram", Some SystemProgram_programId)].

Definition buildDepositAny (user : PublicKey) (roundId usdcBalanceBefore minOut : Z)
    (usdcMint : PublicKey) : Res TransactionInstruction :=
  roundPda ← getRoundPda A roundId;
  userUsdcAta ← getAssociatedTokenAddress usdcMint user false;
  vaultAta ← getAssociatedTokenAddress usdcMint roundPda true;
  id ← newBN roundId;
  methodInstruction (PROGRAM_ID A) "depositAny" [ABn id; ABn usdcBalanceBefore; ABn minOut]
    [("user", Some user);
     ("config", Some (getConfigPda A));
     ("round", Some roundPda);
     ("participant", Some (getParticipantPda A roundPda user));
     ("userUsdcAta", Some userUsdcAta);
     ("vaultUsdcAta", Some vaultAta);
     ("tokenProgram", Some TOKEN_PROGRAM_ID);
     ("systemProgram", Some SystemProgram_programId)].

Definition buildLockRound (caller : PublicKey) (roundId : Z) : Res TransactionInstruction :=
  id ← newBN roundId;
  roundPda ← getRoundPda A roundId;
  methodInstruction (PROGRAM_ID A) "lockRound" [ABn id]
    [("caller", Some caller);
     ("config", Some (getConfigPda A));
     ("round", Some roundPda)].

Definition buildMockSettle (admin : PublicKey) (roundId : Z) (randomness : list Z)
    : Res TransactionInstruction :=
  id ← newBN roundId;
  roundPda ← getRoundPda A roundId;
  methodInstruction (PROGRAM_ID A) "mockSettle" [ABn id; ABytes randomness]
    [("admin", Some admin);
     ("config", Some (getConfigPda A));
     ("round", Some roundPda)].

Definition buildRequestVrf (payer : PublicKey) (roundId : Z) : Res TransactionInstruction :=
  id ← newBN roundId;
  roundPda ← getRoundPda A roundId;
  methodInstruction (PROGRAM_ID A) "requestVrf" [ABn id]
    [("payer", Some payer);
     ("config", Some (getConfigPda A));
     ("round", Some roundPda);
     ("programIdentity", Some (getIdentityPda A));
     ("oracleQueue", Some (DEFAULT_QUEUE A));
     ("vrfProgram", Some (VRF_PROGRAM_ID A));
     ("slotHashes", Some (SLOT_HASHES A));
     ("systemProgram", Some SystemProgram_programId)].

Definition buildRequestDegenVrf (winner : PublicKey) (roundId : Z)
    : Res TransactionInstruction :=
  id ← newBN roundId;
  roundPda ← getRoundPda A roundId;
  degenClaim ← getDegenClaimPda A roundId winner;
  methodInstruction (PROGRAM_ID A) "requestDegenVrf" [ABn id]
    [("winner", Some winner);
     ("config", Some (getConfigPda A));
     ("round", Some roundPda);
     ("degenClaim", Some degenClaim);
     ("programIdentity", Some (getIdentityPda A));
     ("oracleQueue", Some (DEFAULT_QUEUE A));
     ("vrfProgram", Some (VRF_PROGRAM_ID A));
     ("slotHashes", Some (SLOT_HASHES A));
     ("systemProgram", Some SystemProgram_programId)].

Definition buildClaim (winner : PublicKey) (roundId : Z) (usdcMint treasuryUsdcAta : PublicKey)
    (vrfPayer : option PublicKey) : Res TransactionInstruction :=
  roundPda ← getRoundPda A roundId;
  vaultAta ← getAssociatedTokenAddress usdcMint roundPda true;
  winnerAta ← getAssociatedTokenAddress usdcMint winner false;
  vrfPayerUsdcAta ← CrankIx.vrfPayerAta usdcMint vrfPayer;
  id ← newBN roundId;
  methodInstruction (PROGRAM_ID A) "claim" [ABn id]
    [("winner", Some winner);
     ("config", Some (getConfigPda A));
     ("round", Some roundPda);
     ("vaultUsdcAta", Some vaultAta);
     ("winnerUsdcAta", Some winnerAta);
     ("treasuryUsdcAta", Some treasuryUsdcAta);
     ("vrfPayerUsdcAta", vrfPayerUsdcAta);
     ("tokenProgram", Some TOKEN_PROGRAM_ID)].

Definition buildUpsertDegenConfig (admin executor : PublicKey) (fallbackTimeoutSec : Z)
    : Res TransactionInstruction :=
  methodInstruction (PROGRAM_ID A) "upsertDegenConfig"
    [AStruct [("executor", AKey executor); ("fallbackTimeoutSec", ANum fallbackTimeoutSec)]]
    [("admin", Some admin);
     ("config", Some (getConfigPda A));
     ("degenConfig", Some (getDegenConfigPda A));
     ("systemProgram", Some SystemProgram_programId)].

(** [minOutRaw] is an integer whether it comes as a [bigint] or as a [BN]. *)
Definition buildBeginDegenExecution (executor winner : PublicKey)
    (roundId candidateRank tokenIndex minOutRaw : Z) (routeHash : list Z)
    (selectedTokenMint usdcMint treasuryUsdcAta receiverTokenAta : PublicKey)
    (vrfPayer : option PublicKey) : Res TransactionInstruction :=
  roundPda ← getRoundPda A roundId;
  vaultAta ← getAssociatedTokenAddress usdcMint roundPda true;
  executorAta ← getAssociatedTokenAddress usdcMint executor false;
  vrfPayerUsdcAta ← CrankIx.vrfPayerAta usdcMint vrfPayer;
  id ← newBN roundId;
  degenClaim ← getDegenClaimPda A roundId winner;
  methodInstruction (PROGRAM_ID A) "beginDegenExecution"
    [ABn id; ANum candidateRank; ANum tokenIndex; ABn minOutRaw; ABytes routeHash]
    [("executor", Some executor);
     ("config", Some (getConfigPda A));
     ("degenConfig", Some (getDegenConfigPda A));
     ("round", Some roundPda);
     ("degenClaim", Some degenClaim);
     ("vaultUsdcAta", Some vaultAta);
     ("executorUsdcAta", Some executorAta);
     ("treasuryUsdcAta", Some treasuryUsdcAta);
     ("vrfPayerAuthority", present_key vrfPayer);
     ("vrfPayerUsdcAta", vrfPayerUsdcAta);
     ("selectedTokenMint", Some selectedTokenMint);
     ("receiverTokenAta", Some receiverTokenAta);
     ("tokenProgram", Some TOKEN_PROGRAM_ID)].

(** No [tokenProgram] is given: the IDL fixes its address. *)
Definition buildFinalizeDegenSuccess (executor winner : PublicKey) (roundId : Z)
    (receiverTokenAta usdcMint : PublicKey) : Res TransactionInstruction :=
  executorAta ← getAssociatedTokenAddress usdcMint executor false;
  id ← newBN roundId;
  roundPda ← getRoundPda A roundId;
  degenClaim ← getDegenClaimPda A roundId winner;
  methodInstruction (PROGRAM_ID A) "finalizeDegenSuccess" [ABn id]
    [("executor", Some executor);
     ("degenConfig", Some (getDegenConfigPda A));
     ("round", Some roundPda);
     ("degenClaim", Some degenClaim);
     ("executorUsdcAta", Some executorAta);
     ("receiverTokenAta", Some receiverTokenAta)].

Definition buildClaimDegenFallback (winner : PublicKey) (roundId fallbackReason : Z)
    (usdcMint treasuryUsdcAta : PublicKey) (vrfPayer : option PublicKey)
    : Res TransactionInstruction :=
  roundPda ← getRoundPda A roundId;
  vaultAta ← getAssociatedTokenAddress usdcMint roundPda true;
  winnerAta ← getAssociatedTokenAddress usdcMint winner false;
  vrfPayerUsdcAta ← CrankIx.vrfPayerAta usdcMint vrfPayer;
  id ← newBN roundId;
  degenClaim ← getDegenClaimPda A roundId winner;
  methodInstruction (PROGRAM_ID A) "claimDegenFallback" [ABn id; ANum fallbackReason]
    [("winner", Some winner);
     ("config", Some (getConfigPda A));
     ("round", Some roundPda);
     ("degenClaim", Some degenClaim);
     ("vaultUsdcAta", Some vaultAta);
     ("winnerUsdcAta", Some winnerAta);
     ("treasuryUsdcAta", Some treasuryUsdcAta);
     ("vrfPayerAuthority", present_key vrfPayer);
     ("vrfPayerUsdcAta", vrfPayerUsdcAta);
     ("tokenProgram", Some TOKEN_PROGRAM_ID)].

Definition buildAutoClaim (payer winner : PublicKey) (roundId : Z)
    (usdcMint treasuryUsdcAta : PublicKey) (vrfPayer : option PublicKey)
    : Res TransactionInstruction :=
  roundPda ← getRoundPda A roundId;
  vaultAta ← getAssociatedTokenAddress usdcMint roundPda true;
  winnerAta ← getAssociatedTokenAddress usdcMint winner false;
  vrfPayerUsdcAta ← CrankIx.vrfPayerAta usdcMint vrfPayer;
  id ← newBN roundId;
  methodInstruction (PROGRAM_ID A) "autoClaim" [ABn id]
    [("payer", Some payer);
     ("config", Some (getConfigPda A));
     ("round", Some roundPda);
     ("vaultUsdcAta", Some vaultAta);
     ("winnerUsdcAta", Some winnerAta);
     ("treasuryUsdcAta", Some treasuryUsdcAta);
     ("vrfPayerUsdcAta", vrfPayerUsdcAta);
     ("tokenProgram", Some TOKEN_PROGRAM_ID)].

Definition buildCancelRound (user : PublicKey) (roundId : Z) (usdcMint : PublicKey)
    : Res TransactionInstruction :=
  roundPda ← getRoundPda A roundId;
  vaultAta ← getAssociatedTokenAddress usdcMint roundPda true;
  userUsdcAta ← getAssociatedTokenAddress usdcMint user false;
  id ← newBN roundId;
  methodInstruction (PROGRAM_ID A) "cancelRound" [ABn id]
    [("user", Some user);
     ("config", Some (getConfigPda A));
     ("round", Some roundPda);
     ("participant", Some (getParticipantPda A roundPda user));
     ("vaultUsdcAta", Some vaultAta);
     ("userUsdcAta", Some userUsdcAta);
     ("tokenProgram", Some TOKEN_PROGRAM_ID)].

Definition buildClaimRefund (user : PublicKey) (roundId : Z) (usdcMint : PublicKey)
    : Res TransactionInstruction :=
  roundPda ← getRoundPda A roundId;
  vaultAta ← getAssociatedTokenAddress usdcMint roundPda true;
  userUsdcAta ← getAssociatedTokenAddress usdcMint user false;
  id ← newBN roundId;
  methodInstruction (PROGRAM_ID A) "claimRefund" [ABn id]
    [("config", Some (getConfigPda A));
     ("round", Some roundPda);
     ("user", Some user);
     ("participant", Some (getParticipantPda A roundPda user));
     ("vaultUsdcAta", Some vaultAta);
     ("userUsdcAta", Some userUsdcAta);
     ("tokenProgram", Some TOKEN_PROGRAM_ID)].

Definition buildTransferAdmin (admin newAdmin : PublicKey) : Res TransactionInstruction :=
  methodInstruction (PROGRAM_ID A) "transferAdmin" [AKey newAdmin]
    [("admin", Some admin); ("config", Some (getConfigPda A))].

Definition buildSetTreasuryUsdcAta (admin newTreasuryUsdcAta expectedOwner : PublicKey)
    : Res TransactionInstruction :=
  methodInstruction (PROGRAM_ID A) "setTreasuryUsdcAta" []
    [("admin", Some admin);
     ("config", Some (getConfigPda A));
     ("newTreasuryUsdcAta", Some newTreasuryUsdcAta);
     ("expectedOwner", Some expectedOwner)].

Definition buildCloseRound (payer recipient : PublicKey) (roundId : Z) (usdcMint : PublicKey)
    : Res TransactionInstruction :=
  roundPda ← getRoundPda A roundId;
  vaultAta ← getAssociatedTokenAddress usdcMint roundPda true;
  id ← newBN roundId;
  methodInstruction (PROGRAM_ID A) "closeRound" [ABn id]
    [("payer", Some payer);
     ("recipient", Some recipient);
     ("round", Some roundPda);
     ("vaultUsdcAta", Some vaultAta);
     ("tokenProgram", Some TOKEN_PROGRAM_ID);
     ("systemProgram", Some SystemProgram_programId)].
End builders.
End FrontIx.

(** ** The IDL and Anchor *)

(** The account lists of the instructions, in the IDL's order (Anchor reads the
    names in camel case): name, writable, signer.  An account without a name given
    by the caller and with a fixed address carries it. *)
Definition w (name : string) : IdlAccount := mkIdlAccount name true false.
Definition ws (name : string) : IdlAccount := mkIdlAccount name true true.
Definition ro (name : string) : IdlAccount := mkIdlAccount name false false.

Definition idl_accounts (method : string) : option (list IdlAccount) :=
  if String.eqb method "beginDegenExecution" then
    Some [ws "executor"; ro "config"; ro "degenConfig"; w "round"; w "degenClaim";
          w "vaultUsdcAta"; w "executorUsdcAta"; w "treasuryUsdcAta";
          ro "selectedTokenMint"; w "receiverTokenAta"; ro "tokenProgram"]
  else if String.eqb method "claimDegenFallback" then
    Some [ws "winner"; ro "config"; w "round"; w "degenClaim"; w "vaultUsdcAta";
          w "winnerUsdcAta"; w "treasuryUsdcAta"; ro "tokenProgram"]
  else if String.eqb method "closeRound" then
    Some [ws "payer"; w "recipient"; w "round"; w "vaultUsdcAta"; ro "tokenProgram";
          ro "systemProgram"]
  else if String.eqb method "closeParticipant" then
    Some [ws "payer"; w "user"; ro "round"; w "participant"]
  else if String.eqb method "startRound" then
    Some [ws "payer"; ro "config"; w "round"; w "vaultUsdcAta"; ro "usdcMint";
          ro "associatedTokenProgram"; ro "tokenProgram"; ro "systemProgram"]
  else if String.eqb method "lockRound" then
    Some [mkIdlAccount "caller" false true; ro "config"; w "round"]
  else None.

(** The account given under a name: absent, [null], or a key. *)
Definition given {X} (accounts : list (string * X)) (name : string) : option X :=
  (fun p : nat * (string * X) => snd (snd p)) <$> list_find (fun kv => fst kv = name) accounts.

(** Anchor's documented resolution: the keys of the instruction are the IDL's
    accounts, in the IDL's order and with its flags, each taken from the accounts
    given under its name; names the IDL does not declare are ignored. *)
Definition resolved `{Web3Keys} (accounts : list (string * option PublicKey)) (a : IdlAccount)
    : option AccountMeta :=
  match given accounts (ia_name a) with
  | Some (Some k) => Some (mkMeta k (ia_signer a) (ia_writable a))
  | _ => None
  end.

Class AnchorLaws `{SolanaLibs} : Prop := {
  method_keys : forall program method args accounts idl metas ix,
    idl_accounts method = Some idl ->
    mapM (resolved accounts) idl = Some metas ->
    methodInstruction program method args accounts = Ok ix ->
    ix_keys ix = metas;
  (** the instruction's data and program depend on the method and arguments only *)
  method_payload : forall program method args accounts accounts' ix ix',
    methodInstruction program method args accounts = Ok ix ->
    methodInstruction program method args accounts' = Ok ix' ->
    programId ix = programId ix' /\ ix_data ix = ix_data ix'
}.

(** ** What the program reads *)

(** The accounts of [begin_degen_execution] as the on-chain handler binds them
    (degen_execution_program.rs, [process_begin_degen_execution]). *)
Record BeginAccounts `{Web3Keys} := mkBegin {
  b_executor : PublicKey; b_config : PublicKey; b_degen_config : PublicKey;
  b_round : PublicKey; b_degen_claim : PublicKey; b_vault : PublicKey;
  b_executor_usdc_ata : PublicKey; b_treasury_usdc_ata : PublicKey;
  b_vrf_payer_authority : option PublicKey; b_vrf_payer_usdc_ata : option PublicKey;
  b_selected_token_mint : PublicKey; b_receiver_token_ata : PublicKey;
  b_token_program : PublicKey
}.
Arguments mkBegin {_}.

Definition sentinel_key `{Web3Keys} (program_id k : PublicKey) : option PublicKey :=
  if bool_decide (k = program_id) then None else Some k.

Definition bind_begin_accounts `{Web3Keys} (program_id : PublicKey) (accounts : list PublicKey)
    : option BeginAccounts :=
  match accounts with
  | [executor; config; degen_config; round; degen_claim; vault; executor_usdc_ata;
     treasury_usdc_ata; selected_token_mint; receiver_token_ata; token_program] =>
      Some (mkBegin executor config degen_config round degen_claim vault executor_usdc_ata
              treasury_usdc_ata None None selected_token_mint receiver_token_ata token_program)
  | [executor; config; degen_config; round; degen_claim; vault; executor_usdc_ata;
     treasury_usdc_ata; vrf_payer_authority; vrf_payer_usdc_ata;
     selected_token_mint; receiver_token_ata; token_program] =>
      Some (mkBegin executor config degen_config round degen_claim vault executor_usdc_ata
              treasury_usdc_ata (sentinel_key program_id vrf_payer_authority)
              (sentinel_key program_id vrf_payer_usdc_ata)
              selected_token_mint receiver_token_ata token_program)
  | _ => None
  end.

Section layouts.
Context `{SolanaLibs} `{!AnchorLaws} (A : Addresses).

Lemma begin_keys program args executor config degenConfig round degenClaim vault executorAta
    treasury mint receiver ix :
  methodInstruction program "beginDegenExecution" args
    [("executor", Some executor); ("config", Some config); ("degenConfig", Some degenConfig);
     ("round", Some round); ("degenClaim", Some degenClaim); ("vaultUsdcAta", Some vault);
     ("executorUsdcAta", Some executorAta); ("treasuryUsdcAta", Some treasury);
     ("selectedTokenMint", Some mint); ("receiverTokenAta", Some receiver);
     ("tokenProgram", Some TOKEN_PROGRAM_ID)] = Ok ix ->
  pubkey <$> ix_keys ix =
    [executor; config; degenConfig; round; degenClaim; vault; executorAta; treasury; mint;
     receiver; TOKEN_PROGRAM_ID].
Proof.
  intros Hix. eapply method_keys in Hix; [|reflexivity|reflexivity]. by rewrite Hix.
Qed.

Lemma begin_keys_front program args executor config degenConfig round degenClaim vault
    executorAta treasury auth ata mint receiver ix :
  methodInstruction program "beginDegenExecution" args
    [("executor", Some executor); ("config", Some config); ("degenConfig", Some degenConfig);
     ("round", Some round); ("degenClaim", Some degenClaim); ("vaultUsdcAta", Some vault);
     ("executorUsdcAta", Some executorAta); ("treasuryUsdcAta", Some treasury);
     ("vrfPayerAuthority", auth); ("vrfPayerUsdcAta", ata);
     ("selectedTokenMint", Some mint); ("receiverTokenAta", Some receiver);
     ("tokenProgram", Some TOKEN_PROGRAM_ID)] = Ok ix ->
  forall ix',
  methodInstruction program "beginDegenExecution" args
    [("executor", Some executor); ("config", Some config); ("degenConfig", Some degenConfig);
     ("round", Some round); ("degenClaim", Some degenClaim); ("vaultUsdcAta", Some vault);
     ("executorUsdcAta", Some executorAta); ("treasuryUsdcAta", Some treasury);
     ("selectedTokenMint", Some mint); ("receiverTokenAta", Some receiver);
     ("tokenProgram", Some TOKEN_PROGRAM_ID)] = Ok ix' ->
  ix = ix'.
Proof.
  intros Hix ix' Hix'. destruct (method_payload _ _ _ _ _ _ _ Hix Hix') as [Hp Hd].
  eapply method_keys in Hix; [|reflexivity|reflexivity].
  eapply method_keys in Hix'; [|reflexivity|reflexivity].
  destruct ix, ix'; simpl in *. congruence.
Qed.

(** The crank's [begin_degen_execution] carries the accounts the program binds:
    the handler's pattern accepts the instruction and reads back the executor, the
    claim, the treasury, the mint and the receiver in their places, and the VRF
    payer with its token account exactly when the caller asked for a
    reimbursement. *)
Theorem begin_degen_accounts executor winner roundId rank index minOut hash mint receiver
    vrfPayer ix :
  (forall k a, vrfPayer = Some k -> getAssociatedTokenAddress (USDC_MINT A) k false = Ok a ->
     k <> PROGRAM_ID A /\ a <> PROGRAM_ID A) ->
  CrankIx.buildBeginDegenExecution A executor winner roundId rank index minOut hash mint
    receiver vrfPayer = Ok ix ->
  exists b,
    bind_begin_accounts (PROGRAM_ID A) (pubkey <$> ix_keys ix) = Some b /\
    b_executor b = executor /\ b_config b = getConfigPda A /\
    Ok (b_round b) = getRoundPda A roundId /\
    Ok (b_degen_claim b) = getDegenClaimPda A roundId winner /\
    b_treasury_usdc_ata b = TREASURY_USDC_ATA A /\
    b_selected_token_mint b = mint /\ b_receiver_token_ata b = receiver /\
    b_vrf_payer_authority b = present_key vrfPayer /\
    Ok (b_vrf_payer_usdc_ata b) = CrankIx.vrfPayerAta (USDC_MINT A) vrfPayer.
Proof.
  intros Hvrf Hix. unfold CrankIx.buildBeginDegenExecution in Hix.
  apply res_bind_ok in Hix as (round & Hround & Hix).
  apply res_bind_ok in Hix as (vault & Hvault & Hix).
  apply res_bind_ok in Hix as (executorAta & Hata & Hix).
  apply res_bind_ok in Hix as (id & Hid & Hix).
  apply res_bind_ok in Hix as (claim & Hclaim & Hix).
  apply res_bind_ok in Hix as (baseIx & Hbase & Hix). apply begin_keys in Hbase.
  unfold CrankIx.vrfPayerAta. destruct (present_key vrfPayer) as [k|] eqn:Ek.
  - apply res_bind_ok in Hix as (ata & Hkata & [= <-]).
    assert (vrfPayer = Some k) as Hk.
    { unfold present_key in Ek. destruct vrfPayer as [k'|]; [|done].
      case_bool_decide; congruence. }
    destruct (Hvrf _ _ Hk Hkata) as [Hne1 Hne2].
    cbn [ix_keys]. unfold splice_at. rewrite !fmap_app, fmap_take, fmap_drop, Hbase.
    cbn. unfold sentinel_key. rewrite !bool_decide_false by done.
    eexists. split; [reflexivity|]. cbn. rewrite Hround, Hclaim, Hkata. done.
  - injection Hix as <-. rewrite Hbase. eexists. split; [reflexivity|]. cbn.
    rewrite Hround, Hclaim. done.
Qed.

(** The frontend's builder passes the VRF payer's accounts under names the IDL
    does not declare, so whatever payer it is given it builds the instruction the
    crank builds for no payer: it can never reimburse one. *)
Theorem front_begin_ignores_vrf_payer executor winner roundId rank index minOut hash mint
    receiver vrfPayer ix ix' :
  FrontIx.buildBeginDegenExecution A executor winner roundId rank index minOut hash mint
    (USDC_MINT A) (TREASURY_USDC_ATA A) receiver vrfPayer = Ok ix ->
  CrankIx.buildBeginDegenExecution A executor winner roundId rank index minOut hash mint
    receiver None = Ok ix' ->
  ix = ix'.
Proof.
  unfold FrontIx.buildBeginDegenExecution, CrankIx.buildBeginDegenExecution. cbn [present_key].
  intros Hix Hix'.
  destruct (getRoundPda A roundId) as [round|]; [|discriminate]. cbn [mbind Res_bind] in *.
  destruct (getAssociatedTokenAddress (USDC_MINT A) round true); [|discriminate].
  cbn [mbind Res_bind] in *.
  destruct (getAssociatedTokenAddress (USDC_MINT A) executor false); [|discriminate].
  cbn [mbind Res_bind] in *.
  apply res_bind_ok in Hix as (ata & _ & Hix).
  destruct (newBN roundId); [|discriminate]. cbn [mbind Res_bind] in *.
  destruct (getDegenClaimPda A roundId winner); [|discriminate]. cbn [mbind Res_bind] in *.
  apply res_bind_ok in Hix' as (base & Hix' & [= <-]).
  by eapply begin_keys_front.
Qed.

(** The crank's [close_round] is the frontend's with the treasury appended, so the
    program always takes the branch that can sweep dust. *)
Lemma close_round_treasury payer recipient roundId ix :
  CrankIx.buildCloseRound A payer recipient roundId = Ok ix ->
  exists ix0, FrontIx.buildCloseRound A payer recipient roundId (USDC_MINT A) = Ok ix0 /\
    ix_keys ix = ix_keys ix0 ++ [mkMeta (TREASURY_USDC_ATA A) false true] /\
    length (ix_keys ix) = 7%nat.
Proof.
  unfold CrankIx.buildCloseRound, FrontIx.buildCloseRound. intros Hix.
  destruct (getRoundPda A roundId) as [round|]; [|discriminate]. cbn [mbind Res_bind] in *.
  destruct (getAssociatedTokenAddress (USDC_MINT A) round true); [|discriminate].
  cbn [mbind Res_bind] in *.
  destruct (newBN roundId); [|discriminate]. cbn [mbind Res_bind] in *.
  apply res_bind_ok in Hix as (base & Hbase & [= <-]). exists base. split_and!; [done|done|].
  eapply method_keys in Hbase; [|reflexivity|reflexivity]. cbn [ix_keys]. by rewrite Hbase.
Qed.
End layouts.

(** ** Witnesses *)

Module IxWitness.
#[local] Existing Instance ToyKeys.keys.
#[local] Existing Instance ToySolana.libs.

(** An Anchor that follows the IDL where it knows the method. *)
Definition method_instruction (program : PublicKey) (m : string) (args : list Arg)
    (accounts : list (string * option PublicKey)) : Res TransactionInstruction :=
  let data := ToySolana.text m ++ concat (ToySolana.arg_bytes <$> args) in
  match idl_accounts m with
  | Some idl =>
      match mapM (resolved accounts) idl with
      | Some metas => Ok (mkIx program metas data)
      | None => Throw (mkError "Error" "Account not provided")
      end
  | None => Ok (mkIx program [] data)
  end.

#[local] Instance anchor : SolanaLibs | 0 := {|
  newBN := newBN;
  toArrayLikeLE8 := toArrayLikeLE8;
  getAssociatedTokenAddress := getAssociatedTokenAddress;
  TOKEN_PROGRAM_ID := TOKEN_PROGRAM_ID;
  ASSOCIATED_TOKEN_PROGRAM_ID := ASSOCIATED_TOKEN_PROGRAM_ID;
  SystemProgram_programId := SystemProgram_programId;
  setComputeUnitLimit := setComputeUnitLimit;
  setComputeUnitPrice := setComputeUnitPrice;
  methodInstruction := method_instruction
|}.

Lemma anchor_laws : @AnchorLaws _ anchor.
Proof.
  split.
  - intros program m args accounts idl metas ix Hidl Hm. cbn. unfold method_instruction.
    rewrite Hidl, Hm. by intros [= <-].
  - intros program m args accounts accounts' ix ix'. cbn. unfold method_instruction.
    destruct (idl_accounts m) as [idl|].
    + destruct (mapM (resolved accounts) idl), (mapM (resolved accounts') idl); try discriminate.
      by intros [= <-] [= <-].
    + by intros [= <-] [= <-].
Qed.

Definition k (n : Z) : PublicKey := ToyKeys.mk (le_encode 4 n).
Definition addresses : Addresses := mkAddresses (k 1) (k 2) (k 3) (k 4) (k 5) (k 6) (k 7).

Definition crank_ix (vrfPayer : option PublicKey) : Res TransactionInstruction :=
  CrankIx.buildBeginDegenExecution addresses (k 10) (k 11) 9 0 3 100 [] (k 12) (k 13) vrfPayer.

Definition front_ix (vrfPayer : option PublicKey) : Res TransactionInstruction :=
  FrontIx.buildBeginDegenExecution addresses (k 10) (k 11) 9 0 3 100 [] (k 12) (k 2) (k 3)
    (k 13) vrfPayer.

Definition ix_of (r : Res TransactionInstruction) : TransactionInstruction :=
  match r with Ok ix => ix | Throw _ => mkIx defaultKey [] [] end.

Lemma begin_degen_accounts_witness :
  length (ix_keys (ix_of (crank_ix (Some (k 20))))) = 13%nat /\
  exists b, bind_begin_accounts (k 1) (pubkey <$> ix_keys (ix_of (crank_ix (Some (k 20))))) = Some b /\
    b_vrf_payer_authority b = Some (k 20).
Proof.
  split; [vm_compute; reflexivity|].
  destruct (@begin_degen_accounts _ anchor anchor_laws addresses (k 10) (k 11) 9 0 3 100 [] (k 12)
    (k 13) (Some (k 20)) (ix_of (crank_ix (Some (k 20)))))
    as (b & Hb & _ & _ & _ & _ & _ & _ & _ & Hv & _).
  - intros x a [= <-] Ha. split; [by vm_compute|]. vm_compute in Ha. injection Ha as <-.
    by vm_compute.
  - vm_compute. reflexivity.
  - exists b. split; [exact Hb|]. rewrite Hv. vm_compute. reflexivity.
Defined.

Lemma front_begin_ignores_vrf_payer_witness :
  ix_of (front_ix (Some (k 20))) = ix_of (crank_ix None).
Proof.
  apply (@front_begin_ignores_vrf_payer _ anchor anchor_laws addresses (k 10) (k 11) 9 0 3 100 []
    (k 12) (k 13) (Some (k 20))); vm_compute; reflexivity.
Defined.
End IxWitness.
