(* ===== verification/Firebase.v ===== *)
(** * Firebase: crank/src/firebase.ts

    The archive of finished rounds: the history record built from a round and its
    participants' accounts, its upload, and the highest archived id.  A record's
    numbers are JavaScript numbers; ids stay below [2^53]. *)

From stdpp Require Import base list gmap strings pretty.
From Stdlib Require Import ZArith Lia Ascii Strings.Byte SpecFloat.
From S2P Require Import Prelude Buffers Accounts JsRuntime Effects Solana Instructions.

Local Open Scope string_scope.
Local Open Scope list_scope.
Local Open Scope Z_scope.
Set Warnings "-clear-no-such-hyp".

(** [url.replace(/\/$/, "")]: one trailing slash goes. *)
Definition strip_slash (url : string) : string :=
  let n := String.length url in
  match String.get (n - 1) url with
  | Some c => if (c =? "/")%char then String.substring 0 (n - 1) url else url
  | None => url
  end.

(** The value [initFirebase] leaves in [dbUrl]. *)
Definition initFirebase (env : string -> option string) : option string :=
  match env "FIREBASE_DATABASE_URL" with
  | None => None
  | Some url => if String.eqb url "" then None else Some (strip_slash url)
  end.

Record ParticipantDeposit := mkDeposit { d_address : string; d_usdc : num; d_tickets : num }.

Record HistoryRound := mkHistory {
  h_roundId : Z;
  h_status : Z;
  h_totalUsdc : num;
  h_totalTickets : num;
  h_participantsCount : Z;
  h_winner : string;
  h_winningTicket : string;
  h_randomness : string;
  h_startTs : num;
  h_endTs : num;
  h_vaultUsdcAta : string;
  h_participants : list string;
  h_participantDeposits : list ParticipantDeposit;
  h_archivedAt : Z
}.

(** [Buffer.toString("hex")] *)
Definition hex_digit (n : Z) : ascii :=
  Ascii.ascii_of_N (Z.to_N (if n <? 10 then 48 + n else 87 + n)).

Fixpoint hex (b : bytes) : string :=
  match b with
  | [] => ""
  | x :: rest =>
      String (hex_digit (byte_val x / 16)) (String (hex_digit (byte_val x mod 16)) (hex rest))
  end.

Definition type_error : JsError :=
  mkError "TypeError" "Cannot read properties of undefined (reading 'toBase58')".

(** [JSON.stringify(round)]: the fields of the record, in order. *)
Definition deposit_json (d : ParticipantDeposit) : Json :=
  JObj [("address", JStr (d_address d)); ("usdc", JNum (d_usdc d)); ("tickets", JNum (d_tickets d))].

Definition history_json (h : HistoryRound) : Json :=
  JObj
    [("roundId", JNum (num_of_Z (h_roundId h)));
     ("status", JNum (num_of_Z (h_status h)));
     ("totalUsdc", JNum (h_totalUsdc h));
     ("totalTickets", JNum (h_totalTickets h));
     ("participantsCount", JNum (num_of_Z (h_participantsCount h)));
     ("winner", JStr (h_winner h));
     ("winningTicket", JStr (h_winningTicket h));
     ("randomness", JStr (h_randomness h));
     ("startTs", JNum (h_startTs h));
     ("endTs", JNum (h_endTs h));
     ("vaultUsdcAta", JStr (h_vaultUsdcAta h));
     ("participants", JArr (JStr <$> h_participants h));
     ("participantDeposits", JArr (deposit_json <$> h_participantDeposits h));
     ("archivedAt", JNum (num_of_Z (h_archivedAt h)))].

Section firebase.
Context `{SolanaLibs} `{!Services} {S : Type} (A : Addresses) (dbUrl : option string).
Local Abbreviation M := (M S World Event).

(** The share recorded for a participant whose account is already closed. *)
Definition fallback_deposit (rd : Crank.RoundData) (addrStr : string) : ParticipantDeposit :=
  mkDeposit addrStr
    (num_over (usdc_of_raw (Crank.totalUsdc rd)) (num_of_Z (Crank.participantsCount rd)))
    (num_of_Z (default 0 (num_floor
       (num_over (num_of_Z (Crank.totalTickets rd)) (num_of_Z (Crank.participantsCount rd)))))).

(** One iteration of the loop over the participants. *)
Definition history_deposit (rd : Crank.RoundData) (roundPda : PublicKey)
    (deposits : list ParticipantDeposit) (i : Z) : M (list ParticipantDeposit) :=
  match Crank.participants rd !! Z.to_nat i with
  | None => throw type_error
  | Some addr =>
      let addrStr := toBase58 addr in
      try_catch
        (let partPda := getParticipantPda A roundPda addr in
         pData ← participantFetch partPda;
         mret (deposits ++ [mkDeposit addrStr (usdc_of_raw (fst pData)) (num_of_Z (snd pData))]))
        (fun _ => mret (deposits ++ [fallback_deposit rd addrStr]))
  end.

Definition buildHistoryRound (rd : Crank.RoundData) (roundId : Z) : M HistoryRound :=
  roundPda ← lift (getRoundPda A roundId);
  deposits ← for_acc (seqZ 0 (Crank.participantsCount rd)) (history_deposit rd roundPda) [];
  archivedAt ← dateNow;
  mret (mkHistory
    (round53 (Crank.roundId rd)) (Crank.status rd) (usdc_of_raw (Crank.totalUsdc rd))
    (num_of_Z (Crank.totalTickets rd)) (Crank.participantsCount rd)
    (toBase58 (Crank.winner rd)) (pretty (Crank.winningTicket rd)) (hex (Crank.randomness rd))
    (num_of_Z (Crank.startTs rd)) (num_of_Z (Crank.endTs rd))
    (toBase58 (Crank.vaultUsdcAta rd)) (toBase58 <$> Crank.participants rd)
    deposits archivedAt).

Definition saveRoundToFirebase (round : HistoryRound) : M bool :=
  match dbUrl with
  | None => mret false
  | Some dbUrl =>
      try_catch
        (let url := dbUrl +:+ "/rounds/" +:+ pretty (h_roundId round) +:+ ".json" in
         res ← fetch (mkRequest url "PATCH" [("Content-Type", "application/json")]
                        (Some (history_json round)));
         if rs_ok res then mret true
         else if (rs_status res =? 401) || (rs_status res =? 403) then mret true
         else
           text ← lift (rs_text res);
           log ("[firebase] Save round " +:+ pretty (h_roundId round) +:+ " HTTP " +:+
                pretty (rs_status res) +:+ ": " +:+ text) ;;
           mret false)
        (fun e =>
           log ("[firebase] Save round " +:+ pretty (h_roundId round) +:+ " failed: " +:+
                err_message e) ;;
           mret false)
  end.

Definition archive_query_url (dbUrl : string) : string :=
  dbUrl +:+ "/rounds.json?orderBy=" +:+ String "034" "$key" +:+ String "034" "&limitToLast=1".

(** [Object.keys(data)] of a parsed non-null object or array. *)
Definition object_keys (j : Json) : option (list string) :=
  match j with
  | JObj fields => Some (fst <$> fields)
  | JArr l => Some (pretty <$> seqZ 0 (Z.of_nat (length l)))
  | _ => None
  end.

Definition getMaxArchivedRoundId : M num :=
  match dbUrl with
  | None => mret (S754_zero false)
  | Some dbUrl =>
      try_catch
        (res ← fetch (mkRequest (archive_query_url dbUrl) "GET" [] None);
         if negb (rs_ok res) then mret (S754_zero false)
         else
           data ← lift (rs_json res);
           match object_keys data with
           | Some (key :: _) => mret (Number key)
           | _ => mret (S754_zero false)
           end)
        (fun _ => mret (S754_zero false))
  end.

(** ** Guarantees *)

Local Abbreviation silent := (only_adds (fun ev => ~ is_send ev)).

Lemma history_deposits_wp rd roundPda l deposits p :
  wp (for_acc l (history_deposit rd roundPda) deposits)
    (fun r p' => silent p p' /\
       match r with
       | Ok out => exists ext, out = deposits ++ ext /\
           Forall2 (fun i d => toBase58 <$> Crank.participants rd !! Z.to_nat i = Some (d_address d)) l ext
       | Throw _ => exists i, i ∈ l /\ Crank.participants rd !! Z.to_nat i = None
       end) p.
Proof.
  revert deposits p. induction l as [|i l IH]; intros deposits p; cbn [for_acc].
  { apply wp_ret. split; [adds|]. exists []. by rewrite app_nil_r. }
  svc_step. unfold history_deposit.
  destruct (Crank.participants rd !! Z.to_nat i) as [addr|] eqn:Ea.
  2:{ svc_step. split; [adds|]. exists i. split; [by left|done]. }
  assert (Hrest : forall d q, silent p q -> d_address d = toBase58 addr ->
    wp (for_acc l (history_deposit rd roundPda) (deposits ++ [d]))
      (fun r p' => silent p p' /\
       match r with
       | Ok out => exists ext, out = deposits ++ ext /\
           Forall2 (fun i d => toBase58 <$> Crank.participants rd !! Z.to_nat i = Some (d_address d))
             (i :: l) ext
       | Throw _ => exists j, j ∈ (i :: l) /\ Crank.participants rd !! Z.to_nat j = None
       end) q).
  { intros d q Hq Hd. eapply wp_mono; [apply IH|]. intros [out|e] p' [Hp' Ho].
    - split; [by eapply only_adds_trans|]. destruct Ho as (ext & -> & Hf).
      exists (d :: ext). split; [by rewrite <- app_assoc|]. constructor; [|done].
      by rewrite Ea, Hd.
    - split; [by eapply only_adds_trans|]. destruct Ho as (j & Hj & ?).
      exists j. split; [by right|done]. }
  svc_step. svc_step. svc_step. destruct r as [[u t]|e]; cbn [fst snd]; svc_step;
    (apply Hrest; [adds|done]).
Qed.

(** What a built history record holds. *)
Lemma buildHistoryRound_wp rd roundId p :
  wp (buildHistoryRound rd roundId)
    (fun r p' => silent p p' /\
       match r with
       | Ok h =>
           h_status h = Crank.status rd /\
           length (h_participantDeposits h) = Z.to_nat (Crank.participantsCount rd) /\
           (Z.of_nat (length (Crank.participants rd)) = Crank.participantsCount rd ->
            d_address <$> h_participantDeposits h = h_participants h)
       | Throw _ => True
       end) p.
Proof.
  unfold buildHistoryRound. svc_step. svc_step.
  destruct (getRoundPda A roundId) as [roundPda|e]; [|split; [adds|done]].
  svc_step. eapply wp_mono; [apply history_deposits_wp|].
  intros [deposits|e] q [Hq Hd]; [|done]. destruct Hd as (ext & -> & Hf). cbn [app].
  svc_step. svc_step. svc_step.
  split; [apply only_adds_cons; [by intros []|exact Hq]|].
  cbn [h_status h_participantDeposits h_participants]. split; [done|]. split.
  - apply Forall2_length in Hf. rewrite length_seqZ in Hf. lia.
  - intros Hlen. apply list_eq. intros i. rewrite !list_lookup_fmap.
    destruct (ext !! i) as [d|] eqn:Ei.
    + pose proof (lookup_lt_Some _ _ _ Ei) as Hlt.
      destruct (Forall2_lookup_r _ _ _ _ _ Hf Ei) as (z & [Hz Hb]%lookup_seqZ & Hd).
      replace (Z.to_nat z) with i in Hd by lia. cbn. by rewrite <- Hd.
    + apply lookup_ge_None in Ei. apply Forall2_length in Hf. rewrite length_seqZ in Hf.
      cbn. rewrite (lookup_ge_None_2 (Crank.participants rd)); [done|lia].
Qed.

(** The upload and its answer. *)
Lemma saveRoundToFirebase_wp round p :
  wp (saveRoundToFirebase round)
    (fun r p' => silent p p' /\ exists b, r = Ok b /\
       (b = true <-> exists url res,
          dbUrl = Some url /\
          EvFetch (mkRequest (url +:+ "/rounds/" +:+ pretty (h_roundId round) +:+ ".json") "PATCH"
                     [("Content-Type", "application/json")] (Some (history_json round)))
            (Ok res) ∈ take 1 (history p') /\
          (rs_ok res = true \/ rs_status res = 401 \/ rs_status res = 403))) p.
Proof.
  unfold saveRoundToFirebase. destruct dbUrl as [url|].
  2:{ svc_step. split; [adds|]. exists false. split; [done|]. naive_solver. }
  svc_step. svc_step. svc_step. destruct r as [res|e].
  2:{ svc_step. svc_step. svc_step. split.
      - adds.
      - exists false. split; [done|]. split; [done|].
        cbn. intros (? & ? & _ & Hin & _). by apply list_elem_of_singleton in Hin. }
  destruct (rs_ok res) eqn:Eok.
  { svc_step. split; [adds|]. exists true. split; [done|]. split; [|done].
    intros _. exists url, res. cbn. rewrite list_elem_of_singleton. auto. }
  destruct ((rs_status res =? 401) || (rs_status res =? 403)) eqn:Est.
  { svc_step. split; [adds|]. exists true. split; [done|]. split; [|done].
    intros _. exists url, res. cbn. rewrite list_elem_of_singleton.
    apply orb_true_iff in Est as [?%Z.eqb_eq|?%Z.eqb_eq]; auto. }
  svc_step. svc_step. destruct (rs_text res) as [text|e]; svc_step; svc_step; svc_step.
  all: split; [adds|].
  all: exists false; split; [done|]; split; [done|]; cbn;
    intros (? & ? & _ & Hin & _); by apply list_elem_of_singleton in Hin.
Qed.

(** Uploading an archive never throws, touches no state and sends no
    transaction; it reports success exactly when the server accepted the [PATCH]
    of [rounds/<id>] or refused it as already written (401, 403). *)
Theorem save_round_spec round p :
  wp (saveRoundToFirebase round)
    (fun r p' => silent p p' /\ exists b, r = Ok b /\
       (b = true <-> exists url res,
          dbUrl = Some url /\
          EvFetch (mkRequest (url +:+ "/rounds/" +:+ pretty (h_roundId round) +:+ ".json") "PATCH"
                     [("Content-Type", "application/json")] (Some (history_json round)))
            (Ok res) ∈ take 1 (history p') /\
          (rs_ok res = true \/ rs_status res = 401 \/ rs_status res = 403))) p.
Proof. apply saveRoundToFirebase_wp. Qed.

(** The query for the highest archived id never throws either. *)
Lemma getMaxArchivedRoundId_wp p :
  wp getMaxArchivedRoundId (fun r p' => silent p p' /\ exists n, r = Ok n) p.
Proof.
  unfold getMaxArchivedRoundId. destruct dbUrl as [url|].
  2:{ svc_step. split; [adds|by eexists]. }
  svc_step. svc_step. svc_step. destruct r as [res|e].
  2:{ svc_step. split; [adds|by eexists]. }
  destruct (negb (rs_ok res)); [svc_step; split; [adds|by eexists]|].
  svc_step. svc_step. destruct (rs_json res) as [data|e].
  - destruct (object_keys data) as [[|key keys]|]; svc_step;
      (split; [adds|by eexists]).
  - svc_step. split; [adds|by eexists].
Qed.
End firebase.
