(* ===== verification/Soar.v ===== *)
(** * Soar: the volume leaderboard

    src/api/soar/submit.ts, the endpoint that writes a player's volume to the SOAR
    leaderboard, and src/src/lib/soar.ts, the client of the leaderboard and of the endpoint,
    with what src/src/pages/Leaderboard.tsx and src/src/pages/Home.tsx send to it.

    Both run in the monad of [Effects] over the same services: HTTP, the accounts of the chain
    and the SOAR library.  The fields of a JSON object are listed in the order in which
    [Object.keys] enumerates them.  Log lines are left out. *)

From stdpp Require Import base list sets strings.
From Stdlib Require Import ZArith Lia SpecFloat.
From S2P Require Import Prelude Buffers JsRuntime Effects Solana Firebase.

Local Open Scope string_scope.
Local Open Scope list_scope.
Local Open Scope Z_scope.
Set Warnings "-clear-no-such-hyp".

(** ** Services *)

Class SoarServices `{Web3Keys} := {
  SWorld : Type;
  (** [fetch(url, init)] *)
  soarFetch : HttpRequest -> SWorld -> Res HttpResponse * SWorld;
  (** [connection.getAccountInfo(key)]: whether there is an account *)
  soarAccount : PublicKey -> SWorld -> Res bool * SWorld;
  (** [getMultipleAccountsInfo]: the data of the accounts *)
  soarAccounts : list PublicKey -> SWorld -> Res (list (option bytes)) * SWorld;
  soarBlockhash : SWorld -> Res (string * Z) * SWorld;
  (** [sendRawTransaction] of a signed transaction, and [signAndSend] of the wallet *)
  soarSend : Transaction -> SWorld -> Res string * SWorld;
  soarWalletSend : Transaction -> SWorld -> Res string * SWorld;
  (** [confirmTransaction]: [value.err] *)
  soarConfirm : string -> string * Z -> SWorld -> Res Json * SWorld;
  (** @magicblock-labs/soar-sdk *)
  derivePlayerAddress : PublicKey -> PublicKey;
  derivePlayerScoresListAddress : PublicKey -> PublicKey -> PublicKey;
  submitScoreToLeaderBoard : PublicKey -> PublicKey -> PublicKey -> Z -> SWorld -> Res (list TransactionInstruction) * SWorld;
  initializePlayerAccount : PublicKey -> string -> PublicKey -> SWorld -> Res (list TransactionInstruction) * SWorld;
  registerPlayerEntryForLeaderBoard : PublicKey -> PublicKey -> SWorld -> Res (list TransactionInstruction) * SWorld;
  (** the address of the top entries of a leaderboard, and these: the player account and the
      score of each *)
  fetchLeaderBoardAccount : PublicKey -> SWorld -> Res (option PublicKey) * SWorld;
  fetchLeaderBoardTopEntriesAccount : PublicKey -> SWorld -> Res (list (PublicKey * Z)) * SWorld;
  (** [new BN(x)], [bn.toNumber()], [JSON.parse], and [Keypair.fromSecretKey(Uint8Array.from(secret))] *)
  bnOfNumber : num -> Res Z;
  bnToNumber : Z -> Res Z;
  jsonParse : string -> Res Json;
  keypairOfSecret : Json -> Res PublicKey
}.

Inductive SoarEvent `{Web3Keys} :=
| SFetch (r : HttpRequest) (a : Res HttpResponse)
| SAccount (key : PublicKey) (r : Res bool)
| SAccounts (keys : list PublicKey)
| SBuild (score : option Z)
| SBlockhash
| SSend (tx : Transaction) (r : Res string)
| SWalletSend (tx : Transaction) (r : Res string)
| SConfirm (sig : string).

(** The variables of the process. *)
Record SoarEnv := mkSoarEnv {
  ACTIONS_RPC_URL : option string;
  SOLANA_RPC_UPSTREAM : option string;
  SOAR_LEADERBOARD_PK : option string;
  FIREBASE_DATABASE_URL : option string;
  VITE_FIREBASE_DATABASE_URL : option string;
  SOAR_AUTHORITY_KEYPAIR : option string
}.

(** [a || b] of two texts that may be missing *)
Definition or_else (a b : option string) : option string :=
  match a with Some s => if String.eqb s "" then b else a | None => b end.

Definition RPC_URL (env : SoarEnv) : option string := or_else (ACTIONS_RPC_URL env) (SOLANA_RPC_UPSTREAM env).
Definition SOAR_LEADERBOARD_PK_STR (env : SoarEnv) : string := default "" (SOAR_LEADERBOARD_PK env).
Definition FIREBASE_DB_URL (env : SoarEnv) : string :=
  strip_slash (default "" (or_else (FIREBASE_DATABASE_URL env) (or_else (VITE_FIREBASE_DATABASE_URL env) None))).

(** ** Volume *)

(** [Array.isArray(deposits) ? deposits : typeof deposits === "object" ? Object.values(deposits) : []] *)
Definition deposit_list (deposits : Json) : list Json :=
  match deposits with JArr l => l | JObj fields => snd <$> fields | _ => [] end.

Definition deposit_volume (wallet : string) (dep : Json) : option num :=
  match json_field dep "address", json_field dep "usdc" with
  | Some (JStr a), Some (JNum n) => if String.eqb a wallet then Some n else None
  | _, _ => None
  end.

(** The rounds of the archive; [None] where there is nothing to iterate over. *)
Definition rounds_list (rounds : Json) : option (list Json) :=
  match rounds with JArr l => Some l | JObj fields => Some (snd <$> fields) | _ => None end.

(** A missing value, [null], [false], zero and the empty text have no deposits either way. *)
Definition round_deposits (round : Json) : list Json :=
  match json_field round "participantDeposits" with Some deposits => deposit_list deposits | None => [] end.

Definition player_volume (wallet : string) (rounds : list Json) : num :=
  fold_left (fun totalUsdc round =>
    fold_left (fun totalUsdc dep =>
      match deposit_volume wallet dep with Some usdc => num_plus totalUsdc usdc | None => totalUsdc end)
      (round_deposits round) totalUsdc)
    rounds (S754_zero false).

(** ** Numbers *)

(** [Math.floor(x)] *)
Definition floor_num (x : num) : num := match num_floor x with Some z => num_of_Z z | None => x end.

(** [Math.max(x, y)] *)
Definition max_num (x y : num) : num :=
  match x, y with
  | S754_nan, _ | _, S754_nan => S754_nan
  | _, _ => if SFltb x y then y else x
  end.

(** [typeof x === "number" && x > 0 ? x : 0] *)
Definition client_cents (x : option Json) : num :=
  match x with Some (JNum n) => if positive_num n then n else S754_zero false | _ => S754_zero false end.

Definition final_cents (client : option Json) (firebaseVolumeUsdc : num) : num :=
  max_num (client_cents client) (floor_num (num_times firebaseVolumeUsdc (num_of_Z 100))).

(** ** The endpoint *)

Record SoarResponse := mkSoarResponse { sr_status : Z; sr_body : option Json }.

(** The body of a request as the platform delivers it. *)
Inductive SoarBody := BodyRaw (s : string) | BodyParsed (j : option Json).

Record SoarRequest := mkSoarRequest { sq_method : string; sq_body : SoarBody }.

Section soar.
Context `{SoarServices}.

Local Abbreviation M := (M unit SWorld SoarEvent).

Definition s_fetch (r : HttpRequest) : M HttpResponse := invoke (soarFetch r) (SFetch r).
Definition s_account (key : PublicKey) : M bool := invoke (soarAccount key) (SAccount key).
Definition s_accounts (keys : list PublicKey) : M (list (option bytes)) := invoke (soarAccounts keys) (fun _ => SAccounts keys).
Definition s_blockhash : M (string * Z) := invoke soarBlockhash (fun _ => SBlockhash).
Definition s_send (tx : Transaction) : M string := invoke (soarSend tx) (SSend tx).
Definition s_walletSend (tx : Transaction) : M string := invoke (soarWalletSend tx) (SWalletSend tx).
Definition s_confirm (sig : string) (block : string * Z) : M Json := invoke (soarConfirm sig block) (fun _ => SConfirm sig).

Definition fetchPlayerVolumeFromFirebase (env : SoarEnv) (walletAddress : string) : M num :=
  if String.eqb (FIREBASE_DB_URL env) "" then mret (S754_zero false)
  else
    try_catch
      (resp ← s_fetch (mkRequest (FIREBASE_DB_URL env +:+ "/rounds.json") "GET" [] None);
       if negb (rs_ok resp) then mret (S754_zero false)
       else
         rounds ← lift (rs_json resp);
         match rounds_list rounds with
         | Some l => mret (player_volume walletAddress l)
         | None => mret (S754_zero false)
         end)
      (fun _ => mret (S754_zero false)).

Definition loadAuthorityKeypair (env : SoarEnv) : Res PublicKey :=
  match or_else (SOAR_AUTHORITY_KEYPAIR env) None with
  | None => Throw (mkError "Error" "SOAR_AUTHORITY_KEYPAIR env var is required")
  | Some raw => secret ← jsonParse raw; keypairOfSecret secret
  end.

Definition getConnection (env : SoarEnv) : Res unit :=
  match or_else (RPC_URL env) None with
  | None => Throw (mkError "Error" "RPC URL env var is required")
  | Some _ => Ok tt
  end.

Definition error_json (status : Z) (fields : list (string * Json)) : SoarResponse := mkSoarResponse status (Some (JObj fields)).

(** The transaction of the score, once the player is known to be registered. *)
Definition send_score (player authority leaderboard : PublicKey) (finalVolumeCents : num) : M SoarResponse :=
  score ← lift (bnOfNumber finalVolumeCents);
  ixs ← invoke (submitScoreToLeaderBoard player authority leaderboard score) (fun _ => SBuild (Some score));
  block ← s_blockhash;
  signature ← s_send (mkTx ixs authority (fst block));
  err ← s_confirm signature block;
  match err with
  | JNull => mret (error_json 200 [("ok", JBool true); ("signature", JStr signature); ("finalVolumeCents", JNum finalVolumeCents)])
  | err => mret (error_json 502 [("error", JStr "TX_FAILED"); ("message", JStr "Score submit transaction failed on-chain");
                                 ("details", err); ("signature", JStr signature)])
  end.

(** After the volume is known to be positive. *)
Definition submit_volume (env : SoarEnv) (playerStr : string) (finalVolumeCents : num) : M SoarResponse :=
  _ ← lift (getConnection env);
  authority ← lift (loadAuthorityKeypair env);
  playerPk ← lift (keyOfString playerStr);
  leaderboardPk ← lift (keyOfString (SOAR_LEADERBOARD_PK_STR env));
  initialized ← s_account (derivePlayerAddress playerPk);
  if negb initialized then
    mret (error_json 428 [("error", JStr "PLAYER_NOT_INITIALIZED");
      ("message", JStr "Player SOAR account not initialized. Client must sign initPlayer + registerPlayer first.")])
  else
    registered ← s_account (derivePlayerScoresListAddress playerPk leaderboardPk);
    if negb registered then
      mret (error_json 428 [("error", JStr "PLAYER_NOT_REGISTERED");
        ("message", JStr "Player not registered for leaderboard. Client must sign registerPlayer first.")])
    else send_score playerPk authority leaderboardPk finalVolumeCents.

(** [finalVolumeCents <= 0] *)
Definition not_positive (x : num) : bool := SFleb x (S754_zero false).

(** [body?.key] *)
Definition body_field (body : option Json) (key : string) : option Json := b ← body; json_field b key.

Definition soar_post (env : SoarEnv) (body : option Json) : M SoarResponse :=
  match body_field body "player" with
  | Some (JStr playerStr) =>
      if String.eqb playerStr "" then mret (error_json 400 [("error", JStr "player is required")])
      else
        volume ← fetchPlayerVolumeFromFirebase env playerStr;
        let finalVolumeCents := final_cents (body_field body "totalVolumeCents") volume in
        if not_positive finalVolumeCents then
          mret (error_json 200 [("ok", JBool true); ("skipped", JBool true); ("reason", JStr "zero volume")])
        else submit_volume env playerStr finalVolumeCents
  | _ => mret (error_json 400 [("error", JStr "player is required")])
  end.

Definition request_body (req : SoarRequest) : Res (option Json) :=
  match sq_body req with
  | BodyRaw s => j ← jsonParse s; Ok (Some j)
  | BodyParsed j => Ok j
  end.

Definition soar_handler (env : SoarEnv) (req : SoarRequest) : M SoarResponse :=
  if String.eqb (sq_method req) "OPTIONS" then mret (mkSoarResponse 204 None)
  else if negb (String.eqb (sq_method req) "POST") then mret (error_json 405 [("error", JStr "Method not allowed")])
  else
    try_catch
      (body ← lift (request_body req); soar_post env body)
      (fun e => mret (error_json 500 [("error", JStr (if String.eqb (err_message e) "" then "Internal error" else err_message e))])).

(** ** The client *)

(** [SOAR_LEADERBOARD_PK] of src/src/lib/constants.ts *)
Context (LEADERBOARD : PublicKey).

Definition checkSoarPlayerStatus (player : PublicKey) : M (bool * bool) :=
  initialized ← s_account (derivePlayerAddress player);
  if negb initialized then mret (false, false)
  else
    registered ← s_account (derivePlayerScoresListAddress player LEADERBOARD);
    mret (true, registered).

Record LeaderboardEntry := mkEntry { le_player : string; le_score : Z; le_rank : Z }.

(** The entries with a positive score; [toNumber] throws on a score it cannot represent. *)
Fixpoint non_zero (scores : list (PublicKey * Z)) : Res (list (PublicKey * Z)) :=
  match scores with
  | [] => Ok []
  | (player, score) :: scores =>
      n ← bnToNumber score;
      rest ← non_zero scores;
      Ok (if 0 <? n then (player, score) :: rest else rest)
  end.

(** The wallet in a player account, the address of the account when it cannot be read. *)
Definition resolve_wallet (account : option bytes) (pda : PublicKey) : string :=
  match account with
  | Some data =>
      if (40 <=? length data)%nat
      then match keyOfBytes (take 32 (drop 8 data)) with Ok k => toBase58 k | Throw _ => toBase58 pda end
      else toBase58 pda
  | None => toBase58 pda
  end.

Fixpoint rank_from (rank : Z) (wallets : list string) (scores : list (PublicKey * Z)) : Res (list LeaderboardEntry) :=
  match scores, wallets with
  | (_, score) :: scores, w :: wallets =>
      n ← bnToNumber score;
      rest ← rank_from (rank + 1) wallets scores;
      Ok (mkEntry w n rank :: rest)
  | _, _ => Ok []
  end.

Definition fetchLeaderboard : M (list LeaderboardEntry) :=
  top ← invoke (fetchLeaderBoardAccount LEADERBOARD) (fun _ => SAccounts [LEADERBOARD]);
  match top with
  | None => mret []
  | Some top =>
      topScores ← invoke (fetchLeaderBoardTopEntriesAccount top) (fun _ => SAccounts [top]);
      nonZero ← lift (non_zero topScores);
      accounts ← s_accounts (fst <$> nonZero);
      lift (rank_from 1 (zip_with resolve_wallet accounts (fst <$> nonZero)) nonZero)
  end.

Definition fetchPlayerRank (wallet : PublicKey) : M (option LeaderboardEntry) :=
  entries ← fetchLeaderboard;
  mret (snd <$> list_find (fun e => le_player e = toBase58 wallet) entries).

Definition submit_request (player : string) (totalVolumeCents : num) : HttpRequest :=
  mkRequest "/api/soar/submit" "POST" [("Content-Type", "application/json")]
    (Some (JObj [("player", JStr player); ("totalVolumeCents", JNum totalVolumeCents)])).

(** The answer is only logged. *)
Definition submitVolumeScoreViaApi (player : string) (totalVolumeCents : num) : M unit :=
  res ← s_fetch (submit_request player totalVolumeCents);
  _ ← lift (rs_json res);
  mret tt.

Definition ensureSoarPlayerInitialized (player : PublicKey) : M bool :=
  initialized ← s_account (derivePlayerAddress player);
  init ← (if initialized : bool then mret []
          else invoke (initializePlayerAccount player (String.substring 0 16 (toBase58 player)) defaultKey) (fun _ => SBuild None));
  registered ← s_account (derivePlayerScoresListAddress player LEADERBOARD);
  reg ← (if registered : bool then mret []
         else invoke (registerPlayerEntryForLeaderBoard player LEADERBOARD) (fun _ => SBuild None));
  if (length (init ++ reg) =? 0)%nat then mret false
  else
    block ← s_blockhash;
    signature ← s_walletSend (mkTx (init ++ reg) player (fst block));
    _ ← s_confirm signature block;
    mret true.
End soar.

(** ** What the pages send *)

(** Leaderboard.tsx: [Math.floor(Math.max(stats.totalVolume, 0) * 100)] *)
Definition sync_cents (totalVolume : num) : num :=
  floor_num (num_times (max_num totalVolume (S754_zero false)) (num_of_Z 100)).

(** Home.tsx: [Math.floor((stats.totalVolume + amount) * 100)] after a deposit of [amount],
    which for a swap is an amount of the token. *)
Definition deposit_cents (totalVolume amount : num) : num :=
  floor_num (num_times (num_plus totalVolume amount) (num_of_Z 100)).

(** [legs.reduce((sum, leg) => sum + (Number.isFinite(leg.amount) ? leg.amount : 0), 0)] *)
Definition totalInputAmount (amounts : list num) : num :=
  fold_left (fun sum a => num_plus sum (if isFinite a then a else S754_zero false)) amounts (S754_zero false).

(** ** The volume is the sum of the player's deposits *)

(** Every deposit of the archive. *)
Definition all_deposits (rounds : list Json) : list Json := rounds ≫= round_deposits.

Lemma fold_deposits wallet deps x :
  fold_left (fun totalUsdc dep =>
    match deposit_volume wallet dep with Some usdc => num_plus totalUsdc usdc | None => totalUsdc end) deps x =
  fold_left num_plus (omap (deposit_volume wallet) deps) x.
Proof.
  revert x. induction deps as [|d deps IH]; intros x; [done|]. cbn. destruct (deposit_volume wallet d); by rewrite IH.
Qed.

Lemma player_volume_sums wallet rounds :
  player_volume wallet rounds = fold_left num_plus (omap (deposit_volume wallet) (all_deposits rounds)) (S754_zero false).
Proof.
  unfold player_volume, all_deposits. generalize (S754_zero false) as x. induction rounds as [|r rounds IH]; intros x; [done|].
  rewrite bind_cons, omap_app, fold_left_app, <- IH, <- fold_deposits. done.
Qed.

(** ** Guarantees of the endpoint *)

Section guarantees.
Context `{SoarServices}.

(** What may be among the events of a request: the score that is built is the greater of the
    two volumes, and a transaction is sent only for a player whose two accounts were found. *)
Definition is_soar_send (ev : SoarEvent) : bool := match ev with SSend _ _ => true | _ => false end.
Definition is_wallet_send (ev : SoarEvent) : bool := match ev with SWalletSend _ _ => true | _ => false end.

Fixpoint sends (evs : list SoarEvent) : nat :=
  match evs with [] => 0 | ev :: evs => if is_soar_send ev then S (sends evs) else sends evs end.

Definition found (key : PublicKey) (evs : list SoarEvent) : Prop := SAccount key (Ok true) ∈ evs.

Definition submit_ok (env : SoarEnv) (playerStr : string) (cents : num) (evs : list SoarEvent) : Prop :=
  (sends evs <= 1)%nat /\
  (forall score, SBuild score ∈ evs -> exists n, score = Some n /\ bnOfNumber cents = Ok n) /\
  (forall tx r, SSend tx r ∈ evs -> exists player leaderboard authority,
     keyOfString playerStr = Ok player /\ keyOfString (SOAR_LEADERBOARD_PK_STR env) = Ok leaderboard /\
     loadAuthorityKeypair env = Ok authority /\ feePayer tx = authority /\
     found (derivePlayerAddress player) evs /\ found (derivePlayerScoresListAddress player leaderboard) evs).

(** The events of a run, the latest first. *)
Definition adds (Q : list SoarEvent -> Prop) (p p' : Proc unit SWorld SoarEvent) : Prop :=
  exists evs, history p' = evs ++ history p /\ Q evs.

Lemma adds_nil (Q : list SoarEvent -> Prop) p : Q [] -> adds Q p p.
Proof. intros HQ. by exists []. Qed.

Ltac prefix_of h base :=
  lazymatch h with
  | base => constr:(@nil SoarEvent)
  | ?x :: ?t => let r := prefix_of t base in constr:(x :: r)
  end.

(** Closes [adds Q p p'] where [p'] shows the events added to [p]. *)
Ltac show_events :=
  cbn [local world history];
  lazymatch goal with
  | |- adds _ ?p (mkProc _ _ ?h) => let l := prefix_of h (history p) in exists l; split; [reflexivity|]
  | |- adds _ ?p ?p => exists []; split; [reflexivity|]
  end.

Ltac each_event :=
  repeat match goal with
         | Hin : _ ∈ _ :: _ |- _ => apply elem_of_cons in Hin as [Hin|Hin]
         | Hin : _ ∈ [] |- _ => by apply elem_of_nil in Hin
         end; simplify_eq.

Ltac submit_events :=
  show_events; split; [cbn; lia|]; split;
  [intros ? ?; each_event; eauto
  |intros ? ? ?; each_event; do 3 eexists; repeat (split; [eassumption || reflexivity|]); split; unfold found; set_solver].

Lemma submit_volume_ok env playerStr cents p :
  wp (submit_volume env playerStr cents) (fun _ p' => adds (submit_ok env playerStr cents) p p') p.
Proof.
  unfold submit_volume.
  wp_step. wp_step. destruct (getConnection env) as [[]|e]; [|submit_events].
  wp_step. wp_step. destruct (loadAuthorityKeypair env) as [authority|e] eqn:Ea; [|submit_events].
  wp_step. wp_step. destruct (keyOfString playerStr) as [player|e] eqn:Ep; [|submit_events].
  wp_step. wp_step. destruct (keyOfString (SOAR_LEADERBOARD_PK_STR env)) as [leaderboard|e] eqn:El; [|submit_events].
  wp_step. unfold s_account. wp_step. destruct r as [[]|e]; cbn [negb]; [|wp_step; submit_events|submit_events].
  wp_step. wp_step. destruct r as [[]|e]; cbn [negb]; [|wp_step; submit_events|submit_events].
  unfold send_score, s_blockhash, s_send, s_confirm.
  wp_step. wp_step. destruct (bnOfNumber cents) as [score|e] eqn:Es; [|submit_events].
  wp_step. wp_step. destruct r as [ixs|e]; [|submit_events].
  wp_step. wp_step. destruct r as [block|e]; [|submit_events].
  wp_step. wp_step. destruct r as [sig|e]; [|submit_events].
  wp_step. wp_step. destruct r as [err|e]; [|submit_events].
  destruct err; wp_step; submit_events.
Qed.

(** The volume in what the archive answered. *)
Definition answered_volume (wallet : string) (a : Res HttpResponse) : num :=
  match a with
  | Ok resp =>
      if negb (rs_ok resp) then S754_zero false
      else match rs_json resp with
           | Ok rounds => match rounds_list rounds with Some l => player_volume wallet l | None => S754_zero false end
           | Throw _ => S754_zero false
           end
  | Throw _ => S754_zero false
  end.

(** The events of the reading of the volume: one request at most, and its answer decides. *)
Definition volume_events (env : SoarEnv) (wallet : string) (volume : num) (evs : list SoarEvent) : Prop :=
  (FIREBASE_DB_URL env = "" /\ evs = [] /\ volume = S754_zero false) \/
  (exists a, evs = [SFetch (mkRequest (FIREBASE_DB_URL env +:+ "/rounds.json") "GET" [] None) a] /\
     volume = answered_volume wallet a).

Lemma fetch_volume_ok env wallet p :
  wp (fetchPlayerVolumeFromFirebase env wallet)
    (fun r p' => exists volume, r = Ok volume /\ adds (volume_events env wallet volume) p p') p.
Proof.
  unfold fetchPlayerVolumeFromFirebase. destruct (String.eqb_spec (FIREBASE_DB_URL env) "") as [E|Hne].
  { wp_step. exists (S754_zero false). split; [done|]. exists []. split; [done|]. by left. }
  wp_step. wp_step. unfold s_fetch. apply wp_invoke. intros a w.
  assert (forall v p', history p' = SFetch (mkRequest (FIREBASE_DB_URL env +:+ "/rounds.json") "GET" [] None) a :: history p ->
    v = answered_volume wallet a -> exists volume, Ok v = Ok volume /\ adds (volume_events env wallet volume) p p') as Hdone.
  { intros v p' Hp ->. eexists. split; [done|]. eexists [_]. split; [exact Hp|]. right. by eexists. }
  destruct a as [resp|e]; [|wp_step; by apply Hdone]. cbn [answered_volume] in Hdone.
  destruct (negb (rs_ok resp)); [wp_step; by apply Hdone|].
  wp_step. wp_step. destruct (rs_json resp) as [rounds|e]; [|wp_step; by apply Hdone].
  destruct (rounds_list rounds); wp_step; by apply Hdone.
Qed.

Definition only_reads (evs : list SoarEvent) : Prop := forall ev, ev ∈ evs -> exists q a, ev = SFetch q a.

(** A request whose volume is positive: it is read, and then submitted. *)
Definition submitted (env : SoarEnv) (body : option Json) (evs : list SoarEvent) : Prop :=
  exists playerStr volume evs1 evs2, evs = evs2 ++ evs1 /\
    body_field body "player" = Some (JStr playerStr) /\ volume_events env playerStr volume evs1 /\
    let cents := final_cents (body_field body "totalVolumeCents") volume in
    not_positive cents = false /\ submit_ok env playerStr cents evs2.

Lemma no_events_read : only_reads [].
Proof. by intros ? ?%elem_of_nil. Qed.

Lemma volume_events_read env wallet volume evs : volume_events env wallet volume evs -> only_reads evs.
Proof.
  intros [(_ & -> & _)|(a & -> & _)]; [apply no_events_read|]. intros ev ->%list_elem_of_singleton. eauto.
Qed.

Lemma soar_post_ok env body p :
  wp (soar_post env body) (fun _ p' => adds (fun evs => only_reads evs \/ submitted env body evs) p p') p.
Proof.
  assert (adds (fun evs => only_reads evs \/ submitted env body evs) p p) as Hnone.
  { apply adds_nil. left. apply no_events_read. }
  unfold soar_post. destruct (body_field body "player") as [[| | |playerStr| |]|] eqn:Ep; try by wp_step.
  destruct (String.eqb playerStr ""); [by wp_step|]. wp_step. eapply wp_mono; [apply fetch_volume_ok|].
  intros r p1 (volume & -> & evs1 & Hp1 & Hv). destruct (not_positive _) eqn:En.
  - wp_step. exists evs1. split; [done|]. left. by eapply volume_events_read.
  - eapply wp_mono; [apply submit_volume_ok|]. intros r p2 (evs2 & Hp2 & Hs). exists (evs2 ++ evs1).
    split; [by rewrite Hp2, Hp1, app_assoc|]. right. by exists playerStr, volume, evs1, evs2.
Qed.


(** ** Registration *)

(** On a ledger whose accounts do not change, the page, the registration and the endpoint
    agree on whether a player is registered. *)
Section ledger.
Context (LEADERBOARD : PublicKey) (exists_account : PublicKey -> bool).
Hypothesis ledger : forall k w, soarAccount k w = (Ok (exists_account k), w).

Definition registered (player : PublicKey) : bool :=
  exists_account (derivePlayerAddress player) && exists_account (derivePlayerScoresListAddress player LEADERBOARD).

Lemma account_run k p :
  s_account k p = (Ok (exists_account k), mkProc (local p) (world p) (SAccount k (Ok (exists_account k)) :: history p)).
Proof. unfold s_account, invoke. by rewrite ledger. Qed.

Lemma check_status_run player p :
  fst (checkSoarPlayerStatus LEADERBOARD player p) = Ok (exists_account (derivePlayerAddress player), registered player).
Proof.
  unfold checkSoarPlayerStatus, registered, mbind, M_bind. rewrite account_run.
  destruct (exists_account (derivePlayerAddress player)); [|done]. cbn [negb]. by rewrite account_run.
Qed.

Lemma ensure_registered player p :
  registered player = true ->
  ensureSoarPlayerInitialized LEADERBOARD player p =
  (Ok false, mkProc (local p) (world p)
     (SAccount (derivePlayerScoresListAddress player LEADERBOARD) (Ok true) :: SAccount (derivePlayerAddress player) (Ok true) :: history p)).
Proof.
  unfold registered. intros [E1 E2]%andb_true_iff. unfold ensureSoarPlayerInitialized, mbind, M_bind.
  rewrite account_run, E1. cbn. rewrite account_run, E2. done.
Qed.

(** The status of an answer the endpoint gives to a player it does not know. *)
Definition refused (r : Res SoarResponse) : bool :=
  match r with Ok resp => sr_status resp =? 428 | Throw _ => false end.

Lemma send_score_not_refused player authority leaderboard cents p :
  refused (fst (send_score player authority leaderboard cents p)) = false.
Proof.
  change (wp (send_score player authority leaderboard cents) (fun r _ => refused r = false) p).
  unfold send_score, s_blockhash, s_send, s_confirm.
  wp_step. wp_step. destruct (bnOfNumber cents); [|done].
  do 3 (wp_step; apply wp_invoke; intros [?|?] ?; [|done]).
  wp_step; apply wp_invoke; intros [err|?] ?; [|done]. by destruct err; wp_step.
Qed.

(** On a ledger whose accounts stay as they are, the parts of the leaderboard agree on who
    is registered: the page shows a player as registered exactly when the endpoint, given a
    valid player and configuration, does not refuse to write the score, and the registration
    then sends nothing to the wallet. *)
Theorem registration_agrees (env : SoarEnv) (playerStr : string) (player authority : PublicKey) (cents : num)
    (p : Proc unit SWorld SoarEvent) :
  getConnection env = Ok tt -> loadAuthorityKeypair env = Ok authority -> keyOfString playerStr = Ok player ->
  keyOfString (SOAR_LEADERBOARD_PK_STR env) = Ok LEADERBOARD ->
  fst (checkSoarPlayerStatus LEADERBOARD player p) = Ok (exists_account (derivePlayerAddress player), registered player) /\
  refused (fst (submit_volume env playerStr cents p)) = negb (registered player) /\
  (registered player = true ->
   fst (ensureSoarPlayerInitialized LEADERBOARD player p) = Ok false /\
   forall ev, ev ∈ history (snd (ensureSoarPlayerInitialized LEADERBOARD player p)) -> is_wallet_send ev = true -> ev ∈ history p).
Proof.
  intros Hc Ha Hp Hl. split; [apply check_status_run|]. split.
  - unfold submit_volume, mbind, M_bind, lift. rewrite Hc, Ha, Hp, Hl, account_run. unfold registered.
    destruct (exists_account (derivePlayerAddress player)); [|done]. cbn [negb]. rewrite account_run.
    destruct (exists_account (derivePlayerScoresListAddress player LEADERBOARD)); [|done].
    apply send_score_not_refused.
  - intros Hr. rewrite (ensure_registered player p Hr). split; [done|]. cbn [snd history].
    intros ev [->|[->|?]%elem_of_cons]%elem_of_cons; done.
Qed.
End ledger.
End guarantees.

(** ** Ranks *)

Lemma rank_from_ranks `{SoarServices} r wallets scores es :
  rank_from r wallets scores = Ok es -> length wallets = length scores ->
  le_rank <$> es = seqZ r (Z.of_nat (length scores)) /\ le_player <$> es = wallets.
Proof.
  revert r wallets es. induction scores as [|[pl s] scores IH]; intros r [|w wallets] es E Hl; try done.
  { cbn in E. by injection E as <-. }
  cbn in E. destruct (bnToNumber s) as [n|]; [|done]. cbn in E.
  destruct (rank_from (r + 1) wallets scores) as [rest|] eqn:Er; [|done]. injection E as <-.
  destruct (IH (r + 1) wallets rest Er ltac:(cbn in Hl; lia)) as [Hr Hw]. rewrite !fmap_cons, Hr, Hw. cbn [le_rank le_player].
  split; [|done]. rewrite (seqZ_cons r) by (cbn; lia). f_equal. f_equal; cbn [length]; lia.
Qed.

(** ** Runs *)

Module SoarWitness.
#[local] Existing Instance ToyKeys.keys.

Definition k (n : Z) : PublicKey := ToyKeys.mk (le_encode 4 n).

(** Twenty USDC were deposited for a million of another token. *)
Definition archive : Json :=
  JObj [("7", JObj [("participantDeposits", JArr [JNull; JObj [("address", JStr "alice"); ("usdc", JNum (num_of_Z 20))]])])].

#[local] Instance services : SoarServices := {|
  SWorld := unit;
  soarFetch := fun _ w => (Ok (mkResponse 200 (Ok "") (Ok archive)), w);
  soarAccount := fun _ w => (Ok true, w);
  soarAccounts := fun keys w => (Ok ((fun _ => None) <$> keys), w);
  soarBlockhash := fun w => (Ok ("hash", 100), w);
  soarSend := fun _ w => (Ok "sig", w);
  soarWalletSend := fun _ w => (Ok "sig", w);
  soarConfirm := fun _ _ w => (Ok JNull, w);
  derivePlayerAddress := fun key => key;
  derivePlayerScoresListAddress := fun key _ => key;
  submitScoreToLeaderBoard := fun _ _ _ _ w => (Ok [], w);
  initializePlayerAccount := fun _ _ _ w => (Ok [], w);
  registerPlayerEntryForLeaderBoard := fun _ _ w => (Ok [], w);
  fetchLeaderBoardAccount := fun _ w => (Ok None, w);
  fetchLeaderBoardTopEntriesAccount := fun _ w => (Ok [], w);
  bnOfNumber := fun x => match num_floor x with Some z => Ok z | None => Throw (mkError "Error" "Assertion failed") end;
  bnToNumber := fun z => Ok z;
  jsonParse := fun _ => Ok JNull;
  keypairOfSecret := fun _ => Ok (k 9)
|}.

Definition env : SoarEnv :=
  mkSoarEnv (Some "rpc") None (Some (toBase58 (k 5))) (Some "https://db/") None (Some "[1,2,3]").

Definition start : Proc unit SWorld SoarEvent := mkProc tt tt [].

(** What the home page sends after a deposit of a million tokens, the first of the player. *)
Definition claimed : num := deposit_cents (S754_zero false) (num_of_Z 1000000).

Definition request (wallet : string) (cents : num) : SoarRequest :=
  mkSoarRequest "POST" (BodyParsed (Some (JObj [("player", JStr wallet); ("totalVolumeCents", JNum cents)]))).

Lemma archive_volume : player_volume "alice" (default [] (rounds_list archive)) = num_of_Z 20.
Proof. vm_compute. reflexivity. Qed.

(** The volume of the leaderboard is that of the tokens, counted as dollars. *)
Lemma token_amount_scored :
  claimed = num_of_Z 100000000 /\
  final_cents (Some (JNum claimed)) (player_volume "alice" (default [] (rounds_list archive))) = num_of_Z 100000000 /\
  final_cents None (player_volume "alice" (default [] (rounds_list archive))) = num_of_Z 2000.
Proof. split; [|split]; vm_compute; reflexivity. Qed.

Lemma handler_run :
  fst (soar_handler env (request (toBase58 (k 8)) (num_of_Z 500)) start) =
  Ok (error_json 200 [("ok", JBool true); ("signature", JStr "sig"); ("finalVolumeCents", JNum (num_of_Z 500))]).
Proof. vm_compute. reflexivity. Qed.

Lemma registration_agrees_witness :
  refused (fst (submit_volume env (toBase58 (k 8)) (num_of_Z 500) start)) = false.
Proof.
  destruct (registration_agrees (k 5) (fun _ => true) (fun _ w => match w with tt => eq_refl end) env
    (toBase58 (k 8)) (k 8) (k 9) (num_of_Z 500) start) as (_ & E & _).
  - reflexivity.
  - reflexivity.
  - apply (@keyOfString_toBase58 _ ToyKeys.laws (k 8)).
  - apply (@keyOfString_toBase58 _ ToyKeys.laws (k 5)).
  - exact E.
Defined.
End SoarWitness.
