(* ===== verification/Notifications.v ===== *)
(** * Notifications: the list behind the bell

    src/src/hooks/useNotifications.ts: the notifications kept in the local storage, the mounted
    hooks with their own copies, and the event bus that reaches them from anywhere.

    The storage holds a list of notifications or nothing usable; writing it may fail silently.
    A hook writes its list after every change of it. *)

From stdpp Require Import base list strings pretty.
From Stdlib Require Import ZArith Lia.
From S2P Require Import Prelude.

Local Open Scope string_scope.
Local Open Scope list_scope.
Local Open Scope Z_scope.
Set Warnings "-clear-no-such-hyp".

Inductive NotificationType := n_win | n_loss | n_deposit | n_round_start | n_round_settled | n_win_old.

Definition type_text (t : NotificationType) : string :=
  match t with
  | n_win => "win" | n_loss => "loss" | n_deposit => "deposit" | n_round_start => "round_start"
  | n_round_settled => "round_settled" | n_win_old => "win_old"
  end.

(** A notification as it is pushed. *)
Record Notice := mkNotice { nt_type : NotificationType; nt_title : string; nt_detail : string }.

Record AppNotification := mkNotification {
  an_id : string;
  an_notice : Notice;
  an_timestamp : Z;
  an_unread : bool
}.

(** What the clock and [Math.random] give to one call of [makeNotification]. *)
Record Stamp := mkStamp { st_idTime : Z; st_random : string; st_time : Z }.

Definition MAX_NOTIFICATIONS : nat := 30.

Definition makeNotification (n : Notice) (s : Stamp) : AppNotification :=
  mkNotification (type_text (nt_type n) +:+ "-" +:+ pretty (st_idTime s) +:+ "-" +:+ st_random s) n (st_time s) true.

Definition mark_read (n : AppNotification) : AppNotification :=
  mkNotification (an_id n) (an_notice n) (an_timestamp n) false.

(** The storage, and the lists of the mounted hooks in the order they were mounted. *)
Record Board := mkBoard { storage : option (list AppNotification); mounted : list (list AppNotification) }.

Inductive BoardEvent :=
| Mount
| Unmount (i : nat)
| Push (n : Notice) (stamps : nat -> Stamp)   (* the [i]-th listener calls the clock for itself *)
| MarkAllRead (i : nat)
| ClearAll (i : nat).

Definition load (s : option (list AppNotification)) : list AppNotification := default [] s.

(** [items.slice(0, MAX_NOTIFICATIONS)] *)
Definition capped (items : list AppNotification) : list AppNotification := take MAX_NOTIFICATIONS items.

Definition addNotification (n : Notice) (s : Stamp) (prev : list AppNotification) : list AppNotification :=
  capped (makeNotification n s :: prev).

Definition unreadCount (items : list AppNotification) : nat := length (filter (fun n => an_unread n = true) items).

Section board.
(** Whether the storage takes a list. *)
Context (fits : list AppNotification -> bool).

Definition save (items : list AppNotification) (s : option (list AppNotification)) : option (list AppNotification) :=
  if fits (capped items) then Some (capped items) else s.

(** A change of the list of one hook, and the effect that writes it. *)
Definition change (i : nat) (f : list AppNotification -> list AppNotification) (b : Board) : Board :=
  match mounted b !! i with
  | Some items => mkBoard (save (f items) (storage b)) (<[i := f items]> (mounted b))
  | None => b
  end.

(** [pushNotification]: every listener adds its own item; without one, the storage does. *)
Definition pushNotification (n : Notice) (stamps : nat -> Stamp) (b : Board) : Board :=
  match mounted b with
  | [] => mkBoard (save (makeNotification n (stamps 0%nat) :: load (storage b)) (storage b)) []
  | hooks =>
      let hooks := imap (fun i items => addNotification n (stamps i) items) hooks in
      mkBoard (fold_left (fun s items => save items s) hooks (storage b)) hooks
  end.

(** A hook starts from the storage, writes it, and reads it again. *)
Definition mount_hook (b : Board) : Board :=
  let s := save (load (storage b)) (storage b) in
  let items := load s in
  mkBoard (save items s) (mounted b ++ [items]).

Definition board_step (b : Board) (ev : BoardEvent) : Board :=
  match ev with
  | Mount => mount_hook b
  | Unmount i => mkBoard (storage b) (delete i (mounted b))
  | Push n stamps => pushNotification n stamps b
  | MarkAllRead i => change i (fmap mark_read) b
  | ClearAll i => change i (fun _ => []) b
  end.

Definition run_board (b : Board) (evs : list BoardEvent) : Board := fold_left board_step evs b.
End board.

(** ** The specification: one list *)

Definition log_step (log : list AppNotification) (ev : BoardEvent) : list AppNotification :=
  match ev with
  | Mount | Unmount _ => log
  | Push n stamps => addNotification n (stamps 0%nat) log
  | MarkAllRead _ => mark_read <$> log
  | ClearAll _ => []
  end.

(** One header at a time: it mounts when there is none, and what is clicked is in it. *)
Definition one_header (b : Board) (ev : BoardEvent) : Prop :=
  match ev with
  | Mount => mounted b = []
  | Push _ _ => True
  | Unmount i | MarkAllRead i | ClearAll i => i = 0%nat /\ length (mounted b) = 1%nat
  end.

Fixpoint one_header_run (fits : list AppNotification -> bool) (b : Board) (evs : list BoardEvent) : Prop :=
  match evs with
  | [] => True
  | ev :: evs => one_header b ev /\ one_header_run fits (board_step fits b ev) evs
  end.

(** The storage, and the header if there is one, hold the list. *)
Definition holds (b : Board) (log : list AppNotification) : Prop :=
  load (storage b) = log /\ (length log <= MAX_NOTIFICATIONS)%nat /\ (mounted b = [] \/ mounted b = [log]).

Lemma capped_short items : (length items <= MAX_NOTIFICATIONS)%nat -> capped items = items.
Proof. apply take_ge. Qed.

Lemma capped_length items : (length (capped items) <= MAX_NOTIFICATIONS)%nat.
Proof. unfold capped. rewrite length_take. lia. Qed.

Lemma capped_twice items : capped (capped items) = capped items.
Proof. apply capped_short, capped_length. Qed.

Section refinement.
Context (fits : list AppNotification -> bool).
Hypothesis always_fits : forall items, fits items = true.

Lemma save_ok items s : save fits items s = Some (capped items).
Proof. unfold save. by rewrite always_fits. Qed.

Lemma change_holds f b log :
  (forall items, (length items <= MAX_NOTIFICATIONS)%nat -> (length (f items) <= MAX_NOTIFICATIONS)%nat) ->
  holds b log -> length (mounted b) = 1%nat -> holds (change fits 0 f b) (f log).
Proof.
  intros Hf (Hs & Hl & [Hm|Hm]) H1; rewrite Hm in H1; [done|]. unfold change. rewrite Hm. cbn.
  rewrite save_ok, capped_short by auto. split; [done|]. split; [auto|by right].
Qed.

Lemma board_step_holds b log ev : holds b log -> one_header b ev -> holds (board_step fits b ev) (log_step log ev).
Proof.
  intros (Hs & Hl & Hm) Ho. destruct ev as [|i|n stamps|i|i]; cbn [board_step log_step one_header] in *.
  - unfold mount_hook. rewrite Ho, Hs, !save_ok. cbn. rewrite !capped_short by (rewrite ?capped_short; done). by split; [|split; [|right]].
  - destruct Ho as [-> H1]. destruct Hm as [Hm|Hm]; rewrite Hm in *; [done|]. cbn. by split; [|split; [|left]].
  - unfold pushNotification. destruct Hm as [Hm|Hm]; rewrite Hm.
    + rewrite save_ok, Hs. split; [done|]. split; [apply capped_length|by left].
    + change (imap (fun i items => addNotification n (stamps i) items) [log]) with [addNotification n (stamps 0%nat) log].
      cbn [fold_left]. rewrite save_ok. unfold addNotification. rewrite capped_twice.
      split; [done|]. split; [apply capped_length|by right].
  - destruct Ho as [-> H1]. apply (change_holds (fmap mark_read) b log); [intros items; by rewrite length_fmap|by split|done].
  - destruct Ho as [-> H1]. apply (change_holds (fun _ => []) b log); [intros; cbn; lia|by split|done].
Qed.

(** C32: the notifications behave as one list, newest first and at most thirty long, as long as
    the storage accepts writes and one header is mounted at a time: whatever is pushed, with a
    header or without one, read or cleared, the storage and the header show the same list, so
    that a notification pushed between two pages is there on the next. *)
Theorem notifications_refine_log (b : Board) (log : list AppNotification) (evs : list BoardEvent) :
  holds b log -> one_header_run fits b evs -> holds (run_board fits b evs) (fold_left log_step evs log).
Proof.
  revert b log. induction evs as [|ev evs IH]; intros b log Hb Ho; [done|].
  destruct Ho as [Ho Hrun]. apply IH; [by apply board_step_holds|done].
Qed.
End refinement.

(** ** Runs *)

Module NotificationsWitness.
Definition stamps (i : nat) : Stamp := mkStamp 1000 "ab12" 1000.
Definition win : Notice := mkNotice n_win "You won" "10 USDC".
Definition deposit : Notice := mkNotice n_deposit "Deposit" "5 USDC".
Definition all_fit (_ : list AppNotification) : bool := true.

(** A page shows a notification; another is pushed while the next page loads. *)
Definition events : list BoardEvent := [Mount; Push win stamps; MarkAllRead 0; Unmount 0; Push deposit stamps; Mount].

Lemma notifications_refine_log_witness :
  mounted (run_board all_fit (mkBoard None []) events) =
    [[makeNotification deposit (stamps 0); mark_read (makeNotification win (stamps 0))]].
Proof.
  destruct (notifications_refine_log all_fit (fun _ => eq_refl) (mkBoard None []) [] events) as (_ & _ & [E|E]).
  - split; [reflexivity|]. split; [cbn; lia|by left].
  - cbn. repeat split.
  - discriminate E.
  - exact E.
Defined.

(** With two hooks mounted, what one of them clears the other brings back. *)
Lemma two_hooks_disagree :
  load (storage (run_board all_fit (mkBoard None []) [Mount; Mount; Push win stamps; ClearAll 0; MarkAllRead 1])) <> [].
Proof. discriminate. Qed.
End NotificationsWitness.
