(* ===== verification/CrankService.v ===== *)
(** * CrankService: crank/src/index.ts

    The round lifecycle manager: its module-level state as a record, each helper and
    handler as a computation over that state and the outside world, and the polling
    step [tick].  Log lines are outputs of the model (without their timestamp).
    Seconds in the configuration are whole numbers. *)

From stdpp Require Import base list gmap strings pretty.
From Stdlib Require Import ZArith Lia SpecFloat.
From S2P Require Import Prelude Buffers Accounts JsRuntime RuntimeLogic Effects ActiveRoundScan Solana Instructions Firebase.

Local Open Scope string_scope.
Local Open Scope list_scope.
Local Open Scope Z_scope.
Set Warnings "-clear-no-such-hyp".

(** ** Configuration and state *)

Record CrankConfig := mkCrankConfig {
  LOCK_BUFFER_SEC : Z;
  CLOSE_DELAY_SEC : Z;
  CLEANUP_BACKOFF_MIN_SEC : Z;
  CLEANUP_BACKOFF_MAX_SEC : Z;
  PARTICIPANT_CLEANUP_BATCH : Z;
  HEALTH_LOG_INTERVAL_SEC : Z;
  STARTUP_BACKFILL_SCAN_ROUNDS : Z;
  STUCK_THRESHOLDS : StuckThresholds;
  STUCK_WARN_REPEAT_SEC : Z;
  VRF_COOLDOWN_SEC : Z;
  isTapestryEnabled : bool
}.

Record ParticipantCleanupStats := mkStats {
  existing : Z;
  closable : Z;
  closed : Z;
  blockedByRefund : Z;
  errors : Z
}.

Record Observed := mkObserved { o_status : Z; o_sinceTs : Z; o_lastSeenTs : Z }.

(** The module's variables.  [stuckWarnedAt] is keyed by the text
    [`${roundId}:${status}`]. *)
Record CrankState := mkCrank {
  currentRoundId : Z;
  lastLockedRound : Z;
  lastCreatedRound : Z;
  backgroundRounds : list Z;
  archivedRounds : list Z;
  cleanupNextAttemptAt : gmap Z Z;
  cleanupBackoffSec : gmap Z Z;
  cleanupRetryCount : gmap Z Z;
  cleanupLastReason : gmap Z string;
  cleanupLastStats : gmap Z (ParticipantCleanupStats * Z);
  roundObservedState : gmap Z Observed;
  stuckWarnedAt : gmap string Z;
  lastHealthLogAt : Z;
  lastVrfSentAt : Z
}.

Definition initial_state : CrankState :=
  mkCrank 0 0 0 [] [] ∅ ∅ ∅ ∅ ∅ ∅ ∅ 0 0.

(** Assignments to one variable. *)
Definition set_currentRoundId (v : Z) (s : CrankState) : CrankState :=
  mkCrank v (lastLockedRound s) (lastCreatedRound s) (backgroundRounds s) (archivedRounds s)
    (cleanupNextAttemptAt s) (cleanupBackoffSec s) (cleanupRetryCount s) (cleanupLastReason s)
    (cleanupLastStats s) (roundObservedState s) (stuckWarnedAt s) (lastHealthLogAt s)
    (lastVrfSentAt s).
Definition set_lastLockedRound (v : Z) (s : CrankState) : CrankState :=
  mkCrank (currentRoundId s) v (lastCreatedRound s) (backgroundRounds s) (archivedRounds s)
    (cleanupNextAttemptAt s) (cleanupBackoffSec s) (cleanupRetryCount s) (cleanupLastReason s)
    (cleanupLastStats s) (roundObservedState s) (stuckWarnedAt s) (lastHealthLogAt s)
    (lastVrfSentAt s).
Definition set_lastCreatedRound (v : Z) (s : CrankState) : CrankState :=
  mkCrank (currentRoundId s) (lastLockedRound s) v (backgroundRounds s) (archivedRounds s)
    (cleanupNextAttemptAt s) (cleanupBackoffSec s) (cleanupRetryCount s) (cleanupLastReason s)
    (cleanupLastStats s) (roundObservedState s) (stuckWarnedAt s) (lastHealthLogAt s)
    (lastVrfSentAt s).
Definition set_lastVrfSentAt (v : Z) (s : CrankState) : CrankState :=
  mkCrank (currentRoundId s) (lastLockedRound s) (lastCreatedRound s) (backgroundRounds s)
    (archivedRounds s) (cleanupNextAttemptAt s) (cleanupBackoffSec s) (cleanupRetryCount s)
    (cleanupLastReason s) (cleanupLastStats s) (roundObservedState s) (stuckWarnedAt s)
    (lastHealthLogAt s) v.
Definition set_lastHealthLogAt (v : Z) (s : CrankState) : CrankState :=
  mkCrank (currentRoundId s) (lastLockedRound s) (lastCreatedRound s) (backgroundRounds s)
    (archivedRounds s) (cleanupNextAttemptAt s) (cleanupBackoffSec s) (cleanupRetryCount s)
    (cleanupLastReason s) (cleanupLastStats s) (roundObservedState s) (stuckWarnedAt s)
    v (lastVrfSentAt s).
Definition upd_archivedRounds (f : list Z -> list Z) (s : CrankState) : CrankState :=
  mkCrank (currentRoundId s) (lastLockedRound s) (lastCreatedRound s) (backgroundRounds s)
    (f (archivedRounds s)) (cleanupNextAttemptAt s) (cleanupBackoffSec s) (cleanupRetryCount s)
    (cleanupLastReason s) (cleanupLastStats s) (roundObservedState s) (stuckWarnedAt s)
    (lastHealthLogAt s) (lastVrfSentAt s).
Definition upd_cleanupLastStats (f : gmap Z (ParticipantCleanupStats * Z) ->
    gmap Z (ParticipantCleanupStats * Z)) (s : CrankState) : CrankState :=
  mkCrank (currentRoundId s) (lastLockedRound s) (lastCreatedRound s) (backgroundRounds s)
    (archivedRounds s) (cleanupNextAttemptAt s) (cleanupBackoffSec s) (cleanupRetryCount s)
    (cleanupLastReason s) (f (cleanupLastStats s)) (roundObservedState s) (stuckWarnedAt s)
    (lastHealthLogAt s) (lastVrfSentAt s).
(** The observation maps, which change together. *)
Definition upd_observed (f : gmap Z Observed -> gmap Z Observed)
    (g : gmap string Z -> gmap string Z) (s : CrankState) : CrankState :=
  mkCrank (currentRoundId s) (lastLockedRound s) (lastCreatedRound s) (backgroundRounds s)
    (archivedRounds s) (cleanupNextAttemptAt s) (cleanupBackoffSec s) (cleanupRetryCount s)
    (cleanupLastReason s) (cleanupLastStats s) (f (roundObservedState s)) (g (stuckWarnedAt s))
    (lastHealthLogAt s) (lastVrfSentAt s).

(** ** Pure state transitions *)

Definition warn_key (roundId status : Z) : string := pretty roundId +:+ ":" +:+ pretty status.

(** [observeRoundState] at time [t]. *)
Definition observe_at (t roundId status : Z) (s : CrankState) : CrankState :=
  match roundObservedState s !! roundId with
  | Some prev =>
      if negb (o_status prev =? status) then
        upd_observed <[roundId := mkObserved status t t]>
          (delete (warn_key roundId (o_status prev))) s
      else
        upd_observed <[roundId := mkObserved (o_status prev) (o_sinceTs prev) t]> (fun m => m) s
  | None => upd_observed <[roundId := mkObserved status t t]> (fun m => m) s
  end.

Definition forgetRoundState (roundId : Z) (s : CrankState) : CrankState :=
  mkCrank (currentRoundId s) (lastLockedRound s) (lastCreatedRound s) (backgroundRounds s)
    (archivedRounds s) (cleanupNextAttemptAt s) (cleanupBackoffSec s)
    (delete roundId (cleanupRetryCount s))
    (delete roundId (cleanupLastReason s))
    (delete roundId (cleanupLastStats s))
    (delete roundId (roundObservedState s))
    (match roundObservedState s !! roundId with
     | Some prev => delete (warn_key roundId (o_status prev)) (stuckWarnedAt s)
     | None => stuckWarnedAt s
     end)
    (lastHealthLogAt s) (lastVrfSentAt s).

Definition clearBackgroundRound (roundId : Z) (s : CrankState) : CrankState :=
  forgetRoundState roundId
    (mkCrank (currentRoundId s) (lastLockedRound s) (lastCreatedRound s)
      (set_delete (backgroundRounds s) roundId)
      (set_delete (archivedRounds s) roundId)
      (delete roundId (cleanupNextAttemptAt s))
      (delete roundId (cleanupBackoffSec s))
      (cleanupRetryCount s) (cleanupLastReason s) (cleanupLastStats s) (roundObservedState s)
      (stuckWarnedAt s) (lastHealthLogAt s) (lastVrfSentAt s)).

(** [m.has(k) || m.set(k, v)] *)
Definition set_if_absent (k v : Z) (m : gmap Z Z) : gmap Z Z :=
  match m !! k with Some _ => m | None => <[k := v]> m end.

(** [trackBackgroundRound]; the clock is read only when the round has no due time:
    [t] is the time then. *)
Definition track_at (C : CrankConfig) (t roundId : Z) (s : CrankState) : CrankState :=
  mkCrank (currentRoundId s) (lastLockedRound s) (lastCreatedRound s)
    (set_add (backgroundRounds s) roundId) (archivedRounds s)
    (set_if_absent roundId (t + CLOSE_DELAY_SEC C) (cleanupNextAttemptAt s))
    (set_if_absent roundId (CLEANUP_BACKOFF_MIN_SEC C) (cleanupBackoffSec s))
    (set_if_absent roundId 0 (cleanupRetryCount s))
    (cleanupLastReason s) (cleanupLastStats s) (roundObservedState s) (stuckWarnedAt s)
    (lastHealthLogAt s) (lastVrfSentAt s).

(** The assignments of [scheduleCleanupRetryOutcome]. *)
Definition apply_retry (roundId : Z) (u : CleanupRetryScheduleUpdate) (s : CrankState)
    : CrankState :=
  mkCrank (currentRoundId s) (lastLockedRound s) (lastCreatedRound s) (backgroundRounds s)
    (archivedRounds s)
    (<[roundId := nextAttemptAtSec u]> (cleanupNextAttemptAt s))
    (<[roundId := nextDelaySec u]> (cleanupBackoffSec s))
    (<[roundId := nextRetryCount u]> (cleanupRetryCount s))
    (<[roundId := lastReason u]> (cleanupLastReason s))
    (cleanupLastStats s) (roundObservedState s) (stuckWarnedAt s) (lastHealthLogAt s)
    (lastVrfSentAt s).

Definition statusName (status : Z) : string :=
  if status =? RoundStatus.Open then "Open"
  else if status =? RoundStatus.Locked then "Locked"
  else if status =? RoundStatus.VrfRequested then "VrfRequested"
  else if status =? RoundStatus.Settled then "Settled"
  else if status =? RoundStatus.Claimed then "Claimed"
  else if status =? RoundStatus.Cancelled then "Cancelled"
  else "Unknown(" +:+ pretty status +:+ ")".

Definition is_terminal (status : Z) : bool :=
  (status =? RoundStatus.Claimed) || (status =? RoundStatus.Cancelled).

(** ** Helpers *)

Section service.
Context `{SolanaLibs} `{!Services}.
Context (A : Addresses) (env : string -> option string) (dbUrl : option string).
Context (C : CrankConfig) (payer : PublicKey).
Local Abbreviation M := (M CrankState World Event).

Definition fetchRound (roundId : Z) : M (option Crank.RoundData) :=
  pda ← lift (getRoundPda A roundId);
  info ← getAccountInfo pda;
  match info with
  | None => mret None
  | Some info => rd ← lift (Crank.parseRound (ai_data info)); mret (Some rd)
  end.

Definition now : M Z := ms ← dateNow; mret (ms / 1000).

Definition observeRoundState (roundId status : Z) : M unit :=
  t ← now; modify (observe_at t roundId status).

Definition stuckThresholdSec (status : Z) : option Z :=
  getStuckThresholdSec status (STUCK_THRESHOLDS C).

(** The part of a warning that describes a background round. *)
Definition stuck_extra (s : CrankState) (roundId nowSec : Z) : string :=
  if set_has (backgroundRounds s) roundId then
    let due := cleanupNextAttemptAt s !! roundId in
    let retryCount := default 0 (cleanupRetryCount s !! roundId) in
    let lastReason := cleanupLastReason s !! roundId in
    let stats := fst <$> cleanupLastStats s !! roundId in
    " | bg_cleanup retry=" +:+ pretty retryCount +:+
    match due with
    | Some due => if due =? 0 then "" else " next_in=" +:+ pretty (Z.max 0 (due - nowSec)) +:+ "s"
    | None => ""
    end +:+
    match lastReason with
    | Some r => if String.eqb r "" then "" else " reason=" +:+ r
    | None => ""
    end +:+
    match stats with
    | Some st => " participants=" +:+ pretty (existing st) +:+ " closable=" +:+ pretty (closable st)
                 +:+ " blocked_refund=" +:+ pretty (blockedByRefund st)
    | None => ""
    end
  else "".

Definition maybeWarnStuckRound (roundId status : Z) : M unit :=
  match stuckThresholdSec status with
  | None => mret tt
  | Some threshold =>
      if threshold <=? 0 then mret tt
      else
        obs ← gets (fun s => roundObservedState s !! roundId);
        match obs with
        | None => mret tt
        | Some obs =>
            if negb (o_status obs =? status) then mret tt
            else
              nowSec ← now;
              lastWarn ← gets (fun s => stuckWarnedAt s !! warn_key roundId status);
              if negb (shouldEmitStuckWarning nowSec (o_status obs) status (o_sinceTs obs)
                         (Some threshold) lastWarn (STUCK_WARN_REPEAT_SEC C))
              then mret tt
              else
                let ageSec := nowSec - o_sinceTs obs in
                modify (upd_observed (fun m => m) <[warn_key roundId status := nowSec]>) ;;
                extra ← gets (fun s => stuck_extra s roundId nowSec);
                log ("⚠ Stuck round #" +:+ pretty roundId +:+ ": status=" +:+ statusName status +:+
                     " age=" +:+ pretty ageSec +:+ "s (threshold=" +:+ pretty threshold +:+ "s)" +:+
                     extra)
        end
  end.

(** [due == null || now() >= due]: no clock reading without a due time. *)
Definition allowCleanupNow (roundId : Z) : M bool :=
  due ← gets (fun s => cleanupNextAttemptAt s !! roundId);
  match due with
  | None => mret true
  | Some due => t ← now; mret (due <=? t)
  end.

Definition trackBackgroundRound (roundId : Z) : M unit :=
  due ← gets (fun s => cleanupNextAttemptAt s !! roundId);
  match due with
  | Some _ => modify (track_at C 0 roundId)
  | None => t ← now; modify (track_at C t roundId)
  end.

Definition scheduleCleanupRetryOutcome (roundId : Z) (outcome : CleanupRetryOutcome) : M bool :=
  t ← now;
  s ← gets (fun s => s);
  match planCleanupRetryScheduleForOutcome t outcome
          (CLEANUP_BACKOFF_MIN_SEC C) (CLEANUP_BACKOFF_MAX_SEC C)
          (Some (default (CLEANUP_BACKOFF_MIN_SEC C) (cleanupBackoffSec s !! roundId)))
          (Some (default 0 (cleanupRetryCount s !! roundId))) with
  | None => mret false
  | Some update =>
      modify (apply_retry roundId update) ;;
      log ("↻ Round #" +:+ pretty roundId +:+ " cleanup retry in " +:+
           pretty (nextDelaySec update) +:+ "s (" +:+ lastReason update +:+ ")") ;;
      mret true
  end.

(** The counters of the health line. *)
Record Health := mkHealth {
  byStatus : gmap Z Z;
  dueCleanup : Z;
  blockedRefundParticipants : Z;
  roundsWaitingRefund : Z;
  maxCleanupRetry : Z
}.

Definition health_round (h : Health) (roundId : Z) : M Health :=
  obs ← gets (fun s => roundObservedState s !! roundId);
  let byStatus :=
    match obs with
    | Some obs =>
        <[o_status obs := default 0 (byStatus h !! o_status obs) + 1]> (byStatus h)
    | None => byStatus h
    end in
  allowed ← allowCleanupNow roundId;
  let dueCleanup := if (allowed : bool) then dueCleanup h + 1 else dueCleanup h in
  retries ← gets (fun s => default 0 (cleanupRetryCount s !! roundId));
  let maxCleanupRetry :=
    if maxCleanupRetry h <? retries then retries else maxCleanupRetry h in
  st ← gets (fun s => fst <$> cleanupLastStats s !! roundId);
  match st with
  | Some st =>
      if 0 <? blockedByRefund st then
        mret (mkHealth byStatus dueCleanup (blockedRefundParticipants h + blockedByRefund st)
                (roundsWaitingRefund h + 1) maxCleanupRetry)
      else mret (mkHealth byStatus dueCleanup (blockedRefundParticipants h)
                   (roundsWaitingRefund h) maxCleanupRetry)
  | None => mret (mkHealth byStatus dueCleanup (blockedRefundParticipants h)
                    (roundsWaitingRefund h) maxCleanupRetry)
  end.

Definition maybeLogHealthSnapshot : M unit :=
  if HEALTH_LOG_INTERVAL_SEC C <=? 0 then mret tt
  else
    t ← now;
    last ← gets lastHealthLogAt;
    if t - last <? HEALTH_LOG_INTERVAL_SEC C then mret tt
    else
      modify (set_lastHealthLogAt t) ;;
      bg ← gets backgroundRounds;
      h ← for_acc bg health_round (mkHealth ∅ 0 0 0 0);
      cur ← gets currentRoundId;
      currentObs ← gets (fun s => roundObservedState s !! cur);
      let currentState :=
        match currentObs with
        | None => "#" +:+ pretty cur +:+ ":unknown"
        | Some o => "#" +:+ pretty cur +:+ ":" +:+ statusName (o_status o) +:+
                    " age=" +:+ pretty (t - o_sinceTs o) +:+ "s"
        end in
      log ("HEALTH current=" +:+ currentState +:+ " bg=" +:+
           pretty (Z.of_nat (length bg)) +:+ " due_cleanup=" +:+ pretty (dueCleanup h) +:+
           " settled=" +:+ pretty (default 0 (byStatus h !! RoundStatus.Settled)) +:+
           " claimed=" +:+ pretty (default 0 (byStatus h !! RoundStatus.Claimed)) +:+
           " cancelled=" +:+ pretty (default 0 (byStatus h !! RoundStatus.Cancelled)) +:+
           " waiting_refund_rounds=" +:+ pretty (roundsWaitingRefund h) +:+
           " blocked_refund_participants=" +:+ pretty (blockedRefundParticipants h) +:+
           " max_cleanup_retry=" +:+ pretty (maxCleanupRetry h)).

(** ** Start-up *)

(** The id [archivedMax] stands for in the scan: [None] is NaN.  A database key that
    reads as [Infinity] makes the first batch's addresses throw. *)
Definition archived_id (x : num) : Res (option Z) :=
  match x with
  | S754_nan => Ok None
  | S754_infinity false => Throw (mkError "Error" "Assertion failed")
  | _ => Ok (Some (default 0 (num_floor x)))
  end.

Definition scan_entry_of (info : option AccountInfo) : ScanEntry :=
  match info with
  | None => missing
  | Some info =>
      match Crank.parseRound (ai_data info) with
      | Ok parsed => round (Crank.status parsed)
      | Throw _ => invalid
      end
  end.

Definition fetchBatch (ids : list Z) : M (list ScanEntry) :=
  pdas ← lift (res_mapM (getRoundPda A) ids);
  infos ← getMultipleAccountsInfo pdas;
  mret (scan_entry_of <$> infos).

(** The scan's arguments for an archived id. *)
Definition active_scan_args (archived : option Z) : ActiveRoundScanArgs :=
  mkScanArgs
    (match archived with Some m => if 0 <? m then Z.max 1 (m - 2) else 1 | None => 1 end)
    archived 200 20 20.

(** [200 / 20 + 1] batches and the final test of the loop. *)
Definition SCAN_FUEL : nat := 12.

Definition findActiveRound : M (option (option Z)) :=
  archivedMax ← try_catch (getMaxArchivedRoundId dbUrl) (fun _ => mret (S754_zero false));
  archived ← lift (archived_id archivedMax);
  scanForActiveRound (active_scan_args archived) fetchBatch SCAN_FUEL.

(** One account of the backfill; the counters are (settled, claimed, cancelled). *)
Definition recover_one (acc : Z * Z * Z) (entry : Z * option AccountInfo) : M (Z * Z * Z) :=
  let '(id, info) := entry in
  match info with
  | None => mret acc
  | Some info =>
      try_catch
        (rd ← lift (Crank.parseRound (ai_data info));
         observeRoundState id (Crank.status rd) ;;
         if (Crank.status rd =? RoundStatus.Settled) || is_terminal (Crank.status rd) then
           beforeSize ← gets (fun s => length (backgroundRounds s));
           trackBackgroundRound id ;;
           afterSize ← gets (fun s => length (backgroundRounds s));
           if negb (beforeSize <? afterSize)%nat then mret acc
           else
             let '(a, b, c) := acc in
             mret (if Crank.status rd =? RoundStatus.Settled then (a + 1, b, c)
                   else if Crank.status rd =? RoundStatus.Claimed then (a, b + 1, c)
                   else (a, b, c + 1))
         else mret acc)
        (fun _ => mret acc)
  end.

Definition recover_batch (last : Z) (acc : Z * Z * Z) (base : Z) : M (Z * Z * Z) :=
  let ids := seqZ base (Z.min 25 (last - base + 1)) in
  pdas ← lift (res_mapM (getRoundPda A) ids);
  infos ← getMultipleAccountsInfo pdas;
  for_acc (zip ids infos) recover_one acc.

Definition recoverBackgroundRoundsOnStartup (currentRoundId : Z) : M unit :=
  if currentRoundId <=? 1 then mret tt
  else
    let start := Z.max 1 (currentRoundId - STARTUP_BACKFILL_SCAN_ROUNDS C) in
    let last := currentRoundId in
    let bases := (fun k => start + 25 * k) <$> seqZ 0 ((last - start) / 25 + 1) in
    counts ← for_acc bases (recover_batch last) (0, 0, 0);
    let '(a, b, c) := counts in
    let totalRecovered := a + b + c in
    if 0 <? totalRecovered then
      log ("↺ Startup backfill recovered " +:+ pretty totalRecovered +:+
           " round(s) into background cleanup (settled=" +:+ pretty a +:+ ", claimed=" +:+
           pretty b +:+ ", cancelled=" +:+ pretty c +:+ ", scan=" +:+ pretty start +:+ "-" +:+
           pretty last +:+ ")")
    else mret tt.

(** The part of [main] that sets the state up; a NaN or unfinished scan is passed on. *)
Definition startup : M (option (option Z)) :=
  found ← findActiveRound;
  match found with
  | Some (Some id) =>
      modify (set_currentRoundId id) ;;
      recoverBackgroundRoundsOnStartup id ;;
      mret (Some (Some id))
  | other => mret other
  end.

(** ** Actions *)

(** [sig.slice(0, 16)] *)
Definition short (sig : string) : string := String.substring 0 16 sig.

Definition handleStartRound (roundId : Z) : M bool :=
  created ← gets lastCreatedRound;
  if roundId <=? created then mret false
  else
    pda ← lift (getRoundPda A roundId);
    info ← getAccountInfo pda;
    match info with
    | Some _ => modify (set_lastCreatedRound roundId) ;; mret false
    | None =>
        try_catch
          (log ("Creating round #" +:+ pretty roundId +:+ "...") ;;
           ix ← lift (CrankIx.buildStartRound A payer roundId);
           sig ← signAndSend env [ix] payer false;
           modify (set_lastCreatedRound roundId) ;;
           log ("✓ Round #" +:+ pretty roundId +:+ " created (" +:+ short sig +:+ "...)") ;;
           mret true)
          (fun e =>
             check ← fetchRound roundId;
             match check with
             | Some _ =>
                 modify (set_lastCreatedRound roundId) ;;
                 log ("Round #" +:+ pretty roundId +:+ " already exists (created externally)") ;;
                 mret false
             | None =>
                 log ("✗ Create round #" +:+ pretty roundId +:+ " failed: " +:+ err_message e) ;;
                 mret false
             end)
    end.

(** Leaving the current round behind: [why] is the word of the log line. *)
Definition skip_round (roundId : Z) (why : string) : M bool :=
  modify (set_lastLockedRound roundId) ;;
  trackBackgroundRound roundId ;;
  prevRound ← gets currentRoundId;
  modify (set_currentRoundId (prevRound + 1)) ;;
  modify (set_lastLockedRound 0) ;;
  log ("→ Round #" +:+ pretty prevRound +:+ " " +:+ why +:+ " — advanced to round #" +:+
       pretty (prevRound + 1)) ;;
  mret true.

(** The handler of a failed lock transaction. *)
Definition lock_failed (roundId : Z) (e : JsError) : M bool :=
  log ("✗ Lock+VRF round #" +:+ pretty roundId +:+ " failed: " +:+ err_message e) ;;
  if isMinRequirementsErrorMessage (err_message e) then
    log ("⚠ Round #" +:+ pretty roundId +:+ " doesn't meet min requirements — advancing") ;;
    skip_round roundId "insufficient"
  else
    try_catch
      (retry ← fetchRound roundId;
       match retry with
       | Some retry =>
           if negb (Crank.status retry =? RoundStatus.Open)
           then modify (set_lastLockedRound roundId) else mret tt
       | None => mret tt
       end)
      (fun _ => mret tt) ;;
    mret false.

Definition handleLockAndVrf (roundId : Z) (rd : Crank.RoundData) : M bool :=
  locked ← gets lastLockedRound;
  if locked =? roundId then mret false
  else
    let endTs := round53 (Crank.endTs rd) in
    if endTs =? 0 then mret false
    else
      t ← now;
      if t <? num_add endTs (LOCK_BUFFER_SEC C) then mret false
      else
        fresh ← fetchRound roundId;
        match fresh with
        | None => mret false
        | Some fresh =>
            if negb (Crank.status fresh =? RoundStatus.Open) then mret false
            else if (Crank.participantsCount fresh <? 1) || (Crank.totalTickets fresh =? 0) then
              log ("⚠ Round #" +:+ pretty roundId +:+
                   " timer expired with 0 deposits — skipping lock, advancing") ;;
              skip_round roundId "empty"
            else
              try_catch
                (log ("Locking round #" +:+ pretty roundId +:+ " + requesting VRF...") ;;
                 lockIx ← lift (CrankIx.buildLockRound A payer roundId);
                 vrfIx ← lift (CrankIx.buildRequestVrf A payer roundId);
                 sig ← signAndSend env [lockIx; vrfIx] payer false;
                 modify (set_lastLockedRound roundId) ;;
                 t' ← now;
                 modify (set_lastVrfSentAt t') ;;
                 log ("✓ Round #" +:+ pretty roundId +:+ " locked + VRF requested (" +:+
                      short sig +:+ "...)") ;;
                 mret true)
                (lock_failed roundId)
        end.

Definition handleRequestVrf (roundId : Z) : M bool :=
  fresh ← fetchRound roundId;
  match fresh with
  | None => mret false
  | Some fresh =>
      if negb (Crank.status fresh =? RoundStatus.Locked) then mret false
      else
        t ← now;
        last ← gets lastVrfSentAt;
        let elapsed := t - last in
        if elapsed <? VRF_COOLDOWN_SEC C then mret false
        else
          try_catch
            (log ("Requesting VRF for round #" +:+ pretty roundId +:+ " (standalone, " +:+
                  pretty elapsed +:+ "s since last VRF)...") ;;
             ix ← lift (CrankIx.buildRequestVrf A payer roundId);
             sig ← signAndSend env [ix] payer false;
             t' ← now;
             modify (set_lastVrfSentAt t') ;;
             log ("✓ VRF requested for round #" +:+ pretty roundId +:+ " (" +:+ short sig +:+
                  "...)") ;;
             mret true)
            (fun e =>
               log ("✗ Request VRF round #" +:+ pretty roundId +:+ " failed: " +:+
                    err_message e) ;;
               mret false)
  end.

(** ** Participant accounts *)

(** What the first pass makes of one account. *)
Inductive Verdict := Absent | Blocked | Closable | Unreadable.

Definition classify (roundStatus : Z) (info : option AccountInfo) : Verdict :=
  match info with
  | None => Absent
  | Some info =>
      match Crank.parseParticipant (ai_data info) with
      | Throw _ => Unreadable
      | Ok p =>
          if (roundStatus =? RoundStatus.Cancelled) &&
             ((0 <? Crank.p_usdcTotal p) || (0 <? Crank.p_ticketsTotal p))
          then Blocked else Closable
      end
  end.

(** The statistics and the closable users so far. *)
Definition account_pass (roundStatus : Z) (acc : ParticipantCleanupStats * list PublicKey)
    (entry : PublicKey * option AccountInfo) : ParticipantCleanupStats * list PublicKey :=
  let '(st, users) := acc in
  match classify roundStatus (snd entry) with
  | Absent => acc
  | Blocked =>
      (mkStats (existing st + 1) (closable st) (closed st) (blockedByRefund st + 1) (errors st),
       users)
  | Closable =>
      (mkStats (existing st + 1) (closable st + 1) (closed st) (blockedByRefund st) (errors st),
       users ++ [fst entry])
  | Unreadable =>
      (mkStats (existing st + 1) (closable st) (closed st) (blockedByRefund st) (errors st + 1),
       users)
  end.

(** [l.slice(i, i + n)] for [i = 0, n, 2n, ...] *)
Fixpoint chunks (fuel : nat) {X} (n : nat) (l : list X) : list (list X) :=
  match fuel, l with
  | O, _ | _, [] => []
  | S fuel, _ => take n l :: chunks fuel n (drop n l)
  end.

(** [l.slice(0, n)]: a negative [n] counts from the end. *)
Definition slice_to {X} (n : Z) (l : list X) : list X :=
  if n <? 0 then take (length l - Z.to_nat (- n)) l else take (Z.to_nat n) l.

Definition CHUNK : nat := 50.

(** One chunk of the first pass; the answer has one entry per key. *)
Definition scan_chunk (roundPda : PublicKey) (roundStatus : Z)
    (acc : ParticipantCleanupStats * list PublicKey) (users : list PublicKey)
    : M (ParticipantCleanupStats * list PublicKey) :=
  infos ← getMultipleAccountsInfo (getParticipantPda A roundPda <$> users);
  mret (foldl (account_pass roundStatus) acc (zip users infos)).

(** One close of the second pass. *)
Definition close_user (roundId : Z) (st : ParticipantCleanupStats) (user : PublicKey)
    : M ParticipantCleanupStats :=
  try_catch
    (ix ← lift (CrankIx.buildCloseParticipant A payer user roundId);
     sig ← signAndSend env [ix] payer true;
     log ("✓ Participant PDA closed (round #" +:+ pretty roundId +:+ ", user " +:+
          String.substring 0 6 (toBase58 user) +:+ "...): " +:+ short sig +:+ "...") ;;
     mret (mkStats (existing st) (closable st) (closed st + 1) (blockedByRefund st) (errors st)))
    (fun e =>
       log ("✗ Close participant failed (round #" +:+ pretty roundId +:+ ", user " +:+
            String.substring 0 6 (toBase58 user) +:+ "...): " +:+ err_message e) ;;
       mret (mkStats (existing st) (closable st) (closed st) (blockedByRefund st)
               (errors st + 1))).

Definition cleanupParticipantPdas (roundId : Z) (rd : Crank.RoundData)
    : M ParticipantCleanupStats :=
  roundPda ← lift (getRoundPda A roundId);
  let users := Crank.participants rd in
  let stats := mkStats 0 0 0 0 0 in
  if (length users =? 0)%nat then mret stats
  else
    scanned ← for_acc (chunks (length users) CHUNK users)
                (scan_chunk roundPda (Crank.status rd)) (stats, []);
    let '(stats, closableUsers) := scanned in
    let toClose := slice_to (PARTICIPANT_CLEANUP_BATCH C) closableUsers in
    stats ← for_acc toClose (close_user roundId) stats;
    t ← now;
    modify (upd_cleanupLastStats <[roundId := (stats, t)]>) ;;
    mret stats.

(** ** Finished rounds *)

(** The archive step: once per round, failures are logged only. *)
Definition archive_round (roundId : Z) (rd : Crank.RoundData) : M unit :=
  done ← gets (fun s => set_has (archivedRounds s) roundId);
  if (done : bool) then mret tt
  else
    try_catch
      (histRound ← buildHistoryRound A rd roundId;
       archived ← saveRoundToFirebase dbUrl histRound;
       if (archived : bool) then
         modify (upd_archivedRounds (fun l => set_add l roundId)) ;;
         log ("📦 Round #" +:+ pretty roundId +:+ " archived to Firebase")
       else mret tt)
      (fun e =>
         log ("⚠ Firebase archive round #" +:+ pretty roundId +:+ " failed: " +:+ err_message e)).

Definition handleTerminalRoundCleanup (roundId : Z) (rd : Crank.RoundData) : M bool :=
  allowed ← allowCleanupNow roundId;
  if negb allowed then mret false
  else
    archive_round roundId rd ;;
    stats ← cleanupParticipantPdas roundId rd;
    pending ← scheduleCleanupRetryOutcome roundId
      (participants_pending (mkRetryInput (existing stats) (closed stats) (blockedByRefund stats)));
    if (pending : bool) then mret false
    else
      fresh ← fetchRound roundId;
      match fresh with
      | None => modify (clearBackgroundRound roundId) ;; mret true
      | Some fresh =>
          if negb (Crank.status fresh =? RoundStatus.Claimed) &&
             negb (Crank.status fresh =? RoundStatus.Cancelled) then
            _ ← scheduleCleanupRetryOutcome roundId (left_terminal_state (Crank.status fresh));
            mret false
          else
            try_catch
              (log ("Closing round #" +:+ pretty roundId +:+ "...") ;;
               ix ← lift (CrankIx.buildCloseRound A payer payer roundId);
               sig ← signAndSend env [ix] payer true;
               modify (clearBackgroundRound roundId) ;;
               log ("✓ Round #" +:+ pretty roundId +:+ " closed (" +:+ short sig +:+ "...)") ;;
               mret true)
              (fun e =>
                 _ ← scheduleCleanupRetryOutcome roundId (close_round_failed (err_message e));
                 mret false)
      end.

(** ** The background loop and the polling step *)

Definition process_background_round (roundId : Z) : M unit :=
  try_catch
    (rd ← fetchRound roundId;
     match rd with
     | None => modify (clearBackgroundRound roundId)
     | Some rd =>
         observeRoundState roundId (Crank.status rd) ;;
         maybeWarnStuckRound roundId (Crank.status rd) ;;
         if (Crank.status rd =? RoundStatus.Claimed) || (Crank.status rd =? RoundStatus.Cancelled)
         then _ ← handleTerminalRoundCleanup roundId rd; mret tt
         else mret tt
     end)
    (fun e =>
       log ("✗ Background processing round #" +:+ pretty roundId +:+ " failed: " +:+
            err_message e) ;;
       _ ← scheduleCleanupRetryOutcome roundId (background_error (err_message e));
       mret tt).

Definition processBackgroundRounds : M unit :=
  rounds ← gets backgroundRounds;
  for_each rounds process_background_round.

(** Moving on from a settled or finished round. *)
Definition advance (cur : Z) (done rest : string) : M unit :=
  trackBackgroundRound cur ;;
  prevRound ← gets currentRoundId;
  modify (set_currentRoundId (prevRound + 1)) ;;
  modify (set_lastLockedRound 0) ;;
  modify (set_lastVrfSentAt 0) ;;
  log ("→ Round #" +:+ pretty prevRound +:+ " " +:+ done +:+ " — advanced to round #" +:+
       pretty (prevRound + 1) +:+ " (" +:+ rest +:+ ")") ;;
  maybeLogHealthSnapshot.

(** [void publishRoundSettled({...})]: started, not awaited. *)
Definition publish (cur : Z) (rd : Crank.RoundData) : M unit :=
  if isTapestryEnabled C then
    emit (EvPublish cur (toBase58 (Crank.winner rd)) (usdc_of_raw (Crank.totalUsdc rd))
            (toBase58 <$> Crank.participants rd))
  else mret tt.

(** The dispatch on the current round's status. *)
Definition handle_current (cur : Z) (rd : Crank.RoundData) : M unit :=
  let status := Crank.status rd in
  if status =? RoundStatus.Open then
    maybeLogHealthSnapshot ;; _ ← handleLockAndVrf cur rd; mret tt
  else if status =? RoundStatus.Locked then
    maybeLogHealthSnapshot ;; _ ← handleRequestVrf cur; mret tt
  else if status =? RoundStatus.VrfRequested then maybeLogHealthSnapshot
  else if status =? RoundStatus.Settled then
    publish cur rd ;; advance cur "settled" "claim/cleanup in background"
  else if (status =? RoundStatus.Claimed) || (status =? RoundStatus.Cancelled) then
    advance cur "done" "cleanup in background"
  else maybeLogHealthSnapshot.

Definition tick : M unit :=
  try_catch
    (bg ← gets backgroundRounds;
     (if (0 <? length bg)%nat then processBackgroundRounds else mret tt) ;;
     cur ← gets currentRoundId;
     rd ← fetchRound cur;
     match rd with
     | None => maybeLogHealthSnapshot ;; _ ← handleStartRound cur; mret tt
     | Some rd =>
         observeRoundState cur (Crank.status rd) ;;
         maybeWarnStuckRound cur (Crank.status rd) ;;
         handle_current cur rd
     end)
    (fun e => log ("✗ Tick error: " +:+ err_message e) ;; maybeLogHealthSnapshot).
End service.
