(* ===== verification/CrankFrames.v ===== *)
(** * CrankFrames: what the crank's helpers leave alone

    The reading helpers of the crank (the clock, the round fetch, observation,
    warnings, the health line, the archive) change only bookkeeping variables and
    send no transaction.  [quiet] states that once; the rules here let the proofs
    about the handlers step over the helpers. *)

From stdpp Require Import base list gmap strings pretty.
From Stdlib Require Import ZArith Lia SpecFloat.
From S2P Require Import Prelude Buffers Accounts JsRuntime RuntimeLogic Effects ActiveRoundScan Solana Instructions Firebase CrankService.

Local Open Scope string_scope.
Local Open Scope list_scope.
Local Open Scope Z_scope.
Set Warnings "-clear-no-such-hyp".

(** The variables that decide what the crank does: everything but the observation
    maps and the time of the last health line. *)
Record same_core (s s' : CrankState) : Prop := {
  sc_current : currentRoundId s' = currentRoundId s;
  sc_locked : lastLockedRound s' = lastLockedRound s;
  sc_created : lastCreatedRound s' = lastCreatedRound s;
  sc_bg : backgroundRounds s' = backgroundRounds s;
  sc_archived : archivedRounds s' = archivedRounds s;
  sc_next : cleanupNextAttemptAt s' = cleanupNextAttemptAt s;
  sc_backoff : cleanupBackoffSec s' = cleanupBackoffSec s;
  sc_retry : cleanupRetryCount s' = cleanupRetryCount s;
  sc_reason : cleanupLastReason s' = cleanupLastReason s;
  sc_stats : cleanupLastStats s' = cleanupLastStats s;
  sc_vrf : lastVrfSentAt s' = lastVrfSentAt s
}.

#[export] Instance same_core_refl : Reflexive same_core.
Proof. by intros s. Qed.

#[export] Instance same_core_trans : Transitive same_core.
Proof. intros s1 s2 s3 [] []. split; congruence. Qed.

Lemma same_core_upd_observed f g s : same_core s (upd_observed f g s).
Proof. by split. Qed.

Lemma same_core_observe t r st s : same_core s (observe_at t r st s).
Proof. unfold observe_at. by repeat case_match. Qed.

Lemma same_core_health t s : same_core s (set_lastHealthLogAt t s).
Proof. by split. Qed.

Hint Resolve same_core_upd_observed same_core_observe same_core_health : crank.

Section frames.
Context `{SolanaLibs} `{!Services}.
Context (A : Addresses) (env : string -> option string) (dbUrl : option string).
Context (C : CrankConfig) (payer : PublicKey).
Local Abbreviation Proc := (Proc CrankState World Event).

(** No transaction was sent and the deciding variables did not change. *)
Definition quiet (p p' : Proc) : Prop :=
  same_core (local p) (local p') /\
  exists evs, history p' = evs ++ history p /\ Forall (fun ev => ~ is_send ev) evs.

#[export] Instance quiet_refl : Reflexive quiet.
Proof. intros p. split; [done|]. by exists []. Qed.

#[export] Instance quiet_trans : Transitive quiet.
Proof.
  intros p q r [E1 (l1 & Hh1 & F1)] [E2 (l2 & Hh2 & F2)]. split; [by etrans|].
  exists (l2 ++ l1). rewrite Hh2, Hh1, app_assoc. split; [done|]. by apply Forall_app.
Qed.

Lemma quiet_event p w ev : ~ is_send ev -> quiet p (mkProc (local p) w (ev :: history p)).
Proof. intros. split; [done|]. exists [ev]. split; [done|]. by constructor. Qed.

Lemma quiet_local p s : same_core (local p) s -> quiet p (set_local p s).
Proof. intros. split; [done|]. by exists []. Qed.

Lemma quiet_only_adds p p' : only_adds (fun ev => ~ is_send ev) p p' -> quiet p p'.
Proof. intros [E Hh]. split; [by rewrite E|done]. Qed.

(** A computation that is quiet and returns. *)
Definition quiet_run {X} (m : M CrankState World Event X) : Prop :=
  forall p, wp m (fun r p' => quiet p p' /\ exists a, r = Ok a) p.

Lemma quiet_run_bind {X Y} (m : M CrankState World Event X) (f : X -> M CrankState World Event Y) :
  quiet_run m -> (forall a, quiet_run (f a)) -> quiet_run (mbind f m).
Proof.
  intros Hm Hf p. apply wp_bind. eapply wp_mono; [apply Hm|]. intros r q [Hq [a ->]].
  eapply wp_mono; [apply Hf|]. intros r q' [Hq' Ha]. split; [by etrans|done].
Qed.

Lemma quiet_run_ret {X} (a : X) : quiet_run (mret a).
Proof. intros p. apply wp_ret. split; [done|by eexists]. Qed.

Lemma quiet_run_gets {X} (f : CrankState -> X) : quiet_run (gets f).
Proof. intros p. apply wp_gets. split; [done|by eexists]. Qed.

Lemma quiet_run_modify f : (forall s, same_core s (f s)) -> quiet_run (modify f).
Proof. intros Hf p. apply wp_modify. split; [by apply quiet_local|by eexists]. Qed.

Lemma quiet_run_log msg : quiet_run (log msg).
Proof. intros p. svc_step. split; [by apply quiet_event; intros []|by eexists]. Qed.

Lemma quiet_run_now : quiet_run now.
Proof.
  intros p. unfold now. svc_step. svc_step. svc_step.
  split; [by apply quiet_event; intros []|by eexists].
Qed.

Lemma quiet_run_for_acc {X Y} (l : list X) (body : Y -> X -> M CrankState World Event Y) b :
  (forall b x, quiet_run (body b x)) -> quiet_run (for_acc l body b).
Proof.
  intros Hb. revert b. induction l as [|x l IH]; intros b; cbn [for_acc].
  - apply quiet_run_ret.
  - apply quiet_run_bind; [apply Hb|]. intros b'. apply IH.
Qed.

Hint Resolve quiet_run_ret quiet_run_gets quiet_run_log quiet_run_now : crank.

(** Steps through a computation made of quiet parts. *)
Ltac quiet_steps :=
  repeat first
    [ solve [auto with crank]
    | apply quiet_run_modify; intros ?; solve [auto with crank]
    | apply quiet_run_bind; [|intros ?]
    | case_match ].

Lemma observeRoundState_quiet r st : quiet_run (observeRoundState r st).
Proof. unfold observeRoundState. quiet_steps. Qed.

Lemma maybeWarnStuckRound_quiet r st : quiet_run (maybeWarnStuckRound C r st).
Proof. unfold maybeWarnStuckRound. quiet_steps. Qed.

Lemma allowCleanupNow_quiet r : quiet_run (allowCleanupNow r).
Proof. unfold allowCleanupNow. quiet_steps. Qed.

Lemma maybeLogHealthSnapshot_quiet : quiet_run (maybeLogHealthSnapshot C).
Proof.
  unfold maybeLogHealthSnapshot. quiet_steps.
  apply quiet_run_for_acc. intros b x. unfold health_round.
  pose proof (allowCleanupNow_quiet x). quiet_steps.
Qed.

(** The health line may follow anything. *)
Lemma wp_health Q p :
  (forall p', quiet p p' -> Q (Ok tt) p') -> wp (maybeLogHealthSnapshot C) Q p.
Proof.
  intros HQ. eapply wp_mono; [apply maybeLogHealthSnapshot_quiet|].
  intros r p' [Hp' [[] ->]]. auto.
Qed.

(** Stepping over a quiet computation whose value does not matter. *)
Lemma wp_quiet {X} (m : M CrankState World Event X) Q p :
  quiet_run m -> (forall a p', quiet p p' -> Q (Ok a) p') -> wp m Q p.
Proof. intros Hm HQ. eapply wp_mono; [apply Hm|]. intros r p' [Hp' [a ->]]. auto. Qed.

(** ** Rules for the calls whose answers matter *)

Lemma wp_now Q p :
  (forall ms w, Q (Ok (ms / 1000)) (mkProc (local p) w (EvNow ms :: history p))) ->
  wp now Q p.
Proof. intros HQ. unfold now. svc_step. svc_step. svc_step. apply HQ. Qed.

(** The outcomes of a round fetch: an address that does not exist, an error, no
    account, data that does not parse, a round. *)
Lemma wp_fetchRound r Q p :
  (forall e, getRoundPda A r = Throw e -> Q (Throw e) p) ->
  (forall pda e w, getRoundPda A r = Ok pda ->
     Q (Throw e) (mkProc (local p) w (EvAccount pda (Throw e) :: history p))) ->
  (forall pda w, getRoundPda A r = Ok pda ->
     Q (Ok None) (mkProc (local p) w (EvAccount pda (Ok None) :: history p))) ->
  (forall pda info e w, getRoundPda A r = Ok pda -> Crank.parseRound (ai_data info) = Throw e ->
     Q (Throw e) (mkProc (local p) w (EvAccount pda (Ok (Some info)) :: history p))) ->
  (forall pda info rd w, getRoundPda A r = Ok pda -> Crank.parseRound (ai_data info) = Ok rd ->
     Q (Ok (Some rd)) (mkProc (local p) w (EvAccount pda (Ok (Some info)) :: history p))) ->
  wp (fetchRound A r) Q p.
Proof.
  intros Hq1 Hq2 Hq3 Hq4 Hq5. unfold fetchRound. svc_step. svc_step.
  destruct (getRoundPda A r) as [pda|e]; [|auto]. svc_step. svc_step.
  destruct r0 as [[info|]|e]; [| |auto].
  - svc_step. svc_step. destruct (Crank.parseRound (ai_data info)) eqn:E; [|eauto].
    svc_step. eauto.
  - svc_step. auto.
Qed.

(** A transaction is sent, or its blockhash could not be had. *)
Lemma wp_signAndSend {X} ixs skip (k : string -> M CrankState World Event X) Q p :
  (forall e w, Q (Throw e) (mkProc (local p) w (EvBlockhash (Throw e) :: history p))) ->
  (forall bh e w, Q (Throw e) (mkProc (local p) w
     (EvSend (mkTx (crank_tx_instructions env ixs) payer bh) skip (Throw e)
        :: EvBlockhash (Ok bh) :: history p))) ->
  (forall bh sig w, wp (k sig) Q (mkProc (local p) w
     (EvSend (mkTx (crank_tx_instructions env ixs) payer bh) skip (Ok sig)
        :: EvBlockhash (Ok bh) :: history p))) ->
  wp (mbind k (signAndSend env ixs payer skip)) Q p.
Proof.
  intros Hq1 Hq2 Hq3. unfold signAndSend. svc_step. svc_step. svc_step.
  destruct r as [bh|e]; [|auto]. svc_step. destruct r as [sig|e]; simpl; auto.
Qed.
End frames.
