(* ===== verification/CrankSafety.v ===== *)
(** * CrankSafety: why each transaction was sent

    [safe_history]: every transaction the crank has sent was authorised by what it
    had observed before.  The rules of [authorised] are the crank's contract, one per
    kind of transaction; the lemmas show that each handler only sends authorised
    transactions, the participants' pass first. *)

From stdpp Require Import base list gmap strings pretty.
From Stdlib Require Import ZArith Lia SpecFloat.
From S2P Require Import Prelude Buffers Accounts JsRuntime RuntimeLogic Effects ActiveRoundScan Solana Instructions Firebase CrankService CrankFrames.

Local Open Scope string_scope.
Local Open Scope list_scope.
Local Open Scope Z_scope.
Set Warnings "-clear-no-such-hyp".

Section contract.
Context `{SolanaLibs} `{!Services}.
Context (A : Addresses) (env : string -> option string).
Context (C : CrankConfig) (payer : PublicKey).

(** ** Observations *)

(** The newest answer about an account (histories are newest first). *)
Fixpoint last_account (h : list Event) (pda : PublicKey) : option (Res (option AccountInfo)) :=
  match h with
  | [] => None
  | EvAccount k r :: h => if bool_decide (k = pda) then Some r else last_account h pda
  | _ :: h => last_account h pda
  end.

(** The newest answer about round [r] is the round [rd]. *)
Definition last_round (h : list Event) (r : Z) (rd : Crank.RoundData) : Prop :=
  exists pda info, getRoundPda A r = Ok pda /\
    last_account h pda = Some (Ok (Some info)) /\ Crank.parseRound (ai_data info) = Ok rd.

(** Round [r] was seen as [rd] at some point. *)
Definition seen_round (h : list Event) (r : Z) (rd : Crank.RoundData) : Prop :=
  exists pda info, getRoundPda A r = Ok pda /\
    EvAccount pda (Ok (Some info)) ∈ h /\ Crank.parseRound (ai_data info) = Ok rd.

(** [base] starts with the answer that round [r] is [rd], a finished round. *)
Definition terminal_fetch (r : Z) (rd : Crank.RoundData) (base : list Event) : Prop :=
  exists pda info h0, base = EvAccount pda (Ok (Some info)) :: h0 /\
    getRoundPda A r = Ok pda /\ Crank.parseRound (ai_data info) = Ok rd /\
    is_terminal (Crank.status rd) = true.

(** An answer about the participant account of [u] in round [r]. *)
Definition seen_participant (evs : list Event) (r : Z) (u : PublicKey)
    (info : option AccountInfo) : Prop :=
  exists roundPda ks infos, getRoundPda A r = Ok roundPda /\
    EvAccounts ks (Ok infos) ∈ evs /\ (getParticipantPda A roundPda u, info) ∈ zip ks infos.

(** The participant account of [u] does not exist any more: it was seen absent, or a
    transaction that closes it was confirmed. *)
Definition gone (evs : list Event) (r : Z) (u : PublicKey) : Prop :=
  seen_participant evs r u None \/
  exists ix bh sig, CrankIx.buildCloseParticipant A payer u r = Ok ix /\
    EvSend (mkTx (crank_tx_instructions env [ix]) payer bh) true (Ok sig) ∈ evs.

(** The node answers a batch with one entry per key, as documented. *)
Definition well_answered (evs : list Event) : Prop :=
  forall ks infos, EvAccounts ks (Ok infos) ∈ evs -> length infos = length ks.

(** ** The contract *)

(** The participant account can be read and, in a cancelled round, holds neither
    funds nor tickets. *)
Definition nothing_owed (status : Z) (info : AccountInfo) : Prop :=
  exists part, Crank.parseParticipant (ai_data info) = Ok part /\
    (status = RoundStatus.Cancelled -> Crank.p_usdcTotal part <= 0 /\ Crank.p_ticketsTotal part <= 0).

Lemma closable_nothing_owed status info :
  classify status (Some info) = Closable -> nothing_owed status info.
Proof.
  unfold classify, nothing_owed. destruct (Crank.parseParticipant (ai_data info)) as [part|]; [|done].
  destruct ((status =? _) && _) eqn:E; [done|]. intros _. exists part. split; [done|].
  intros ->. apply andb_false_iff in E as [E|E]; [by rewrite Z.eqb_refl in E|].
  apply orb_false_iff in E as [?%Z.ltb_ge ?%Z.ltb_ge]. done.
Qed.

Inductive authorised (h : list Event) : list TransactionInstruction -> Prop :=
(** a round is created only after its account was seen not to exist *)
| auth_start r pda ix :
    CrankIx.buildStartRound A payer r = Ok ix ->
    getRoundPda A r = Ok pda -> last_account h pda = Some (Ok None) ->
    authorised h [ix]
(** a round is locked, with its VRF request, only when it was just seen open with
    deposits, and a clock reading was past its end plus the buffer *)
| auth_lock r lockIx vrfIx fresh rd ms :
    CrankIx.buildLockRound A payer r = Ok lockIx ->
    CrankIx.buildRequestVrf A payer r = Ok vrfIx ->
    last_round h r fresh -> Crank.status fresh = RoundStatus.Open ->
    1 <= Crank.participantsCount fresh -> Crank.totalTickets fresh <> 0 ->
    seen_round h r rd -> EvNow ms ∈ h -> round53 (Crank.endTs rd) <> 0 ->
    num_add (round53 (Crank.endTs rd)) (LOCK_BUFFER_SEC C) <= ms / 1000 ->
    authorised h [lockIx; vrfIx]
(** a lone VRF request goes only to a round just seen locked *)
| auth_vrf r ix fresh :
    CrankIx.buildRequestVrf A payer r = Ok ix ->
    last_round h r fresh -> Crank.status fresh = RoundStatus.Locked ->
    authorised h [ix]
(** a participant account is closed only in a finished round, after it was read and,
    if the round was cancelled, held neither funds nor tickets *)
| auth_close_participant r rd u info ix evs base :
    h = evs ++ base -> terminal_fetch r rd base -> u ∈ Crank.participants rd ->
    seen_participant evs r u (Some info) ->
    nothing_owed (Crank.status rd) info ->
    CrankIx.buildCloseParticipant A payer u r = Ok ix ->
    authorised h [ix]
(** a round is closed only when it was just seen finished and, since it was first
    read in this pass, every participant's account was seen to be gone *)
| auth_close_round r rd fresh ix evs base :
    h = evs ++ base -> terminal_fetch r rd base ->
    (well_answered evs -> forall u, u ∈ Crank.participants rd -> gone evs r u) ->
    last_round h r fresh -> is_terminal (Crank.status fresh) = true ->
    CrankIx.buildCloseRound A payer payer r = Ok ix ->
    authorised h [ix].

Fixpoint safe_history (h : list Event) : Prop :=
  match h with
  | [] => True
  | EvSend tx _ _ :: past =>
      (exists ixs, tx_instructions tx = crank_tx_instructions env ixs /\ feePayer tx = payer /\
         authorised past ixs) /\
      safe_history past
  | _ :: past => safe_history past
  end.

Lemma safe_app evs h :
  Forall (fun ev => ~ is_send ev) evs -> safe_history h -> safe_history (evs ++ h).
Proof.
  intros Hf Hs. induction Hf as [|ev evs Hev _ IH]; [done|]. cbn [app safe_history].
  by destruct ev; try (exfalso; by apply Hev).
Qed.

Lemma safe_send h ixs bh skip res :
  safe_history h -> authorised h ixs ->
  safe_history (EvSend (mkTx (crank_tx_instructions env ixs) payer bh) skip res :: h).
Proof. intros Hs Ha. split; [|done]. by exists ixs. Qed.

Lemma quiet_safe p p' : quiet p p' -> safe_history (history p) -> safe_history (history p').
Proof. intros [_ (evs & -> & Hf)] Hs. by apply safe_app. Qed.

(** Observations survive what comes after them. *)
Lemma seen_participant_app evs evs' r u info :
  seen_participant evs r u info -> seen_participant (evs' ++ evs) r u info.
Proof.
  intros (roundPda & ks & infos & Hr & He & Hz). exists roundPda, ks, infos.
  split_and!; try done. apply elem_of_app. by right.
Qed.

Lemma gone_app evs evs' r u : gone evs r u -> gone (evs' ++ evs) r u.
Proof.
  intros [Ha|(ix & bh & sig & Hb & He)]; [left; by apply seen_participant_app|right].
  exists ix, bh, sig. split; [done|]. apply elem_of_app. by right.
Qed.

Lemma well_answered_app evs evs' : well_answered (evs' ++ evs) -> well_answered evs.
Proof. intros Hw ks infos He. apply Hw, elem_of_app. by right. Qed.

(** ** The participants' pass: reading *)

(** How far the statistics exceed the users to close. *)
Definition deficit (acc : ParticipantCleanupStats * list PublicKey) : Z :=
  existing (fst acc) - Z.of_nat (length (snd acc)).

Lemma account_pass_spec st acc entry :
  let acc' := account_pass st acc entry in
  closed (fst acc') = closed (fst acc) /\
  deficit acc <= deficit acc' /\
  (forall u, u ∈ snd acc -> u ∈ snd acc') /\
  (forall u, u ∈ snd acc' -> u ∈ snd acc \/ (u = fst entry /\ classify st (snd entry) = Closable)) /\
  (deficit acc' <= deficit acc -> snd entry = None \/ fst entry ∈ snd acc').
Proof.
  destruct acc as [s us], entry as [u info]. unfold account_pass, deficit.
  destruct (classify st (snd (u, info))) eqn:E; cbn [fst snd existing closed] in *.
  - split_and!; try done; [naive_solver|]. intros _. left. unfold classify in E.
    repeat case_match; done.
  - split_and!; try done; [lia|naive_solver|lia].
  - rewrite length_app. simpl. split_and!; try done; [lia| | |].
    + intros v Hv. apply elem_of_app. by left.
    + intros v [Hv|Hv%list_elem_of_singleton]%elem_of_app; [by left|right]. by subst.
    + intros _. right. apply elem_of_app. right. by apply list_elem_of_singleton.
  - split_and!; try done; [lia|naive_solver|lia].
Qed.

Lemma account_passes_spec st acc entries :
  let acc' := foldl (account_pass st) acc entries in
  closed (fst acc') = closed (fst acc) /\
  deficit acc <= deficit acc' /\
  (forall u, u ∈ snd acc -> u ∈ snd acc') /\
  (forall u, u ∈ snd acc' -> u ∈ snd acc \/
     exists info, (u, info) ∈ entries /\ classify st info = Closable) /\
  (deficit acc' <= deficit acc -> forall u info, (u, info) ∈ entries -> info = None \/ u ∈ snd acc').
Proof.
  revert acc. induction entries as [|entry entries IH]; intros acc; cbn [foldl].
  { split_and!; try done; [auto|]. intros _ u info Hin. by apply not_elem_of_nil in Hin. }
  destruct (account_pass_spec st acc entry) as (Hc & Hd & Hk & Hn & He).
  destruct (IH (account_pass st acc entry)) as (Hc' & Hd' & Hk' & Hn' & He').
  cbn zeta in *. split_and!; [congruence|lia|auto| |].
  - intros u [Hu|(info & Hin & Hcl)]%Hn'.
    + apply Hn in Hu as [Hu|[-> Hcl]]; [by left|right]. exists (snd entry).
      split; [|done]. destruct entry. by left.
    + right. exists info. split; [by right|done].
  - intros Hle u info [Heq|Hin]%elem_of_cons.
    + subst entry. destruct He as [?|?]; [lia|by left|right]. by apply Hk'.
    + apply He'; [lia|done].
Qed.

Lemma zip_cover {X Y Z} (f : X -> Z) (us : list X) (infos : list Y) u :
  length infos = length us -> u ∈ us ->
  exists info, (u, info) ∈ zip us infos /\ (f u, info) ∈ zip (f <$> us) infos.
Proof.
  revert infos. induction us as [|v us IH]; intros [|i infos] Hl Hin; try done.
  { by apply not_elem_of_nil in Hin. }
  simpl in Hl. apply elem_of_cons in Hin as [->|Hin].
  - exists i. simpl. split; left.
  - destruct (IH infos) as (info & ? & ?); [lia|done|]. exists info. simpl. split; by right.
Qed.

Lemma zip_fmap_l {X Y Z} (f : X -> Z) (us : list X) (infos : list Y) u info :
  (u, info) ∈ zip us infos -> u ∈ us /\ (f u, info) ∈ zip (f <$> us) infos.
Proof.
  revert infos. induction us as [|v us IH]; intros [|i infos] Hin; simpl in *;
    try (by apply not_elem_of_nil in Hin).
  apply elem_of_cons in Hin as [[= -> ->]|Hin]; [split; left|].
  destruct (IH _ Hin). split; by right.
Qed.

Lemma concat_chunks {X} fuel n (l : list X) :
  (0 < n)%nat -> (length l <= fuel)%nat -> concat (chunks fuel n l) = l.
Proof.
  intros Hn. revert l. induction fuel as [|fuel IH]; intros l Hl.
  - destruct l; [done|simpl in Hl; lia].
  - destruct l as [|x l]; [done|]. cbn [chunks concat].
    rewrite IH; [apply take_drop|]. rewrite length_drop. simpl in *. lia.
Qed.

Local Abbreviation Proc := (Proc CrankState World Event).
Local Abbreviation silent := (only_adds (fun ev => ~ is_send ev)).

(** What is known after reading the accounts of the users [done]. *)
Record pass_state (st r : Z) (evs : list Event) (readers : list PublicKey)
    (acc : ParticipantCleanupStats * list PublicKey) : Prop := {
  ps_closed : closed (fst acc) = 0;
  ps_deficit : 0 <= deficit acc;
  ps_users : forall u, u ∈ snd acc -> u ∈ readers /\
    exists info, seen_participant evs r u (Some info) /\ classify st (Some info) = Closable;
  ps_cover : well_answered evs -> deficit acc <= 0 ->
    forall u, u ∈ readers -> u ∈ snd acc \/ seen_participant evs r u None
}.

Lemma pass_state_chunk st r roundPda evs readers acc users infos :
  getRoundPda A r = Ok roundPda ->
  pass_state st r evs readers acc ->
  let ev := EvAccounts (getParticipantPda A roundPda <$> users) (Ok infos) in
  pass_state st r (ev :: evs) (readers ++ users)
    (foldl (account_pass st) acc (zip users infos)).
Proof.
  intros Hpda [Hc Hd Hu Hcov] ev.
  destruct (account_passes_spec st acc (zip users infos)) as (Hc' & Hd' & Hk & Hn & He).
  assert (Hseen : forall u info, (u, info) ∈ zip users infos ->
    seen_participant (ev :: evs) r u info).
  { intros u info [_ Hz]%(zip_fmap_l (getParticipantPda A roundPda)).
    exists roundPda, (getParticipantPda A roundPda <$> users), infos.
    split_and!; [done|left|done]. }
  split; [congruence|lia| |].
  - intros u [Hin|(info & Hin & Hcl)]%Hn.
    + apply Hu in Hin as [Hin (info & Hs & Hcl)]. split; [apply elem_of_app; by left|].
      exists info. split; [by apply (seen_participant_app _ [ev])|done].
    + split; [apply elem_of_app; right; by eapply (zip_fmap_l id) in Hin as [? _]|].
      destruct info as [info|]; [|done]. exists info. split; [by apply Hseen|done].
  - intros Hw Hle u [Hin|Hin]%elem_of_app.
    + destruct (Hcov (well_answered_app evs [ev] Hw) ltac:(lia) u Hin) as [?|?].
      * left. by apply Hk.
      * right. by apply (seen_participant_app _ [ev]).
    + destruct (zip_cover (getParticipantPda A roundPda) users infos u) as (info & Hin' & _).
      { rewrite (Hw (getParticipantPda A roundPda <$> users)); [by rewrite length_fmap|left]. }
      { done. }
      destruct (He ltac:(lia) u info Hin') as [->|?]; [right; by apply Hseen|by left].
Qed.

Lemma scan_chunks_wp st r roundPda cs readers acc evs base (p : Proc) :
  getRoundPda A r = Ok roundPda ->
  history p = evs ++ base -> pass_state st r evs readers acc ->
  wp (for_acc cs (scan_chunk A roundPda st) acc)
    (fun res p' => silent p p' /\
       exists evs', history p' = evs' ++ base /\
         match res with
         | Ok acc' => pass_state st r evs' (readers ++ concat cs) acc'
         | Throw _ => True
         end) p.
Proof.
  intros Hpda. revert readers acc evs p.
  induction cs as [|users cs IH]; intros readers acc evs p Hh Hps; cbn [for_acc concat].
  { apply wp_ret. split; [apply only_adds_refl|]. exists evs. rewrite app_nil_r. done. }
  svc_step. unfold scan_chunk. svc_step. svc_step. destruct r0 as [infos|e].
  2:{ split; [adds|]. exists (EvAccounts (getParticipantPda A roundPda <$> users) (Throw e) :: evs).
      simpl. by rewrite Hh. }
  svc_step. eapply wp_mono; [eapply (IH (readers ++ users) _
    (EvAccounts (getParticipantPda A roundPda <$> users) (Ok infos) :: evs))|].
  - simpl. by rewrite Hh.
  - by apply pass_state_chunk.
  - intros res p' [Ha Hrest]. rewrite <- app_assoc in Hrest. split; [|done].
    eapply only_adds_trans; [|done]. adds.
Qed.

(** ** The participants' pass: closing *)

(** A user whose account may be closed. *)
Definition may_close (r : Z) (rd : Crank.RoundData) (evs : list Event) (u : PublicKey) : Prop :=
  u ∈ Crank.participants rd /\
  exists info, seen_participant evs r u (Some info) /\
    classify (Crank.status rd) (Some info) = Closable.

Lemma may_close_app r rd evs evs' u : may_close r rd evs u -> may_close r rd (evs' ++ evs) u.
Proof.
  intros [Hu (info & Hs & Hc)]. split; [done|]. exists info.
  split; [by apply seen_participant_app|done].
Qed.

(** One close: the history stays safe and a success leaves the account gone. *)
Lemma close_user_wp r rd st u evs base (p : Proc) :
  terminal_fetch r rd base -> history p = evs ++ base -> safe_history (history p) ->
  may_close r rd evs u ->
  wp (close_user A env payer r st u)
    (fun res p' => local p' = local p /\ safe_history (history p') /\
       exists ext st', history p' = (ext ++ evs) ++ base /\ res = Ok st' /\
         existing st' = existing st /\ blockedByRefund st' = blockedByRefund st /\
         (closed st' = closed st \/ (closed st' = closed st + 1 /\ gone (ext ++ evs) r u))) p.
Proof.
  intros Hbase Hh Hs Hmay. unfold close_user. svc_step. svc_step. svc_step.
  destruct (CrankIx.buildCloseParticipant A payer u r) as [ix|e] eqn:Ebuild.
  2:{ svc_step. svc_step. svc_step. simpl. split_and!; [done|done|].
      eexists [_], _. split_and!; [by rewrite Hh|done|done|done|by left]. }
  assert (Hauth : forall ev, ~ is_send ev -> authorised (ev :: history p) [ix]).
  { intros ev Hev. destruct Hmay as [Hu (info & Hsp & Hcl)].
    eapply (auth_close_participant _ r rd u info ix (ev :: evs) base); try done.
    - by rewrite Hh.
    - by apply (seen_participant_app _ [ev]).
    - by apply closable_nothing_owed. }
  apply wp_signAndSend.
  - intros e w. svc_step. svc_step. svc_step. simpl. split_and!; [done|done|].
    eexists [_; _], _. split_and!; [by rewrite Hh|done|done|done|by left].
  - intros bh e w. svc_step. svc_step. svc_step. cbn [local history]. split_and!; [done| |].
    + apply (safe_app [_]); [by repeat constructor; intros []|]. apply safe_send; [done|].
      by apply Hauth; intros [].
    + eexists [_; _; _], _. split_and!; [by rewrite Hh|done|done|done|by left].
  - intros bh sig w. svc_step. svc_step. svc_step. cbn [local history]. split_and!; [done| |].
    + apply (safe_app [_]); [by repeat constructor; intros []|]. apply safe_send; [done|].
      by apply Hauth; intros [].
    + eexists [_; _; _], _. split_and!; [by rewrite Hh|done|done|done|]. right.
      split; [done|]. right. exists ix, bh, sig. split; [done|]. right. left.
Qed.

Lemma close_users_wp r rd l st evs base (p : Proc) :
  terminal_fetch r rd base -> history p = evs ++ base -> safe_history (history p) ->
  Forall (may_close r rd evs) l ->
  wp (for_acc l (close_user A env payer r) st)
    (fun res p' => local p' = local p /\ safe_history (history p') /\
       exists ext st', history p' = (ext ++ evs) ++ base /\ res = Ok st' /\
         existing st' = existing st /\ closed st' <= closed st + Z.of_nat (length l) /\
         (closed st + Z.of_nat (length l) <= closed st' ->
            forall u, u ∈ l -> gone (ext ++ evs) r u)) p.
Proof.
  intros Hbase. revert st evs p. induction l as [|u l IH]; intros st evs p Hh Hs Hmay;
    cbn [for_acc].
  { apply wp_ret. split_and!; [done|done|]. exists [], st. simpl.
    split_and!; try done; [lia|]. intros _ u Hu. by apply not_elem_of_nil in Hu. }
  apply Forall_cons in Hmay as [Hu Hl]. svc_step.
  eapply wp_mono; [by eapply close_user_wp|].
  intros res q (Hloc & Hsafe & ext & st' & Hq & -> & He & _ & Hcl).
  eapply wp_mono; [apply (IH st' (ext ++ evs)); [done|done|]|].
  { eapply Forall_impl; [exact Hl|]. intros v. apply may_close_app. }
  intros res q' (Hloc' & Hsafe' & ext' & st'' & Hq' & -> & He' & Hle & Hg).
  split_and!; [congruence|done|]. exists (ext' ++ ext), st''.
  rewrite <- (app_assoc ext' ext evs).
  split_and!; [done|done|congruence|simpl; destruct Hcl as [?|[? _]]; lia|].
  intros Hfull v [->|Hv]%elem_of_cons; simpl in Hfull.
  - destruct Hcl as [?|[_ Hgone]]; [lia|]. by apply gone_app.
  - apply Hg; [|done]. destruct Hcl as [?|[? _]]; lia.
Qed.

Lemma slice_to_prefix {X} n (l : list X) : exists m, slice_to n l = take m l.
Proof. unfold slice_to. case_match; by eexists. Qed.

(** The whole pass: when its statistics leave nothing to do, every participant's
    account is gone. *)
Lemma cleanup_wp r rd evs base (p : Proc) :
  terminal_fetch r rd base -> history p = evs ++ base -> safe_history (history p) ->
  wp (cleanupParticipantPdas A env C payer r rd)
    (fun res p' =>
       (local p' = local p \/ exists v,
          local p' = upd_cleanupLastStats <[r := v]> (local p)) /\
       safe_history (history p') /\
       exists evs', history p' = evs' ++ base /\
         match res with
         | Ok stats => existing stats <= closed stats -> well_answered evs' ->
             forall u, u ∈ Crank.participants rd -> gone evs' r u
         | Throw _ => True
         end) p.
Proof.
  intros Hbase Hh Hs. unfold cleanupParticipantPdas. svc_step. svc_step.
  destruct (getRoundPda A r) as [roundPda|e] eqn:Epda.
  2:{ split_and!; [by left|done|by exists evs]. }
  destruct (length (Crank.participants rd) =? 0)%nat eqn:Elen.
  { svc_step. split_and!; [by left|done|]. exists evs. split; [done|].
    apply Nat.eqb_eq, nil_length_inv in Elen. rewrite Elen.
    intros _ _ u Hu. by apply not_elem_of_nil in Hu. }
  svc_step.
  eapply wp_mono; [eapply (scan_chunks_wp (Crank.status rd) r roundPda _ [] (mkStats 0 0 0 0 0, [])
    evs base); [done|done|]|].
  { split; simpl; try done; [intros u Hu|intros _ _ u Hu]; by apply not_elem_of_nil in Hu. }
  intros res q [[Hloc (new & Hnew & Hns)] (evs' & Hq & Hres)].
  assert (Hsq : safe_history (history q)) by (rewrite Hnew; by apply safe_app).
  destruct res as [[st users]|e]; [|split_and!; [by left|done|by exists evs']].
  cbn [app] in Hres. rewrite concat_chunks in Hres by (unfold CHUNK; lia).
  destruct Hres as [Hc Hd Hu Hcov]. cbn [fst snd] in *. unfold deficit in *. cbn [fst snd] in *.
  destruct (slice_to_prefix (PARTICIPANT_CLEANUP_BATCH C) users) as [m Hm]. rewrite Hm.
  svc_step. eapply wp_mono; [eapply (close_users_wp r rd (take m users)); [done|done|done|]|].
  { apply Forall_forall. intros u Hin%elem_of_take. destruct Hin as (i & Hi & _).
    apply list_elem_of_lookup_2 in Hi. apply Hu in Hi as [? (info & ? & ?)].
    split; [done|]. by exists info. }
  intros res q' (Hloc' & Hsafe' & ext & st' & Hq' & -> & He & Hle & Hg).
  svc_step. apply wp_now. intros ms w. svc_step. svc_step. svc_step. cbn [local history].
  split_and!; [right; eexists; by rewrite Hloc', Hloc|done|].
  exists (EvNow ms :: ext ++ evs'). split; [by rewrite Hq'|].
  intros Hfull Hw u Hin. apply (gone_app _ [EvNow ms]).
  rewrite length_take in Hle, Hg.
  destruct (Hcov (well_answered_app evs' (EvNow ms :: ext) Hw) ltac:(lia) u Hin) as [Hin'|Habs].
  - apply Hg; [lia|]. rewrite take_ge by lia. done.
  - apply gone_app. by left.
Qed.
End contract.
