(* ===== verification/CrankInvariant.v ===== *)
(** * CrankInvariant: the crank's bookkeeping and its polling step

    [crank_wf] is the invariant of the module's variables: the background set and the
    cleanup maps describe the same rounds.  Every state transition keeps it; every
    handler keeps it together with [safe_history]; [tick] keeps both, never throws,
    and moves to the next round at most once. *)

From stdpp Require Import base list gmap strings pretty.
From Stdlib Require Import ZArith Lia SpecFloat.
From S2P Require Import Prelude Buffers Accounts JsRuntime RuntimeLogic Effects ActiveRoundScan Solana Instructions Firebase CrankService CrankFrames CrankSafety.

Local Open Scope string_scope.
Local Open Scope list_scope.
Local Open Scope Z_scope.
Set Warnings "-clear-no-such-hyp".

(** ** The invariant of the variables *)

Record crank_wf (C : CrankConfig) (s : CrankState) : Prop := {
  wf_nodup : NoDup (backgroundRounds s);
  wf_next : forall r, r ∈ backgroundRounds s <-> is_Some (cleanupNextAttemptAt s !! r);
  wf_backoff : forall r, r ∈ backgroundRounds s <-> is_Some (cleanupBackoffSec s !! r);
  wf_retry : forall r, r ∈ backgroundRounds s <-> is_Some (cleanupRetryCount s !! r);
  wf_archived : NoDup (archivedRounds s) /\
    forall r, r ∈ archivedRounds s -> r ∈ backgroundRounds s;
  wf_reason : forall r, is_Some (cleanupLastReason s !! r) -> r ∈ backgroundRounds s;
  wf_stats : forall r, is_Some (cleanupLastStats s !! r) -> r ∈ backgroundRounds s;
  wf_delay : forall r d, cleanupBackoffSec s !! r = Some d -> 0 < d <= CLEANUP_BACKOFF_MAX_SEC C;
  wf_bound : forall r, r ∈ backgroundRounds s -> r <= currentRoundId s
}.

Section transitions.
Context (C : CrankConfig).
Hypothesis backoff_ok : 0 < CLEANUP_BACKOFF_MIN_SEC C <= CLEANUP_BACKOFF_MAX_SEC C.

Lemma wf_initial : crank_wf C initial_state.
Proof.
  split; simpl; try (intros r); rewrite ?lookup_empty; try (by intros ?%not_elem_of_nil).
  - apply NoDup_nil_2.
  - split; [by intros ?%not_elem_of_nil|by intros [? [=]]].
  - split; [by intros ?%not_elem_of_nil|by intros [? [=]]].
  - split; [by intros ?%not_elem_of_nil|by intros [? [=]]].
  - split; [apply NoDup_nil_2|]. by intros r ?%not_elem_of_nil.
  - by intros [? [=]].
  - by intros [? [=]].
  - by intros d [=].
Qed.

Lemma wf_core s s' : same_core s s' -> crank_wf C s -> crank_wf C s'.
Proof.
  intros [] []. split; repeat match goal with E : _ s' = _ s |- _ => rewrite E; clear E end; auto.
Qed.

Lemma set_if_absent_dom (l : list Z) (m : gmap Z Z) k v x :
  (forall y, y ∈ l <-> is_Some (m !! y)) ->
  x ∈ set_add l k <-> is_Some (set_if_absent k v m !! x).
Proof.
  intros Hm. rewrite elem_of_set_add. unfold set_if_absent.
  destruct (m !! k) as [w|] eqn:Ek.
  - rewrite Hm. split; [|by right]. intros [->|?]; [by rewrite Ek; eexists|done].
  - rewrite lookup_insert_is_Some', Hm. naive_solver.
Qed.

Lemma wf_track t r s : r <= currentRoundId s -> crank_wf C s -> crank_wf C (track_at C t r s).
Proof.
  intros Hr [Hn H1 H2 H3 [Ha Hsub] H4 H5 H6 H7].
  split; simpl; try (intros x; by apply set_if_absent_dom).
  - by apply NoDup_set_add.
  - split; [done|]. intros x Hx. apply elem_of_set_add. right. by apply Hsub.
  - intros x Hx. apply elem_of_set_add. right. by apply H4.
  - intros x Hx. apply elem_of_set_add. right. by apply H5.
  - intros x d. unfold set_if_absent. destruct (cleanupBackoffSec s !! r) eqn:Er; [by apply H6|].
    rewrite lookup_insert. case_decide; [intros [= <-]; lia|by apply H6].
  - intros x [->|Hx]%elem_of_set_add; [done|by apply H7].
Qed.

Lemma wf_clear r s : crank_wf C s -> crank_wf C (clearBackgroundRound r s).
Proof.
  intros [Hn H1 H2 H3 [Ha Hsub] H4 H5 H6 H7].
  assert (Hdel : forall {X} (m : gmap Z X) x,
    is_Some (delete r m !! x) <-> r <> x /\ is_Some (m !! x)).
  { intros X m x. apply lookup_delete_is_Some. }
  split; simpl; try (intros x; rewrite elem_of_set_delete, Hdel; naive_solver).
  - by apply NoDup_set_delete.
  - split; [by apply NoDup_set_delete|]. intros x. rewrite !elem_of_set_delete. naive_solver.
  - intros x d. rewrite lookup_delete. case_decide; [done|]. apply H6.
  - intros x [_ Hx]%elem_of_set_delete. by apply H7.
Qed.

Lemma wf_apply_retry r u s :
  r ∈ backgroundRounds s -> 0 < nextDelaySec u <= CLEANUP_BACKOFF_MAX_SEC C ->
  crank_wf C s -> crank_wf C (apply_retry r u s).
Proof.
  intros Hr Hu [Hn H1 H2 H3 [Ha Hsub] H4 H5 H6 H7].
  split; simpl; try done; try (intros x; rewrite lookup_insert_is_Some'; naive_solver).
  intros x d. rewrite lookup_insert. case_decide; [by intros [= <-]|apply H6].
Qed.

Lemma wf_archive r s :
  r ∈ backgroundRounds s -> crank_wf C s ->
  crank_wf C (upd_archivedRounds (fun l => set_add l r) s).
Proof.
  intros Hr [Hn H1 H2 H3 [Ha Hsub] H4 H5 H6 H7]. split; simpl; try done.
  split; [by apply NoDup_set_add|]. intros x [->|?]%elem_of_set_add; auto.
Qed.

Lemma wf_set_stats r v s :
  r ∈ backgroundRounds s -> crank_wf C s -> crank_wf C (upd_cleanupLastStats <[r := v]> s).
Proof.
  intros Hr []. split; simpl; try done. intros x. rewrite lookup_insert_is_Some'. naive_solver.
Qed.

Lemma wf_next_round s :
  crank_wf C s -> crank_wf C (set_currentRoundId (currentRoundId s + 1) s).
Proof. intros []. split; simpl; try done. intros r Hr. specialize (wf_bound0 r Hr). lia. Qed.

Lemma wf_set_locked v s : crank_wf C s -> crank_wf C (set_lastLockedRound v s).
Proof. by intros []. Qed.

Lemma wf_set_created v s : crank_wf C s -> crank_wf C (set_lastCreatedRound v s).
Proof. by intros []. Qed.

Lemma wf_set_vrf v s : crank_wf C s -> crank_wf C (set_lastVrfSentAt v s).
Proof. by intros []. Qed.
End transitions.

Hint Resolve wf_set_locked wf_set_created wf_set_vrf wf_next_round : crank.

(** ** Helpers that schedule, track and archive *)

Section handlers.
Context `{SolanaLibs} `{!Services}.
Context (A : Addresses) (env : string -> option string) (dbUrl : option string).
Context (C : CrankConfig) (payer : PublicKey).
Hypothesis backoff_ok : 0 < CLEANUP_BACKOFF_MIN_SEC C <= CLEANUP_BACKOFF_MAX_SEC C.
Local Abbreviation Proc := (Proc CrankState World Event).
Local Abbreviation safe := (safe_history A env C payer).

Definition crank_inv (p : Proc) : Prop := crank_wf C (local p) /\ safe (history p).

Lemma inv_quiet p p' : quiet p p' -> crank_inv p -> crank_inv p'.
Proof.
  intros Hq [Hw Hs]. split; [|by eapply quiet_safe].
  eapply wf_core; [|exact Hw]. apply Hq.
Qed.

(** Only events that are not transactions were added. *)
Definition adds_quietly (p p' : Proc) : Prop :=
  exists evs, history p' = evs ++ history p /\ Forall (fun ev => ~ is_send ev) evs.

Lemma adds_safe p p' : adds_quietly p p' -> safe (history p) -> safe (history p').
Proof. intros (evs & -> & Hf). by apply safe_app. Qed.

(** A retry is scheduled, or nothing remains to be closed. *)
Lemma schedule_wp r outcome (p : Proc) :
  r ∈ backgroundRounds (local p) -> crank_wf C (local p) ->
  wp (scheduleCleanupRetryOutcome C r outcome)
    (fun res p' => adds_quietly p p' /\ crank_wf C (local p') /\
       exists b, res = Ok b /\
         (local p' = local p \/ exists u, local p' = apply_retry r u (local p)) /\
         (b = false -> exists st, outcome = participants_pending st /\
            ri_existing st <= ri_closed st)) p.
Proof.
  intros Hr Hw. unfold scheduleCleanupRetryOutcome. svc_step. apply wp_now. intros ms w.
  svc_step. svc_step. cbn [local].
  unfold planCleanupRetryScheduleForOutcome.
  destruct (describeCleanupRetryOutcome outcome) as [desc|] eqn:Ed.
  - svc_step. svc_step. svc_step. svc_step. svc_step. cbn [local history set_local world].
    split; [by eexists [_; _]; split; [done|]; repeat constructor; intros []|]. split.
    + apply wf_apply_retry; [done|done| |done]. cbn [nextDelaySec buildCleanupRetryScheduleUpdate].
      apply delay_bounds; [done|]. intros d [= <-]. cbn.
      destruct (cleanupBackoffSec (local p) !! r) as [d|] eqn:E; simpl; [|lia].
      by eapply wf_delay in E as [? _].
    + exists true. split_and!; [done|by right; eexists|done].
  - svc_step. cbn [local history].
    split; [by eexists [_]; split; [done|]; repeat constructor; intros []|]. split; [done|].
    exists false. split_and!; [done|by left|]. intros _.
    destruct outcome as [st|?|?|?]; [|done..]. exists st. split; [done|].
    cbn in Ed. unfold describeParticipantCleanupRetry in Ed.
    destruct (Z.leb_spec (ri_existing st - ri_closed st) 0); [lia|done].
Qed.

Lemma track_wp r (p : Proc) :
  wp (trackBackgroundRound C r)
    (fun res p' => adds_quietly p p' /\ res = Ok tt /\
       exists t, local p' = track_at C t r (local p)) p.
Proof.
  unfold trackBackgroundRound. svc_step. svc_step.
  destruct (cleanupNextAttemptAt (local p) !! r).
  - svc_step. split; [by exists []|]. split; [done|by eexists].
  - svc_step. apply wp_now. intros ms w. svc_step. cbn [local history set_local].
    split; [by eexists [_]; split; [done|]; repeat constructor; intros []|].
    split; [done|by eexists].
Qed.

Lemma archive_wp r rd (p : Proc) :
  wp (archive_round A dbUrl r rd)
    (fun res p' => adds_quietly p p' /\ res = Ok tt /\
       (local p' = local p \/
        local p' = upd_archivedRounds (fun l => set_add l r) (local p))) p.
Proof.
  unfold archive_round. svc_step. svc_step.
  destruct (set_has _ _); [svc_step; split; [by exists []|auto]|].
  svc_step. svc_step. eapply wp_mono; [apply buildHistoryRound_wp|].
  intros [h|e] q [[Hl (evs & Hh & Hf)] _].
  2:{ svc_step. cbn [local]. split; [|auto].
      eexists (_ :: evs). split; [simpl; by rewrite Hh|]. constructor; [by intros []|done]. }
  svc_step. eapply wp_mono; [apply saveRoundToFirebase_wp|].
  intros res q' [[Hl' (evs' & Hh' & Hf')] (b & -> & _)].
  destruct b.
  - svc_step. svc_step. svc_step. cbn [local set_local history]. split.
    + eexists (_ :: evs' ++ evs). split; [simpl; by rewrite Hh', Hh, app_assoc|].
      constructor; [by intros []|]. by apply Forall_app.
    + split; [done|right]. by rewrite Hl', Hl.
  - svc_step. split; [|split; [done|left; congruence]].
    exists (evs' ++ evs). split; [by rewrite Hh', Hh, app_assoc|]. by apply Forall_app.
Qed.

(** ** A finished round *)

(** A step of the background loop on round [r]. *)
Record bg_step (r : Z) (s s' : CrankState) : Prop := {
  bs_current : currentRoundId s' = currentRoundId s;
  bs_locked : lastLockedRound s' = lastLockedRound s;
  bs_created : lastCreatedRound s' = lastCreatedRound s;
  bs_vrf : lastVrfSentAt s' = lastVrfSentAt s;
  bs_others : forall x, x <> r -> x ∈ backgroundRounds s -> x ∈ backgroundRounds s'
}.

Lemma bg_step_refl r s : bg_step r s s.
Proof. by split. Qed.

Lemma bg_step_trans r s1 s2 s3 : bg_step r s1 s2 -> bg_step r s2 s3 -> bg_step r s1 s3.
Proof. intros [] []. split; [congruence..|]. auto. Qed.

Lemma bg_step_core r s s' : same_core s s' -> bg_step r s s'.
Proof. intros []. split; try done. intros x _. by rewrite sc_bg. Qed.

Lemma bg_step_clear r s : bg_step r s (clearBackgroundRound r s).
Proof. split; try done. intros x Hx Hin. apply elem_of_set_delete. done. Qed.

(** The outcome of the handlers that work on round [r]: the invariant holds, the
    other rounds stay, and after an exception [r] is still tracked. *)
Definition bg_post {X} (r : Z) (p : Proc) (res : Res X) (p' : Proc) : Prop :=
  crank_inv p' /\ bg_step r (local p) (local p') /\
  match res with Ok _ => True | Throw _ => r ∈ backgroundRounds (local p') end.

Lemma bg_post_local {X} r (p p' : Proc) (res : Res X) :
  crank_wf C (local p') -> safe (history p') -> r ∈ backgroundRounds (local p) ->
  (local p' = local p \/ exists u, local p' = apply_retry r u (local p)) ->
  bg_post r p res p'.
Proof.
  intros Hw Hs Hr [E|[u E]]; (split; [by split|]); rewrite E; (split; [by split|by destruct res]).
Qed.

Lemma bg_post_trans {X} r (p q : Proc) (res : Res X) p' :
  bg_step r (local p) (local q) -> bg_post r q res p' -> bg_post r p res p'.
Proof. intros Hs (Hi & Hst & Hr). split_and!; [done|by eapply bg_step_trans|done]. Qed.

(** The last steps: the round is read again and closed. *)
Lemma close_fresh_wp r rd evs base (p : Proc) :
  terminal_fetch A r rd base -> history p = evs ++ base -> crank_inv p ->
  r ∈ backgroundRounds (local p) ->
  (well_answered evs -> forall u, u ∈ Crank.participants rd -> gone A env payer evs r u) ->
  wp (fresh ← fetchRound A r;
      match fresh with
      | None => modify (clearBackgroundRound r) ;; mret true
      | Some fresh =>
          if negb (Crank.status fresh =? RoundStatus.Claimed) &&
             negb (Crank.status fresh =? RoundStatus.Cancelled) then
            _ ← scheduleCleanupRetryOutcome C r (left_terminal_state (Crank.status fresh));
            mret false
          else
            try_catch
              (log ("Closing round #" +:+ pretty r +:+ "...") ;;
               ix ← lift (CrankIx.buildCloseRound A payer payer r);
               sig ← signAndSend env [ix] payer true;
               modify (clearBackgroundRound r) ;;
               log ("✓ Round #" +:+ pretty r +:+ " closed (" +:+ short sig +:+ "...)") ;;
               mret true)
              (fun e =>
                 _ ← scheduleCleanupRetryOutcome C r (close_round_failed (err_message e));
                 mret false)
      end) (bg_post r p) p.
Proof.
  intros Hbase Hh [Hw Hs] Hr Hgone.
  assert (Hsched : forall outcome q, local q = local p -> safe (history q) ->
    wp (_ ← scheduleCleanupRetryOutcome C r outcome; mret false) (bg_post r p) q).
  { intros outcome q Hl Hsq. svc_step. eapply wp_mono; [apply schedule_wp; by rewrite Hl|].
    intros res q' (Hadd & Hw' & b & -> & Hloc & _). svc_step. rewrite Hl in Hloc.
    apply bg_post_local; try done. by eapply adds_safe. }
  svc_step. apply wp_fetchRound; intros; cbn [local history].
  - by apply bg_post_local; auto.
  - by apply bg_post_local; auto.
  - svc_step. svc_step. svc_step. split_and!; [|apply bg_step_clear|done].
    split; [by apply wf_clear|done].
  - by apply bg_post_local; auto.
  - destruct (negb _ && negb _) eqn:Est; [by apply Hsched|].
    assert (Hterm : is_terminal (Crank.status rd0) = true).
    { unfold is_terminal. by destruct (_ =? _), (_ =? _). }
    svc_step. svc_step. svc_step. svc_step. svc_step.
    destruct (CrankIx.buildCloseRound A payer payer r) as [ix|e] eqn:Ebuild; [|by apply Hsched].
    assert (Hauth : forall bh msg, authorised A env C payer
      (EvBlockhash (Ok bh) :: EvLog msg :: EvAccount pda (Ok (Some info)) :: history p) [ix]).
    { intros bh msg.
      set (new := [EvBlockhash (Ok bh); EvLog msg; EvAccount pda (Ok (Some info))]).
      eapply (auth_close_round _ _ _ _ _ r rd rd0 ix (new ++ evs) base); try done.
      - by rewrite Hh.
      - intros Hwa u Hu. apply gone_app, Hgone; [|done]. by eapply well_answered_app.
      - exists pda, info. split_and!; [done| |done]. cbn. by rewrite bool_decide_true. }
    apply wp_signAndSend.
    + intros e w'. by apply Hsched.
    + intros bh e w'. apply Hsched; [done|]. cbn [history]. by apply safe_send.
    + intros bh sig w'. svc_step. svc_step. svc_step. svc_step. svc_step.
      split_and!; [|apply bg_step_clear|done]. split; [by apply wf_clear|].
      cbn [history set_local]. apply (safe_app _ _ _ _ [_]); [by repeat constructor; intros []|].
      by apply safe_send.
Qed.

Lemma extend_base (p p' : Proc) evs base :
  history p = evs ++ base -> adds_quietly p p' -> exists evs', history p' = (evs' ++ evs) ++ base.
Proof. intros Hh (new & Hn & _). exists new. by rewrite Hn, Hh, app_assoc. Qed.

Lemma terminal_wp r rd evs base (p : Proc) :
  terminal_fetch A r rd base -> history p = evs ++ base -> crank_inv p ->
  r ∈ backgroundRounds (local p) ->
  wp (handleTerminalRoundCleanup A env dbUrl C payer r rd) (bg_post r p) p.
Proof.
  intros Hbase Hh Hi Hr. unfold handleTerminalRoundCleanup. svc_step.
  apply wp_quiet; [apply allowCleanupNow_quiet|]. intros allowed p1 Hq1.
  pose proof (inv_quiet _ _ Hq1 Hi) as Hi1. destruct Hq1 as [Hcore1 Hadd1].
  assert (Hr1 : r ∈ backgroundRounds (local p1)) by (by rewrite (sc_bg _ _ Hcore1)).
  destruct (extend_base p p1 evs base Hh Hadd1) as [evs1 Hh1].
  destruct (negb allowed).
  { svc_step. split_and!; [done|by apply bg_step_core|done]. }
  (* the archive *)
  svc_step. eapply wp_mono; [apply archive_wp|]. intros res p2 (Hadd2 & -> & Hl2).
  assert (Hw2 : crank_wf C (local p2)).
  { destruct Hi1 as [Hw1 _]. destruct Hl2 as [-> | ->]; [done|by apply wf_archive]. }
  assert (Hs2 : safe (history p2)) by (eapply adds_safe; [done|apply Hi1]).
  assert (Hst2 : bg_step r (local p) (local p2)).
  { apply (bg_step_trans _ _ (local p1)); [by apply bg_step_core|].
    destruct Hl2 as [-> | ->]; [apply bg_step_refl|by split]. }
  assert (Hr2 : r ∈ backgroundRounds (local p2)) by (by destruct Hl2 as [-> | ->]).
  destruct (extend_base p1 p2 _ base Hh1 Hadd2) as [evs2 Hh2].
  (* the participants *)
  svc_step. eapply wp_mono; [by eapply cleanup_wp|].
  intros res p3 (Hl3 & Hs3 & evs3 & Hh3 & Hres).
  assert (Hw3 : crank_wf C (local p3)).
  { destruct Hl3 as [-> |[v ->]]; [done|by apply wf_set_stats]. }
  assert (Hst3 : bg_step r (local p) (local p3)).
  { apply (bg_step_trans _ _ (local p2)); [done|].
    destruct Hl3 as [-> |[v ->]]; [apply bg_step_refl|by split]. }
  assert (Hr3 : r ∈ backgroundRounds (local p3)) by (by destruct Hl3 as [-> |[v ->]]).
  destruct res as [stats|e]; [|by split_and!].
  (* the schedule *)
  svc_step. eapply wp_mono; [by apply schedule_wp|].
  intros res p4 (Hadd4 & Hw4 & b & -> & Hl4 & Hfalse).
  assert (Hs4 : safe (history p4)) by (by eapply adds_safe).
  assert (Hst4 : bg_step r (local p) (local p4)).
  { apply (bg_step_trans _ _ (local p3)); [done|].
    destruct Hl4 as [-> |[u ->]]; [apply bg_step_refl|by split]. }
  destruct b; [svc_step; by split_and!|].
  destruct (extend_base p3 p4 _ base Hh3 Hadd4) as [evs4 Hh4].
  destruct (Hfalse eq_refl) as (st & [= <-] & Hle). cbn in Hle.
  eapply wp_mono; [eapply (close_fresh_wp r rd _ base); [done|exact Hh4|by split| |]|].
  - by destruct Hl4 as [-> |[u ->]].
  - intros Hwa u Hu. apply gone_app. apply Hres; try done. by eapply well_answered_app.
  - intros res p5. by apply bg_post_trans.
Qed.

(** ** The background loop *)

Lemma background_round_wp r (p : Proc) :
  crank_inv p -> r ∈ backgroundRounds (local p) ->
  wp (process_background_round A env dbUrl C payer r)
    (fun res p' => res = Ok tt /\ crank_inv p' /\ bg_step r (local p) (local p')) p.
Proof.
  intros Hi Hr. unfold process_background_round. svc_step.
  assert (Hcatch : forall e q, crank_inv q -> bg_step r (local p) (local q) ->
    r ∈ backgroundRounds (local q) ->
    wp (log ("✗ Background processing round #" +:+ pretty r +:+ " failed: " +:+ err_message e) ;;
        _ ← scheduleCleanupRetryOutcome C r (background_error (err_message e)); mret tt)
      (fun res p' => res = Ok tt /\ crank_inv p' /\ bg_step r (local p) (local p')) q).
  { intros e q [Hw Hs] Hst Hq. svc_step. svc_step. svc_step.
    eapply wp_mono; [by apply schedule_wp|].
    intros res q' (Hadd & Hw' & b & -> & Hl & _). svc_step. cbn [local] in Hl.
    split_and!; [done|split; [done|by eapply adds_safe]|].
    apply (bg_step_trans _ _ (local q)); [done|].
    destruct Hl as [-> |[u ->]]; [apply bg_step_refl|by split]. }
  svc_step. apply wp_fetchRound; intros; cbn [local history].
  - apply Hcatch; [done|apply bg_step_refl|done].
  - apply Hcatch; [by apply (inv_quiet p), Hi; apply quiet_event; intros []|apply bg_step_refl|done].
  - svc_step. split_and!; [done| |apply bg_step_clear]. destruct Hi as [Hw Hs].
    split; [by apply wf_clear|done].
  - apply Hcatch; [by apply (inv_quiet p), Hi; apply quiet_event; intros []|apply bg_step_refl|done].
  - set (q := mkProc _ _ _). assert (Hiq : crank_inv q).
    { apply (inv_quiet p); [|done]. apply quiet_event. by intros []. }
    svc_step. apply wp_quiet; [apply observeRoundState_quiet|]. intros [] q1 Hq1.
    svc_step. apply wp_quiet; [apply maybeWarnStuckRound_quiet|]. intros [] q2 Hq2.
    assert (Hq : quiet q q2) by (by etrans). pose proof (inv_quiet _ _ Hq Hiq) as Hi2.
    destruct Hq as [Hcore Hadd].
    assert (Hst : bg_step r (local p) (local q2)) by (by apply bg_step_core).
    destruct ((Crank.status rd =? RoundStatus.Claimed) || _) eqn:Eterm.
    + svc_step. destruct (extend_base q q2 [] (history q) eq_refl Hadd) as [evs Hevs].
      eapply wp_mono; [eapply (terminal_wp r rd (evs ++ [])); [|exact Hevs|done|]|].
      * exists pda, info, (history p). by split_and!.
      * by rewrite (sc_bg _ _ Hcore).
      * intros [b|e] q3 (Hi3 & Hst3 & Hr3).
        -- svc_step. split_and!; [done|done|by eapply bg_step_trans].
        -- apply Hcatch; [done|by eapply bg_step_trans|done].
    + svc_step. by split_and!.
Qed.

(** The variables that drive the current round. *)
Definition same_drive (s s' : CrankState) : Prop :=
  currentRoundId s' = currentRoundId s /\ lastLockedRound s' = lastLockedRound s /\
  lastCreatedRound s' = lastCreatedRound s /\ lastVrfSentAt s' = lastVrfSentAt s.

Lemma background_wp l (p : Proc) :
  NoDup l -> crank_inv p -> (forall r, r ∈ l -> r ∈ backgroundRounds (local p)) ->
  wp (for_each l (process_background_round A env dbUrl C payer))
    (fun res p' => res = Ok tt /\ crank_inv p' /\ same_drive (local p) (local p')) p.
Proof.
  intros Hnd. revert p. induction l as [|r l IH]; intros p Hi Hl; cbn [for_each].
  { svc_step. split_and!; done. }
  apply NoDup_cons in Hnd as [Hr Hnd]. svc_step.
  eapply wp_mono; [apply background_round_wp; [done|apply Hl; left]|].
  intros res q (-> & Hiq & Hst). eapply wp_mono; [apply IH; [done|done|]|].
  - intros x Hx. apply (bs_others _ _ _ Hst); [by intros ->|]. apply Hl. by right.
  - intros res q' (-> & Hiq' & (E1 & E2 & E3 & E4)). destruct Hst.
    unfold same_drive. split_and!; [done|done|congruence..].
Qed.

(** ** The current round *)

(** What a handler of the current round may do: keep the invariant, never throw, and
    at most move on by one, leaving the old round to the background. *)
Definition cur_post {X} (p : Proc) (res : Res X) (p' : Proc) : Prop :=
  crank_inv p' /\
  (currentRoundId (local p') = currentRoundId (local p) \/
   (currentRoundId (local p') = currentRoundId (local p) + 1 /\
    currentRoundId (local p) ∈ backgroundRounds (local p'))).

Lemma cur_post_same {X} (p p' : Proc) (res : Res X) :
  crank_inv p' -> currentRoundId (local p') = currentRoundId (local p) -> cur_post p res p'.
Proof. intros. split; [done|by left]. Qed.

Lemma cur_post_quiet {X} (p q p' : Proc) (res : Res X) :
  cur_post p res q -> quiet q p' -> cur_post p res p'.
Proof.
  intros [Hi Hc] Hq. split; [by eapply inv_quiet|]. destruct Hq as [[] _].
  by rewrite sc_current, sc_bg.
Qed.

Lemma cur_post_start {X} (p q p' : Proc) (res : Res X) :
  currentRoundId (local q) = currentRoundId (local p) -> cur_post q res p' -> cur_post p res p'.
Proof. intros E [Hi Hc]. split; [done|]. by rewrite <- E. Qed.

Lemma start_round_wp r (p : Proc) :
  crank_inv p -> wp (handleStartRound A env payer r) (cur_post p) p.
Proof.
  intros Hi. unfold handleStartRound. svc_step. svc_step.
  destruct (r <=? lastCreatedRound (local p)); [svc_step; by apply cur_post_same|].
  svc_step. svc_step. destruct (getRoundPda A r) as [pda|e] eqn:Epda; [|by apply cur_post_same].
  svc_step. svc_step. destruct Hi as [Hw Hs].
  destruct r0 as [[info|]|e]; [| |by apply cur_post_same].
  { svc_step. svc_step. svc_step. apply cur_post_same; [|done].
    split; [by apply wf_set_created|done]. }
  assert (Hcatch : forall e q, crank_inv q -> currentRoundId (local q) = currentRoundId (local p) ->
    wp (check ← fetchRound A r;
        match check with
        | Some _ =>
            modify (set_lastCreatedRound r) ;;
            log ("Round #" +:+ pretty r +:+ " already exists (created externally)") ;;
            mret false
        | None =>
            log ("✗ Create round #" +:+ pretty r +:+ " failed: " +:+ err_message e) ;;
            mret false
        end) (cur_post p) q).
  { intros e q [Hwq Hsq] Hq. svc_step. apply wp_fetchRound; intros; cbn [local history];
      repeat svc_step; by apply cur_post_same; [split; try apply wf_set_created|]. }
  svc_step. svc_step. svc_step. svc_step. svc_step.
  destruct (CrankIx.buildStartRound A payer r) as [ix|e] eqn:Eb; [|by apply Hcatch].
  assert (Hauth : forall bh msg, authorised A env C payer
    (EvBlockhash (Ok bh) :: EvLog msg :: EvAccount pda (Ok None) :: history p) [ix]).
  { intros. eapply (auth_start _ _ _ _ _ r pda); try done. cbn. by rewrite bool_decide_true. }
  apply wp_signAndSend.
  - intros e w'. by apply Hcatch.
  - intros bh e w'. apply Hcatch; [|done]. split; [done|]. cbn [history]. by apply safe_send.
  - intros bh sig w'. repeat svc_step. apply cur_post_same; [|done].
    split; [by apply wf_set_created|]. cbn [history set_local].
    apply (safe_app _ _ _ _ [_]); [by repeat constructor; intros []|]. by apply safe_send.
Qed.

Lemma skip_round_wp why (p : Proc) :
  crank_inv p -> wp (skip_round C (currentRoundId (local p)) why) (cur_post p) p.
Proof.
  intros [Hw Hs]. unfold skip_round. svc_step. svc_step. svc_step.
  eapply wp_mono; [apply track_wp|]. intros res q (Hadd & -> & t & Hl). cbn [local set_local] in Hl.
  repeat svc_step. cbn [local set_local history]. split.
  - split; cbn [local set_local history]; [|by eapply adds_safe].
    rewrite Hl. apply wf_set_locked, wf_next_round, wf_track; [done|done|].
    by apply wf_set_locked.
  - right. rewrite Hl. split; [done|]. cbn. apply elem_of_set_add. by left.
Qed.

(** Adding to the history keeps the invariant and the current round. *)
Lemma inv_event (p : Proc) w ev :
  ~ is_send ev -> crank_inv p -> crank_inv (mkProc (local p) w (ev :: history p)).
Proof. intros Hev. apply inv_quiet. by apply quiet_event. Qed.

Lemma lock_failed_wp e (p : Proc) :
  crank_inv p -> wp (lock_failed A C (currentRoundId (local p)) e) (cur_post p) p.
Proof.
  intros Hi. unfold lock_failed. svc_step. svc_step.
  set (p1 := mkProc _ _ _). assert (Hi1 : crank_inv p1) by (by apply inv_event; [intros []|]).
  destruct (isMinRequirementsErrorMessage _).
  { svc_step. svc_step. set (p2 := mkProc _ _ _).
    assert (Hi2 : crank_inv p2) by (by apply (inv_event p1); [intros []|]).
    eapply wp_mono; [apply (skip_round_wp "insufficient" p2 Hi2)|]. intros res q.
    by apply cur_post_start. }
  svc_step. svc_step. svc_step. apply wp_fetchRound; intros; destruct Hi1 as [Hw Hs];
    repeat svc_step; cbn [local history]; try (by apply cur_post_same).
  destruct (negb _); repeat svc_step; (apply cur_post_same; [|done]).
  - split; [by apply wf_set_locked|done].
  - done.
Qed.

Lemma lock_wp rd (p : Proc) :
  crank_inv p -> seen_round A (history p) (currentRoundId (local p)) rd ->
  wp (handleLockAndVrf A env C payer (currentRoundId (local p)) rd) (cur_post p) p.
Proof.
  intros Hi Hseen. set (r := currentRoundId (local p)) in *. unfold handleLockAndVrf.
  svc_step. svc_step. destruct (lastLockedRound (local p) =? r); [svc_step; by apply cur_post_same|].
  destruct (round53 (Crank.endTs rd) =? 0) eqn:Eend; [svc_step; by apply cur_post_same|].
  svc_step. apply wp_now. intros ms w. destruct Hi as [Hw Hs].
  destruct (ms / 1000 <? _) eqn:Etime; [svc_step; by apply cur_post_same|].
  svc_step. apply wp_fetchRound; intros; cbn [local history]; try (svc_step; by apply cur_post_same);
    try (by apply cur_post_same).
  destruct (negb _) eqn:Eopen; [svc_step; by apply cur_post_same|].
  destruct (_ || _) eqn:Eempty.
  { svc_step. svc_step. eapply wp_mono; [apply (skip_round_wp "empty" (mkProc _ _ _))|]; [by split|].
    intros res q. by apply cur_post_start. }
  assert (Hcatch : forall e q, crank_inv q -> currentRoundId (local q) = r ->
    wp (lock_failed A C r e) (cur_post p) q).
  { intros e q Hq Hr. rewrite <- Hr. eapply wp_mono; [by apply lock_failed_wp|].
    intros res q'. by apply cur_post_start. }
  repeat svc_step.
  destruct (CrankIx.buildLockRound A payer r) as [lockIx|e] eqn:El; [|by apply Hcatch].
  svc_step. svc_step.
  destruct (CrankIx.buildRequestVrf A payer r) as [vrfIx|e] eqn:Ev; [|by apply Hcatch].
  assert (Hauth : forall bh msg, authorised A env C payer
    (EvBlockhash (Ok bh) :: EvLog msg :: EvAccount pda (Ok (Some info)) :: EvNow ms :: history p)
    [lockIx; vrfIx]).
  { intros bh msg. apply orb_false_iff in Eempty as [E1%Z.ltb_ge E2%Z.eqb_neq].
    apply negb_false_iff, Z.eqb_eq in Eopen. apply Z.eqb_neq in Eend. apply Z.ltb_ge in Etime.
    eapply (auth_lock _ _ _ _ _ r lockIx vrfIx rd0 rd ms); try done.
    - exists pda, info. split_and!; [done| |done]. cbn. by rewrite bool_decide_true.
    - destruct Hseen as (pda' & info' & Hp' & He' & Hrd'). exists pda', info'.
      split_and!; [done| |done]. do 4 right. done.
    - do 3 right. left. }
  apply wp_signAndSend.
  - intros e w'. by apply Hcatch.
  - intros bh e w'. apply Hcatch; [|done]. split; [done|]. cbn [history]. by apply safe_send.
  - intros bh sig w'. svc_step. svc_step. svc_step. apply wp_now. intros ms' w''.
    repeat svc_step. apply cur_post_same; [|done]. split; [by apply wf_set_vrf, wf_set_locked|].
    cbn [history set_local].
    apply (safe_app _ _ _ _ [_; _]); [by repeat constructor; intros []|]. by apply safe_send.
Qed.

Lemma request_vrf_wp r (p : Proc) :
  crank_inv p -> wp (handleRequestVrf A env C payer r) (cur_post p) p.
Proof.
  intros [Hw Hs]. unfold handleRequestVrf. svc_step.
  apply wp_fetchRound; intros; cbn [local history]; try (svc_step; by apply cur_post_same);
    try (by apply cur_post_same).
  destruct (negb _) eqn:El; [svc_step; by apply cur_post_same|].
  svc_step. apply wp_now. intros ms w'. svc_step. svc_step.
  destruct (_ <? VRF_COOLDOWN_SEC C); [svc_step; by apply cur_post_same|].
  repeat svc_step.
  destruct (CrankIx.buildRequestVrf A payer r) as [ix|e] eqn:Eb;
    [|repeat svc_step; by apply cur_post_same].
  assert (Hauth : forall bh msg, authorised A env C payer
    (EvBlockhash (Ok bh) :: EvLog msg :: EvNow ms :: EvAccount pda (Ok (Some info)) :: history p)
    [ix]).
  { intros bh msg. apply negb_false_iff, Z.eqb_eq in El.
    eapply (auth_vrf _ _ _ _ _ r ix rd); try done.
    exists pda, info. split_and!; [done| |done]. cbn. by rewrite bool_decide_true. }
  apply wp_signAndSend.
  - intros e w''. repeat svc_step. by apply cur_post_same.
  - intros bh e w''. repeat svc_step. apply cur_post_same; [|done]. split; [done|].
    cbn [history]. apply (safe_app _ _ _ _ [_]); [by repeat constructor; intros []|].
    by apply safe_send.
  - intros bh sig w''. svc_step. apply wp_now. intros ms' w3. repeat svc_step.
    apply cur_post_same; [|done]. split; [by apply wf_set_vrf|]. cbn [history set_local].
    apply (safe_app _ _ _ _ [_; _]); [by repeat constructor; intros []|]. by apply safe_send.
Qed.

Lemma advance_wp word rest (p : Proc) :
  crank_inv p ->
  wp (advance C (currentRoundId (local p)) word rest)
    (fun res p' => res = Ok tt /\ cur_post p res p') p.
Proof.
  intros [Hw Hs]. unfold advance. svc_step. eapply wp_mono; [apply track_wp|].
  intros res q (Hadd & -> & t & Hl). repeat svc_step. apply wp_health. intros p' Hq.
  split; [done|]. eapply cur_post_quiet; [|exact Hq]. split.
  - split; cbn [local set_local history]; [|by eapply adds_safe].
    rewrite Hl. apply wf_set_vrf, wf_set_locked, wf_next_round, wf_track; done.
  - right. cbn [local set_local]. rewrite Hl. split; [done|]. cbn. apply elem_of_set_add. by left.
Qed.

Lemma handle_current_wp rd (p : Proc) :
  crank_inv p -> seen_round A (history p) (currentRoundId (local p)) rd ->
  wp (handle_current A env C payer (currentRoundId (local p)) rd) (cur_post p) p.
Proof.
  intros Hi Hseen. unfold handle_current.
  assert (Hafter : forall q, quiet p q -> crank_inv q /\
    currentRoundId (local q) = currentRoundId (local p) /\
    seen_round A (history q) (currentRoundId (local p)) rd).
  { intros q Hq. split; [by eapply inv_quiet|]. destruct Hq as [[] (evs & Hh & _)].
    split; [done|]. destruct Hseen as (pda & info & Hp & He & Hrd). exists pda, info.
    split_and!; try done. rewrite Hh. apply elem_of_app. by right. }
  repeat case_match.
  - svc_step. apply wp_health. intros q Hq. destruct (Hafter q Hq) as (Hiq & Hcq & Hsq).
    svc_step. rewrite <- Hcq in *. eapply wp_mono; [by apply lock_wp|].
    intros [b|e] q' Hq'; [svc_step|]; eapply cur_post_start; done.
  - svc_step. apply wp_health. intros q Hq. destruct (Hafter q Hq) as (Hiq & Hcq & Hsq).
    svc_step. eapply wp_mono; [by apply request_vrf_wp|].
    intros [b|e] q' Hq'; [svc_step|]; eapply cur_post_start; done.
  - apply wp_health. intros q Hq. destruct (Hafter q Hq) as (Hiq & Hcq & _). by apply cur_post_same.
  - svc_step. unfold publish.
    assert (Hadv : forall q, quiet p q ->
      wp (advance C (currentRoundId (local p)) "settled" "claim/cleanup in background")
        (cur_post p) q).
    { intros q Hq. destruct (Hafter q Hq) as (Hiq & Hcq & _). rewrite <- Hcq.
      eapply wp_mono; [by apply advance_wp|]. intros res q' [_ Hq']. by eapply cur_post_start. }
    destruct (isTapestryEnabled C); svc_step; apply Hadv; [apply quiet_event; by intros []|done].
  - eapply wp_mono; [by apply advance_wp|]. by intros res q' [_ ?].
  - apply wp_health. intros q Hq. destruct (Hafter q Hq) as (Hiq & Hcq & _). by apply cur_post_same.
Qed.

Lemma tick_wp (p : Proc) :
  crank_inv p ->
  wp (tick A env dbUrl C payer) (fun res p' => res = Ok tt /\ cur_post p res p') p.
Proof.
  intros Hi. unfold tick. svc_step. svc_step. svc_step.
  assert (Hcatch : forall (e : JsError) q, cur_post p (Ok tt) q ->
    wp (log ("✗ Tick error: " +:+ err_message e) ;; maybeLogHealthSnapshot C)
      (fun res p' => res = Ok tt /\ cur_post p res p') q).
  { intros e q Hq. svc_step. svc_step. apply wp_health. intros q' Hq'. split; [done|].
    eapply cur_post_quiet; [exact Hq|]. etrans; [|exact Hq']. apply quiet_event. by intros []. }
  assert (Hrest : forall q, crank_inv q -> currentRoundId (local q) = currentRoundId (local p) ->
    wp (cur ← gets currentRoundId;
        rd ← fetchRound A cur;
        match rd with
        | None => maybeLogHealthSnapshot C ;; _ ← handleStartRound A env payer cur; mret tt
        | Some rd =>
            observeRoundState cur (Crank.status rd) ;;
            maybeWarnStuckRound C cur (Crank.status rd) ;;
            handle_current A env C payer cur rd
        end) (cur_post p) q).
  { intros q Hq Hcq. svc_step. svc_step. svc_step.
    apply wp_fetchRound; intros; cbn [local history].
    - by apply cur_post_same.
    - apply cur_post_same; [|done]. by apply inv_event; [intros []|].
    - svc_step. apply wp_health. intros q1 Hq1. svc_step.
      assert (Hi1 : crank_inv q1).
      { eapply inv_quiet; [exact Hq1|]. by apply inv_event; [intros []|]. }
      assert (Hc1 : currentRoundId (local q1) = currentRoundId (local p)).
      { destruct Hq1 as [[] _]. by rewrite sc_current. }
      eapply wp_mono; [by apply start_round_wp|].
      intros [b|e] q2 Hq2; [svc_step|]; eapply cur_post_start; done.
    - apply cur_post_same; [|done]. by apply inv_event; [intros []|].
    - set (q0 := mkProc _ _ _).
      svc_step. apply wp_quiet; [apply observeRoundState_quiet|]. intros [] q1 Hq1.
      svc_step. apply wp_quiet; [apply maybeWarnStuckRound_quiet|]. intros [] q2 Hq2.
      assert (Hqq : quiet q0 q2) by (by etrans).
      assert (Hi2 : crank_inv q2).
      { eapply inv_quiet; [exact Hqq|]. by apply inv_event; [intros []|]. }
      destruct Hqq as [[] (evs & Hevs & _)].
      assert (Hc2 : currentRoundId (local q2) = currentRoundId (local q)) by exact sc_current.
      rewrite <- Hc2.
      eapply wp_mono; [apply handle_current_wp; [done|]|].
      + exists pda, info. rewrite Hc2. split_and!; [done| |done].
        rewrite Hevs. apply elem_of_app. right. left.
      + intros res q3 Hq3. eapply cur_post_start; [|exact Hq3]. by rewrite Hc2. }
  svc_step. eapply wp_mono with (Q := fun res q => res = Ok tt /\ crank_inv q /\
    currentRoundId (local q) = currentRoundId (local p)).
  - destruct (0 <? length _)%nat; [|svc_step; done].
    unfold processBackgroundRounds. svc_step. svc_step.
    eapply wp_mono; [apply background_wp; [apply Hi|done|auto]|].
    intros res q (-> & Hq & (Hc & _)). done.
  - intros res q (-> & Hq & Hc). eapply wp_mono; [by apply Hrest|].
    intros [[]|e] q' Hq'; [done|by apply Hcatch].
Qed.
End handlers.
