(* ===== verification/CrankMain.v ===== *)
(** * CrankMain: the crank's guarantees

    Start-up, the states the polling loop reaches, and the properties of the service
    as a whole, with their witnesses. *)

From stdpp Require Import base list gmap strings pretty.
From Stdlib Require Import ZArith Lia SpecFloat Strings.Byte.
From S2P Require Import Prelude Buffers Accounts JsRuntime RuntimeLogic Effects ActiveRoundScan Solana Instructions Firebase CrankService CrankFrames CrankSafety CrankInvariant.

Local Open Scope string_scope.
Local Open Scope list_scope.
Local Open Scope Z_scope.
Set Warnings "-clear-no-such-hyp".

Section main.
Context `{SolanaLibs} `{!Services}.
Context (A : Addresses) (env : string -> option string) (dbUrl : option string).
Context (C : CrankConfig) (payer : PublicKey).
Local Abbreviation M := (M CrankState World Event).
Local Abbreviation Proc := (Proc CrankState World Event).
Local Abbreviation silent := (only_adds (fun ev => ~ is_send ev)).

(** ** Start-up *)

Lemma scan_loop_silent args (fetch : list Z -> M (list ScanEntry)) fuel
    base st (p : Proc) :
  (forall ids q, wp (fetch ids) (fun _ q' => silent q q') q) ->
  wp (scan_loop args fetch fuel base st) (fun _ p' => silent p p') p.
Proof.
  intros Hf. revert base st p. induction fuel as [|fuel IH]; intros base st p; cbn [scan_loop].
  { svc_step. apply only_adds_refl. }
  destruct (_ <=? _); [|svc_step; apply only_adds_refl]. cbn zeta. svc_step.
  eapply wp_mono; [apply Hf|]. intros [entries|e] q Hq; [|done].
  destruct (scan_stops _ _); [by svc_step|].
  eapply wp_mono; [apply IH|]. intros res q' Hq'. by eapply only_adds_trans.
Qed.

Lemma findActiveRound_silent (p : Proc) : wp (findActiveRound A dbUrl) (fun _ p' => silent p p') p.
Proof.
  unfold findActiveRound. svc_step. svc_step.
  eapply wp_mono; [apply getMaxArchivedRoundId_wp|]. intros r q [Hq [n ->]].
  svc_step. svc_step. destruct (archived_id n) as [archived|e]; [|done].
  unfold scanForActiveRound. svc_step. eapply wp_mono; [apply scan_loop_silent|].
  - intros ids p0. unfold fetchBatch. svc_step. svc_step.
    destruct (res_mapM _ _); [|apply only_adds_refl]. svc_step. svc_step.
    destruct r; [svc_step|]; adds.
  - intros [st|e] q' Hq'; [svc_step|]; by eapply only_adds_trans.
Qed.

(** What the backfill keeps: the invariant of the variables, the current round, a
    history without transactions. *)
Definition recovering (cur : Z) (p : Proc) : Prop :=
  crank_wf C (local p) /\ currentRoundId (local p) = cur /\
  Forall (fun ev => ~ is_send ev) (history p).

Lemma recovering_quiet cur p p' : quiet p p' -> recovering cur p -> recovering cur p'.
Proof.
  intros [Hc (evs & Hh & Hf)] (Hw & Hcur & Hp). split_and!.
  - by eapply wf_core.
  - by rewrite (sc_current _ _ Hc).
  - rewrite Hh. by apply Forall_app.
Qed.

Hypothesis backoff_ok : 0 < CLEANUP_BACKOFF_MIN_SEC C <= CLEANUP_BACKOFF_MAX_SEC C.

Lemma recover_one_wp cur acc id info (p : Proc) :
  id <= cur -> recovering cur p ->
  wp (recover_one C acc (id, info)) (fun _ p' => recovering cur p') p.
Proof.
  intros Hid Hp. unfold recover_one. destruct info as [info|]; [|by svc_step].
  svc_step. svc_step. svc_step.
  destruct (Crank.parseRound (ai_data info)) as [rd|e]; [|by svc_step].
  svc_step. apply wp_quiet; [apply observeRoundState_quiet|]. intros [] q Hq.
  pose proof (recovering_quiet _ _ _ Hq Hp) as (Hw & Hcur & Hf).
  destruct (_ || _); [|by svc_step; split_and!].
  svc_step. svc_step. svc_step. eapply wp_mono; [apply track_wp|].
  intros res q' ((evs & Hh & Hf') & -> & t & Hl).
  assert (Hq' : recovering cur q').
  { split_and!; rewrite ?Hl; [apply wf_track; [done|lia|done]|done|].
    rewrite Hh. by apply Forall_app. }
  svc_step. svc_step. destruct (negb _); [by svc_step|]. destruct acc as [[a b] c].
  by svc_step.
Qed.

Lemma recover_wp cur (p : Proc) :
  recovering cur p ->
  wp (recoverBackgroundRoundsOnStartup A C cur) (fun _ p' => recovering cur p') p.
Proof.
  intros Hp. unfold recoverBackgroundRoundsOnStartup. destruct (cur <=? 1); [by svc_step|].
  svc_step. eapply wp_mono; [apply (wp_for_acc (fun _ q => recovering cur q) (recovering cur)); [done|]|].
  - intros base acc q _ Hq. unfold recover_batch. svc_step. svc_step.
    destruct (res_mapM _ _) as [pdas|e]; [|done]. svc_step. svc_step.
    assert (Hq' : forall w r, recovering cur (mkProc (local q) w (EvAccounts pdas r :: history q))).
    { intros. apply (recovering_quiet _ q); [|done]. apply quiet_event. by intros []. }
    destruct r as [infos|e]; [|done].
    apply (wp_for_acc (fun _ q => recovering cur q) (recovering cur)); [done|].
    intros [id info] acc' q1 Hin Hq1. eapply wp_mono; [apply recover_one_wp; [|done]|].
    + apply elem_of_zip_l in Hin. apply list_elem_of_lookup_1 in Hin as [j [-> Hj]%lookup_seqZ].
      lia.
    + intros [?|?] q2; done.
  - intros [[[a b] c]|e] q Hq; [|done]. destruct (0 <? _); [|by svc_step]. svc_step.
    apply (recovering_quiet _ q); [|done]. apply quiet_event. by intros [].
Qed.

Lemma safe_no_send h : Forall (fun ev => ~ is_send ev) h -> safe_history A env C payer h.
Proof. intros Hf. rewrite <- (app_nil_r h). by apply safe_app. Qed.

(** A started crank satisfies the invariant. *)
Lemma startup_wp w :
  wp (startup A dbUrl C)
    (fun res p' => forall id, res = Ok (Some (Some id)) ->
       crank_inv A env C payer p' /\ currentRoundId (local p') = id)
    (mkProc initial_state w []).
Proof.
  unfold startup. svc_step. eapply wp_mono; [apply findActiveRound_silent|].
  intros [[[id|]|]|e] p1 [Hl (evs & Hh & Hf)]; try (try svc_step; done).
  svc_step. svc_step. svc_step. cbn [set_local]. rewrite Hl. cbn [local] in *.
  rewrite app_nil_r in Hh.
  eapply wp_mono; [apply (recover_wp id)|].
  - split_and!; [|done|cbn [history]; by rewrite Hh].
    pose proof (wf_initial C) as []. split; try done. intros r ?%not_elem_of_nil. done.
  - intros [[]|e] p2 (Hw & Hcur & Hp2); [|done]. svc_step. intros id' [= <-].
    split; [|done]. split; [done|]. by apply safe_no_send.
Qed.

(** ** Reachable states *)

(** The crank after start-up and any number of polls; between polls the world
    changes on its own. *)
Inductive reachable : Proc -> Prop :=
| reach_start w id p :
    startup A dbUrl C (mkProc initial_state w []) = (Ok (Some (Some id)), p) -> reachable p
| reach_tick p r p' :
    reachable p -> tick A env dbUrl C payer p = (r, p') -> reachable p'
| reach_wait p w :
    reachable p -> reachable (mkProc (local p) w (history p)).

Lemma reachable_inv p : reachable p -> crank_inv A env C payer p.
Proof.
  induction 1 as [w id p Hs|p r p' _ IH Ht|p w _ IH].
  - pose proof (startup_wp w) as Hw. unfold wp in Hw. rewrite Hs in Hw. by eapply Hw.
  - pose proof (tick_wp A env dbUrl C payer backoff_ok p IH) as Hw. unfold wp in Hw.
    rewrite Ht in Hw. apply Hw.
  - done.
Qed.

(** ** Properties *)

(** C2: every transaction the crank ever sends is authorised by what it had observed:
    a round is started only after its account was seen missing, locked (with its VRF
    request) only when just seen open, with deposits and past its end plus the
    buffer; a lone VRF request goes only to a round just seen locked; a participant
    account is closed only in a finished round, and in a cancelled one only when it
    holds no funds and no tickets; a round is closed only when just seen finished
    and after every participant's account was seen to be gone. *)
Theorem crank_sends_authorised p :
  reachable p -> safe_history A env C payer (history p).
Proof. intros Hr. by apply reachable_inv. Qed.

(** C9: the crank's bookkeeping is consistent in every reachable state: the
    background rounds, their due times, backoffs and retry counts are the same
    rounds, none is ahead of the current round, each backoff is positive and at most
    the maximum, and nothing is remembered of a round that is not tracked. *)
Theorem crank_state_wf p : reachable p -> crank_wf C (local p).
Proof. intros Hr. by apply reachable_inv. Qed.

(** C13: progress is one round at a time: a poll keeps the current round or moves to
    the next id, and then the old round is left to the background. *)
Theorem tick_advances_by_one p r p' :
  reachable p -> tick A env dbUrl C payer p = (r, p') ->
  currentRoundId (local p') = currentRoundId (local p) \/
  (currentRoundId (local p') = currentRoundId (local p) + 1 /\
   currentRoundId (local p) ∈ backgroundRounds (local p')).
Proof.
  intros Hr%reachable_inv Ht. pose proof (tick_wp A env dbUrl C payer backoff_ok p Hr) as Hw.
  unfold wp in Hw. rewrite Ht in Hw. apply Hw.
Qed.

(** [setTimeout(loop, POLL_INTERVAL_MS)]: the world changes in some way meanwhile. *)
Definition wait (elapse : World -> World) : M unit := fun p =>
  (Ok tt, mkProc (local p) (elapse (world p)) (history p)).

(** The polling loop of [main], as many iterations as waits are given. *)
Fixpoint loop (waits : list (World -> World)) : M unit :=
  match waits with
  | [] => mret tt
  | elapse :: waits => tick A env dbUrl C payer ;; wait elapse ;; loop waits
  end.

(** C17: No failure stops the service: whatever the state, the world and the errors
    its calls raise, every poll returns and the loop goes on to the next one. *)
Theorem tick_never_throws waits (p : Proc) : fst (loop waits p) = Ok tt.
Proof.
  change (wp (loop waits) (fun r _ => r = Ok tt) p). revert p.
  induction waits as [|elapse waits IH]; intros p; cbn [loop]; [by svc_step|].
  assert (Ht : wp (tick A env dbUrl C payer) (fun r _ => r = Ok tt) p).
  { unfold tick. svc_step. apply wp_any. intros [[]|e] q; [done|]. svc_step. svc_step.
    by apply wp_health. }
  svc_step. eapply wp_mono; [exact Ht|]. intros r q ->. svc_step. apply IH.
Qed.

(** At most one transaction, none for a recorded id, exactly one on success. *)
Definition created_once (r : Z) (p : Proc) (res : Res bool) (p' : Proc) : Prop :=
  exists evs, history p' = evs ++ history p /\
    (length (filter is_send evs) <= 1)%nat /\
    (r <= lastCreatedRound (local p) -> evs = [] /\ local p' = local p) /\
    (res = Ok true -> lastCreatedRound (local p') = r /\ length (filter is_send evs) = 1%nat).

Lemma created_once_stop r (p q : Proc) res evs :
  lastCreatedRound (local p) < r -> history q = evs ++ history p ->
  (length (filter is_send evs) <= 1)%nat -> res <> Ok true -> created_once r p res q.
Proof. intros Hc Hh Hl Hr. exists evs. split_and!; [done|done|lia|done]. Qed.

(** A round is created at most once: once its id is recorded nothing is done for
    it, a success records it, and an attempt sends one transaction. *)
Theorem start_round_once r (p : Proc) :
  wp (handleStartRound A env payer r) (created_once r p) p.
Proof.
  unfold handleStartRound. svc_step. svc_step.
  destruct (r <=? lastCreatedRound (local p)) eqn:Ec.
  { svc_step. exists []. split_and!; [done|simpl; lia|done|done]. }
  apply Z.leb_gt in Ec. svc_step. svc_step.
  destruct (getRoundPda A r) as [pda|e] eqn:Epda; [|eapply (created_once_stop _ _ _ _ []); [done|done|compute; lia|done]].
  svc_step. svc_step. destruct r0 as [[info|]|e].
  { repeat svc_step. eapply (created_once_stop _ _ _ _ [_]); [done|done|compute; lia|done]. }
  2:{ eapply (created_once_stop _ _ _ _ [_]); [done|done|compute; lia|done]. }
  svc_step. svc_step. svc_step. svc_step. svc_step.
  assert (Hcatch : forall (e : JsError) evs (q : Proc), history q = evs ++ history p ->
      (length (filter is_send evs) <= 1)%nat ->
      wp (check ← fetchRound A r;
          match check with
          | Some _ =>
              modify (set_lastCreatedRound r) ;;
              log ("Round #" +:+ pretty r +:+ " already exists (created externally)") ;;
              mret false
          | None =>
              log ("✗ Create round #" +:+ pretty r +:+ " failed: " +:+ err_message e) ;;
              mret false
          end) (created_once r p) q).
  { intros e evs q Hh Hl. svc_step. apply wp_fetchRound; intros; repeat svc_step.
    - by eapply created_once_stop.
    - eapply (created_once_stop _ _ _ _ (_ :: evs)); [done|simpl; by rewrite Hh|exact Hl|done].
    - eapply (created_once_stop _ _ _ _ (_ :: _ :: evs)); [done|simpl; by rewrite Hh|exact Hl|done].
    - eapply (created_once_stop _ _ _ _ (_ :: evs)); [done|simpl; by rewrite Hh|exact Hl|done].
    - eapply (created_once_stop _ _ _ _ (_ :: _ :: evs)); [done|simpl; by rewrite Hh|exact Hl|done]. }
  destruct (CrankIx.buildStartRound A payer r) as [ix|e]; [|eapply (Hcatch _ [_; _]); [done|compute; lia]].
  apply wp_signAndSend.
  - intros e w'. eapply (Hcatch _ [_; _; _]); [done|compute; lia].
  - intros bh e w'. eapply (Hcatch _ [_; _; _; _]); [done|compute; lia].
  - intros bh sig w'. repeat svc_step. eexists [_; _; _; _; _].
    split_and!; [done|compute; lia|lia|done].
Qed.

(** What a standalone VRF request does to the cooldown clock. *)
Definition cooled_down (p : Proc) (res : Res bool) (p' : Proc) : Prop :=
  exists evs, history p' = evs ++ history p /\
    (Exists is_send evs -> exists ms, EvNow ms ∈ evs /\
       VRF_COOLDOWN_SEC C <= ms / 1000 - lastVrfSentAt (local p)) /\
    (res = Ok true -> exists ms ev, head (tail evs) = Some (EvNow ms) /\
       head (tail (tail evs)) = Some ev /\ is_send ev /\
       lastVrfSentAt (local p') = ms / 1000) /\
    (res <> Ok true -> local p' = local p).

Lemma cooled_down_stop (p q : Proc) res evs :
  local q = local p -> history q = evs ++ history p -> Forall (fun ev => ~ is_send ev) evs ->
  res <> Ok true -> cooled_down p res q.
Proof.
  intros Hl Hh Hf Hr. exists evs. split_and!; [done| |done|done].
  intros (ev & Hin & Hev)%Exists_exists. exfalso. rewrite Forall_forall in Hf. by apply (Hf ev).
Qed.

(** VRF requests are spaced: the handler sends one only when a clock reading is at
    least the cooldown after the last recorded request, and a confirmed request
    records the clock reading that follows it. *)
Theorem vrf_cooldown r (p : Proc) :
  wp (handleRequestVrf A env C payer r) (cooled_down p) p.
Proof.
  unfold handleRequestVrf. svc_step.
  assert (Hquiet1 : forall ev : Event, ~ is_send ev -> Forall (fun ev => ~ is_send ev) [ev])
    by (by intros; constructor).
  apply wp_fetchRound; intros; cbn [local history].
  - by eapply (cooled_down_stop _ _ _ []).
  - eapply (cooled_down_stop _ _ _ [_]); [done|done|apply Hquiet1; by intros []|done].
  - svc_step. eapply (cooled_down_stop _ _ _ [_]); [done|done|apply Hquiet1; by intros []|done].
  - eapply (cooled_down_stop _ _ _ [_]); [done|done|apply Hquiet1; by intros []|done].
  - destruct (negb _).
    { svc_step. eapply (cooled_down_stop _ _ _ [_]); [done|done|apply Hquiet1; by intros []|done]. }
    svc_step. apply wp_now. intros ms w'. svc_step. svc_step.
    destruct (_ <? VRF_COOLDOWN_SEC C) eqn:Ecool.
    { svc_step. eapply (cooled_down_stop _ _ _ [_; _]); [done|done| |done].
      by repeat constructor; intros []. }
    apply Z.ltb_ge in Ecool. cbn [local] in Ecool. repeat svc_step.
    destruct (CrankIx.buildRequestVrf A payer r) as [ix|e].
    2:{ repeat svc_step. eapply (cooled_down_stop _ _ _ [_; _; _; _]); [done|done| |done].
        by repeat constructor; intros []. }
    apply wp_signAndSend.
    + intros e w2. repeat svc_step.
      eapply (cooled_down_stop _ _ _ [_; _; _; _; _]); [done|done| |done].
      by repeat constructor; intros [].
    + intros bh e w2. repeat svc_step. eexists [_; _; _; _; _; _].
      split_and!; [done| |done|done]. intros _. exists ms. split; [|done].
      do 4 right. left.
    + intros bh sig w2. svc_step. apply wp_now. intros ms' w3. repeat svc_step.
      eexists [_; _; _; _; _; _; _]. split_and!; [done| | |done].
      * intros _. exists ms. split; [|done]. do 5 right. left.
      * intros _. by eexists ms', _.
Qed.

(** The poll moved on from its round: the next id is current, the round is tracked,
    the lock and VRF marks are reset, and no transaction was sent. *)
Definition left_behind (p : Proc) (res : Res unit) (p' : Proc) : Prop :=
  res = Ok tt /\
  currentRoundId (local p') = currentRoundId (local p) + 1 /\
  currentRoundId (local p) ∈ backgroundRounds (local p') /\
  lastLockedRound (local p') = 0 /\ lastVrfSentAt (local p') = 0 /\
  exists evs, history p' = evs ++ history p /\ Forall (fun ev => ~ is_send ev) evs.

(** A finished round never blocks the crank: when the current round is seen
    settled, claimed or cancelled, the poll moves to the next id, hands the round to
    the background, resets the lock and VRF marks, and sends nothing. *)
Theorem finished_round_advances rd (p : Proc) :
  (Crank.status rd = RoundStatus.Settled \/ is_terminal (Crank.status rd) = true) ->
  wp (handle_current A env C payer (currentRoundId (local p)) rd) (left_behind p) p.
Proof.
  intros Hst.
  assert (Hadv : forall word rest q evs, local q = local p -> history q = evs ++ history p ->
    Forall (fun ev => ~ is_send ev) evs ->
    wp (advance C (currentRoundId (local p)) word rest) (left_behind p) q).
  { intros word rest q evs Hl Hh Hf. unfold advance. svc_step.
    eapply wp_mono; [apply track_wp|]. intros res q' ((evs' & Hh' & Hf') & -> & t & Hl').
    repeat svc_step. apply wp_health. intros q2 [[] (evs2 & Hh2 & Hf2)].
    cbn [local set_local history] in *. rewrite Hl', Hl in *. cbn in *.
    split_and!; try done.
    - rewrite sc_bg. apply elem_of_set_add. by left.
    - eexists (evs2 ++ _ :: evs' ++ evs). split.
      { rewrite Hh2, Hh', Hh. by rewrite <- !app_assoc, <- app_comm_cons, <- app_assoc. }
      apply Forall_app. split; [done|]. constructor; [by intros []|]. by apply Forall_app. }
  unfold handle_current, publish. destruct Hst as [-> |Hst].
  - cbn. svc_step. destruct (isTapestryEnabled C); svc_step.
    + eapply (Hadv _ _ _ [_]); [done|done|]. constructor; [by intros []|done].
    + by eapply (Hadv _ _ _ []).
  - unfold is_terminal in Hst. rewrite Hst.
    assert (Crank.status rd = 4 \/ Crank.status rd = 5) as [-> | ->].
    { apply orb_true_iff in Hst as [?%Z.eqb_eq|?%Z.eqb_eq]; auto. }
    all: cbn; by eapply (Hadv _ _ _ []).
Qed.
End main.

(** ** Witnesses *)

Module CrankWitness.
#[local] Existing Instance ToyKeys.keys.
#[local] Existing Instance ToySolana.libs.
#[local] Existing Instance ToySolana.services.

Definition k (n : Z) : PublicKey := ToyKeys.mk (le_encode 4 n).
Definition addresses : Addresses := mkAddresses (k 1) (k 2) (k 3) (k 4) (k 5) (k 6) (k 7).
Definition config : CrankConfig :=
  mkCrankConfig 3 5 5 60 12 60 50 (mkThresholds 90 180 300 180) 60 15 false.
Definition no_env : string -> option string := fun _ => None.

(** No account exists yet and transactions succeed. *)
Definition world0 : World := ToySolana.mkScript 1700000000000 [] (Ok "signature").
Definition booted : Res (option (option Z)) * Proc CrankState World Event :=
  startup addresses None config (mkProc initial_state world0 []).
Definition p0 : Proc CrankState World Event := snd booted.
Definition p1 : Proc CrankState World Event := snd (tick addresses no_env None config (k 9) p0).

Lemma booted_ok : fst booted = Ok (Some (Some 1)).
Proof. vm_compute. reflexivity. Qed.

Lemma reach0 : reachable addresses no_env None config (k 9) p0.
Proof.
  eapply reach_start. rewrite <- booted_ok. apply surjective_pairing.
Qed.

Lemma reach1 : reachable addresses no_env None config (k 9) p1.
Proof. eapply reach_tick; [exact reach0|]. apply surjective_pairing. Qed.

Lemma backoff_ok : 0 < CLEANUP_BACKOFF_MIN_SEC config <= CLEANUP_BACKOFF_MAX_SEC config.
Proof. simpl. lia. Qed.

(** The first poll created round 1, with one authorised transaction. *)
Lemma crank_sends_authorised_witness :
  length (filter is_send (history p1)) = 1%nat /\
  safe_history addresses no_env config (k 9) (history p1).
Proof.
  split; [vm_compute; reflexivity|].
  exact (crank_sends_authorised addresses no_env None config (k 9) backoff_ok p1 reach1).
Defined.

Lemma crank_state_wf_witness : crank_wf config (local p1).
Proof. exact (crank_state_wf addresses no_env None config (k 9) backoff_ok p1 reach1). Defined.

Lemma tick_advances_by_one_witness :
  currentRoundId (local p0) = 1 /\
  (currentRoundId (local p1) = currentRoundId (local p0) \/
   (currentRoundId (local p1) = currentRoundId (local p0) + 1 /\
    currentRoundId (local p0) ∈ backgroundRounds (local p1))).
Proof.
  split; [vm_compute; reflexivity|].
  apply (tick_advances_by_one addresses no_env None config (k 9) backoff_ok p0
    (fst (tick addresses no_env None config (k 9) p0)) p1 reach0).
  apply surjective_pairing.
Defined.

Definition settled : Crank.RoundData :=
  Crank.mkRoundData 1 3 255 0 0 0 (k 20) 1000000 100 2 [] 7 (k 21) [k 21; k 22] defaultKey.

Lemma finished_round_advances_witness :
  let p2 := snd (handle_current addresses no_env config (k 9) 1 settled p0) in
  currentRoundId (local p2) = 2 /\ 1 ∈ backgroundRounds (local p2) /\
  wp (handle_current addresses no_env config (k 9) (currentRoundId (local p0)) settled) (left_behind p0) p0.
Proof.
  split_and!; [vm_compute; reflexivity|vm_compute; left|].
  apply (finished_round_advances addresses no_env config (k 9) settled p0). left. reflexivity.
Defined.
End CrankWitness.
