(* ===== verification/DegenExecutor.v ===== *)
(** * DegenExecutor: crank/src/degenExecutor.ts

    The service that turns a winner's claim into a token swap: candidates in the
    order of the VRF randomness, for each an escalating slippage and a shrinking
    account limit, one atomic begin / swap / finalize transaction per attempt,
    simulated before it is sent, and the fallback payout when every candidate
    failed and its time has come.

    Jupiter's answers are typed records, as the source casts them; a request is
    recorded by its parameters.  Log lines are not modelled here. *)

From stdpp Require Import base list gmap strings pretty.
From Stdlib Require Import ZArith Lia Ascii Strings.Byte SpecFloat.
From S2P Require Import Prelude Buffers Accounts JsRuntime DegenLogic Effects Solana Instructions.

Local Open Scope string_scope.
Local Open Scope list_scope.
Local Open Scope Z_scope.
Set Warnings "-clear-no-such-hyp".

(** ** Data *)

Record DegenClaimAccount `{Web3Keys} := mkClaim {
  cl_round : PublicKey;
  cl_winner : PublicKey;
  cl_roundId : Z;
  cl_status : Z;
  cl_tokenIndex : Z;
  cl_poolVersion : Z;
  cl_candidateWindow : Z;
  cl_randomness : bytes;
  cl_payoutRaw : Z;
  cl_fallbackAfterTs : Z
}.

Record SerializedAccount := mkSerAccount { sa_pubkey : string; sa_isSigner : bool; sa_isWritable : bool }.

Record SerializedInstruction := mkSerIx {
  si_programId : string;
  si_accounts : list SerializedAccount;
  si_data : string
}.

Record JupiterSwapInstructions := mkSwapIxs {
  computeBudgetInstructions : list SerializedInstruction;
  setupInstructions : list SerializedInstruction;
  swapInstruction : SerializedInstruction;
  cleanupInstruction : option SerializedInstruction;
  addressLookupTableAddresses : list string
}.

(** What the code reads of a quote. *)
Record JupiterQuote := mkQuote { otherAmountThreshold : string; routePlan : Json }.

(** The parameters of a quote request; [None] leaves the parameter out. *)
Record QuoteParams := mkQuoteParams {
  q_inputMint : string;
  q_outputMint : string;
  q_amount : string;
  q_slippageBps : num;
  q_maxAccounts : option Z;
  q_onlyDirectRoutes : bool
}.

Record SwapParams := mkSwapParams {
  s_quoteResponse : JupiterQuote;
  s_userPublicKey : string;
  s_destinationTokenAccount : string
}.

(** An HTTP answer whose body is read as a value of type [T]. *)
Record TypedResponse (T : Type) := mkTyped {
  tr_status : Z;
  tr_text : Res string;
  tr_json : Res T
}.
Arguments mkTyped {T}.
Arguments tr_status {T}.
Arguments tr_text {T}.
Arguments tr_json {T}.

Record SignatureStatus := mkSigStatus {
  confirmationStatus : option string;
  (** [JSON.stringify(status.err)] when the transaction failed on chain *)
  ss_err : option string
}.

(** ** Libraries and services of the executor *)

Class ExecutorLibs `{SolanaLibs} := {
  (** [AddressLookupTableAccount] and its deserialisation *)
  ALT : Type;
  altDeserialize : PublicKey -> bytes -> Res ALT;
  TOKEN_2022_PROGRAM_ID : PublicKey;
  (** [getAssociatedTokenAddress(mint, owner, true, tokenProgram)] *)
  getAssociatedTokenAddressFor : PublicKey -> PublicKey -> bool -> PublicKey -> Res PublicKey;
  createAssociatedTokenAccountIdempotent :
    PublicKey -> PublicKey -> PublicKey -> PublicKey -> PublicKey -> TransactionInstruction;
  (** source, destination, owner, amount *)
  createTransfer : PublicKey -> PublicKey -> PublicKey -> Z -> TransactionInstruction;
  base64Bytes : string -> bytes;
  (** [new BN(text)] *)
  newBNText : string -> Res Z;
  (** [BN.prototype.toNumber], which throws beyond 53 bits *)
  bnToNumber : Z -> Res Z;
  nodeSha256 : string -> list Z;
  jsonText : Json -> string
}.

(** A transaction message with its lookup tables. *)
Record VersionedTx `{ExecutorLibs} := mkVtx {
  vt_payer : PublicKey;
  vt_blockhash : string;
  vt_instructions : list TransactionInstruction;
  vt_alts : list ALT
}.
Arguments mkVtx {_ _ _}.

Class ExecutorServices `{ExecutorLibs} := {
  EWorld : Type;
  exDateNow : EWorld -> Z * EWorld;
  exAccountInfo : PublicKey -> EWorld -> Res (option AccountInfo) * EWorld;
  exAccountsInfo : list PublicKey -> EWorld -> Res (list (option AccountInfo)) * EWorld;
  exTokenBalance : PublicKey -> EWorld -> Res Z * EWorld;
  (** blockhash and last valid block height *)
  exBlockhash : EWorld -> Res (string * Z) * EWorld;
  (** [compileToV0Message], which may refuse the accounts *)
  exCompile : VersionedTx -> Res unit;
  (** [tx.serialize().length] *)
  exSerializedLength : VersionedTx -> Res Z;
  (** the simulation's error as JSON text, if any *)
  exSimulate : VersionedTx -> EWorld -> Res (option string) * EWorld;
  exSendTransaction : VersionedTx -> EWorld -> Res string * EWorld;
  (** resolves, with the on-chain error if any, or throws *)
  exConfirm : string -> EWorld -> Res (option string) * EWorld;
  exSignatureStatus : string -> EWorld -> Res (option SignatureStatus) * EWorld;
  exQuote : QuoteParams -> EWorld -> Res (TypedResponse JupiterQuote) * EWorld;
  exSwap : SwapParams -> EWorld -> Res (TypedResponse JupiterSwapInstructions) * EWorld;
  exSleep : Z -> EWorld -> unit * EWorld;
  exAllClaims : EWorld -> Res (list DegenClaimAccount) * EWorld
}.

Inductive ExEvent `{ExecutorLibs} :=
| XNow (ms : Z)
| XAccount (k : PublicKey) (r : Res (option AccountInfo))
| XAccounts (ks : list PublicKey) (r : Res (list (option AccountInfo)))
| XBalance (k : PublicKey) (r : Res Z)
| XBlockhash (r : Res (string * Z))
| XSimulate (tx : VersionedTx) (r : Res (option string))
| XSend (tx : VersionedTx) (r : Res string)
| XConfirm (sig : string) (r : Res (option string))
| XStatus (sig : string) (r : Res (option SignatureStatus))
| XQuote (q : QuoteParams) (r : Res (TypedResponse JupiterQuote))
| XSwap (q : SwapParams) (r : Res (TypedResponse JupiterSwapInstructions))
| XSleep (ms : Z)
| XClaims (r : Res (list DegenClaimAccount)).
Arguments XNow {_ _ _} ms.
Arguments XAccount {_ _ _} k r.
Arguments XAccounts {_ _ _} ks r.
Arguments XBalance {_ _ _} k r.
Arguments XBlockhash {_ _ _} r.
Arguments XSimulate {_ _ _} tx r.
Arguments XSend {_ _ _} tx r.
Arguments XConfirm {_ _ _} sig r.
Arguments XStatus {_ _ _} sig r.
Arguments XQuote {_ _ _} q r.
Arguments XSwap {_ _ _} q r.
Arguments XSleep {_ _ _} ms.
Arguments XClaims {_ _ _} r.

(** The module's variable [mintOwnerCache]: owner of a mint by its address text,
    [None] for a mint that was seen not to exist. *)
Abbreviation MintCache K := (gmap string (option K)).

(** The constants read from the environment. *)
Record ExecutorConfig := mkExConfig {
  SLIPPAGE_SEQUENCE : list num;
  QUOTE_MAX_ACCOUNTS_SEQUENCE : list Z;
  JUPITER_API_KEY : string;
  FALLBACK_CU_LIMIT : Z;
  FALLBACK_PRIORITY_FEE : Z;
  DEGEN_PRIORITY_FEE : Z
}.

Definition DEGEN_DIRECT_USDC_CU_LIMIT : Z := 300000.
Definition MAX_TX_RAW_BYTES : Z := 1232.

Definition js_error (msg : string) : JsError := mkError "Error" msg.

(** [new TxTimeoutError(signature)] *)
Definition TxTimeoutError (signature : string) : JsError :=
  mkError "TxTimeoutError" ("tx timeout (may have landed): " +:+ signature).

Definition isConfirmTimeoutError (error : JsError) : bool :=
  let msg := err_message error in
  includes msg "was not confirmed in" ||
  includes msg "TransactionExpiredTimeoutError" ||
  includes msg "TransactionExpiredBlockheightExceededError".

(** ** Operations *)

Section executor.
Context `{ExecutorServices}.
Context (A : Addresses) (X : ExecutorConfig).
(** the compute budget program's address, the executor's key, the optional lookup
    table, the default pool, the loaded pool and SHA-256 *)
Context (COMPUTE_BUDGET_PROGRAM executor : PublicKey) (jackpotAlt : option ALT).
Context (DEGEN_POOL : list string) (dynamicPool : option (list string)).
Context (subtleDigest : bytes -> bytes).
Local Abbreviation Cache := (MintCache PublicKey).
Local Abbreviation M := (M Cache EWorld ExEvent).

Definition x_now : M Z := invoke_total exDateNow XNow.
Definition x_account (k : PublicKey) : M (option AccountInfo) :=
  invoke (exAccountInfo k) (XAccount k).
Definition x_accounts (ks : list PublicKey) : M (list (option AccountInfo)) :=
  invoke (exAccountsInfo ks) (XAccounts ks).
Definition x_balance (k : PublicKey) : M Z := invoke (exTokenBalance k) (XBalance k).
Definition x_blockhash : M (string * Z) := invoke exBlockhash XBlockhash.
Definition x_simulate (tx : VersionedTx) : M (option string) :=
  invoke (exSimulate tx) (XSimulate tx).
Definition x_send (tx : VersionedTx) : M string := invoke (exSendTransaction tx) (XSend tx).
Definition x_confirm (sig : string) : M (option string) := invoke (exConfirm sig) (XConfirm sig).
Definition x_status (sig : string) : M (option SignatureStatus) :=
  invoke (exSignatureStatus sig) (XStatus sig).
Definition x_sleep (ms : Z) : M unit := invoke_total (exSleep ms) (fun _ => XSleep ms).

(** [jupiterFetch]: a missing key and a status outside 200-299 throw; an abort on
    time-out is a [fetch] that throws. *)
Definition jupiterFetch {T} (call : M (TypedResponse T)) : M T :=
  if String.eqb (JUPITER_API_KEY X) "" then throw (js_error "Missing JUPITER_API_KEY")
  else
    response ← call;
    if negb ((200 <=? tr_status response) && (tr_status response <=? 299)) then
      text ← lift (tr_text response);
      throw (js_error ("Jupiter " +:+ pretty (tr_status response) +:+ ": " +:+ text))
    else lift (tr_json response).

Definition quote_params (outputMint amount : string) (maxAccounts : option Z)
    (onlyDirectRoutes : bool) (slippageBps : option num) : QuoteParams :=
  mkQuoteParams (toBase58 (USDC_MINT A)) outputMint amount
    (match slippageBps with
     | Some b => b
     | None => default (num_of_Z 300) (head (SLIPPAGE_SEQUENCE X))
     end)
    (match maxAccounts with
     | Some n => if n =? 0 then None else Some n
     | None => None
     end)
    onlyDirectRoutes.

Definition getQuoteWithMaxAccounts (outputMint amount : string) (maxAccounts : option Z)
    (onlyDirectRoutes : bool) (slippageBps : option num) : M JupiterQuote :=
  let q := quote_params outputMint amount maxAccounts onlyDirectRoutes slippageBps in
  jupiterFetch (invoke (exQuote q) (XQuote q)).

Definition getSwapInstructions (userPublicKey : string) (quote : JupiterQuote)
    (destinationTokenAccount : string) : M JupiterSwapInstructions :=
  let q := mkSwapParams quote userPublicKey destinationTokenAccount in
  jupiterFetch (invoke (exSwap q) (XSwap q)).

Definition getMintOwner (mint : PublicKey) : M (option PublicKey) :=
  let key := toBase58 mint in
  cached ← gets (fun c : Cache => c !! key);
  match cached with
  | Some owner => mret owner
  | None =>
      info ← x_account mint;
      let owner := ai_owner <$> info in
      modify (fun c : Cache => <[key := owner]> c) ;;
      mret owner
  end.

Definition deserializeInstruction (ix : SerializedInstruction) : Res TransactionInstruction :=
  programId ← keyOfString (si_programId ix);
  keys ← res_mapM (fun account =>
           k ← keyOfString (sa_pubkey account);
           Ok (mkMeta k (sa_isSigner account) (sa_isWritable account))) (si_accounts ix);
  Ok (mkIx programId keys (base64Bytes (si_data ix))).

Definition resolveLookupTables (addresses : list string) : M (list ALT) :=
  if (length addresses =? 0)%nat then mret []
  else
    ks ← lift (res_mapM keyOfString addresses);
    accounts ← x_accounts ks;
    alts ← lift (res_mapM (fun entry : string * option AccountInfo =>
             match snd entry with
             | None => Ok []
             | Some account =>
                 k ← keyOfString (fst entry);
                 alt ← altDeserialize k (ai_data account);
                 Ok [alt]
             end) (zip addresses accounts));
    mret (concat alts).

(** [routeHashFromQuote] *)
Definition routeHashFromQuote (quote : JupiterQuote) : list Z := nodeSha256 (jsonText (routePlan quote)).

(** A stale balance of the executor's account is drained first; an account that
    cannot be read is left alone. *)
Definition drain_instructions (executorUsdcAta : PublicKey) : M (list TransactionInstruction) :=
  try_catch
    (staleAmount ← x_balance executorUsdcAta;
     if 0 <? staleAmount
     then mret [createTransfer executorUsdcAta (TREASURY_USDC_ATA A) executor staleAmount]
     else mret [])
    (fun _ => mret []).

Record BuiltTx := mkBuilt { bt_tx : VersionedTx; bt_blockhash : string; bt_lastValid : Z }.

(** The instructions of a direct USDC payout. *)
Definition direct_instructions (prefixIxs : list TransactionInstruction)
    (beginIx : TransactionInstruction) (executorUsdcAta receiverAta : PublicKey) (payoutRaw : Z)
    : list TransactionInstruction :=
  [setComputeUnitLimit DEGEN_DIRECT_USDC_CU_LIMIT] ++ prefixIxs ++
  [setComputeUnitPrice (DEGEN_PRIORITY_FEE X); beginIx] ++
  [createTransfer executorUsdcAta receiverAta executor payoutRaw].

(** Jupiter's limit instructions are kept, its price replaced. *)
Definition keeps_cu_limit (ix : TransactionInstruction) : bool :=
  bool_decide (programId ix = COMPUTE_BUDGET_PROGRAM) &&
  bool_decide (byte_val <$> head (ix_data ix) = Some 2).

(** The instructions of a swap and its lookup tables. *)
Definition swap_instructions (claim : DegenClaimAccount) (candidate : Candidate)
    (prefixIxs : list TransactionInstruction) (selectedMint receiverAta : PublicKey)
    (payoutRaw : Z) (maxAccounts : option Z) (onlyDirectRoutes : bool)
    (slippageBps : option num) (vrfPayer : option PublicKey)
    : M (list TransactionInstruction * list ALT) :=
  quote ← getQuoteWithMaxAccounts (c_mint candidate) (pretty payoutRaw) maxAccounts
            onlyDirectRoutes slippageBps;
  swapIxs ← getSwapInstructions (toBase58 executor) quote (toBase58 receiverAta);
  jupCuIxs ← lift (res_mapM deserializeInstruction (computeBudgetInstructions swapIxs));
  let computeBudgetIxs :=
    filter (fun ix => keeps_cu_limit ix = true) jupCuIxs ++
    [setComputeUnitPrice (DEGEN_PRIORITY_FEE X)] in
  setup ← lift (res_mapM deserializeInstruction (setupInstructions swapIxs));
  swap ← lift (deserializeInstruction (swapInstruction swapIxs));
  cleanup ← lift (match cleanupInstruction swapIxs with
                  | Some ix => ix' ← deserializeInstruction ix; Ok [ix']
                  | None => Ok []
                  end);
  roundId ← lift (bnToNumber (cl_roundId claim));
  minOut ← lift (newBNText (otherAmountThreshold quote));
  beginIx ← lift (CrankIx.buildBeginDegenExecution A executor (cl_winner claim)
              roundId (c_rank candidate) (c_index candidate) minOut
              (routeHashFromQuote quote) selectedMint receiverAta vrfPayer);
  alts ← resolveLookupTables (addressLookupTableAddresses swapIxs);
  mret (prefixIxs ++ computeBudgetIxs ++ [beginIx] ++ setup ++ [swap] ++ cleanup, alts).

Definition buildExecutionTx (claim : DegenClaimAccount) (candidate : Candidate) (payoutRaw : Z)
    (maxAccounts : option Z) (onlyDirectRoutes : bool) (slippageBps : option num)
    (vrfPayer : option PublicKey) : M BuiltTx :=
  let winner := cl_winner claim in
  selectedMint ← lift (keyOfString (c_mint candidate));
  selectedMintOwner ← getMintOwner selectedMint;
  match selectedMintOwner with
  | None =>
      throw (js_error ("selected mint account not found: " +:+ toBase58 selectedMint))
  | Some mintOwner =>
      if negb (bool_decide (mintOwner = TOKEN_PROGRAM_ID)) &&
         negb (bool_decide (mintOwner = TOKEN_2022_PROGRAM_ID)) then
        throw (js_error ("unsupported selected mint program for v3 degen execution: " +:+
                         toBase58 selectedMint +:+ " owner=" +:+ toBase58 mintOwner))
      else
        receiverAta ← lift (getAssociatedTokenAddressFor selectedMint winner true mintOwner);
        executorUsdcAta ← lift (getAssociatedTokenAddress (USDC_MINT A) executor false);
        drainIxs ← drain_instructions executorUsdcAta;
        let prefixIxs := drainIxs ++
          [createAssociatedTokenAccountIdempotent executor receiverAta winner selectedMint
             mintOwner] in
        let isDirect := bool_decide (c_mint candidate = toBase58 (USDC_MINT A)) in
        let routeHash := if isDirect then nodeSha256 "direct-usdc" else replicate 32 0 in
        minOutRaw ← lift (newBNText (pretty payoutRaw));
        roundId ← lift (bnToNumber (cl_roundId claim));
        beginIx ← lift (CrankIx.buildBeginDegenExecution A executor winner roundId
                    (c_rank candidate) (c_index candidate) minOutRaw routeHash selectedMint
                    receiverAta vrfPayer);
        finalizeIx ← lift (CrankIx.buildFinalizeDegenSuccess A executor winner
                       roundId receiverAta);
        parts ← (if isDirect then
                   ata ← lift (getAssociatedTokenAddress (USDC_MINT A) executor false);
                   mret (direct_instructions prefixIxs beginIx ata receiverAta payoutRaw, [])
                 else
                   swap_instructions claim candidate prefixIxs selectedMint receiverAta payoutRaw
                     maxAccounts onlyDirectRoutes slippageBps vrfPayer);
        let '(ixs, alts) := (parts : list TransactionInstruction * list ALT) in
        let allIxs := ixs ++ [finalizeIx] in
        let mergedAlts := match jackpotAlt with Some a => a :: alts | None => alts end in
        bh ← x_blockhash;
        let tx := mkVtx executor (fst bh) allIxs mergedAlts in
        lift (exCompile tx) ;;
        mret (mkBuilt tx (fst bh) (snd bh))
  end.

(** The size check: an oversized transaction throws with a message that
    [isTxTooLargeError] recognises; other serialisation errors pass through. *)
Definition check_size (tx : VersionedTx) : M unit :=
  match exSerializedLength tx with
  | Throw error =>
      if isTxTooLargeError error then throw (js_error (err_message error)) else throw error
  | Ok n =>
      if MAX_TX_RAW_BYTES <? n then
        let error := js_error ("transaction too large: " +:+ pretty n +:+ " bytes (max " +:+
                               pretty MAX_TX_RAW_BYTES +:+ ")") in
        if isTxTooLargeError error then throw (js_error (err_message error)) else throw error
      else mret tt
  end.

(** The polls after a confirmation time-out: [Some sig] when the transaction landed. *)
Fixpoint poll_status (attempts : nat) (sig : string) : M (option string) :=
  match attempts with
  | O => mret None
  | S attempts =>
      x_sleep 5000 ;;
      status ← x_status sig;
      match status with
      | Some st =>
          if bool_decide (confirmationStatus st = Some "confirmed") ||
             bool_decide (confirmationStatus st = Some "finalized") then
            match ss_err st with
            | None => mret (Some sig)
            | Some err => throw (js_error ("tx landed with error: " +:+ err))
            end
          else poll_status attempts sig
      | None => poll_status attempts sig
      end
  end.

(** The value [confirmTransaction] resolves with is not looked at. *)
Definition simulateAndSend (tx : VersionedTx) : M string :=
  check_size tx ;;
  simulation ← x_simulate tx;
  match simulation with
  | Some err => throw (js_error ("simulation failed: " +:+ err))
  | None =>
      sig ← x_send tx;
      try_catch (_ ← x_confirm sig; mret sig)
        (fun confirmErr =>
           if isConfirmTimeoutError confirmErr then
             landed ← poll_status 3 sig;
             match landed with
             | Some sig => mret sig
             | None => throw (TxTimeoutError sig)
             end
           else throw confirmErr)
  end.

(** One attempt on a candidate. *)
Definition attempt (claim : DegenClaimAccount) (candidate : Candidate) (payoutRaw : Z)
    (maxAccounts : option Z) (onlyDirectRoutes : bool) (slippageBps : option num)
    (vrfPayer : option PublicKey) : M string :=
  built ← buildExecutionTx claim candidate payoutRaw maxAccounts onlyDirectRoutes slippageBps
            vrfPayer;
  simulateAndSend (bt_tx built).

(** The errors remembered by the loops of a candidate. *)
Record LoopErrors := mkLoop { lastSizedError : option JsError; lastSlippageError : option JsError }.

Definition sized_error (error : JsError) (maxAccounts : option Z) : JsError :=
  js_error (err_message error +:+
    match maxAccounts with
    | Some n => if n =? 0 then "" else " (maxAccounts=" +:+ pretty n +:+ ")"
    | None => ""
    end).

Section candidate.
Context (claim : DegenClaimAccount) (payoutRaw : Z) (vrfPayer : option PublicKey).
Context (candidate : Candidate) (directUsdc : bool).

(** The inner loop: shrinking account limits.  [None] means executed. *)
Fixpoint accounts_loop (limits : list (option Z)) (slipBps : option num) (st : LoopErrors)
    : M (option LoopErrors) :=
  match limits with
  | [] => mret (Some st)
  | maxAccounts :: limits =>
      r ← try_catch
            (_ ← attempt claim candidate payoutRaw maxAccounts false slipBps vrfPayer;
             mret (inl tt))
            (fun error =>
               if isTxTooLargeError error && negb directUsdc then
                 mret (inr (true, mkLoop (Some (sized_error error maxAccounts))
                                    (lastSlippageError st)))
               else if isSlippageError (err_message error) then
                 mret (inr (false, mkLoop (lastSizedError st) (Some error)))
               else throw error);
      match (r : unit + bool * LoopErrors) with
      | inl _ => mret None
      | inr (true, st) => accounts_loop limits slipBps st
      | inr (false, st) => mret (Some st)
      end
  end.

(** The last resort of a slippage step: a single-hop route with 20 accounts. *)
Definition direct_route (slipBps : option num) (st : LoopErrors) : M (option LoopErrors) :=
  match lastSizedError st with
  | None => mret (Some st)
  | Some _ =>
      if directUsdc then mret (Some st)
      else
        try_catch
          (_ ← attempt claim candidate payoutRaw (Some 20) true slipBps vrfPayer; mret None)
          (fun directError =>
             if isTxTooLargeError directError then
               mret (Some (mkLoop (Some (js_error (err_message directError +:+
                             " (directRoute maxAccounts=20)"))) (lastSlippageError st)))
             else if isSlippageError (err_message directError) then
               mret (Some (mkLoop (lastSizedError st) (Some directError)))
             else throw directError)
  end.

(** The outer loop: escalating slippage. *)
Fixpoint slippage_loop (limits : list (option Z)) (steps : list (option num)) (st : LoopErrors)
    : M (option LoopErrors) :=
  match steps with
  | [] => mret (Some st)
  | slipBps :: steps =>
      r ← accounts_loop limits slipBps (mkLoop None (lastSlippageError st));
      match r with
      | None => mret None
      | Some st =>
          r' ← direct_route slipBps st;
          match r' with
          | None => mret None
          | Some st => slippage_loop limits steps st
          end
      end
  end.

(** The body of the candidate loop's [try]: whether the claim was executed. *)
Definition candidate_attempts : M bool :=
  let limits := if directUsdc then [None] else Some <$> QUOTE_MAX_ACCOUNTS_SEQUENCE X in
  let steps := if directUsdc then [None] else Some <$> SLIPPAGE_SEQUENCE X in
  r ← slippage_loop limits steps (mkLoop None None);
  match r with
  | None => mret true
  | Some st =>
      match lastSizedError st, lastSlippageError st with
      | Some e, _ => throw e
      | None, Some e => throw e
      | None, None => mret false
      end
  end.

(** The filters before the attempts: [false] when Jupiter has no route. *)
Definition candidate_viable : M bool :=
  if directUsdc then mret true
  else
    selectedMint ← lift (keyOfString (c_mint candidate));
    mintOwner ← getMintOwner selectedMint;
    let supported :=
      match mintOwner with
      | Some o => bool_decide (o = TOKEN_PROGRAM_ID) || bool_decide (o = TOKEN_2022_PROGRAM_ID)
      | None => false
      end in
    if negb supported then
      throw (js_error ("unsupported mint program: " +:+
                       match mintOwner with Some o => toBase58 o | None => "unknown" end))
    else
      try_catch
        (_ ← getQuoteWithMaxAccounts (c_mint candidate) (pretty payoutRaw) None false None;
         mret true)
        (fun _ => mret false).

(** After a time-out the claim is read: [true] when it left the ready state. *)
Definition landed_check : M bool :=
  try_catch
    (roundId ← lift (bnToNumber (cl_roundId claim));
     dcPda ← lift (getDegenClaimPda A roundId (cl_winner claim));
     dcInfo ← x_account dcPda;
     match dcInfo with
     | Some info =>
         match byte_at (ai_data info) (DISC + 72) with
         | Some onChainStatus => mret (DegenClaimStatus.Executing <=? onChainStatus)
         | None => mret false
         end
     | None => mret false
     end)
    (fun _ => mret false).

(** One candidate: [true] stops the claim's processing. *)
Definition process_candidate : M bool :=
  try_catch
    (viable ← candidate_viable;
     if (viable : bool) then candidate_attempts else mret false)
    (fun error =>
       if bool_decide (err_name error = "TxTimeoutError") || isConfirmTimeoutError error
       then landed_check else mret false).
End candidate.

(** ** A claim *)

(** [for (const candidate of candidates)]: whether the claim's processing returned. *)
Fixpoint candidates_loop (claim : DegenClaimAccount) (payoutRaw : Z)
    (vrfPayer : option PublicKey) (candidates : list Candidate) : M bool :=
  match candidates with
  | [] => mret false
  | candidate :: candidates =>
      let directUsdc := bool_decide (c_mint candidate = toBase58 (USDC_MINT A)) in
      stop ← process_candidate claim payoutRaw vrfPayer candidate directUsdc;
      if (stop : bool) then mret true else candidates_loop claim payoutRaw vrfPayer candidates
  end.

Definition FALLBACK_REASON : Z := 3.

Definition fallback_tx (claim : DegenClaimAccount) : M VersionedTx :=
  let winner := cl_winner claim in
  winnerAta ← lift (getAssociatedTokenAddress (USDC_MINT A) winner false);
  let prefixIxs :=
    [setComputeUnitLimit (FALLBACK_CU_LIMIT X);
     setComputeUnitPrice (FALLBACK_PRIORITY_FEE X);
     createAssociatedTokenAccountIdempotent executor winnerAta winner (USDC_MINT A)
       TOKEN_PROGRAM_ID] in
  roundId ← lift (bnToNumber (cl_roundId claim));
  fallbackIx ← lift (CrankIx.buildAutoClaimDegenFallback A executor winner roundId
                 FALLBACK_REASON);
  bh ← x_blockhash;
  let tx := mkVtx executor (fst bh) (prefixIxs ++ [fallbackIx]) [] in
  lift (exCompile tx) ;;
  mret tx.

Definition run_fallback (claim : DegenClaimAccount) : M unit :=
  let fallbackAt := round53 (cl_fallbackAfterTs claim) in
  ms ← x_now;
  let nowSec := ms / 1000 in
  if fallbackAt <=? nowSec then
    try_catch (tx ← fallback_tx claim; _ ← simulateAndSend tx; mret tt) (fun _ => mret tt)
  else mret tt.

(** The checks before the candidates: the payout and the VRF payer of a claim that
    can be executed. *)
Definition claim_payout (claim : DegenClaimAccount) : M (option (Z * option PublicKey)) :=
  roundInfo ← x_account (cl_round claim);
  match roundInfo with
  | None => mret None
  | Some roundInfo =>
      round ← lift (parseRoundMeta (ai_data roundInfo));
      if negb (bool_decide (meta_status round = Some RoundStatus.Settled)) ||
         negb (bool_decide (meta_degenModeStatus round = Some 2)) then mret None
      else if negb (cl_status claim =? DegenClaimStatus.VrfReady) then mret None
      else
        vrfPayer ← lift (parseRoundVrfPayer (ai_data roundInfo));
        let reimburseVrf := bool_decide (is_Some vrfPayer) in
        configInfo ← x_account (getConfigPda A);
        match configInfo with
        | None => mret None
        | Some configInfo =>
            feeBps ← lift (parseConfigFeeBps (ai_data configInfo));
            let actualPayoutRaw :=
              computeBeginDegenPayout (meta_totalUsdc round) feeBps reimburseVrf in
            if actualPayoutRaw <=? 0 then mret None
            else mret (Some (actualPayoutRaw, vrfPayer))
        end
  end.

(** [candidateWindow || 30] *)
Definition candidate_window (claim : DegenClaimAccount) : Z :=
  if cl_candidateWindow claim =? 0 then 30 else cl_candidateWindow claim.

(** [None] when the candidate derivation ran out of [fuel]. *)
Definition processReadyClaim (fuel : nat) (claim : DegenClaimAccount) : M (option unit) :=
  ready ← claim_payout claim;
  match ready with
  | None => mret (Some tt)
  | Some (payoutRaw, vrfPayer) =>
      match deriveCandidates subtleDigest fuel (cl_randomness claim) (cl_poolVersion claim)
              (candidate_window claim) (default DEGEN_POOL dynamicPool) with
      | None => mret None
      | Some candidates =>
          candidates ← lift candidates;
          stop ← candidates_loop claim payoutRaw vrfPayer candidates;
          if (stop : bool) then mret (Some tt)
          else run_fallback claim ;; mret (Some tt)
      end
  end.

(** ** The service *)

Definition fetchReadyClaims : M (list DegenClaimAccount) :=
  accounts ← invoke exAllClaims XClaims;
  mret (filter (fun c => cl_status c = DegenClaimStatus.VrfReady) accounts).

(** The executor's token account is created once at start-up. *)
Definition ensureExecutorAta : M unit :=
  executorUsdcAta ← lift (getAssociatedTokenAddress (USDC_MINT A) executor false);
  info ← x_account executorUsdcAta;
  match info with
  | Some _ => mret tt
  | None =>
      let ix := createAssociatedTokenAccountIdempotent executor executorUsdcAta executor
                  (USDC_MINT A) TOKEN_PROGRAM_ID in
      bh ← x_blockhash;
      let tx := mkVtx executor (fst bh) [ix] [] in
      lift (exCompile tx) ;;
      sig ← x_send tx;
      _ ← x_confirm sig;
      mret tt
  end.

(** The claims of one pass, in order; an exception abandons the rest of the pass. *)
Fixpoint process_claims (fuel : nat) (claims : list DegenClaimAccount) : M (option unit) :=
  match claims with
  | [] => mret (Some tt)
  | claim :: claims =>
      r ← processReadyClaim fuel claim;
      match r with
      | None => mret None
      | Some _ => process_claims fuel claims
      end
  end.

(** One iteration of the main loop. *)
Definition executor_pass (fuel : nat) : M (option unit) :=
  try_catch
    (claims ← fetchReadyClaims; process_claims fuel claims)
    (fun _ => mret (Some tt)).

(** [do { ... } while (!ONE_SHOT)]: the first [passes] iterations. *)
Fixpoint executor_loop (POLL_MS : Z) (ONE_SHOT : bool) (fuel passes : nat) : M (option unit) :=
  match passes with
  | O => mret (Some tt)
  | S passes =>
      r ← executor_pass fuel;
      match r with
      | None => mret None
      | Some _ =>
          if ONE_SHOT then mret (Some tt)
          else x_sleep POLL_MS ;; executor_loop POLL_MS ONE_SHOT fuel passes
      end
  end.
End executor.
