(* ===== verification/ExecutorSafety.v ===== *)
(** * ExecutorSafety: what the degen executor sends

    Every transaction of a pass was simulated without error right before, fits the
    size limit and is either the atomic begin / swap / finalize of a claim that was
    just seen ready, or a fallback whose time had come; once a transaction of a claim
    is seen confirmed nothing more is done for that claim. *)

From stdpp Require Import base list gmap strings pretty.
From Stdlib Require Import ZArith Lia Ascii Strings.Byte SpecFloat.
From S2P Require Import Prelude Buffers Accounts JsRuntime DegenLogic Effects Solana Instructions DegenExecutor.

Local Open Scope string_scope.
Local Open Scope list_scope.
Local Open Scope Z_scope.
Set Warnings "-clear-no-such-hyp".

Section safety.
Context `{ExecutorServices}.
Context (A : Addresses) (X : ExecutorConfig).
Context (COMPUTE_BUDGET_PROGRAM executor : PublicKey) (jackpotAlt : option ALT).
Context (DEGEN_POOL : list string) (dynamicPool : option (list string)).
Context (subtleDigest : bytes -> bytes).
Local Abbreviation Cache := (MintCache PublicKey).
Local Abbreviation Proc := (Proc Cache EWorld ExEvent).
Local Abbreviation M := (M Cache EWorld ExEvent).

(** ** Events *)

Definition is_xsend (ev : ExEvent) : Prop := match ev with XSend _ _ => True | _ => False end.

(** The event tells that a transaction landed without an error. *)
Definition is_confirmation (ev : ExEvent) : Prop :=
  match ev with
  | XConfirm _ (Ok _) => True
  | XStatus _ (Ok (Some st)) =>
      ss_err st = None /\
      (confirmationStatus st = Some "confirmed" \/ confirmationStatus st = Some "finalized")
  | _ => False
  end.

(** Events that neither send nor confirm. *)
Definition inert (ev : ExEvent) : Prop := ~ is_xsend ev /\ ~ is_confirmation ev.

(** Only inert events were added. *)
Definition inertly (p p' : Proc) : Prop :=
  exists evs, history p' = evs ++ history p /\ Forall inert evs.

#[export] Instance inertly_refl : Reflexive inertly.
Proof. intros p. by exists []. Qed.

#[export] Instance inertly_trans : Transitive inertly.
Proof.
  intros p q r (l1 & Hh1 & F1) (l2 & Hh2 & F2). exists (l2 ++ l1).
  rewrite Hh2, Hh1, app_assoc. split; [done|]. by apply Forall_app.
Qed.

Lemma inertly_event p s w ev : inert ev -> inertly p (mkProc s w (ev :: history p)).
Proof. intros. exists [ev]. split; [done|]. by constructor. Qed.

Definition inert_run {T} (m : M T) : Prop := forall p, wp m (fun _ p' => inertly p p') p.

Lemma inert_bind {T U} (m : M T) (f : T -> M U) :
  inert_run m -> (forall a, inert_run (f a)) -> inert_run (mbind f m).
Proof.
  intros Hm Hf p. apply wp_bind. eapply wp_mono; [apply Hm|]. intros [a|e] q Hq; [|done].
  eapply wp_mono; [apply Hf|]. intros r q' Hq'. by etrans.
Qed.

Lemma inert_try {T} (m : M T) h :
  inert_run m -> (forall e, inert_run (h e)) -> inert_run (try_catch m h).
Proof.
  intros Hm Hh p. apply wp_try. eapply wp_mono; [apply Hm|]. intros [a|e] q Hq; [done|].
  eapply wp_mono; [apply Hh|]. intros r q' Hq'. by etrans.
Qed.

Lemma inert_ret {T} (a : T) : inert_run (mret a).
Proof. intros p. by apply wp_ret. Qed.
Lemma inert_throw {T} e : inert_run (throw e : M T).
Proof. intros p. by apply wp_throw. Qed.
Lemma inert_lift {T} (r : Res T) : inert_run (lift r).
Proof. intros p. by apply wp_lift. Qed.
Lemma inert_gets {T} (f : Cache -> T) : inert_run (gets f).
Proof. intros p. by apply wp_gets. Qed.
Lemma inert_modify f : inert_run (modify f).
Proof. intros p. apply wp_modify. by exists []. Qed.

Lemma inert_invoke {T} (call : EWorld -> Res T * EWorld) ev :
  (forall r, inert (ev r)) -> inert_run (invoke call ev).
Proof. intros He p. apply wp_invoke. intros r w. by apply inertly_event. Qed.
Lemma inert_invoke_total {T} (call : EWorld -> T * EWorld) ev :
  (forall r, inert (ev r)) -> inert_run (invoke_total call ev).
Proof. intros He p. apply wp_invoke_total. intros r w. by apply inertly_event. Qed.

Hint Resolve inert_ret inert_throw inert_lift inert_gets inert_modify : crank.

Ltac inert_steps :=
  repeat first
    [ solve [auto with crank]
    | apply inert_bind; [|intros ?]
    | apply inert_try; [|intros ?]
    | apply inert_invoke; intros ?; split; solve [intros []]
    | apply inert_invoke_total; intros ?; split; solve [intros []]
    | case_match ].

Lemma inert_now : inert_run x_now.
Proof. unfold x_now. inert_steps. Qed.
Lemma inert_account k : inert_run (x_account k).
Proof. unfold x_account. inert_steps. Qed.
Lemma inert_blockhash : inert_run x_blockhash.
Proof. unfold x_blockhash. inert_steps. Qed.
Hint Resolve inert_now inert_account inert_blockhash : crank.

Lemma inert_mintOwner mint : inert_run (getMintOwner mint).
Proof. unfold getMintOwner. inert_steps. Qed.

Lemma inert_quote m a n d b : inert_run (getQuoteWithMaxAccounts A X m a n d b).
Proof. unfold getQuoteWithMaxAccounts, jupiterFetch. inert_steps. Qed.

Lemma inert_swap u q d : inert_run (getSwapInstructions X u q d).
Proof. unfold getSwapInstructions, jupiterFetch. inert_steps. Qed.

Lemma inert_tables l : inert_run (resolveLookupTables l).
Proof. unfold resolveLookupTables, x_accounts. inert_steps. Qed.

Lemma inert_drain k : inert_run (drain_instructions A executor k).
Proof. unfold drain_instructions, x_balance. inert_steps. Qed.

Hint Resolve inert_mintOwner inert_quote inert_swap inert_tables inert_drain : crank.

Lemma inert_swap_instructions c cand pre mint ata pay n d b v :
  inert_run (swap_instructions A X COMPUTE_BUDGET_PROGRAM executor c cand pre mint ata pay n d b v).
Proof. unfold swap_instructions. inert_steps. Qed.
Hint Resolve inert_swap_instructions : crank.

Lemma inert_build c cand pay n d b v :
  inert_run (buildExecutionTx A X COMPUTE_BUDGET_PROGRAM executor jackpotAlt c cand pay n d b v).
Proof. unfold buildExecutionTx. inert_steps. Qed.

Lemma inert_viable pay cand d : inert_run (candidate_viable A X pay cand d).
Proof. unfold candidate_viable. inert_steps. Qed.

Lemma inert_landed c : inert_run (landed_check A c).
Proof. unfold landed_check. inert_steps. Qed.

Lemma inert_claim_payout c : inert_run (claim_payout A c).
Proof. unfold claim_payout. inert_steps. Qed.

Lemma inert_fallback_tx c : inert_run (fallback_tx A X executor c).
Proof. unfold fallback_tx. inert_steps. Qed.

(** ** The shape of an execution transaction *)

(** The transaction carries one begin instruction for the candidate, then the body,
    and ends with the finalize instruction for the same receiver: all or nothing. *)
Definition execution_shape (claim : DegenClaimAccount) (candidate : Candidate) (payoutRaw : Z)
    (vrfPayer : option PublicKey) (tx : VersionedTx) : Prop :=
  exists roundId mint receiver minOut hash front beginIx body finalizeIx,
    bnToNumber (cl_roundId claim) = Ok roundId /\
    keyOfString (c_mint candidate) = Ok mint /\
    CrankIx.buildBeginDegenExecution A executor (cl_winner claim) roundId
      (c_rank candidate) (c_index candidate) minOut hash mint receiver vrfPayer = Ok beginIx /\
    CrankIx.buildFinalizeDegenSuccess A executor (cl_winner claim) roundId receiver =
      Ok finalizeIx /\
    vt_payer tx = executor /\
    vt_instructions tx = front ++ [beginIx] ++ body ++ [finalizeIx] /\
    (* a direct payout transfers the whole amount and promises it *)
    (c_mint candidate = toBase58 (USDC_MINT A) ->
       newBNText (pretty payoutRaw) = Ok minOut /\ hash = nodeSha256 "direct-usdc" /\
       exists ata, body = [createTransfer ata receiver executor payoutRaw]).

Lemma swap_shape claim candidate pre mint ata pay n d b v p :
  wp (swap_instructions A X COMPUTE_BUDGET_PROGRAM executor claim candidate pre mint ata pay n d b v)
    (fun r _ => forall ixs alts, r = Ok (ixs, alts) ->
       exists roundId front minOut hash beginIx body,
         ixs = front ++ [beginIx] ++ body /\
         bnToNumber (cl_roundId claim) = Ok roundId /\
         CrankIx.buildBeginDegenExecution A executor (cl_winner claim) roundId
           (c_rank candidate) (c_index candidate) minOut hash mint ata v = Ok beginIx) p.
Proof.
  unfold swap_instructions.
  wp_step. apply wp_any. intros [quote|e] q; [|done].
  wp_step. apply wp_any. intros [swapIxs|e] q1; [|done].
  wp_step. wp_step. destruct (res_mapM _ _) as [cu|e]; [|done].
  wp_step. wp_step. destruct (res_mapM _ _) as [setup|e]; [|done].
  wp_step. wp_step. destruct (deserializeInstruction _) as [swap|e]; [|done].
  wp_step. wp_step.
  lazymatch goal with |- match ?r with Ok _ => _ | Throw _ => _ end =>
    destruct r as [cleanup|e]; [|done] end.
  wp_step. wp_step. destruct (bnToNumber _) as [roundId|e] eqn:Er; [|done].
  wp_step. wp_step. destruct (newBNText _) as [minOut|e]; [|done].
  wp_step. wp_step. destruct (CrankIx.buildBeginDegenExecution _ _ _ _ _ _ _ _ _ _ _) as [beginIx|e]
    eqn:Eb; [|done].
  wp_step. apply wp_any. intros [alts|e] q2; [|done]. wp_step. intros ixs alts' [= <- <-].
  exists roundId, (pre ++ filter (fun ix => keeps_cu_limit COMPUTE_BUDGET_PROGRAM ix = true) cu ++
          [setComputeUnitPrice (DEGEN_PRIORITY_FEE X)]), minOut, (routeHashFromQuote quote),
    beginIx, (setup ++ [swap] ++ cleanup).
  split_and!; [by rewrite <- !app_assoc|done|exact Eb].
Qed.

Lemma build_shape claim candidate pay n d b v p :
  wp (buildExecutionTx A X COMPUTE_BUDGET_PROGRAM executor jackpotAlt claim candidate pay n d b v)
    (fun r _ => forall built, r = Ok built ->
       execution_shape claim candidate pay v (bt_tx built)) p.
Proof.
  unfold buildExecutionTx. wp_step. wp_step.
  destruct (keyOfString (c_mint candidate)) as [mint|e] eqn:Em; [|done].
  wp_step. apply wp_any. intros [[owner|]|e] q; [|by wp_step|done].
  destruct (negb _ && negb _); [by wp_step|].
  wp_step. wp_step. destruct (getAssociatedTokenAddressFor _ _ _ _) as [receiver|e]; [|done].
  wp_step. wp_step. destruct (getAssociatedTokenAddress _ _ _) as [ata|e]; [|done].
  wp_step. apply wp_any. intros [drain|e] q1; [|done].
  wp_step. wp_step. destruct (newBNText _) as [minOut|e] eqn:Emin; [|done].
  wp_step. wp_step. destruct (bnToNumber _) as [roundId|e] eqn:Er; [|done].
  wp_step. wp_step. destruct (CrankIx.buildBeginDegenExecution _ _ _ _ _ _ _ _ _ _ _) as [beginIx|e]
    eqn:Eb; [|done].
  wp_step. wp_step. destruct (CrankIx.buildFinalizeDegenSuccess _ _ _ _ _) as [finalizeIx|e] eqn:Ef;
    [|done].
  wp_step. case_bool_decide as Hdirect.
  - wp_step. wp_step. wp_step. wp_step. apply wp_any. intros [bh|e] q2; [|done].
    wp_step. wp_step. destruct (exCompile _); [|done]. wp_step.
    intros built [= <-]. cbn [bt_tx].
    eexists roundId, mint, receiver, minOut, _,
      ([setComputeUnitLimit DEGEN_DIRECT_USDC_CU_LIMIT] ++
       (drain ++ [createAssociatedTokenAccountIdempotent executor receiver (cl_winner claim) mint owner]) ++
       [setComputeUnitPrice (DEGEN_PRIORITY_FEE X)]), beginIx,
      [createTransfer ata receiver executor pay], finalizeIx.
    split_and!; [done|done|exact Eb|done|done| |].
    + cbn [vt_instructions]. unfold direct_instructions. by rewrite <- !app_assoc.
    + intros _. split_and!; [done|done|by eexists].
  - eapply wp_mono; [apply swap_shape|]. intros [[ixs alts]|e] q2 Hs; [|done].
    destruct (Hs ixs alts eq_refl) as (roundId' & front & minOut' & hash & beginIx' & body & -> & Er' & Eb').
    rewrite Er in Er'. injection Er' as <-.
    wp_step. apply wp_any. intros [bh|e] q3; [|done].
    wp_step. wp_step. destruct (exCompile _); [|done]. wp_step. intros built [= <-]. cbn [bt_tx].
    exists roundId, mint, receiver, minOut', hash, front, beginIx', body, finalizeIx.
    split_and!; try done. cbn [vt_instructions]. by rewrite <- !app_assoc.
Qed.

(** ** Why a transaction is sent *)

(** The claim was seen ready: its round settled and in degen mode, its payout, from
    the round and the configuration just read, positive. *)
Definition ready (h : list ExEvent) (claim : DegenClaimAccount) (payoutRaw : Z)
    (vrfPayer : option PublicKey) : Prop :=
  cl_status claim = DegenClaimStatus.VrfReady /\ 0 < payoutRaw /\
  exists info meta configInfo feeBps,
    XAccount (cl_round claim) (Ok (Some info)) ∈ h /\
    parseRoundMeta (ai_data info) = Ok meta /\
    meta_status meta = Some RoundStatus.Settled /\ meta_degenModeStatus meta = Some 2 /\
    parseRoundVrfPayer (ai_data info) = Ok vrfPayer /\
    XAccount (getConfigPda A) (Ok (Some configInfo)) ∈ h /\
    parseConfigFeeBps (ai_data configInfo) = Ok feeBps /\
    payoutRaw = computeBeginDegenPayout (meta_totalUsdc meta) feeBps
                  (bool_decide (is_Some vrfPayer)).

Definition candidate_of (claim : DegenClaimAccount) (candidate : Candidate) : Prop :=
  exists fuel out,
    deriveCandidates subtleDigest fuel (cl_randomness claim) (cl_poolVersion claim)
      (candidate_window claim) (default DEGEN_POOL dynamicPool) = Some (Ok out) /\
    candidate ∈ out.

Definition justified (h : list ExEvent) (tx : VersionedTx) : Prop :=
  exists claim payoutRaw vrfPayer, ready h claim payoutRaw vrfPayer /\
    ((exists candidate, candidate_of claim candidate /\
        execution_shape claim candidate payoutRaw vrfPayer tx) \/
     (exists roundId ms ix front, bnToNumber (cl_roundId claim) = Ok roundId /\ XNow ms ∈ h /\ round53 (cl_fallbackAfterTs claim) <= ms / 1000 /\
        CrankIx.buildAutoClaimDegenFallback A executor (cl_winner claim) roundId
          FALLBACK_REASON = Ok ix /\
        vt_payer tx = executor /\ vt_instructions tx = front ++ [ix])).

(** Every transaction was simulated without error right before it was sent, fits the
    limit, and is justified. *)
Fixpoint xsafe (h : list ExEvent) : Prop :=
  match h with
  | [] => True
  | XSend tx _ :: past =>
      (exists past', past = XSimulate tx (Ok None) :: past') /\
      (exists n, exSerializedLength tx = Ok n /\ n <= MAX_TX_RAW_BYTES) /\
      justified past tx /\ xsafe past
  | _ :: past => xsafe past
  end.

Lemma xsafe_app evs h : Forall inert evs -> xsafe h -> xsafe (evs ++ h).
Proof.
  intros Hf Hs. induction Hf as [|ev evs [Hev _] _ IH]; [done|].
  destruct ev; try exact IH. by destruct Hev.
Qed.

Lemma ready_app evs h claim pay v : ready h claim pay v -> ready (evs ++ h) claim pay v.
Proof.
  intros (Hs & Hp & info & meta & ci & fee & He & Hm & H1' & H2' & Hv & Hc & Hf & Hpay).
  split_and!; [done|done|]. exists info, meta, ci, fee.
  split_and!; try done; apply elem_of_app; by right.
Qed.

(** ** The frame of the loops *)

(** [executed] tells whether the newest event may be a confirmation. *)
Definition kept (executed : bool) (p p' : Proc) : Prop :=
  (xsafe (history p) -> xsafe (history p')) /\
  exists evs, history p' = evs ++ history p /\
    Forall (fun ev => ~ is_confirmation ev) (tail evs) /\
    (executed = false -> Forall (fun ev => ~ is_confirmation ev) evs).

Lemma kept_inert b p p' : inertly p p' -> kept b p p'.
Proof.
  intros (evs & Hh & Hf).
  assert (Hc : Forall (fun ev => ~ is_confirmation ev) evs).
  { eapply Forall_impl; [exact Hf|]. by intros ev []. }
  split; [rewrite Hh; by apply xsafe_app|]. exists evs. split_and!; [done| |done].
  destruct evs; [done|]. by apply Forall_cons in Hc as [_ ?].
Qed.

Lemma kept_trans b p q r : kept false p q -> kept b q r -> kept b p r.
Proof.
  intros [Hs1 (e1 & Hh1 & _ & Hf1)] [Hs2 (e2 & Hh2 & Ht2 & Hf2)]. specialize (Hf1 eq_refl).
  split; [auto|]. exists (e2 ++ e1). split; [by rewrite Hh2, Hh1, app_assoc|]. split.
  - destruct e2; simpl in *; [destruct e1; [done|by apply Forall_cons in Hf1 as [_ ?]]|].
    by apply Forall_app.
  - intros E. apply Forall_app. auto.
Qed.

Lemma kept_weaken p q : kept false p q -> kept true p q.
Proof. intros [Hs (evs & Hh & Ht & Hf)]. split; [done|]. by exists evs. Qed.

Lemma kept_ready b p q claim pay v :
  kept b p q -> ready (history p) claim pay v -> ready (history q) claim pay v.
Proof. intros [_ (evs & -> & _)]. apply ready_app. Qed.

(** What a step leaves whose result says whether the claim was executed. *)
Definition leaves {T} (executed : T -> bool) (p : Proc) (r : Res T) (p' : Proc) : Prop :=
  kept (match r with Ok a => executed a | Throw _ => false end) p p'.

Lemma poll_status_wp n sig p :
  wp (poll_status n sig)
    (leaves (fun landed : option string => bool_decide (is_Some landed)) p) p.
Proof.
  revert p. induction n as [|n IH]; intros p; cbn [poll_status].
  { wp_step. apply kept_inert. done. }
  wp_step. unfold x_sleep. wp_step. wp_step. unfold x_status. wp_step.
  set (q := mkProc _ _ (XSleep 5000 :: history p)).
  assert (Hq : kept false p q) by (apply kept_inert, inertly_event; split; by intros []).
  assert (Hstep : forall w' r', ~ is_confirmation (XStatus sig r') ->
    kept false p (mkProc (local p) w' (XStatus sig r' :: history q))).
  { intros w' r' Hn. apply kept_inert. exists [XStatus sig r'; XSleep 5000].
    split; [done|]. constructor; [split; [by intros []|done]|].
    constructor; [split; by intros []|done]. }
  destruct r as [[st|]|e]; [| |apply Hstep; by intros []].
  - destruct (bool_decide _ || bool_decide _) eqn:Ec.
    + destruct (ss_err st) as [err|] eqn:Eerr.
      * wp_step. apply Hstep. simpl. rewrite Eerr. by intros [].
      * wp_step. split; [done|]. exists [XStatus sig (Ok (Some st)); XSleep 5000].
        split_and!; [done| |done]. repeat constructor. by intros [].
    + eapply wp_mono; [apply IH|]. apply orb_false_iff in Ec as [E1 E2].
      apply bool_decide_eq_false in E1, E2.
      intros [[?|]|?] p' Hp'; (eapply kept_trans; [apply Hstep|exact Hp']);
        simpl; intros [_ [?|?]]; done.
  - eapply wp_mono; [apply IH|].
    intros [[?|]|?] p' Hp'; (eapply kept_trans; [apply Hstep|exact Hp']); by intros [].
Qed.

Lemma simulateAndSend_wp tx p :
  (forall evs, Forall inert evs -> justified (evs ++ history p) tx) ->
  wp (simulateAndSend tx) (leaves (fun _ => true) p) p.
Proof.
  intros Hj. unfold simulateAndSend, check_size. wp_step.
  destruct (exSerializedLength tx) as [n|e] eqn:Elen.
  2:{ destruct (isTxTooLargeError e); wp_step; by apply kept_inert. }
  destruct (Z.ltb_spec MAX_TX_RAW_BYTES n) as [_|Hn].
  { destruct (isTxTooLargeError _); wp_step; by apply kept_inert. }
  wp_step. wp_step. unfold x_simulate. wp_step.
  destruct r as [[err|]|e].
  1:{ wp_step. apply kept_inert, inertly_event. split; by intros []. }
  2:{ apply kept_inert, inertly_event. split; by intros []. }
  wp_step. unfold x_send. wp_step.
  assert (Hsent : forall w' r', kept false p (mkProc (local p) w'
    (XSend tx r' :: XSimulate tx (Ok None) :: history p))).
  { intros w' r'. split.
    - intros Hs. cbn [history]. split_and!; [by eexists|by exists n| |done].
      apply (Hj [XSimulate tx (Ok None)]). constructor; [|done]. split; by intros [].
    - exists [XSend tx r'; XSimulate tx (Ok None)]. split_and!; [done| |intros _];
        repeat constructor; by intros []. }
  destruct r as [sig|e]; [|apply Hsent]. wp_step. wp_step. unfold x_confirm. wp_step.
  destruct r as [c|e].
  - wp_step. eapply kept_trans; [apply (Hsent w0 (Ok sig))|]. split; [done|].
    exists [XConfirm sig (Ok c)]. by split_and!.
  - assert (Hconf : kept false p (mkProc (local p) w1
      (XConfirm sig (Throw e) :: XSend tx (Ok sig) :: XSimulate tx (Ok None) :: history p))).
    { eapply kept_trans; [apply (Hsent w0 (Ok sig))|]. apply kept_inert.
      exists [XConfirm sig (Throw e)]. split; [done|]. constructor; [split; by intros []|done]. }
    destruct (isConfirmTimeoutError e); [|wp_step; done].
    wp_step. eapply wp_mono; [apply poll_status_wp|].
    intros [[s|]|e'] q Hq; [wp_step|wp_step|]; (eapply kept_trans; [exact Hconf|exact Hq]).
Qed.

(** ** The attempts on a claim that was seen ready *)

Section attempts.
Context (claim : DegenClaimAccount) (payoutRaw : Z) (vrfPayer : option PublicKey).
Local Abbreviation ready_at p := (ready (history p) claim payoutRaw vrfPayer).

Lemma attempt_wp candidate n d b p :
  ready_at p -> candidate_of claim candidate ->
  wp (attempt A X COMPUTE_BUDGET_PROGRAM executor jackpotAlt claim candidate payoutRaw n d b vrfPayer)
    (leaves (fun _ => true) p) p.
Proof.
  intros Hr Hc. unfold attempt. wp_step.
  eapply wp_mono; [apply wp_and; [apply inert_build|apply build_shape]|].
  intros [built|e] q [Hq Hb]; [|by apply kept_inert].
  eapply wp_mono; [apply simulateAndSend_wp|].
  - intros evs _. destruct Hq as (evs' & -> & _). exists claim, payoutRaw, vrfPayer.
    split; [by do 2 apply ready_app|]. left. exists candidate. auto.
  - intros r q' Hq'. eapply kept_trans; [by apply kept_inert|exact Hq'].
Qed.

Context (candidate : Candidate) (directUsdc : bool).
Hypothesis Hcand : candidate_of claim candidate.
Local Abbreviation stopped := (fun r : option LoopErrors => bool_decide (r = None)).

Lemma accounts_loop_wp limits slip st p :
  ready_at p ->
  wp (accounts_loop A X COMPUTE_BUDGET_PROGRAM executor jackpotAlt claim payoutRaw vrfPayer
        candidate directUsdc limits slip st) (leaves stopped p) p.
Proof.
  revert st p. induction limits as [|n limits IH]; intros st p Hr; cbn [accounts_loop].
  { wp_step. by apply kept_inert. }
  wp_step. wp_step. wp_step. eapply wp_mono; [by apply attempt_wp|].
  intros [sig|e] q Hq; [by wp_step; wp_step|]. red in Hq.
  destruct (isTxTooLargeError e && negb directUsdc).
  { wp_step. eapply wp_mono; [apply IH; by eapply kept_ready|].
    intros r q' Hq'. by eapply kept_trans. }
  destruct (isSlippageError _); wp_step; [wp_step|]; exact Hq.
Qed.

Lemma direct_route_wp slip st p :
  ready_at p ->
  wp (direct_route A X COMPUTE_BUDGET_PROGRAM executor jackpotAlt claim payoutRaw vrfPayer
        candidate directUsdc slip st) (leaves stopped p) p.
Proof.
  intros Hr. unfold direct_route.
  destruct (lastSizedError st); [|wp_step; by apply kept_inert].
  destruct directUsdc; [wp_step; by apply kept_inert|].
  wp_step. wp_step. eapply wp_mono; [by apply attempt_wp|].
  intros [sig|e] q Hq; [by wp_step|]. red in Hq.
  destruct (isTxTooLargeError e); [by wp_step|]. destruct (isSlippageError _); by wp_step.
Qed.

Lemma slippage_loop_wp limits steps st p :
  ready_at p ->
  wp (slippage_loop A X COMPUTE_BUDGET_PROGRAM executor jackpotAlt claim payoutRaw vrfPayer
        candidate directUsdc limits steps st) (leaves stopped p) p.
Proof.
  revert st p. induction steps as [|slip steps IH]; intros st p Hr; cbn [slippage_loop].
  { wp_step. by apply kept_inert. }
  wp_step. eapply wp_mono; [by apply accounts_loop_wp|].
  intros [[st'|]|e] q Hq; [|by wp_step|exact Hq]. red in Hq. simpl in Hq.
  wp_step. eapply wp_mono; [apply direct_route_wp; by eapply kept_ready|].
  intros r q' Hq'. assert (Hpq : leaves stopped p r q') by (by eapply kept_trans).
  destruct r as [[st''|]|e]; [|by wp_step|exact Hpq]. red in Hpq. simpl in Hpq.
  eapply wp_mono; [apply IH; by eapply kept_ready|].
  intros r q'' Hq''. by eapply kept_trans.
Qed.

(** A candidate that stops the claim was executed, or its time-out was seen to have
    landed. *)
Lemma process_candidate_wp p :
  ready_at p ->
  wp (process_candidate A X COMPUTE_BUDGET_PROGRAM executor jackpotAlt claim payoutRaw vrfPayer
        candidate directUsdc) (leaves (fun stop => stop) p) p.
Proof.
  intros Hr. unfold process_candidate. wp_step. wp_step.
  assert (Hcatch : forall e q, kept false p q ->
    wp (if bool_decide (err_name e = "TxTimeoutError") || isConfirmTimeoutError e
        then landed_check A claim else mret false) (leaves (fun stop => stop) p) q).
  { intros e q Hq. destruct (_ || _); [|by wp_step].
    eapply wp_mono; [apply inert_landed|]. intros r q' Hq'.
    eapply kept_trans; [exact Hq|]. by apply kept_inert. }
  eapply wp_mono; [apply inert_viable|].
  intros [viable|e] q Hq; [|by apply Hcatch, kept_inert].
  destruct viable; [|wp_step; by apply kept_inert].
  unfold candidate_attempts. wp_step.
  eapply wp_mono; [apply slippage_loop_wp; eapply kept_ready; [by apply (kept_inert false)|done]|].
  intros r q' Hq'.
  assert (Hpq : leaves stopped p r q') by (eapply kept_trans; [by apply kept_inert|done]).
  destruct r as [[st|]|e]; [|by wp_step|by apply Hcatch]. red in Hpq. simpl in Hpq.
  destruct (lastSizedError st); [wp_step; by apply Hcatch|].
  destruct (lastSlippageError st); wp_step; [by apply Hcatch|done].
Qed.
End attempts.

(** ** A claim and a pass *)

Local Abbreviation process_claim :=
  (processReadyClaim A X COMPUTE_BUDGET_PROGRAM executor jackpotAlt DEGEN_POOL dynamicPool subtleDigest).
Local Abbreviation pass :=
  (executor_pass A X COMPUTE_BUDGET_PROGRAM executor jackpotAlt DEGEN_POOL dynamicPool subtleDigest).
Local Abbreviation loop :=
  (executor_loop A X COMPUTE_BUDGET_PROGRAM executor jackpotAlt DEGEN_POOL dynamicPool subtleDigest).

Lemma claim_payout_ready claim p :
  wp (claim_payout A claim)
    (fun r p' => forall pay v, r = Ok (Some (pay, v)) -> ready (history p') claim pay v) p.
Proof.
  unfold claim_payout, x_account. wp_step. wp_step. destruct r as [[info|]|e]; [|by wp_step|done].
  wp_step. wp_step. destruct (parseRoundMeta _) as [meta|e] eqn:Em; [|done].
  destruct (negb (bool_decide (meta_status meta = _)) || _) eqn:Es; [by wp_step|].
  destruct (negb (cl_status claim =? _)) eqn:Ec; [by wp_step|].
  apply orb_false_iff in Es as [E1 E2]. apply negb_false_iff, bool_decide_eq_true in E1, E2.
  apply negb_false_iff, Z.eqb_eq in Ec.
  wp_step. wp_step. destruct (parseRoundVrfPayer _) as [v|e] eqn:Ev; [|done].
  wp_step. wp_step. destruct r as [[ci|]|e]; [|by wp_step|done].
  wp_step. wp_step. destruct (parseConfigFeeBps _) as [fee|e] eqn:Ef; [|done].
  destruct (Z.leb_spec (computeBeginDegenPayout (meta_totalUsdc meta) fee (bool_decide (is_Some v))) 0);
    wp_step; [done|].
  intros pay v' [= <- <-]. split_and!; [done|done|]. exists info, meta, ci, fee.
  split_and!; try done; cbn [history]; set_solver.
Qed.

Lemma candidates_loop_wp claim pay v candidates p :
  ready (history p) claim pay v -> Forall (candidate_of claim) candidates ->
  wp (candidates_loop A X COMPUTE_BUDGET_PROGRAM executor jackpotAlt claim pay v candidates)
    (leaves (fun stop => stop) p) p.
Proof.
  intros Hr Hf. revert p Hr. induction Hf as [|c candidates Hc _ IH]; intros p Hr;
    cbn [candidates_loop]; [wp_step; by apply kept_inert|].
  wp_step. eapply wp_mono; [by apply process_candidate_wp|].
  intros [[]|e] q Hq; [by wp_step| |exact Hq]. red in Hq.
  eapply wp_mono; [apply IH; by eapply kept_ready|]. intros r q' Hq'. by eapply kept_trans.
Qed.

Lemma fallback_tx_shape claim p :
  wp (fallback_tx A X executor claim)
    (fun r _ => forall tx, r = Ok tx -> exists roundId front ix,
       bnToNumber (cl_roundId claim) = Ok roundId /\
       CrankIx.buildAutoClaimDegenFallback A executor (cl_winner claim) roundId FALLBACK_REASON = Ok ix /\
       vt_payer tx = executor /\ vt_instructions tx = front ++ [ix]) p.
Proof.
  unfold fallback_tx. wp_step. wp_step. destruct (getAssociatedTokenAddress _ _ _); [|done].
  wp_step. wp_step. destruct (bnToNumber _) as [roundId|] eqn:Er; [|done].
  wp_step. wp_step. destruct (CrankIx.buildAutoClaimDegenFallback _ _ _ _ _) as [ix|] eqn:Ei; [|done].
  wp_step. apply wp_any. intros [bh|e] q; [|done].
  wp_step. wp_step. destruct (exCompile _); [|done]. wp_step. intros tx [= <-].
  eexists roundId, [_; _; _], ix. split_and!; [done|exact Ei|done|]. cbn [vt_instructions]. done.
Qed.

Lemma run_fallback_wp claim pay v p :
  ready (history p) claim pay v ->
  wp (run_fallback A X executor claim) (fun r p' => kept true p p') p.
Proof.
  intros Hr. unfold run_fallback, x_now. wp_step. wp_step.
  set (q := mkProc _ _ (XNow a :: history p)).
  assert (Hq : inertly p q) by (apply inertly_event; split; by intros []).
  destruct (Z.leb_spec (round53 (cl_fallbackAfterTs claim)) (a / 1000)) as [Hdue|_];
    [|wp_step; by apply kept_inert].
  wp_step. wp_step. eapply wp_mono; [apply wp_and; [apply inert_fallback_tx|apply fallback_tx_shape]|].
  intros [tx|e] q1 [Hq1 Htx]; [|wp_step; apply kept_inert; by etrans].
  assert (Hpq : inertly p q1) by (by etrans).
  destruct (Htx tx eq_refl) as (roundId & front & ix & Er & Ei & Hpay & Hix).
  assert (Hnow : XNow a ∈ history q1).
  { destruct Hq1 as (evs & -> & _). apply elem_of_app. right. left. }
  wp_step. eapply wp_mono; [apply simulateAndSend_wp|].
  - intros evs _. exists claim, pay, v. split.
    { apply ready_app. by eapply kept_ready; [apply (kept_inert true)|]. }
    right. exists roundId, a, ix, front. split_and!; try done. apply elem_of_app. by right.
  - intros [sig|e] q' Hq'; wp_step; (eapply kept_trans; [by apply kept_inert|]); [exact Hq'|].
    by apply kept_weaken.
Qed.

Lemma processReadyClaim_wp fuel claim p :
  wp (process_claim fuel claim) (fun r p' => kept true p p') p.
Proof.
  unfold processReadyClaim. wp_step.
  eapply wp_mono; [apply wp_and; [apply inert_claim_payout|apply claim_payout_ready]|].
  intros [[[pay v]|]|e] q [Hq Hr]; [|wp_step; by apply kept_inert|by apply kept_inert].
  specialize (Hr pay v eq_refl).
  destruct (deriveCandidates _ _ _ _ _ _) as [[out|e]|] eqn:Ed.
  2:{ wp_step. wp_step. by apply kept_inert. }
  2:{ wp_step. by apply kept_inert. }
  wp_step. wp_step. wp_step. eapply wp_mono; [apply candidates_loop_wp; [exact Hr|]|].
  { apply Forall_forall. intros c Hc. by exists fuel, out. }
  intros r q1 Hq1. assert (Hpq : leaves (fun stop => stop) p r q1)
    by (eapply kept_trans; [by apply kept_inert|exact Hq1]).
  destruct r as [[]|e]; [by wp_step| |by apply kept_weaken]. red in Hq1, Hpq.
  wp_step. eapply wp_mono; [eapply run_fallback_wp, kept_ready; [exact Hq1|exact Hr]|].
  intros [[]|e] q2 Hq2; [wp_step|]; by eapply kept_trans.
Qed.

Lemma process_claims_wp fuel claims p :
  wp (process_claims A X COMPUTE_BUDGET_PROGRAM executor jackpotAlt DEGEN_POOL dynamicPool
        subtleDigest fuel claims)
    (fun _ p' => xsafe (history p) -> xsafe (history p')) p.
Proof.
  revert p. induction claims as [|c claims IH]; intros p; cbn [process_claims]; [by wp_step|].
  wp_step. eapply wp_mono; [apply processReadyClaim_wp|].
  intros [[[]|]|e] q [Hq _]; [|by wp_step|done].
  eapply wp_mono; [apply IH|]. auto.
Qed.

Lemma executor_pass_wp fuel p :
  wp (pass fuel) (fun _ p' => xsafe (history p) -> xsafe (history p')) p.
Proof.
  unfold executor_pass, fetchReadyClaims. wp_step. wp_step. wp_step. wp_step.
  destruct r as [claims|e]; wp_step; [|done].
  eapply wp_mono; [apply process_claims_wp|].
  intros [o|e] q Hq; [|wp_step]; intros Hp; by apply Hq.
Qed.



(** ** The loop survives *)

(** The nonce searches of every claim end within [fuel]. *)
Definition enough_fuel (fuel : nat) : Prop := forall claim : DegenClaimAccount,
  is_Some (deriveCandidates subtleDigest fuel (cl_randomness claim) (cl_poolVersion claim)
             (candidate_window claim) (default DEGEN_POOL dynamicPool)).

Definition completes {T} (m : M (option T)) : Prop :=
  forall p, wp m (fun r _ => r <> Ok None) p.

Lemma process_claim_completes fuel claim : enough_fuel fuel -> completes (process_claim fuel claim).
Proof.
  intros Hfuel p. unfold processReadyClaim. wp_step. apply wp_any.
  intros [[[pay v]|]|e] q; [|by wp_step|done].
  destruct (Hfuel claim) as [cands ->]. wp_step. wp_step. destruct cands as [cands|e]; [|done].
  wp_step. apply wp_any. intros [[]|e] q1; [by wp_step| |done].
  wp_step. apply wp_any. intros [[]|e] q2; [by wp_step|done].
Qed.

Lemma pass_completes fuel p :
  enough_fuel fuel -> wp (pass fuel) (fun r _ => r = Ok (Some tt)) p.
Proof.
  intros Hfuel. unfold executor_pass. wp_step. wp_step. apply wp_any.
  intros [claims|e] q; [|by wp_step].
  cut (completes (process_claims A X COMPUTE_BUDGET_PROGRAM executor jackpotAlt DEGEN_POOL
                    dynamicPool subtleDigest fuel claims)).
  { intros Hc. eapply wp_mono; [apply Hc|]. intros [[[]|]|e] q1 Hq; [done|done|by wp_step]. }
  clear q. induction claims as [|c claims IH]; intros q; cbn [process_claims]; [by wp_step|].
  wp_step. eapply wp_mono; [by apply process_claim_completes|].
  intros [[[]|]|e] q1 Hq; [apply IH|done|done].
Qed.

(** C16: When every nonce search ends, the executor's loop survives every error: no
    exception of the RPC node, of Jupiter, of a parser or of a failed transaction
    leaves a pass, so each pass returns and the next one runs. *)
Theorem executor_survives POLL_MS ONE_SHOT fuel passes p :
  enough_fuel fuel -> fst (loop POLL_MS ONE_SHOT fuel passes p) = Ok (Some tt).
Proof.
  intros Hfuel. change (wp (loop POLL_MS ONE_SHOT fuel passes) (fun r _ => r = Ok (Some tt)) p).
  revert p. induction passes as [|passes IH]; intros p; cbn [executor_loop]; [by wp_step|].
  wp_step. eapply wp_mono; [by apply pass_completes|]. intros r q ->.
  destruct ONE_SHOT; [by wp_step|]. unfold x_sleep. wp_step. wp_step. apply IH.
Qed.
End safety.

(** ** Witnesses *)

Module ExecutorWitness.
#[local] Existing Instance ToyKeys.keys.
#[local] Existing Instance ToySolana.libs.

Definition k (n : Z) : PublicKey := ToyKeys.mk (le_encode 4 n).
Definition addresses : Addresses := mkAddresses (k 1) (k 2) (k 3) (k 4) (k 5) (k 6) (k 7).

#[local] Instance xlibs : ExecutorLibs := {|
  ALT := bytes;
  altDeserialize := fun _ d => Ok d;
  TOKEN_2022_PROGRAM_ID := k 100;
  getAssociatedTokenAddressFor := fun mint owner _ _ => getAssociatedTokenAddress mint owner true;
  createAssociatedTokenAccountIdempotent := fun payer ata owner mint program =>
    mkIx (k 101) [mkMeta payer true true; mkMeta ata false true; mkMeta owner false false] [];
  createTransfer := fun src dst owner amount =>
    mkIx TOKEN_PROGRAM_ID [mkMeta src false true; mkMeta dst false true; mkMeta owner true false]
      (le_encode 8 amount);
  base64Bytes := fun s => Ascii.byte_of_ascii <$> String.list_ascii_of_string s;
  newBNText := fun s => Ok (foldl (fun z c => 10 * z + (Z.of_nat (nat_of_ascii c) - 48)) 0
                          (String.list_ascii_of_string s));
  bnToNumber := fun z => if Z.abs z <? 2 ^ 53 then Ok z else Throw ToySolana.bn_assert;
  nodeSha256 := fun s => [Z.of_nat (String.length s)];
  jsonText := fun _ => "{}"
|}.

(** Accounts that stay as they are, swaps that fit when at most 30 accounts are asked
    for, and scripted confirmations. *)
Record xscript := mkXScript {
  xs_accounts : list (bytes * AccountInfo);
  xs_claims : list DegenClaimAccount;
  xs_confirm : Res (option string);
  xs_status : option SignatureStatus
}.

Definition swap_ix : SerializedInstruction := mkSerIx "swap" [] "data".

#[local] Instance xservices : ExecutorServices := {|
  EWorld := xscript;
  exDateNow := fun w => (1700000000000, w);
  exAccountInfo := fun key w =>
    (Ok ((fun p : nat * (bytes * AccountInfo) => snd (snd p)) <$>
          list_find (fun kv : bytes * AccountInfo => fst kv = toBuffer key) (xs_accounts w)), w);
  exAccountsInfo := fun ks w => (Ok ((fun _ => None) <$> ks), w);
  exTokenBalance := fun _ w => (Ok 5, w);
  exBlockhash := fun w => (Ok ("hash", 1), w);
  exCompile := fun _ => Ok tt;
  exSerializedLength := fun tx => Ok (if (7 <=? length (vt_instructions tx))%nat then 1300 else 1100);
  exSimulate := fun _ w => (Ok None, w);
  exSendTransaction := fun _ w => (Ok "sig", w);
  exConfirm := fun _ w => (xs_confirm w, w);
  exSignatureStatus := fun _ w => (Ok (xs_status w), w);
  exQuote := fun q w => (Ok (mkTyped 200 (Ok "") (Ok (mkQuote (match q_maxAccounts q with
    | Some n => if n <=? 30 then "1" else "2" | None => "0" end) JNull))), w);
  exSwap := fun q w => (Ok (mkTyped 200 (Ok "") (Ok (mkSwapIxs []
    (if String.eqb (otherAmountThreshold (s_quoteResponse q)) "2" then [swap_ix] else [])
    swap_ix None []))), w);
  exSleep := fun _ w => (tt, w);
  exAllClaims := fun w => (Ok (xs_claims w), w)
|}.

Definition image : RoundImage :=
  mkRoundImage (replicate 8 x00) 9 RoundStatus.Settled 254 (replicate 6 x00) 0 0 0 (k 20) 10000000
    1000 2 (replicate 6 x00) (replicate 32 x07) 5 (k 30)
    (replicate 200 defaultKey) (replicate (Z.to_nat 1608) x00) defaultKey 0 2 (replicate 30 x00).

Definition feeBytes : bytes := concat (config_fields (replicate 8 x00)
  (mkConfig (k 1) (k 2) (k 3) 25 10000 60 2 2 false 255 0) []).

Definition claim : DegenClaimAccount :=
  mkClaim _ (k 40) (k 30) 9 DegenClaimStatus.VrfReady 0 1 1 (replicate 32 x07) 9975000 1699999999.

Definition world (confirm : Res (option string)) (status : option SignatureStatus) : xscript :=
  mkXScript
    [(toBuffer (k 40), mkInfo (encode_round image) (k 1));
     (toBuffer (getConfigPda addresses), mkInfo feeBytes (k 1));
     (toBuffer (ToyKeys.of_text "mint"), mkInfo [] TOKEN_PROGRAM_ID)]
    [claim] confirm status.

Definition settings : ExecutorConfig :=
  mkExConfig [num_of_Z 300] [64; 28] "key" 600000 20000 50000.

Definition run (confirm : Res (option string)) (status : option SignatureStatus) :=
  executor_loop addresses settings (k 90) (k 91) None ["mint"] None DegenWitness.digest
    5000 true 1 1 (mkProc ∅ (world confirm status) []).

Definition count (P : ExEvent -> bool) (h : list ExEvent) : nat := length (filter (fun ev => P ev = true) h).
Definition sends := count (fun ev => match ev with XSend _ _ => true | _ => false end).
Definition swaps := count (fun ev => match ev with XSwap _ _ => true | _ => false end).

Definition timeout : Res (option string) :=
  Throw (mkError "TransactionExpiredTimeoutError" "Transaction was not confirmed in 30.00 seconds").

(** The first route is too large, the second is executed; after a time-out that stays
    unknown the fallback is sent, because the claim account shows no progress. *)
Example runs :
  (let h := history (snd (run (Ok None) None)) in (sends h, swaps h) = (1%nat, 2%nat)) /\
  (let h := history (snd (run timeout None)) in (sends h, swaps h) = (2%nat, 2%nat)) /\
  (let h := history (snd (run timeout (Some (mkSigStatus (Some "finalized") None)))) in
     (sends h, swaps h) = (1%nat, 2%nat)).
Proof. split_and!; vm_compute; reflexivity. Qed.

Lemma one_mint_fuel : enough_fuel ["mint"] None DegenWitness.digest 1.
Proof.
  intros c. unfold deriveCandidates. cbn [default length].
  destruct (Z.le_gt_cases (Z.min (candidate_window c) (Z.of_nat 1)) 0) as [Hle|Hgt].
  - rewrite seqZ_nil by done. by eexists.
  - replace (Z.min (candidate_window c) (Z.of_nat 1)) with 1 by lia.
    change (seqZ 0 1) with [0]. cbn [deriveLoop searchIndex].
    destruct (candidateIndex _ _ _ _ _ _); [|by eexists].
    cbn -[lookup]. repeat case_match; simplify_eq; by eexists.
Qed.

Lemma executor_survives_witness :
  fst (run timeout None) = Ok (Some tt).
Proof. apply executor_survives. exact one_mint_fuel. Defined.
End ExecutorWitness.
