(* ===== verification/Actions.v ===== *)
(** * Actions: lib/api/actions-shared.ts

    What the HTTP handlers of the Solana Actions share (api/actions/_shared.ts is the
    same text): query parameters, the scan that finds the current round and its
    five-second cache, and the searches for a claimable or refundable round.

    A handler's exception carries a status and a code, which [withHandler] turns into
    a JSON response.  The accounts are read through the service interface; an answer
    has one entry per requested address. *)

From stdpp Require Import base list gmap strings pretty.
From Stdlib Require Import ZArith Lia Ascii Strings.Byte SpecFloat.
From S2P Require Import Prelude Buffers Accounts JsRuntime Effects ActiveRoundScan Solana Instructions.

Local Open Scope string_scope.
Local Open Scope list_scope.
Local Open Scope Z_scope.
Set Warnings "-clear-no-such-hyp".

(** ** Errors and parameters *)

(** [Object.assign(new Error(message), { code, status })] *)
Definition action_error (status : Z) (code message : string) : JsError :=
  mkJsError "Error" message (Some status) (Some code).

(** A query parameter: absent, one text, or the texts of a repeated parameter. *)
Inductive Query := QNone | QText (s : string) | QMany (l : list string).

Fixpoint join_comma (l : list string) : string :=
  match l with
  | [] => ""
  | [s] => s
  | s :: l => s +:+ "," +:+ join_comma l
  end.

(** [String(raw)] of a parameter that is present. *)
Definition query_text (q : Query) : option string :=
  match q with
  | QNone => None
  | QText s => Some s
  | QMany l => Some (join_comma l)
  end.

(** [Number(raw)] *)
Definition query_number (q : Query) : num :=
  match query_text q with Some s => Number s | None => S754_nan end.

(** [n < 0], false for NaN and for both zeros *)
Definition negative_num (x : num) : bool := SFltb x (S754_zero false).

Definition parseRoundId (roundId : Query) : Res num :=
  let n := query_number roundId in
  if negb (isFinite n) || negative_num n
  then Throw (action_error 400 "INVALID_ROUND_ID" "roundId query param is required")
  else Ok n.

Definition parseOptionalRoundId (roundId : Query) : Res (option num) :=
  match roundId with
  | QNone | QText "" => Ok None
  | _ => Some <$> parseRoundId roundId
  end.

(** [s.replace(",", ".")]: the first comma only. *)
Fixpoint replace_comma (s : string) : string :=
  match s with
  | EmptyString => EmptyString
  | String c rest => if (c =? ",")%char then String "." rest else String c (replace_comma rest)
  end.

(** [BigInt(x)] throws on a number that is not finite. *)
Definition big_floor (x : num) : Res Z :=
  match num_floor x with
  | Some z => Ok z
  | None => Throw (mkError "RangeError" "The number cannot be converted to a BigInt")
  end.

Definition parseUsdcAmountRaw (amount : Query) : Res Z :=
  match query_text amount with
  | None => Throw (action_error 400 "INVALID_AMOUNT" "amount query param is required")
  | Some raw =>
      let s := trim (replace_comma raw) in
      let x := Number s in
      if negb (isFinite x) || negb (positive_num x)
      then Throw (action_error 400 "INVALID_AMOUNT" "Amount must be > 0")
      else
        rawInt ← big_floor (num_times x (num_of_Z 1000000));
        if rawInt <=? 0 then Throw (action_error 400 "INVALID_AMOUNT" "Amount too small")
        else Ok rawInt
  end.

(** [requireAccount]: the body's [account], [None] when it is no text. *)
Definition requireAccount `{Web3Keys} (account : option string) : Res PublicKey :=
  match account with
  | None | Some "" => Throw (action_error 400 "MISSING_ACCOUNT" "Missing body.account")
  | Some raw =>
      match keyOfString raw with
      | Ok k => Ok k
      | Throw _ => Throw (action_error 400 "INVALID_ACCOUNT" "Invalid account pubkey")
      end
  end.

Definition parseOptionalAccountQuery `{Web3Keys} (account : Query) : Res (option PublicKey) :=
  let invalid := action_error 400 "INVALID_ACCOUNT" "Invalid account query param" in
  match account with
  | QNone | QText "" => Ok None
  | QMany _ => Throw invalid
  | QText raw => match keyOfString raw with Ok k => Ok (Some k) | Throw _ => Throw invalid end
  end.

(** ** Responses *)

Record ErrorResponse := mkErrorResponse { er_status : Z; er_code : string; er_message : string }.

(** The [catch] of [withHandler] with [jsonError]: [e.status || 500], [e.code ||
    INTERNAL_ERROR], [e.message || String(e)]. *)
Definition error_response (e : JsError) : ErrorResponse :=
  mkErrorResponse
    (match err_status e with Some s => if s =? 0 then 500 else s | None => 500 end)
    (match err_code e with
     | Some c => if String.eqb c "" then "INTERNAL_ERROR" else c
     | None => "INTERNAL_ERROR"
     end)
    (if String.eqb (err_message e) "" then err_name e else err_message e).

Record Eligibility := mkEligibility { el_code : string; el_message : string; el_retryable : bool }.

Definition serializeEligibilityError (e : JsError) (fallbackCode : string) : Eligibility :=
  let code := match err_code e with
              | Some c => if String.eqb c "" then fallbackCode else c
              | None => fallbackCode
              end in
  mkEligibility code
    (if String.eqb (err_message e) "" then "Eligibility unknown" else err_message e)
    (String.eqb code "NO_UNCLAIMED_PRIZE" || String.eqb code "NO_REFUND_AVAILABLE").

(** ** The current round *)

Definition CURRENT_ROUND_CACHE_TTL_MS : Z := 5000.
Definition ROUND_SCAN_BATCH : Z := 20.
Definition ROUND_SCAN_MAX : Z := 200.
Definition ROUND_SCAN_NULL_STREAK_LIMIT : Z := 20.
Definition ELIGIBILITY_LOOKBACK_ROUNDS : Z := 300.

(** The module variable [currentRoundCache]. *)
Record RoundCache := mkCache {
  tsMs : Z;
  activeRoundId : option Z;
  joinableRoundId : option Z
}.
Definition initial_cache : RoundCache := mkCache 0 None None.

Inductive Mode := Active | Joinable.

Definition isJoinableRoundStatus (status : Z) : bool := status =? RoundStatus.Open.

(** The variables of the scan; the first three are those of the crank's scan. *)
Record ApiScan := mkApiScan { as_scan : ScanState; joinableRound : Z }.

Section actions.
Context `{SolanaLibs} `{!Services}.
Context (A : Addresses).
Local Abbreviation M := (M RoundCache World Event).

Definition fetchParsedConfig : M ParsedConfigLike :=
  info ← getAccountInfo (getConfigPda A);
  match info with
  | None => throw (action_error 500 "CONFIG_NOT_FOUND" "Config not found")
  | Some info =>
      match parseConfig (ai_data info) with
      | Ok c => mret c
      | Throw _ => throw (action_error 500 "CONFIG_PARSE_ERROR" "Failed to parse config account")
      end
  end.

Definition fetchParsedRound (roundId : Z) : M (option Crank.RoundData) :=
  pda ← lift (getRoundPda A roundId);
  info ← getAccountInfo pda;
  match info with
  | None => mret None
  | Some info => mret (res_value (Crank.parseRound (ai_data info)))
  end.

(** What an account of a batch shows. *)
Definition entry_of (info : option AccountInfo) : ScanEntry :=
  match info with
  | None => missing
  | Some info =>
      match Crank.parseRound (ai_data info) with
      | Ok r => round (Crank.status r)
      | Throw _ => invalid
      end
  end.

(** One iteration of the loop over a batch's accounts. *)
Definition api_step (st : ApiScan) (id : Z) (entry : ScanEntry) : ApiScan :=
  mkApiScan (scan_entry (as_scan st) id entry)
    (match entry with
     | round status => if isJoinableRoundStatus status then id else joinableRound st
     | _ => joinableRound st
     end).

Definition api_stops (st : ApiScan) : bool := scan_stops ROUND_SCAN_NULL_STREAK_LIMIT (as_scan st).

Fixpoint api_entries (entries : list (Z * ScanEntry)) (st : ApiScan) : ApiScan :=
  match entries with
  | [] => st
  | (id, entry) :: rest =>
      let st' := api_step st id entry in
      if bool_decide (entry = missing) && api_stops st' then st' else api_entries rest st'
  end.

(** [for (base = scanStart; base <= scanStart + ROUND_SCAN_MAX; base += ROUND_SCAN_BATCH)]:
    [n] batches are left. *)
Fixpoint api_batches (n : nat) (base : Z) (st : ApiScan) : M ApiScan :=
  match n with
  | O => mret st
  | S n =>
      let ids := seqZ base ROUND_SCAN_BATCH in
      pdas ← lift (res_mapM (getRoundPda A) ids);
      infos ← getMultipleAccountsInfo pdas;
      let st := api_entries (zip ids (entry_of <$> infos)) st in
      if api_stops st then mret st else api_batches n (base + ROUND_SCAN_BATCH) st
  end.

Definition API_BATCHES : nat := Z.to_nat (ROUND_SCAN_MAX / ROUND_SCAN_BATCH + 1).

Definition seed_round (mode : Mode) (c : RoundCache) : Z :=
  match mode with
  | Joinable => default (default 1 (activeRoundId c)) (joinableRoundId c)
  | Active => default (default 1 (joinableRoundId c)) (activeRoundId c)
  end.

Definition cached_round (mode : Mode) (c : RoundCache) : option Z :=
  match mode with Joinable => joinableRoundId c | Active => activeRoundId c end.

Definition cache_of_scan (now : Z) (st : ApiScan) : RoundCache :=
  mkCache now
    (Some (if 0 <? activeRound (as_scan st) then activeRound (as_scan st)
           else Z.max 1 (maxExisting (as_scan st))))
    (if 0 <? joinableRound st then Some (joinableRound st) else None).

Definition not_found (mode : Mode) : JsError :=
  match mode with
  | Joinable => action_error 404 "NO_OPEN_ROUND" "No open round found"
  | Active => action_error 404 "NO_ACTIVE_ROUND" "No active round found"
  end.

(** The scan proper, after a miss of the cache. *)
Definition rescan (mode : Mode) (now : Z) : M Z :=
  c ← gets id;
  let scanStart := Z.max 1 (seed_round mode c - 2) in
  st ← api_batches API_BATCHES scanStart (mkApiScan (mkScan 0 0 0) 0);
  modify (fun _ => cache_of_scan now st) ;;
  match cached_round mode (cache_of_scan now st) with
  | Some r => if r <=? 0 then throw (not_found mode) else mret r
  | None => throw (not_found mode)
  end.

Definition scanRoundIds (mode : Mode) : M Z :=
  now ← dateNow;
  c ← gets id;
  match cached_round mode c with
  | Some r =>
      if (now - tsMs c <? CURRENT_ROUND_CACHE_TTL_MS) && (0 <? r) then mret r
      else rescan mode now
  | None => rescan mode now
  end.

Inductive Source := FromQuery | Auto.

Definition resolveRoundId (roundId : Query) (mode : Mode) : M (num * Source) :=
  queryRoundId ← lift (parseOptionalRoundId roundId);
  match queryRoundId with
  | Some n => mret (n, FromQuery)
  | None => r ← scanRoundIds mode; mret (num_of_Z r, Auto)
  end.

Definition getLatestKnownRoundId : M Z :=
  id ← scanRoundIds Active; mret (Z.max 1 id).
End actions.

(** ** The searches *)

(** The inner loop: [i < batchSize && current - i >= endInclusive]. *)
Fixpoint descending (n : nat) (current endInclusive : Z) : list Z :=
  match n with
  | O => []
  | S n => if endInclusive <=? current then current :: descending n (current - 1) endInclusive
           else []
  end.

(** [while (current >= endInclusive)]; [fuel] bounds the number of batches. *)
Fixpoint batches_from (fuel : nat) (current endInclusive batchSize : Z) : list (list Z) :=
  match fuel with
  | O => []
  | S fuel =>
      if endInclusive <=? current then
        descending (Z.to_nat batchSize) current endInclusive ::
        batches_from fuel (current - batchSize) endInclusive batchSize
      else []
  end.

Definition descendingBatches (start endInclusive batchSize : Z) : list (list Z) :=
  batches_from (Z.to_nat (start - endInclusive + 1)) start endInclusive batchSize.

Section searches.
Context `{SolanaLibs} `{!Services}.
Context (A : Addresses).
Local Abbreviation M := (M RoundCache World Event).

(** The account holds a settled round won by [winner]. *)
Definition claimable (winner : PublicKey) (info : option AccountInfo) : bool :=
  match info with
  | None => false
  | Some info =>
      match Crank.parseRound (ai_data info) with
      | Ok r => (Crank.status r =? RoundStatus.Settled) && bool_decide (Crank.winner r = winner)
      | Throw _ => false
      end
  end.

Definition cancelled (info : option AccountInfo) : bool :=
  match info with
  | None => false
  | Some info =>
      match Crank.parseRound (ai_data info) with
      | Ok r => Crank.status r =? RoundStatus.Cancelled
      | Throw _ => false
      end
  end.

Definition refundable (user : PublicKey) (info : option AccountInfo) : bool :=
  match info with
  | None => false
  | Some info =>
      match Crank.parseParticipant (ai_data info) with
      | Ok p => bool_decide (Crank.p_user p = user) && (0 <? Crank.p_usdcTotal p)
      | Throw _ => false
      end
  end.

(** The first id whose account passes the test. *)
Definition first_id (test : option AccountInfo -> bool) (ids : list Z)
    (infos : list (option AccountInfo)) : option Z :=
  (fun p : nat * (Z * option AccountInfo) => fst (snd p)) <$>
    list_find (fun entry => test (snd entry) = true) (zip ids infos).

Fixpoint claimable_in (winner : PublicKey) (batches : list (list Z)) : M (option Z) :=
  match batches with
  | [] => mret None
  | ids :: batches =>
      pdas ← lift (res_mapM (getRoundPda A) ids);
      infos ← getMultipleAccountsInfo pdas;
      match first_id (claimable winner) ids infos with
      | Some r => mret (Some r)
      | None => claimable_in winner batches
      end
  end.

Definition findLatestClaimableRoundId (winner : PublicKey) : M Z :=
  latest ← getLatestKnownRoundId A;
  let minRound := Z.max 1 (latest - ELIGIBILITY_LOOKBACK_ROUNDS) in
  found ← claimable_in winner (descendingBatches latest minRound ROUND_SCAN_BATCH);
  match found with
  | Some r => mret r
  | None => throw (action_error 404 "NO_UNCLAIMED_PRIZE" "No claimable prize found in recent rounds")
  end.

(** The ids of a batch whose rounds are cancelled. *)
Definition cancelled_ids (ids : list Z) (infos : list (option AccountInfo)) : list Z :=
  fst <$> filter (fun entry : Z * option AccountInfo => cancelled (snd entry) = true) (zip ids infos).

Fixpoint refundable_in (user : PublicKey) (batches : list (list Z)) : M (option Z) :=
  match batches with
  | [] => mret None
  | ids :: batches =>
      pdas ← lift (res_mapM (getRoundPda A) ids);
      roundInfos ← getMultipleAccountsInfo pdas;
      let cancelledIds := cancelled_ids ids roundInfos in
      if (length cancelledIds =? 0)%nat then refundable_in user batches
      else
        pPdas ← lift (res_mapM (fun rid =>
                   pda ← getRoundPda A rid; Ok (getParticipantPda A pda user)) cancelledIds);
        participantInfos ← getMultipleAccountsInfo pPdas;
        match first_id (refundable user) cancelledIds participantInfos with
        | Some r => mret (Some r)
        | None => refundable_in user batches
        end
  end.

Definition findLatestRefundableRoundId (user : PublicKey) : M Z :=
  latest ← getLatestKnownRoundId A;
  let minRound := Z.max 1 (latest - ELIGIBILITY_LOOKBACK_ROUNDS) in
  found ← refundable_in user (descendingBatches latest minRound ROUND_SCAN_BATCH);
  match found with
  | Some r => mret r
  | None => throw (action_error 404 "NO_REFUND_AVAILABLE"
                     "No refundable cancelled round found in recent rounds")
  end.
End searches.
