(* ===== verification/ActionsSpec.v ===== *)
(** * ActionsSpec: what the action endpoints answer

    On a chain whose accounts do not change during a request, the scan answers the
    greatest open (or active) round of its window, and the searches the latest round
    the user can claim or be refunded from; without that assumption, a round that is
    offered was seen open at most five seconds before. *)

From stdpp Require Import base list gmap strings pretty.
From Stdlib Require Import ZArith Lia Ascii Strings.Byte SpecFloat.
From S2P Require Import Prelude Buffers Accounts JsRuntime Effects ActiveRoundScan Solana Instructions Actions.

Local Open Scope string_scope.
Local Open Scope list_scope.
Local Open Scope Z_scope.
Set Warnings "-clear-no-such-hyp".

(** ** Descending batches *)

(** All the ids from [c] down to [e]. *)
Definition down (c e : Z) : list Z := descending (Z.to_nat (c - e + 1)) c e.

Lemma descending_split n m c e :
  descending (n + m) c e = descending n c e ++ descending m (c - Z.of_nat n) e.
Proof.
  revert c. induction n as [|n IH]; intros c; simpl.
  { f_equal. lia. }
  destruct (Z.leb_spec e c).
  - simpl. f_equal. rewrite IH. do 2 f_equal. lia.
  - destruct m as [|m]; simpl; [done|]. destruct (Z.leb_spec e (c - Z.of_nat (S n))); [lia|done].
Qed.

Lemma elem_of_descending n c e j : j ∈ descending n c e <-> e <= j <= c /\ c - Z.of_nat n < j.
Proof.
  revert c. induction n as [|n IH]; intros c; simpl.
  { rewrite elem_of_nil. lia. }
  destruct (Z.leb_spec e c); rewrite ?elem_of_nil, ?elem_of_cons, ?IH; lia.
Qed.

Lemma descending_empty n c e : c < e -> descending n c e = [].
Proof. destruct n; simpl; [done|]. by destruct (Z.leb_spec e c); [lia|]. Qed.

Lemma descending_more n m c e :
  c - e + 1 <= Z.of_nat n -> (n <= m)%nat -> descending m c e = descending n c e.
Proof.
  intros Hn Hm. replace m with (n + (m - n))%nat by lia. rewrite descending_split.
  rewrite (descending_empty (m - n)) by lia. by rewrite app_nil_r.
Qed.

Lemma batches_concat fuel c e b :
  0 < b -> c - e + 1 <= Z.of_nat fuel -> concat (batches_from fuel c e b) = down c e.
Proof.
  intros Hb. revert c. induction fuel as [|fuel IH]; intros c Hf; simpl; unfold down in *.
  { by rewrite descending_empty by lia. }
  destruct (Z.leb_spec e c); simpl; [|by rewrite descending_empty by lia].
  rewrite IH by lia.
  rewrite <- (descending_more (Z.to_nat (c - e + 1)) (Z.to_nat b + Z.to_nat (c - e + 1)) c e) by lia.
  rewrite descending_split, Z2Nat.id by lia. f_equal.
  symmetry. apply descending_more; lia.
Qed.

(** The greatest id of [[e, c]] that satisfies [P], found from above. *)
Lemma head_filter_down (P : Z -> Prop) `{!forall x, Decision (P x)} c e :
  match head (filter P (down c e)) with
  | Some r => e <= r <= c /\ P r /\ forall j, r < j <= c -> ~ P j
  | None => forall j, e <= j <= c -> ~ P j
  end.
Proof.
  assert (Hg : forall n c, match head (filter P (descending n c e)) with
    | Some r => e <= r <= c /\ P r /\ forall j, r < j <= c -> ~ P j
    | None => forall j, j ∈ descending n c e -> ~ P j end).
  { induction n as [|n IH]; intros c'; simpl; [intros j []%elem_of_nil|].
    destruct (Z.leb_spec e c'); [|intros j []%elem_of_nil].
    rewrite filter_cons. destruct (decide (P c')) as [Hp|Hp]; simpl.
    - split_and!; [lia|lia|done|]. intros j Hj. lia.
    - specialize (IH (c' - 1)). destruct (head _) as [r|].
      + destruct IH as (Hr & Hpr & Hn). split_and!; [lia|lia|done|].
        intros j Hj. destruct (decide (j = c')) as [->|]; [done|]. apply Hn. lia.
      + intros j [->|Hj]%elem_of_cons; [done|]. by apply IH. }
  specialize (Hg (Z.to_nat (c - e + 1)) c). unfold down. destruct (head _) as [r|]; [done|].
  intros j Hj. apply Hg, elem_of_descending. lia.
Qed.

Lemma head_filter_app {T} (P : T -> Prop) `{!forall x, Decision (P x)} l1 l2 :
  head (filter P (l1 ++ l2)) =
  match head (filter P l1) with Some a => Some a | None => head (filter P l2) end.
Proof. rewrite filter_app. by destruct (filter P l1). Qed.

(** ** A steady chain *)

Section steady.
Context `{SolanaLibs} `{!Services}.
Context (A : Addresses) (account : PublicKey -> option AccountInfo) (pda : Z -> PublicKey).
Local Abbreviation Proc := (Proc RoundCache World Event).

(** The node answers the same accounts during the request. *)
Hypothesis steady : forall ks w, fst (callGetMultipleAccountsInfo ks w) = Ok (account <$> ks).
(** Round ids have addresses. *)
Hypothesis pda_ok : forall id, 1 <= id < 2 ^ 53 -> getRoundPda A id = Ok (pda id).

Lemma pdas_ok ids : Forall (fun id => 1 <= id < 2 ^ 53) ids ->
  res_mapM (getRoundPda A) ids = Ok (pda <$> ids).
Proof. intros Hf. apply res_mapM_ok. eapply Forall_impl; [exact Hf|]. apply pda_ok. Qed.

(** A request for accounts is answered. *)
Lemma wp_steady (ks : list PublicKey) Q (p : Proc) :
  (forall p', local p' = local p -> Q (Ok (account <$> ks)) p') ->
  wp (getMultipleAccountsInfo ks) Q p.
Proof.
  intros HQ. unfold getMultipleAccountsInfo, wp, invoke.
  pose proof (steady ks (world p)) as Hs. destruct (callGetMultipleAccountsInfo ks _) as [r w].
  simpl in *. subst r. by apply HQ.
Qed.

Definition round_at (id : Z) : option AccountInfo := account (pda id).

Lemma first_id_steady test (acct : Z -> option AccountInfo) ids :
  first_id test ids (acct <$> ids) = head (filter (fun id => test (acct id) = true) ids).
Proof.
  unfold first_id. induction ids as [|id ids IH]; [done|]. simpl. rewrite filter_cons.
  destruct (decide (test (acct id) = true)) as [E|E]; simpl; [by rewrite ?E|].
  rewrite <- IH. by destruct (list_find _ (zip ids _)) as [[i x]|].
Qed.

Lemma cancelled_ids_steady (acct : Z -> option AccountInfo) ids :
  cancelled_ids ids (acct <$> ids) = filter (fun id => cancelled (acct id) = true) ids.
Proof.
  unfold cancelled_ids. induction ids as [|id ids IH]; [done|]. simpl.
  rewrite !filter_cons. simpl. destruct (decide _); simpl; by rewrite <- IH.
Qed.

(** The account of round [id] parses to a round that satisfies [P]. *)
Definition round_with (P : Crank.RoundData -> Prop) (id : Z) : Prop :=
  exists info r, round_at id = Some info /\ Crank.parseRound (ai_data info) = Ok r /\ P r.

(** The round is settled and [winner] won it. *)
Definition claimable_at (winner : PublicKey) : Z -> Prop :=
  round_with (fun r => Crank.status r = RoundStatus.Settled /\ Crank.winner r = winner).

(** The round was cancelled and the user still has a deposit in it. *)
Definition refundable_at (user : PublicKey) (id : Z) : Prop :=
  round_with (fun r => Crank.status r = RoundStatus.Cancelled) id /\
  exists info part, account (getParticipantPda A (pda id) user) = Some info /\
    Crank.parseParticipant (ai_data info) = Ok part /\
    Crank.p_user part = user /\ 0 < Crank.p_usdcTotal part.

Lemma claimable_true winner id :
  claimable winner (round_at id) = true <-> claimable_at winner id.
Proof.
  unfold claimable, claimable_at, round_with. split.
  - destruct (round_at id) as [info|]; [|done].
    destruct (Crank.parseRound (ai_data info)) as [r|] eqn:E; [|done].
    intros [?%Z.eqb_eq ?%bool_decide_eq_true]%andb_true_iff. by exists info, r.
  - intros (info & r & -> & -> & -> & ->). by rewrite bool_decide_true.
Qed.

Lemma refundable_true user id :
  cancelled (round_at id) = true /\
  refundable user (account (getParticipantPda A (pda id) user)) = true <-> refundable_at user id.
Proof.
  unfold refundable_at, round_with, cancelled, refundable. split.
  - intros [Hc Hr]. split.
    + destruct (round_at id) as [info|]; [|done].
      destruct (Crank.parseRound (ai_data info)) as [r|] eqn:E; [|done].
      exists info, r. by rewrite <- (Z.eqb_eq (Crank.status r)).
    + destruct (account _) as [info|]; [|done].
      destruct (Crank.parseParticipant (ai_data info)) as [part|] eqn:E; [|done].
      apply andb_true_iff in Hr as [?%bool_decide_eq_true ?%Z.ltb_lt]. by exists info, part.
  - intros [(info & r & -> & -> & ->) (pinfo & part & -> & -> & Hu & Ht)]. split; [done|].
    rewrite bool_decide_true by done. by apply Z.ltb_lt.
Qed.

#[local] Instance claimable_at_dec winner id : Decision (claimable_at winner id).
Proof.
  refine (cast_if (decide (claimable winner (round_at id) = true))); by rewrite <- claimable_true.
Defined.
#[local] Instance refundable_at_dec user id : Decision (refundable_at user id).
Proof.
  refine (cast_if (decide (cancelled (round_at id) = true /\
    refundable user (account (getParticipantPda A (pda id) user)) = true)));
    by rewrite <- refundable_true.
Defined.

Lemma claimable_in_steady winner batches (p : Proc) :
  Forall (Forall (fun id => 1 <= id < 2 ^ 53)) batches ->
  wp (claimable_in A winner batches)
    (fun r _ => r = Ok (head (filter (claimable_at winner) (concat batches)))) p.
Proof.
  intros Hb. revert p. induction Hb as [|ids batches Hi _ IH]; intros p; cbn [claimable_in concat];
    [by wp_step|].
  wp_step. wp_step. rewrite pdas_ok by done. wp_step. apply wp_steady. intros p' _.
  rewrite <- list_fmap_compose. change (account ∘ pda) with round_at.
  rewrite first_id_steady, head_filter_app.
  rewrite (list_filter_iff _ (claimable_at winner)) by (intros; apply claimable_true).
  destruct (head (filter _ ids)); [by wp_step|apply IH].
Qed.

Lemma refundable_in_steady user batches (p : Proc) :
  Forall (Forall (fun id => 1 <= id < 2 ^ 53)) batches ->
  wp (refundable_in A user batches)
    (fun r _ => r = Ok (head (filter (refundable_at user) (concat batches)))) p.
Proof.
  intros Hb. revert p. induction Hb as [|ids batches Hi _ IH]; intros p; cbn [refundable_in concat];
    [by wp_step|].
  wp_step. wp_step. rewrite pdas_ok by done. wp_step. apply wp_steady. intros p' _.
  rewrite <- list_fmap_compose. change (account ∘ pda) with round_at.
  rewrite cancelled_ids_steady, head_filter_app.
  set (cs := filter (fun id => cancelled (round_at id) = true) ids).
  assert (Hboth : filter (refundable_at user) ids =
    filter (fun id => refundable user (account (getParticipantPda A (pda id) user)) = true) cs).
  { unfold cs. rewrite list_filter_filter. apply list_filter_iff. intros id.
    rewrite <- refundable_true. naive_solver. }
  destruct (length cs =? 0)%nat eqn:E.
  { apply Nat.eqb_eq, nil_length_inv in E. rewrite Hboth, E. apply IH. }
  wp_step. wp_step.
  rewrite (res_mapM_ok _ (fun id => getParticipantPda A (pda id) user)).
  2:{ apply Forall_forall. intros id [_ Hin]%list_elem_of_filter.
      rewrite Forall_forall in Hi. by rewrite pda_ok by auto. }
  wp_step. apply wp_steady. intros p'' _.
  change (map ?f ?l) with (f <$> l). rewrite <- list_fmap_compose.
  rewrite (first_id_steady (refundable user) (account ∘ (fun id => getParticipantPda A (pda id) user))).
  rewrite Hboth. cbn [compose]. unfold compose. destruct (head (filter _ cs)); [by wp_step|apply IH].
Qed.

(** ** The scan on a steady chain *)

Definition chain (id : Z) : ScanEntry := entry_of (round_at id).
Definition is_open : Z -> Prop := round_with (fun r => Crank.status r = RoundStatus.Open).

Lemma is_open_chain id :
  is_open id <-> exists status, chain id = round status /\ isJoinableRoundStatus status = true.
Proof.
  unfold is_open, round_with, chain, entry_of, isJoinableRoundStatus. split.
  - intros (info & r & -> & -> & ->). by eexists.
  - intros (status & Hs & Ho%Z.eqb_eq). destruct (round_at id) as [info|]; [|done].
    destruct (Crank.parseRound (ai_data info)) as [r|] eqn:E; [|done].
    injection Hs as <-. by exists info, r.
Qed.
Local Abbreviation limit := ROUND_SCAN_NULL_STREAK_LIMIT.

Lemma api_entries_app l1 l2 st :
  api_stops st = false ->
  api_entries (l1 ++ l2) st =
  let st1 := api_entries l1 st in if api_stops st1 then st1 else api_entries l2 st1.
Proof.
  revert st. induction l1 as [|[id entry] l1 IH]; intros st Hst; simpl.
  { by rewrite Hst. }
  case_bool_decide as Hm; simpl.
  - destruct (api_stops (api_step st id entry)) eqn:E; simpl; [by rewrite ?E|by apply IH].
  - apply IH, not_true_is_false. intros ?%scan_entry_stops; [done|]. by compute.
Qed.

Lemma api_batches_flat n base st (p : Proc) :
  api_stops st = false -> 1 <= base -> base + Z.of_nat n * ROUND_SCAN_BATCH <= 2 ^ 53 ->
  wp (api_batches A n base st)
    (fun r p' => r = Ok (api_entries (entries_from chain base (n * Z.to_nat ROUND_SCAN_BATCH)) st) /\
                 local p' = local p) p.
Proof.
  revert base st p. induction n as [|n IH]; intros base st p Hst Hb Hmax; cbn [api_batches];
    [by wp_step|].
  wp_step. wp_step. rewrite pdas_ok.
  2:{ apply Forall_forall. intros id Hid%elem_of_seqZ. unfold ROUND_SCAN_BATCH in *. lia. }
  wp_step. apply wp_steady. intros p' Hl.
  assert (Hz : zip (seqZ base ROUND_SCAN_BATCH) (entry_of <$> (account <$> (pda <$> seqZ base ROUND_SCAN_BATCH)))
          = entries_from chain base (Z.to_nat ROUND_SCAN_BATCH)).
  { unfold entries_from. rewrite Z2Nat.id by done. generalize (seqZ base ROUND_SCAN_BATCH).
    induction l as [|id l IHl]; [done|]. simpl. by f_equal. }
  rewrite Hz. rewrite Nat.mul_succ_l, Nat.add_comm, entries_from_app, api_entries_app by done.
  cbn zeta. destruct (api_stops (api_entries _ st)) eqn:E; [by wp_step|].
  rewrite Z2Nat.id by done. rewrite <- Hl. apply IH; [done| |]; unfold ROUND_SCAN_BATCH in *; lia.
Qed.

(** The state after visiting the ids of [[lo, hi)]. *)
Definition api_scanned (lo hi : Z) (st : ApiScan) : Prop :=
  scanned chain lo hi (as_scan st) /\ last_such is_open lo hi (joinableRound st).

Lemma api_step_scanned lo hi st :
  lo <= hi -> api_scanned lo hi st -> api_scanned lo (hi + 1) (api_step st hi (chain hi)).
Proof.
  intros Hle [Hs Hj]. split; [by apply scanned_step|]. simpl.
  destruct (chain hi) as [| |status] eqn:E.
  1,2: apply last_such_keep; try done; intros (s & Hs' & _)%is_open_chain; congruence.
  destruct (isJoinableRoundStatus status) eqn:Es.
  - apply last_such_new; [done|]. apply is_open_chain. by exists status.
  - apply last_such_keep; try done. intros (s & Hs' & ?)%is_open_chain. congruence.
Qed.

Lemma api_entries_scanned lo mid n st :
  lo <= mid -> api_scanned lo mid st ->
  let st' := api_entries (entries_from chain mid n) st in
  exists hi, mid <= hi <= mid + Z.of_nat n /\ api_scanned lo hi st' /\
    (hi = mid + Z.of_nat n \/ api_stops st' = true).
Proof.
  revert mid st. induction n as [|n IH]; intros mid st Hle Hs; cbn zeta.
  { exists mid. split_and!; try lia; done. }
  rewrite entries_from_cons. cbn [api_entries].
  pose proof (api_step_scanned _ _ _ Hle Hs) as Hs'.
  destruct (bool_decide (chain mid = missing) && _) eqn:E.
  - apply andb_true_iff in E as [_ E]. exists (mid + 1). split_and!; try lia; try apply Hs'; by right.
  - destruct (IH (mid + 1) _ ltac:(lia) Hs') as (hi & ? & ? & [?|?]);
      exists hi; split_and!; try lia; try done; first [left; lia|by right].
Qed.

(** Nothing is missed: the gaps before the last account are shorter than the limit. *)
Lemma api_entries_complete lo n :
  no_wide_gap limit chain lo (lo + Z.of_nat n) ->
  let st := api_entries (entries_from chain lo n) (mkApiScan (mkScan 0 0 0) 0) in
  last_such (is_round chain) lo (lo + Z.of_nat n) (maxExisting (as_scan st)) /\
  last_such (is_active chain) lo (lo + Z.of_nat n) (activeRound (as_scan st)) /\
  last_such is_open lo (lo + Z.of_nat n) (joinableRound st).
Proof.
  intros Hgap st.
  destruct (api_entries_scanned lo lo n (mkApiScan (mkScan 0 0 0) 0)) as (hi & Hhi & [Hs Hj] & Hend);
    [lia| |].
  { split; [split|]; simpl; try lia; left; split; lia || done. }
  fold st in Hs, Hj, Hend.
  assert (Hrest : forall j, hi <= j < lo + Z.of_nat n -> chain j = missing).
  { intros j Hj'. destruct Hend as [->|Hstop]; [lia|].
    apply andb_true_iff in Hstop as [_ Hl%Z.leb_le].
    destruct (decide (chain j = missing)) as [|Hne]; [done|exfalso].
    pose proof (scanned_streak _ _ _ _ Hs).
    destruct (Hgap (hi - nullStreak (as_scan st)) j) as (k & Hk & Hck); try lia; [done|].
    destruct (decide (k < hi)) as [Hlt|]; [|lia].
    apply Hck. apply (scanned_missing _ _ _ _ Hs). lia. }
  destruct Hs as [_ _ He Ha].
  split_and!; (eapply last_such_extend; [|done|]; [lia|]); intros j Hj'.
  - intros [s Hs]. rewrite Hrest in Hs by lia. done.
  - intros (s & Hs & _). rewrite Hrest in Hs by lia. done.
  - intros (s & Hs & _)%is_open_chain. rewrite Hrest in Hs by lia. done.
Qed.

(** The ids a scan visits: [[lo, lo + 220)]. *)
Definition window_start (mode : Mode) (c : RoundCache) : Z := Z.max 1 (seed_round mode c - 2).
Definition WINDOW : Z := ROUND_SCAN_MAX + ROUND_SCAN_BATCH.

(** The greatest id of the window with the property. *)
Definition greatest (P : Z -> Prop) (lo r : Z) : Prop :=
  lo <= r < lo + WINDOW /\ P r /\ forall k, r < k < lo + WINDOW -> ~ P k.
Definition none_in (P : Z -> Prop) (lo : Z) : Prop := forall k, lo <= k < lo + WINDOW -> ~ P k.

(** What a scan from [lo] answers. *)
Definition scan_answer (mode : Mode) (lo : Z) (r : Res Z) : Prop :=
  match mode with
  | Joinable =>
      (exists j, r = Ok j /\ greatest is_open lo j) \/
      (r = Throw (not_found Joinable) /\ none_in is_open lo)
  | Active =>
      (exists a, r = Ok a /\ greatest (is_active chain) lo a) \/
      (none_in (is_active chain) lo /\ exists m, r = Ok m /\ greatest (is_round chain) lo m) \/
      (r = Ok 1 /\ none_in (is_round chain) lo)
  end.

Lemma is_active_round id : is_active chain id -> is_round chain id.
Proof. intros (s & Hs & _). by exists s. Qed.

Lemma rescan_steady mode now (p : Proc) :
  let lo := window_start mode (local p) in
  lo + WINDOW <= 2 ^ 53 -> no_wide_gap limit chain lo (lo + WINDOW) ->
  wp (rescan A mode now) (fun r p' => scan_answer mode lo r /\ tsMs (local p') = now) p.
Proof.
  intros lo Hmax Hgap. unfold rescan. wp_step. wp_step. cbn [id]. fold (window_start mode (local p)).
  wp_step. eapply wp_mono; [apply api_batches_flat; [done|unfold window_start; lia|exact Hmax]|].
  intros r p' [-> Hl]. destruct (api_entries_complete lo (API_BATCHES * Z.to_nat ROUND_SCAN_BATCH))
    as (He & Ha & Hj); [exact Hgap|].
  change (lo + Z.of_nat (API_BATCHES * Z.to_nat ROUND_SCAN_BATCH)) with (lo + WINDOW) in *.
  fold lo. set (st := api_entries _ _) in *. assert (Hlo : 1 <= lo) by (unfold lo, window_start; lia).
  wp_step. wp_step. destruct mode; cbn [cached_round cache_of_scan activeRoundId joinableRoundId].
  - destruct (Z.ltb_spec 0 (activeRound (as_scan st))) as [Hpos|Hpos].
    { rewrite (proj2 (Z.leb_gt _ _)) by lia. wp_step. split; [|done]. left. eexists. split; [done|].
      destruct Ha as [[? _]|Ha]; [lia|exact Ha]. }
    destruct Ha as [[_ Hn]|[Ha _]]; [|lia]. rewrite (proj2 (Z.leb_gt _ _)) by lia. wp_step.
    split; [|done]. right. destruct He as [[-> Hm]|(Hm & Hp & Hn')]; [by right|left].
    split; [done|]. eexists. split; [done|]. by rewrite Z.max_r by lia.
  - destruct (Z.ltb_spec 0 (joinableRound st)) as [Hpos|Hpos].
    { rewrite (proj2 (Z.leb_gt _ _)) by lia. wp_step. split; [|done]. left. eexists. split; [done|].
      destruct Hj as [[? _]|Hj]; [lia|exact Hj]. }
    wp_step. split; [|done]. right. split; [done|]. destruct Hj as [[_ Hn]|[Hj _]]; [done|lia].
Qed.

(** A fresh scan is right: when the chain does not change during the request and
    has no gap of 20 closed rounds before its last one, looking for an open round
    answers the greatest open round of the 220 ids from two below the last known one
    (and 404 NO_OPEN_ROUND exactly when there is none), looking for the active round
    answers the greatest active one, or else the greatest existing one. *)
Theorem scan_answers_latest mode now (p : Proc) :
  let lo := window_start mode (local p) in
  lo + WINDOW <= 2 ^ 53 -> no_wide_gap limit chain lo (lo + WINDOW) ->
  scan_answer mode lo (fst (rescan A mode now p)).
Proof. intros lo Hmax Hgap. by apply (rescan_steady mode now p Hmax Hgap). Qed.

(** A server that starts cold is blind beyond round 220: with an empty cache, if
    the accounts of the first 220 rounds are closed, it answers that no round is open
    and that the active round is round 1, whatever rounds exist above. *)
Theorem cold_start_blind (p : Proc) :
  local p = initial_cache -> (forall id, 1 <= id <= 220 -> round_at id = None) ->
  fst (scanRoundIds A Joinable p) = Throw (not_found Joinable) /\
  fst (scanRoundIds A Active p) = Ok 1.
Proof.
  intros Hl Hnone.
  assert (Hmiss : forall id, 1 <= id < 1 + WINDOW -> chain id = missing).
  { intros id Hid. unfold chain. by rewrite Hnone by (change WINDOW with 220 in Hid; lia). }
  assert (Hno : forall id, 1 <= id < 1 + WINDOW -> ~ is_round chain id).
  { intros id Hid [s Hs]. by rewrite Hmiss in Hs. }
  assert (Hscan : forall mode, scan_answer mode 1 (fst (scanRoundIds A mode p))).
  { intros mode. change (wp (scanRoundIds A mode) (fun r _ => scan_answer mode 1 r) p).
    unfold scanRoundIds, dateNow. wp_step. wp_step. wp_step. wp_step. cbn [local id]. rewrite Hl.
    assert (Hr : forall w h, wp (rescan A mode a) (fun r _ => scan_answer mode 1 r)
      (mkProc initial_cache w h)).
    { intros w' h. assert (E : window_start mode initial_cache = 1) by (by destruct mode).
      eapply wp_mono; [apply rescan_steady|]; cbn [local]; rewrite E; [by compute| |].
      - intros j e Hj He Hstop Hne. exfalso. apply Hne, Hmiss.
        change limit with 20 in He. lia.
      - by intros r q [Hq _]. }
    destruct mode; apply Hr. }
  split.
  - destruct (Hscan Joinable) as [(j & _ & Hj & (s & Hs & _)%is_open_chain & _)|[-> _]]; [|done].
    exfalso. apply (Hno j Hj). by exists s.
  - destruct (Hscan Active) as [(a & _ & Ha & Hp & _)|[[_ (m & _ & Hm & Hp & _)]|[-> _]]]; [| |done].
    + exfalso. by apply (Hno a Ha), is_active_round.
    + exfalso. by apply (Hno m Hm).
Qed.

(** ** The searches on a steady chain *)

Lemma batches_range fuel c e :
  1 <= e -> c < 2 ^ 53 ->
  Forall (Forall (fun id => 1 <= id < 2 ^ 53)) (batches_from fuel c e ROUND_SCAN_BATCH).
Proof.
  intros He. revert c. induction fuel as [|fuel IH]; intros c Hc; cbn [batches_from]; [done|].
  destruct (e <=? c); [|done]. constructor; [|apply IH; unfold ROUND_SCAN_BATCH; lia].
  apply Forall_forall. intros id Hid%elem_of_descending. lia.
Qed.

(** [r] is the last of the looked-up rounds with the property, or the search throws
    [e] because there is none. *)
Definition last_or (P : Z -> Prop) (e : JsError) (latest : Z) (r : Res Z) : Prop :=
  match r with
  | Ok r => Z.max 1 (latest - ELIGIBILITY_LOOKBACK_ROUNDS) <= r <= latest /\ P r /\
            forall k, r < k <= latest -> ~ P k
  | Throw e' => e' = e /\
      forall k, Z.max 1 (latest - ELIGIBILITY_LOOKBACK_ROUNDS) <= k <= latest -> ~ P k
  end.

Lemma latest_known latest (p : Proc) Q :
  fst (scanRoundIds A Active p) = Ok latest -> 1 <= latest -> (forall p', Q (Ok latest) p') ->
  wp (getLatestKnownRoundId A) Q p.
Proof.
  intros Hs Hl HQ. unfold getLatestKnownRoundId. wp_step. unfold wp. rewrite Hs.
  simpl. rewrite Z.max_r by done. apply HQ.
Qed.

Section found.
Context (latest : Z) (p : Proc).
Hypothesis Hscan : fst (scanRoundIds A Active p) = Ok latest.
Hypothesis Hlatest : 1 <= latest < 2 ^ 53.

(** The claim action finds the user's prize: among the 300 rounds below the latest
    known one it answers the latest settled round the user won, and 404
    NO_UNCLAIMED_PRIZE exactly when there is none. *)
Theorem claim_finds_latest_prize winner :
  last_or (claimable_at winner)
    (action_error 404 "NO_UNCLAIMED_PRIZE" "No claimable prize found in recent rounds") latest
    (fst (findLatestClaimableRoundId A winner p)).
Proof.
  change (wp (findLatestClaimableRoundId A winner) (fun r _ => last_or (claimable_at winner)
    (action_error 404 "NO_UNCLAIMED_PRIZE" "No claimable prize found in recent rounds") latest r) p).
  unfold findLatestClaimableRoundId. wp_step. eapply latest_known; [exact Hscan|lia|]. intros p'.
  wp_step. eapply wp_mono; [apply claimable_in_steady, batches_range; lia|].
  intros r q ->. unfold descendingBatches. rewrite batches_concat by (done || lia).
  pose proof (head_filter_down (claimable_at winner) latest
    (Z.max 1 (latest - ELIGIBILITY_LOOKBACK_ROUNDS))) as Hh.
  destruct (head _); wp_step; [exact Hh|by split].
Qed.

(** The refund action finds the user's deposit: among the 300 rounds below the
    latest known one it answers the latest cancelled round in which the user's
    participant account still holds a deposit, and 404 NO_REFUND_AVAILABLE exactly
    when there is none. *)
Theorem refund_finds_latest_deposit user :
  last_or (refundable_at user)
    (action_error 404 "NO_REFUND_AVAILABLE" "No refundable cancelled round found in recent rounds")
    latest (fst (findLatestRefundableRoundId A user p)).
Proof.
  change (wp (findLatestRefundableRoundId A user) (fun r _ => last_or (refundable_at user)
    (action_error 404 "NO_REFUND_AVAILABLE" "No refundable cancelled round found in recent rounds")
    latest r) p).
  unfold findLatestRefundableRoundId. wp_step. eapply latest_known; [exact Hscan|lia|]. intros p'.
  wp_step. eapply wp_mono; [apply refundable_in_steady, batches_range; lia|].
  intros r q ->. unfold descendingBatches. rewrite batches_concat by (done || lia).
  pose proof (head_filter_down (refundable_at user) latest
    (Z.max 1 (latest - ELIGIBILITY_LOOKBACK_ROUNDS))) as Hh.
  destruct (head _); wp_step; [exact Hh|by split].
Qed.
End found.
End steady.

(** ** Whatever the node answers *)

Section seen.
Context `{SolanaLibs} `{!Services}.
Context (A : Addresses).
Local Abbreviation Proc := (Proc RoundCache World Event).

(** One of the answers showed the round open. *)
Definition seen_open (h : list Event) (id : Z) : Prop :=
  exists ks infos pda info r i,
    EvAccounts ks (Ok infos) ∈ h /\ getRoundPda A id = Ok pda /\ ks !! i = Some pda /\
    infos !! i = Some (Some info) /\ Crank.parseRound (ai_data info) = Ok r /\
    Crank.status r = RoundStatus.Open.

Lemma seen_open_app evs h id : seen_open h id -> seen_open (evs ++ h) id.
Proof.
  intros (ks & infos & pda & info & r & i & Hin & Hrest). exists ks, infos, pda, info, r, i.
  split; [apply elem_of_app; by right|done].
Qed.

Lemma seen_open_left evs h id : seen_open evs id -> seen_open (evs ++ h) id.
Proof.
  intros (ks & infos & pda & info & r & i & Hin & Hrest). exists ks, infos, pda, info, r, i.
  split; [apply elem_of_app; by left|done].
Qed.

Lemma entry_open info status :
  entry_of info = round status -> isJoinableRoundStatus status = true ->
  exists i r, info = Some i /\ Crank.parseRound (ai_data i) = Ok r /\ Crank.status r = RoundStatus.Open.
Proof.
  unfold entry_of. destruct info as [i|]; [|done].
  destruct (Crank.parseRound (ai_data i)) as [r|] eqn:E; [|done].
  intros [= <-] Hs%Z.eqb_eq. by exists i, r.
Qed.

(** The open round of a batch is one of its entries. *)
Lemma api_entries_joinable entries st :
  joinableRound (api_entries entries st) = joinableRound st \/
  exists status, (joinableRound (api_entries entries st), round status) ∈ entries /\
    isJoinableRoundStatus status = true.
Proof.
  revert st. induction entries as [|[id entry] entries IH]; intros st; [by left|]. cbn [api_entries].
  assert (Hstep : joinableRound (api_step st id entry) = joinableRound st \/
    exists status, joinableRound (api_step st id entry) = id /\ entry = round status /\
      isJoinableRoundStatus status = true).
  { destruct entry as [| |status]; simpl; [by left..|].
    destruct (isJoinableRoundStatus status) eqn:E; [right; by exists status|by left]. }
  destruct (bool_decide _ && _).
  - destruct Hstep as [->|(status & -> & -> & Hs)]; [by left|right]. exists status.
    split; [left|done].
  - destruct (IH (api_step st id entry)) as [->|(status & Hin & Hs)].
    + destruct Hstep as [->|(status & -> & -> & Hs)]; [by left|right]. exists status.
      split; [left|done].
    + right. exists status. split; [by right|done].
Qed.

Lemma api_batches_seen n base st (p : Proc) :
  wp (api_batches A n base st)
    (fun r p' => exists evs, history p' = evs ++ history p /\ local p' = local p /\
       forall st', r = Ok st' ->
         joinableRound st' = joinableRound st \/ seen_open evs (joinableRound st')) p.
Proof.
  revert base st p. induction n as [|n IH]; intros base st p; cbn [api_batches].
  { wp_step. exists []. split_and!; try done. intros st' [= <-]. by left. }
  wp_step. wp_step. destruct (res_mapM (getRoundPda A) _) as [pdas|e] eqn:Ep; [|by exists []].
  wp_step. unfold getMultipleAccountsInfo. wp_step. set (ev := EvAccounts pdas r).
  destruct r as [infos|e]; [|by exists [ev]].
  set (st1 := api_entries _ st).
  assert (Hst1 : joinableRound st1 = joinableRound st \/ seen_open [ev] (joinableRound st1)).
  { destruct (api_entries_joinable (zip (seqZ base ROUND_SCAN_BATCH) (entry_of <$> infos)) st)
      as [Hk|(status & Hin & Hs)]; [by left|right]. fold st1 in Hin.
    apply list_elem_of_lookup in Hin as [i Hi].
    apply lookup_zip_Some in Hi as [Hid Hen]. apply list_lookup_fmap_Some in Hen as (info & Hen & Hinfo).
    destruct (entry_open _ _ (eq_sym Hen) Hs) as (acct & rd & -> & Hparse & Hopen).
    destruct (res_mapM_lookup _ _ _ _ _ Ep Hid) as (pda & Hpda & Hk).
    exists pdas, infos, pda, acct, rd, i. split_and!; try done. left. }
  destruct (api_stops st1).
  { wp_step. exists [ev]. split_and!; try done. by intros st' [= <-]. }
  eapply wp_mono; [apply IH|]. intros r q (evs & Hh & Hl & Hr). exists (evs ++ [ev]).
  split_and!; [rewrite Hh; by rewrite <- app_assoc|done|].
  intros st' Hst'. destruct (Hr st' Hst') as [->|Hseen].
  - destruct Hst1 as [->|Hs]; [by left|right]. by apply seen_open_app.
  - right. by apply seen_open_left.
Qed.

(** ** The cache *)

(** The states of a server process: requests scan in either mode, everything else a
    handler does leaves the cache alone, and time passes between requests. *)
Inductive served : Proc -> Prop :=
| served_start w : served (mkProc initial_cache w [])
| served_scan mode p : served p -> served (snd (scanRoundIds A mode p))
| served_other evs w p : served p -> served (mkProc (local p) w (evs ++ history p)).

(** The cached open round was seen open. *)
Definition cache_seen (p : Proc) : Prop :=
  forall j, joinableRoundId (local p) = Some j -> seen_open (history p) j.

(** What a scan in [mode] from [p] answers: the cached id within its life time, or a
    round seen open by the scan itself. *)
Definition offered (mode : Mode) (p : Proc) (r : Res Z) (p' : Proc) : Prop :=
  cache_seen p' /\ (exists evs, history p' = evs ++ history p) /\
  forall j, r = Ok j -> mode = Joinable ->
    (exists now, EvNow now ∈ history p' /\ now - tsMs (local p) < CURRENT_ROUND_CACHE_TTL_MS /\
       joinableRoundId (local p) = Some j) \/
    (exists evs, history p' = evs ++ history p /\ seen_open evs j).

Lemma rescan_seen mode now (p : Proc) :
  wp (rescan A mode now)
    (fun r p' => (cache_seen p -> cache_seen p') /\
       exists evs, history p' = evs ++ history p /\
         forall j, r = Ok j -> mode = Joinable -> seen_open evs j) p.
Proof.
  unfold rescan. wp_step. wp_step. wp_step. eapply wp_mono; [apply api_batches_seen|].
  intros [st|e] p' (evs & Hh & Hl & Hst).
  2:{ split; [|by exists evs]. intros Hc j. rewrite Hl, Hh. intros Hj. by apply seen_open_app, Hc. }
  specialize (Hst st eq_refl). wp_step. wp_step.
  assert (Hj : forall j, joinableRoundId (cache_of_scan now st) = Some j -> seen_open evs j).
  { intros j. simpl. destruct (Z.ltb_spec 0 (joinableRound st)); [|done]. intros [= <-].
    destruct Hst as [E|Hst]; [simpl in E; lia|exact Hst]. }
  assert (Hcache : cache_seen (set_local p' (cache_of_scan now st))).
  { intros j Hc. simpl. rewrite Hh. by apply seen_open_left, Hj. }
  destruct (cached_round mode _) as [r|] eqn:Er; [destruct (r <=? 0)|]; wp_step;
    (split; [done|]); exists evs; (split; [done|]); try done.
  intros j [= <-] ->. by apply Hj.
Qed.

Lemma scan_offered mode (p : Proc) :
  cache_seen p -> wp (scanRoundIds A mode) (offered mode p) p.
Proof.
  intros Hc. unfold scanRoundIds, dateNow. wp_step. wp_step. wp_step. wp_step. cbn [id local].
  set (q := mkProc (local p) w (EvNow a :: history p)).
  assert (Hq : cache_seen q).
  { intros j Hj. apply (seen_open_app [EvNow a]). by apply Hc. }
  assert (Hre : wp (rescan A mode a) (offered mode p) q).
  { eapply wp_mono; [apply rescan_seen|]. intros r p' (Hc' & evs & Hh & Hr).
    assert (Hh' : history p' = (evs ++ [EvNow a]) ++ history p)
      by (rewrite Hh; by rewrite <- app_assoc).
    split; [by apply Hc'|]. split; [by eexists|]. intros j Hj Hm. right. exists (evs ++ [EvNow a]).
    split; [exact Hh'|].
    by apply seen_open_left, Hr. }
  destruct (cached_round mode (local p)) as [r|] eqn:Er; [|exact Hre].
  destruct ((a - tsMs (local p) <? _) && _) eqn:E; [|exact Hre].
  apply andb_true_iff in E as [Et%Z.ltb_lt _]. wp_step. split; [exact Hq|]. split; [by exists [EvNow a]|].
  intros j [= <-] ->. left. exists a. split_and!; [left|done|exact Er].
Qed.

Lemma served_seen p : served p -> cache_seen p.
Proof.
  induction 1 as [w|mode p _ IH|evs w p _ IH]; [by intros j| |].
  - apply (scan_offered mode p IH).
  - intros j Hj. by apply seen_open_app, IH.
Qed.

End seen.

(** ** Witnesses *)

Module ActionsWitness.
#[local] Existing Instance ToyKeys.keys.
#[local] Existing Instance ToySolana.libs.

Definition k (n : Z) : PublicKey := ToyKeys.mk (le_encode 4 n).
Definition addresses : Addresses := mkAddresses (k 1) (k 2) (k 3) (k 4) (k 5) (k 6) (k 7).
Definition user : PublicKey := k 21.

Definition round_bytes (id status : Z) (winner : PublicKey) : bytes :=
  encode_round (mkRoundImage (replicate 8 x00) id status 254 (replicate 6 x00) 0 0 0 (k 20) 0
    0 0 (replicate 6 x00) (replicate 32 x00) 0 winner (replicate 200 defaultKey)
    (replicate (Z.to_nat 1608) x00) defaultKey 0 0 (replicate 30 x00)).

Definition deposit_bytes : bytes :=
  concat (participant_fields (replicate 8 x00) (Crank.mkParticipantData (k 4) user 0 255 10 100000 1) []).

(** Round 2 was won by the user, round 3 by another one, round 4 was cancelled with a
    deposit of the user, round 5 is open. *)
Definition account (key : PublicKey) : option AccountInfo :=
  let b := toBuffer key in
  if bool_decide (head b = Some "p"%byte) then
    (if le_decode (take 8 (drop 6 b)) =? 4 then Some (mkInfo deposit_bytes (k 1)) else None)
  else
    let id := le_decode (take 8 (drop 5 b)) in
    if id =? 2 then Some (mkInfo (round_bytes 2 RoundStatus.Settled user) (k 1))
    else if id =? 3 then Some (mkInfo (round_bytes 3 RoundStatus.Settled (k 22)) (k 1))
    else if id =? 4 then Some (mkInfo (round_bytes 4 RoundStatus.Cancelled defaultKey) (k 1))
    else if id =? 5 then Some (mkInfo (round_bytes 5 RoundStatus.Open defaultKey) (k 1))
    else None.

#[local] Instance services (acct : PublicKey -> option AccountInfo) : Services := {|
  World := Z;
  callDateNow := fun w => (w, w + 1000);
  callGetAccountInfo := fun key w => (Ok (acct key), w);
  callGetMultipleAccountsInfo := fun ks w => (Ok (acct <$> ks), w);
  callGetLatestBlockhash := fun w => (Ok "hash", w);
  callSendAndConfirm := fun _ _ w => (Ok "sig", w);
  callParticipantFetch := fun _ w => (Throw (mkError "Error" "Account does not exist"), w);
  callFetch := fun _ w => (Ok (mkResponse 200 (Ok "") (Ok JNull)), w)
|}.

Definition pda (id : Z) : PublicKey :=
  fst (findProgramAddressSync [SEED_ROUND; le_encode 8 (Z.abs id)] (PROGRAM_ID addresses)).

Lemma pda_ok id : 1 <= id < 2 ^ 53 -> getRoundPda addresses id = Ok (pda id).
Proof.
  intros Hid. unfold getRoundPda. cbn [newBN ToySolana.libs].
  by rewrite (proj2 (Z.ltb_lt (Z.abs id) (2 ^ 53))) by lia.
Qed.

Lemma steady acct ks w :
  fst (@callGetMultipleAccountsInfo _ (services acct) ks w) = Ok (acct <$> ks).
Proof. done. Qed.

Lemma pda_decode id : 1 <= id < 2 ^ 53 -> le_decode (take 8 (drop 5 (toBuffer (pda id)))) = id.
Proof.
  intros Hid.
  change (take 8 (drop 5 (toBuffer (pda id)))) with (le_encode 8 (Z.abs id)).
  rewrite le_decode_encode_small; lia.
Qed.

Definition p0 (acct : PublicKey -> option AccountInfo) :=
  @mkProc RoundCache (@World _ (services acct)) Event initial_cache 1700000000000 [].

Lemma few_rounds id : 6 <= id < 2 ^ 53 -> round_at account pda id = None.
Proof.
  intros Hid. unfold round_at, account. rewrite pda_decode by lia.
  destruct (bool_decide _) eqn:E; [by vm_compute in E|].
  destruct (Z.eqb_spec id 2), (Z.eqb_spec id 3), (Z.eqb_spec id 4), (Z.eqb_spec id 5); lia || done.
Qed.

Lemma scan_answers_latest_witness :
  fst (@rescan _ _ (services account) addresses Joinable 0 (p0 account)) = Ok 5 /\
  scan_answer account pda Joinable 1
    (fst (@rescan _ _ (services account) addresses Joinable 0 (p0 account))).
Proof.
  split; [vm_compute; reflexivity|].
  apply (@scan_answers_latest _ _ (services account) addresses account pda (steady account) pda_ok
           Joinable 0 (p0 account)); [by compute|].
  intros j e Hj He Hstop Hne. exfalso. apply Hne. unfold chain. rewrite few_rounds; [done|].
  change (window_start Joinable (local (p0 account))) with 1 in *.
  change WINDOW with 220 in *. change ROUND_SCAN_NULL_STREAK_LIMIT with 20 in *. lia.
Defined.

Lemma cold_start_blind_witness :
  fst (@scanRoundIds _ _ (services (fun _ => None)) addresses Joinable (p0 (fun _ => None))) =
    Throw (not_found Joinable) /\
  fst (@scanRoundIds _ _ (services (fun _ => None)) addresses Active (p0 (fun _ => None))) = Ok 1.
Proof.
  apply (@cold_start_blind _ _ (services (fun _ => None)) addresses (fun _ => None) pda
           (steady (fun _ => None)) pda_ok (p0 (fun _ => None))); [done|by intros].
Defined.

Lemma known : fst (@scanRoundIds _ _ (services account) addresses Active (p0 account)) = Ok 5.
Proof. vm_compute. reflexivity. Qed.

Lemma claim_finds_latest_prize_witness :
  fst (@findLatestClaimableRoundId _ _ (services account) addresses user (p0 account)) = Ok 2 /\
  last_or (claimable_at account pda user)
    (action_error 404 "NO_UNCLAIMED_PRIZE" "No claimable prize found in recent rounds") 5
    (fst (@findLatestClaimableRoundId _ _ (services account) addresses user (p0 account))).
Proof.
  split; [vm_compute; reflexivity|].
  apply (@claim_finds_latest_prize _ _ (services account) addresses account pda (steady account) pda_ok
           5 (p0 account) known). lia.
Defined.

Lemma refund_finds_latest_deposit_witness :
  fst (@findLatestRefundableRoundId _ _ (services account) addresses user (p0 account)) = Ok 4 /\
  last_or (refundable_at addresses account pda user)
    (action_error 404 "NO_REFUND_AVAILABLE" "No refundable cancelled round found in recent rounds") 5
    (fst (@findLatestRefundableRoundId _ _ (services account) addresses user (p0 account))).
Proof.
  split; [vm_compute; reflexivity|].
  apply (@refund_finds_latest_deposit _ _ (services account) addresses account pda (steady account)
           pda_ok 5 (p0 account) known). lia.
Defined.


(** An amount with a decimal comma; [8.2] loses one base unit to rounding. *)
Example amounts :
  parseUsdcAmountRaw (QText "1,5") = Ok 1500000 /\
  parseUsdcAmountRaw (QText "8.2") = Ok 8199999 /\
  parseUsdcAmountRaw (QText "0.0000001") =
    Throw (action_error 400 "INVALID_AMOUNT" "Amount too small") /\
  parseUsdcAmountRaw (QText "0x10") = Ok 16000000.
Proof. vm_compute. split_and!; reflexivity. Qed.
End ActionsWitness.
