(* ===== verification/Frames.v ===== *)
(** * Frames: what a computation leaves alone

    [framed R P m]: running [m] relates the module's states before and after by [R], and
    adds only events that satisfy [P] to the history.  For a preorder [R] this is closed
    under every construct of [Effects], so the frames of whole handlers follow from those
    of their parts; [framed_auto] does the syntax-directed part.  [returns m] says that
    [m] never throws. *)

From stdpp Require Import base list gmap strings.
From Stdlib Require Import ZArith Lia.
From S2P Require Import Prelude Effects.

Set Warnings "-clear-no-such-hyp".

Section framed.
Context {S W E : Type}.
Implicit Types p : Proc S W E.

(** The events [p'] has beyond [p]. *)
Definition extends (P : E -> Prop) p p' : Prop :=
  exists evs, history p' = evs ++ history p /\ Forall P evs.

Definition framed (R : S -> S -> Prop) (P : E -> Prop) {A} (m : M S W E A) : Prop :=
  forall p, R (local p) (local (snd (m p))) /\ extends P p (snd (m p)).

Definition returns {A} (m : M S W E A) : Prop := forall p, exists a, fst (m p) = Ok a.

Lemma extends_refl P p : extends P p p.
Proof. by exists []. Qed.

Lemma extends_trans P p q r : extends P p q -> extends P q r -> extends P p r.
Proof.
  intros (l1 & H1 & F1) (l2 & H2 & F2). exists (l2 ++ l1).
  rewrite H2, H1, app_assoc. split; [done|]. by apply Forall_app.
Qed.

Lemma extends_mono (P Q : E -> Prop) p p' :
  (forall ev, P ev -> Q ev) -> extends P p p' -> extends Q p p'.
Proof. intros HPQ (l & Hl & F). exists l. split; [done|]. by eapply Forall_impl. Qed.

Section rules.
Context (R : S -> S -> Prop) `{!PreOrder R} (P : E -> Prop).

Lemma framed_ret {A} (a : A) : framed R P (mret a).
Proof. intros p. split; [done|apply extends_refl]. Qed.

Lemma framed_throw {A} e : framed R P (throw (A:=A) e).
Proof. intros p. split; [done|apply extends_refl]. Qed.

Lemma framed_lift {A} (r : Res A) : framed R P (lift r).
Proof. intros p. split; [done|apply extends_refl]. Qed.

Lemma framed_gets {A} (f : S -> A) : framed R P (gets f).
Proof. intros p. split; [done|apply extends_refl]. Qed.

Lemma framed_modify f : (forall s, R s (f s)) -> framed R P (modify f).
Proof. intros Hf p. split; [apply Hf|by exists []]. Qed.

Lemma framed_invoke {A} (call : W -> Res A * W) ev : (forall r, P (ev r)) -> framed R P (invoke call ev).
Proof.
  intros Hev p. unfold invoke. destruct (call (world p)) as [r w]. simpl.
  split; [done|]. exists [ev r]. by repeat constructor.
Qed.

Lemma framed_invoke_total {A} (call : W -> A * W) ev :
  (forall a, P (ev a)) -> framed R P (invoke_total call ev).
Proof.
  intros Hev p. unfold invoke_total. destruct (call (world p)) as [a w]. simpl.
  split; [done|]. exists [ev a]. by repeat constructor.
Qed.

Lemma framed_bind {A B} (m : M S W E A) (f : A -> M S W E B) :
  framed R P m -> (forall a, framed R P (f a)) -> framed R P (mbind f m).
Proof.
  intros Hm Hf p. unfold mbind, M_bind. specialize (Hm p). destruct (m p) as [[a|e] p']; [|done].
  simpl in Hm. destruct Hm as [H1 H2], (Hf a p') as [H3 H4].
  split; [by etrans|by eapply extends_trans].
Qed.

Lemma framed_try {A} (m : M S W E A) h :
  framed R P m -> (forall e, framed R P (h e)) -> framed R P (try_catch m h).
Proof.
  intros Hm Hh p. unfold try_catch. specialize (Hm p). destruct (m p) as [[a|e] p']; [done|].
  simpl in Hm. destruct Hm as [H1 H2], (Hh e p') as [H3 H4].
  split; [by etrans|by eapply extends_trans].
Qed.

Lemma framed_for_each {A} (l : list A) body :
  (forall a, framed R P (body a)) -> framed R P (for_each l body).
Proof.
  intros Hb. induction l as [|a l IH]; [apply framed_ret|].
  by apply framed_bind.
Qed.

Lemma framed_for_acc {A B} (l : list A) (body : B -> A -> M S W E B) b :
  (forall b a, framed R P (body b a)) -> framed R P (for_acc l body b).
Proof.
  intros Hb. revert b. induction l as [|a l IH]; intros b; [apply framed_ret|].
  by apply framed_bind.
Qed.
End rules.

Lemma framed_mono (R R' : S -> S -> Prop) (P P' : E -> Prop) {A} (m : M S W E A) :
  (forall s s', R s s' -> R' s s') -> (forall ev, P ev -> P' ev) ->
  framed R P m -> framed R' P' m.
Proof. intros HR HP Hm p. destruct (Hm p). split; [auto|by eapply extends_mono]. Qed.

Lemma framed_and (R R' : S -> S -> Prop) (P : E -> Prop) {A} (m : M S W E A) :
  framed R P m -> framed R' P m -> framed (fun s s' => R s s' /\ R' s s') P m.
Proof. intros H1 H2 p. destruct (H1 p), (H2 p). auto. Qed.

(** An invariant of the state, kept by [m]. *)
Lemma framed_keeps (I : S -> Prop) (P : E -> Prop) {A} (m : M S W E A) :
  framed (fun _ _ => True) P m ->
  (forall p, I (local p) -> wp m (fun _ p' => I (local p')) p) ->
  framed (fun s s' => I s -> I s') P m.
Proof. intros Hm HI p. split; [apply HI|apply Hm]. Qed.

#[export] Instance True_preorder : PreOrder (fun _ _ : S => True).
Proof. by split. Qed.

#[export] Instance keeps_preorder (I : S -> Prop) : PreOrder (fun s s' => I s -> I s').
Proof. split; [by intros s|]. intros s1 s2 s3 H1 H2 H3. auto. Qed.

(** Using a frame inside a weakest precondition. *)
Lemma wp_framed (R : S -> S -> Prop) (P : E -> Prop) {A} (m : M S W E A) Q p :
  framed R P m ->
  (forall r p', R (local p) (local p') -> extends P p p' -> Q r p') ->
  wp m Q p.
Proof. intros Hm HQ. destruct (Hm p). by apply HQ. Qed.

Lemma wp_framed_and (R : S -> S -> Prop) (P : E -> Prop) {A} (m : M S W E A) (Q Q' : _ -> _ -> Prop) p :
  framed R P m -> wp m Q p -> (forall r p', Q r p' -> extends P p p' -> Q' r p') -> wp m Q' p.
Proof. intros Hm HQ HQ'. destruct (Hm p). by apply HQ'. Qed.

Lemma wp_framed_returns (R : S -> S -> Prop) (P : E -> Prop) {A} (m : M S W E A) Q p :
  framed R P m -> returns m ->
  (forall a p', R (local p) (local p') -> extends P p p' -> Q (Ok a) p') ->
  wp m Q p.
Proof.
  intros Hm Hr HQ. destruct (Hm p), (Hr p) as [a Ha]. unfold wp. rewrite Ha. by apply HQ.
Qed.

(** ** Computations that never throw *)

Lemma returns_ret {A} (a : A) : returns (mret a).
Proof. intros p. by eexists. Qed.
Lemma returns_gets {A} (f : S -> A) : returns (gets f).
Proof. intros p. by eexists. Qed.
Lemma returns_modify f : returns (modify f).
Proof. intros p. by eexists. Qed.
Lemma returns_invoke_total {A} (call : W -> A * W) ev : returns (invoke_total call ev).
Proof. intros p. unfold invoke_total. destruct (call _). by eexists. Qed.

Lemma returns_bind {A B} (m : M S W E A) (f : A -> M S W E B) :
  returns m -> (forall a, returns (f a)) -> returns (mbind f m).
Proof.
  intros Hm Hf p. unfold mbind, M_bind. destruct (Hm p) as [a Ha].
  destruct (m p) as [r p']. simpl in Ha. subst. apply Hf.
Qed.

Lemma returns_try {A} (m : M S W E A) h : (forall e, returns (h e)) -> returns (try_catch m h).
Proof. intros Hh p. unfold try_catch. destruct (m p) as [[a|e] p']; [by eexists|apply Hh]. Qed.
End framed.

(** One syntax-directed step towards [framed]. *)
Ltac framed_step :=
  lazymatch goal with
  | |- framed _ _ (mbind _ _) => apply framed_bind; [try apply _| |intros ?]
  | |- framed _ _ (mret _) => apply framed_ret; apply _
  | |- framed _ _ (throw _) => apply framed_throw; apply _
  | |- framed _ _ (lift _) => apply framed_lift; apply _
  | |- framed _ _ (gets _) => apply framed_gets; apply _
  | |- framed _ _ (try_catch _ _) => apply framed_try; [try apply _| |intros ?]
  | |- framed _ _ (for_each _ _) => apply framed_for_each; [try apply _|intros ?]
  | |- framed _ _ (for_acc _ _ _) => apply framed_for_acc; [try apply _|intros ??]
  | |- framed _ _ (invoke _ _) => apply framed_invoke; [try apply _|intros ?; try done]
  | |- framed _ _ (invoke_total _ _) => apply framed_invoke_total; [try apply _|intros ?; try done]
  | |- framed _ _ (match ?x with _ => _ end) => destruct x
  end.

Create HintDb framed discriminated.

(** Repeats the steps, closing the calls of operations with lemmas of the database. *)
Ltac framed_auto := repeat first [solve [auto with framed nocore] | framed_step].
