(* ===== verification/Browser.v ===== *)
(** * Browser: what the frontend calls

    The outside world of the code under src/: the RPC node through the connection
    object, the wallet, Jupiter, Firebase, local storage, timers.  Jupiter's answers
    are typed records, as the source casts them.  Then the two combinators for
    promises that run side by side, and src/lib/jupiterApi.ts, the retrying request
    all Jupiter calls go through.  Console output is not modelled. *)

From stdpp Require Import base list gmap strings pretty.
From Stdlib Require Import ZArith Lia Ascii Strings.Byte SpecFloat.
From S2P Require Import Prelude Buffers Accounts JsRuntime Effects Solana Instructions Firebase DegenExecutor.

Local Open Scope string_scope.
Local Open Scope list_scope.
Local Open Scope Z_scope.
Set Warnings "-clear-no-such-hyp".

(** ** Data *)

(** [getTokenAccountBalance]'s answer. *)
Record TokenAmount := mkTokenAmount { ta_amount : string; ta_decimals : Z }.

(** What a wallet is asked to sign: a legacy transaction, whose payer and blockhash the
    wallet adapter fills in, or a versioned one. *)
Inductive WalletTx `{ExecutorLibs} :=
| LegacyTx (instructions : list TransactionInstruction)
| V0Tx (tx : VersionedTx).
Arguments LegacyTx {_ _ _} instructions.
Arguments V0Tx {_ _ _} tx.

(** The accounts the frontend reads through Anchor ([program.account.x.fetch]); what the
    code reads of them. *)
Record DegenClaimData `{Web3Keys} := mkDegenClaim {
  dcl_status : Z;
  dcl_tokenIndex : Z;
  dcl_tokenMint : PublicKey
}.
Arguments mkDegenClaim {_}.

(** A signature of [getSignaturesForAddress], and whether the transaction failed. *)
Record SignatureInfo := mkSigInfo { sg_signature : string; sg_err : bool }.

(** A token balance of a parsed transaction, and what the code reads of the latter: the
    keys with their signer flag and source, and the balances before and after. *)
Record TokenBalance := mkTokenBalance { tb_owner : string; tb_mint : string; tb_ui : num }.
Record ParsedKey := mkParsedKey { pk_signer : bool; pk_source : string; pk_key : string }.
Record ParsedTx := mkParsedTx {
  px_meta : bool;
  px_keys : list ParsedKey;
  px_pre : list TokenBalance;
  px_post : list TokenBalance
}.

(** A round of the history, as the frontend keeps it ([claimTx] and
    [participantDeposits] are optional fields). *)
Module Hist.
Record HistoryRound := mkHistoryRound {
  roundId : num;
  status : Z;
  totalUsdc : num;
  totalTickets : num;
  participantsCount : Z;
  winner : string;
  winningTicket : Z;
  randomness : string;
  startTs : num;
  endTs : num;
  claimTx : option string;
  vaultUsdcAta : string;
  participants : list string;
  participantDeposits : option (list ParticipantDeposit)
}.

(** The value stored under [rounds/{id}]; fields the code reads with a default are
    optional. *)
Record Snapshot := mkSnapshot {
  s_roundId : num;
  s_status : Z;
  s_totalUsdc : num;
  s_totalTickets : option num;
  s_participantsCount : Z;
  s_winner : string;
  s_winningTicket : option string;
  s_randomness : option string;
  s_startTs : num;
  s_endTs : num;
  s_claimTx : option string;
  s_vaultUsdcAta : option string;
  s_participants : option (list string);
  s_participantDeposits : option (list ParticipantDeposit);
  s_archivedAt : Z
}.
End Hist.

Module Jup.
(** [JupiterQuote] of src/lib/jupiterClient.ts; the route is not looked at. *)
Record JupiterQuote := mkQuote {
  inputMint : string;
  outputMint : string;
  inAmount : string;
  outAmount : string;
  otherAmountThreshold : string;
  swapMode : string;
  priceImpactPct : string;
  routePlan : Json;
  slippageBps : num
}.

(** The query of [/swap/v1/quote] and the body of [/swap/v1/swap-instructions]. *)
Record QuoteRequest := mkQuoteRequest {
  qr_inputMint : string;
  qr_outputMint : string;
  qr_amount : string;
  qr_slippageBps : Z;
  qr_swapMode : string
}.
Record SwapRequest := mkSwapRequest { sr_quote : JupiterQuote; sr_user : string }.
End Jup.

(** The data of an account as an RPC provider may give it: bytes, a pair of base64 text and
    encoding, base64 text, or nothing of use. *)
Inductive AccountData := DataBytes (b : bytes) | DataPair (b64 : string) | DataText (b64 : string) | DataOther.

(** ** Services *)

Class FrontServices `{ExecutorLibs} := {
  FWorld : Type;
  fxNow : FWorld -> Z * FWorld;
  fxRandom : FWorld -> num * FWorld;
  fxSleep : Z -> FWorld -> unit * FWorld;
  fxAccountInfo : PublicKey -> FWorld -> Res (option AccountInfo) * FWorld;
  fxAccountsInfo : list PublicKey -> FWorld -> Res (list (option AccountInfo)) * FWorld;
  fxTokenBalance : PublicKey -> FWorld -> Res TokenAmount * FWorld;
  (** [getTokenAccountsByOwner]: the accounts with their data, already bytes *)
  fxTokenAccounts : PublicKey -> FWorld -> Res (list (PublicKey * option bytes)) * FWorld;
  fxBlockhash : FWorld -> Res string * FWorld;
  (** [compileToV0Message], which may refuse the accounts *)
  fxCompile : VersionedTx -> Res unit;
  fxSendTransaction : WalletTx -> FWorld -> Res string * FWorld;
  fxQuote : Jup.QuoteRequest -> FWorld -> Res (TypedResponse Jup.JupiterQuote) * FWorld;
  fxSwap : Jup.SwapRequest -> FWorld -> Res (TypedResponse JupiterSwapInstructions) * FWorld;
  (** [/tokens/v2/search?query=mint] and the JSON file a metadata account points to *)
  fxTokenSearch : string -> FWorld -> Res (TypedResponse Json) * FWorld;
  fxUri : string -> FWorld -> Res HttpResponse * FWorld;
  (** [program.account.config.fetch], [degenClaim.fetch] and [participant.fetch] *)
  fxConfig : PublicKey -> FWorld -> Res ParsedConfigLike * FWorld;
  fxDegenClaim : PublicKey -> FWorld -> Res DegenClaimData * FWorld;
  fxParticipant : PublicKey -> FWorld -> Res (Z * Z) * FWorld;
  (** the archive: [rounds/{id}] read and written, the greatest key *)
  fxArchiveGet : Z -> FWorld -> Res (option Hist.Snapshot) * FWorld;
  fxArchiveSet : num -> Hist.Snapshot -> FWorld -> Res unit * FWorld;
  fxArchiveRecent : Z -> FWorld -> Res (option (list Hist.Snapshot)) * FWorld;
  fxArchiveMax : FWorld -> Res (option string) * FWorld;
  fxSignatures : PublicKey -> FWorld -> Res (list SignatureInfo) * FWorld;
  fxParsedTx : string -> FWorld -> Res (option ParsedTx) * FWorld;
  (** [getTokenAccountsByOwner] of a token program (of Token-2022 if [true]), [getBalance],
      the list of verified tokens and [/price/v3?ids=...] of Jupiter *)
  fxOwned : PublicKey -> bool -> FWorld -> Res (list AccountData) * FWorld;
  fxLamports : PublicKey -> FWorld -> Res Z * FWorld;
  fxTokenTag : FWorld -> Res (TypedResponse Json) * FWorld;
  fxPrices : string -> FWorld -> Res (TypedResponse Json) * FWorld;
  (** whether the browser lets the page use local storage *)
  fxStorage : FWorld -> Res unit * FWorld;
  (** [buffer.toString("utf8")], [JSON.parse] and [String(x)], and the account layout of spl-token: mint and amount *)
  utf8Decode : bytes -> string;
  jsonParse : string -> Res Json;
  jsToString : Json -> string;
  tokenAccountSpan : Z;
  tokenAccountDecode : bytes -> Res (PublicKey * Z);
  (** [AccountLayout.decode]: mint, and amount as a bigint or as bytes; [MintLayout] *)
  accountLayoutDecode : bytes -> bytes * (Z + bytes);
  mintSpan : Z;
  mintDecimals : bytes -> Z
}.

Inductive FEvent `{ExecutorLibs} :=
| FNow (ms : Z)
| FRandom (x : num)
| FSleep (ms : Z)
| FAccount (k : PublicKey) (r : Res (option AccountInfo))
| FAccounts (ks : list PublicKey) (r : Res (list (option AccountInfo)))
| FBalance (k : PublicKey) (r : Res TokenAmount)
| FTokenAccounts (k : PublicKey) (r : Res (list (PublicKey * option bytes)))
| FBlockhash (r : Res string)
| FSend (tx : WalletTx) (r : Res string)
| FQuote (q : Jup.QuoteRequest) (r : Res (TypedResponse Jup.JupiterQuote))
| FSwap (q : Jup.SwapRequest) (r : Res (TypedResponse JupiterSwapInstructions))
| FSearch (mint : string) (r : Res (TypedResponse Json))
| FUri (uri : string) (r : Res HttpResponse)
| FConfig (k : PublicKey) (r : Res ParsedConfigLike)
| FDegenClaim (k : PublicKey) (r : Res DegenClaimData)
| FParticipant (k : PublicKey) (r : Res (Z * Z))
| FArchiveGet (roundId : Z) (r : Res (option Hist.Snapshot))
| FArchiveSet (roundId : num) (value : Hist.Snapshot) (r : Res unit)
| FArchiveRecent (count : Z) (r : Res (option (list Hist.Snapshot)))
| FArchiveMax (r : Res (option string))
| FSignatures (k : PublicKey) (r : Res (list SignatureInfo))
| FParsedTx (sig : string) (r : Res (option ParsedTx))
| FStorage (r : Res unit)
| FOwned (k : PublicKey) (token2022 : bool) (r : Res (list AccountData))
| FLamports (k : PublicKey) (r : Res Z)
| FTag (r : Res (TypedResponse Json))
| FPrices (ids : string) (r : Res (TypedResponse Json)).
Arguments FNow {_ _ _}.
Arguments FRandom {_ _ _}.
Arguments FSleep {_ _ _}.
Arguments FAccount {_ _ _}.
Arguments FAccounts {_ _ _}.
Arguments FBalance {_ _ _}.
Arguments FTokenAccounts {_ _ _}.
Arguments FBlockhash {_ _ _}.
Arguments FSend {_ _ _}.
Arguments FQuote {_ _ _}.
Arguments FSwap {_ _ _}.
Arguments FSearch {_ _ _}.
Arguments FUri {_ _ _}.
Arguments FConfig {_ _ _}.
Arguments FDegenClaim {_ _ _}.
Arguments FParticipant {_ _ _}.
Arguments FArchiveGet {_ _ _}.
Arguments FArchiveSet {_ _ _}.
Arguments FArchiveRecent {_ _ _}.
Arguments FArchiveMax {_ _ _}.
Arguments FSignatures {_ _ _}.
Arguments FParsedTx {_ _ _}.
Arguments FStorage {_ _ _}.
Arguments FOwned {_ _ _}.
Arguments FLamports {_ _ _}.
Arguments FTag {_ _ _}.
Arguments FPrices {_ _ _}.

(** The events that hand a transaction to the wallet. *)
Definition is_wallet `{ExecutorLibs} (ev : FEvent) : Prop :=
  match ev with FSend _ _ => True | _ => False end.

#[export] Instance is_wallet_dec `{ExecutorLibs} (ev : FEvent) : Decision (is_wallet ev).
Proof. destruct ev; simpl; apply _. Defined.

Section calls.
Context `{FrontServices} {St : Type}.
Local Abbreviation M := (M St FWorld FEvent).

Definition f_now : M Z := invoke_total fxNow FNow.
Definition f_random : M num := invoke_total fxRandom FRandom.
Definition f_sleep (ms : Z) : M unit := invoke_total (fxSleep ms) (fun _ => FSleep ms).
Definition f_account (k : PublicKey) : M (option AccountInfo) :=
  invoke (fxAccountInfo k) (FAccount k).
Definition f_accounts (ks : list PublicKey) : M (list (option AccountInfo)) :=
  invoke (fxAccountsInfo ks) (FAccounts ks).
Definition f_balance (k : PublicKey) : M TokenAmount := invoke (fxTokenBalance k) (FBalance k).
Definition f_tokenAccounts (k : PublicKey) : M (list (PublicKey * option bytes)) :=
  invoke (fxTokenAccounts k) (FTokenAccounts k).
Definition f_blockhash : M string := invoke fxBlockhash FBlockhash.
Definition sendTransaction (tx : WalletTx) : M string := invoke (fxSendTransaction tx) (FSend tx).
Definition f_config (k : PublicKey) : M ParsedConfigLike := invoke (fxConfig k) (FConfig k).
Definition f_degenClaim (k : PublicKey) : M DegenClaimData :=
  invoke (fxDegenClaim k) (FDegenClaim k).
Definition f_participant (k : PublicKey) : M (Z * Z) := invoke (fxParticipant k) (FParticipant k).
Definition f_uri (uri : string) : M HttpResponse := invoke (fxUri uri) (FUri uri).
Definition f_archiveGet (roundId : Z) : M (option Hist.Snapshot) :=
  invoke (fxArchiveGet roundId) (FArchiveGet roundId).
Definition f_archiveSet (roundId : num) (value : Hist.Snapshot) : M unit :=
  invoke (fxArchiveSet roundId value) (FArchiveSet roundId value).
Definition f_archiveRecent (count : Z) : M (option (list Hist.Snapshot)) :=
  invoke (fxArchiveRecent count) (FArchiveRecent count).
Definition f_archiveMax : M (option string) := invoke fxArchiveMax FArchiveMax.
Definition f_signatures (k : PublicKey) : M (list SignatureInfo) :=
  invoke (fxSignatures k) (FSignatures k).
Definition f_parsedTx (sig : string) : M (option ParsedTx) :=
  invoke (fxParsedTx sig) (FParsedTx sig).
Definition f_storage : M unit := invoke fxStorage FStorage.
Definition f_owned (k : PublicKey) (token2022 : bool) : M (list AccountData) :=
  invoke (fxOwned k token2022) (FOwned k token2022).
Definition f_lamports (k : PublicKey) : M Z := invoke (fxLamports k) (FLamports k).
Definition f_tokenTag : M (TypedResponse Json) := invoke fxTokenTag FTag.

(** ** Promises *)

(** The outcome of a promise as a value. *)
Definition settled {A} (m : M A) : M (Res A) :=
  try_catch (a ← m; mret (Ok a)) (fun e => mret (Throw e)).

(** [Promise.allSettled(l)], the promises in the order of the list. *)
Fixpoint all_settled {A} (l : list (M A)) : M (list (Res A)) :=
  match l with
  | [] => mret []
  | m :: l => r ← settled m; rs ← all_settled l; mret (r :: rs)
  end.

(** [Promise.all(l)]: every promise runs; a failure of one is the failure of all. *)
Definition promise_all {A} (l : list (M A)) : M (list A) :=
  rs ← all_settled l; lift (res_mapM id rs).

(** [m.catch(() => a)] *)
Definition or_else {A} (m : M A) (a : A) : M A := try_catch m (fun _ => mret a).

(** ** src/lib/jupiterApi.ts *)

Definition MAX_RETRIES : Z := 2.

(** [new JupiterApiError(message, status, code, retryable)]; [retryable] is read
    nowhere. *)
Definition JupiterApiError (message : string) (status : Z) (code : string) : JsError :=
  mkJsError "JupiterApiError" message (Some status) (Some code).

(** [jitter] is [Math.floor(Math.random() * 250)]. *)
Definition computeBackoffMs (attempt : Z) : M Z :=
  x ← f_random;
  let jitter := default 0 (num_floor (num_times x (num_of_Z 250))) in
  mret (Z.min (250 * 2 ^ attempt + jitter) 2500).

Definition isRetryableStatus (status : Z) : bool :=
  (status =? 408) || (status =? 429) || (status =? 500) || (status =? 502) || (status =? 503) ||
  (status =? 504).

(** Whether a value converts to [true]. *)
Definition truthy (j : Json) : bool :=
  match j with
  | JNull => false
  | JBool b => b
  | JNum n => match n with S754_zero _ | S754_nan => false | _ => true end
  | JStr s => negb (String.eqb s "")
  | JArr _ | JObj _ => true
  end.

(** [data.key], dropped when it converts to [false]; reading it of [null] throws. *)
Definition truthy_field (j : Json) (key : string) : option Json :=
  match json_field j key with
  | Some v => if truthy v then Some v else None
  | None => None
  end.

Definition parseErrorPayload (raw : string) : string * option string :=
  if String.eqb raw "" then ("Unknown Jupiter error", None)
  else match jsonParse raw with
       | Throw _ | Ok JNull => (raw, None)
       | Ok parsed =>
           let message := match truthy_field parsed "message" with
                          | Some m => jsToString m
                          | None => match truthy_field parsed "error" with
                                    | Some m => jsToString m
                                    | None => raw
                                    end
                          end in
           (message, jsToString <$> truthy_field parsed "code")
       end.

Definition ensureApiKey (API_KEY : string) : Res unit :=
  if String.eqb API_KEY "" then
    Throw (JupiterApiError "Missing VITE_JUPITER_API_KEY. Create API key on portal.jup.ag and set it in env."
             401 "MISSING_API_KEY")
  else Ok tt.

(** The body of the [try]: [None] is the [continue] of a retried status. *)
Definition jupiter_request {T} (call : M (TypedResponse T)) (attempt : Z) (more : bool)
    : M (option T) :=
  response ← call;
  if negb ((200 <=? tr_status response) && (tr_status response <=? 299)) then
    raw ← lift (tr_text response);
    let '(message, code) := parseErrorPayload raw in
    if isRetryableStatus (tr_status response) && more then
      ms ← computeBackoffMs attempt; f_sleep ms ;; mret None
    else
      throw (JupiterApiError ("Jupiter API error " +:+ pretty (tr_status response) +:+ ": " +:+ message)
               (tr_status response) (default (pretty (tr_status response)) code))
  else t ← lift (tr_json response); mret (Some t).

(** The [catch]. *)
Definition jupiter_catch {T} (timeoutMs attempt : Z) (more : bool) (error : JsError)
    : M (option T) :=
  let isAbort := String.eqb (err_name error) "AbortError" in
  let isTypeError := String.eqb (err_name error) "TypeError" in
  if (isAbort || isTypeError) && more then
    ms ← computeBackoffMs attempt; f_sleep ms ;; mret None
  else if String.eqb (err_name error) "JupiterApiError" then throw error
  else if isAbort then
    throw (JupiterApiError ("Jupiter API timeout after " +:+ pretty timeoutMs +:+ "ms") 408 "TIMEOUT")
  else throw (JupiterApiError (err_message error) 0 "NETWORK_ERROR").

(** The loop; [remaining] is [retries - attempt]. *)
Fixpoint jupiter_attempts {T} (call : M (TypedResponse T)) (timeoutMs : Z) (remaining : nat)
    (attempt : Z) : M T :=
  let more := match remaining with O => false | _ => true end in
  r ← try_catch (jupiter_request call attempt more) (jupiter_catch timeoutMs attempt more);
  match r, remaining with
  | Some t, _ => mret t
  | None, S remaining => jupiter_attempts call timeoutMs remaining (attempt + 1)
  | None, O => throw (JupiterApiError "Jupiter API failed after retries" 0 "RETRIES_EXHAUSTED")
  end.

Definition jupiterFetchJson {T} (API_KEY : string) (call : M (TypedResponse T)) (timeoutMs : Z)
    (retries : option Z) : M T :=
  _ ← lift (ensureApiKey API_KEY);
  let retries := Z.max 0 (Z.min (default MAX_RETRIES retries) 5) in
  jupiter_attempts call timeoutMs (Z.to_nat retries) 0.
End calls.

(** One step of a computation of the frontend, service calls included. *)
Ltac front_step :=
  lazymatch goal with
  | |- wp f_now _ _ => unfold f_now; wp_step
  | |- wp f_random _ _ => unfold f_random; wp_step
  | |- wp (f_sleep _) _ _ => unfold f_sleep; wp_step
  | |- wp (f_account _) _ _ => unfold f_account; wp_step
  | |- wp (f_accounts _) _ _ => unfold f_accounts; wp_step
  | |- wp (f_balance _) _ _ => unfold f_balance; wp_step
  | |- wp (f_tokenAccounts _) _ _ => unfold f_tokenAccounts; wp_step
  | |- wp f_blockhash _ _ => unfold f_blockhash; wp_step
  | |- wp (sendTransaction _) _ _ => unfold sendTransaction; wp_step
  | |- wp (f_config _) _ _ => unfold f_config; wp_step
  | |- wp (f_degenClaim _) _ _ => unfold f_degenClaim; wp_step
  | |- wp (f_participant _) _ _ => unfold f_participant; wp_step
  | |- wp (f_uri _) _ _ => unfold f_uri; wp_step
  | |- wp (f_archiveGet _) _ _ => unfold f_archiveGet; wp_step
  | |- wp (f_archiveSet _ _) _ _ => unfold f_archiveSet; wp_step
  | |- wp (f_archiveRecent _) _ _ => unfold f_archiveRecent; wp_step
  | |- wp f_archiveMax _ _ => unfold f_archiveMax; wp_step
  | |- wp (f_signatures _) _ _ => unfold f_signatures; wp_step
  | |- wp (f_parsedTx _) _ _ => unfold f_parsedTx; wp_step
  | |- wp f_storage _ _ => unfold f_storage; wp_step
  | |- wp (or_else _ _) _ _ => unfold or_else; wp_step
  | |- _ => wp_step
  end.

(** ** A concrete instance *)

Module ToyBrowser.
#[local] Existing Instance ToyKeys.keys.
#[local] Existing Instance ToySolana.libs.

Definition k (n : Z) : PublicKey := ToyKeys.mk (le_encode 4 n).
Definition addresses : Addresses := mkAddresses (k 1) (k 2) (k 3) (k 4) (k 5) (k 6) (k 7).

Definition digits (s : string) : Z :=
  foldl (fun z c => 10 * z + (Z.of_nat (nat_of_ascii c) - 48)) 0 (String.list_ascii_of_string s).

Definition xlibs : ExecutorLibs := {|
  ALT := bytes;
  altDeserialize := fun _ d => Ok d;
  TOKEN_2022_PROGRAM_ID := k 100;
  getAssociatedTokenAddressFor := fun mint owner _ _ => getAssociatedTokenAddress mint owner true;
  createAssociatedTokenAccountIdempotent := fun payer ata owner mint program =>
    mkIx (k 101) [mkMeta payer true true; mkMeta ata false true; mkMeta owner false false] [];
  createTransfer := fun src dst owner amount =>
    mkIx TOKEN_PROGRAM_ID [mkMeta src false true; mkMeta dst false true; mkMeta owner true false]
      (le_encode 8 amount);
  base64Bytes := fun s => Ascii.byte_of_ascii <$> String.list_ascii_of_string s;
  newBNText := fun s => Ok (digits s);
  bnToNumber := fun z => if Z.abs z <? 2 ^ 53 then Ok z else Throw ToySolana.bn_assert;
  nodeSha256 := fun s => [Z.of_nat (String.length s)];
  jsonText := fun _ => "{}"
|}.
#[local] Existing Instance xlibs.

(** Fixed accounts, balances and token accounts; versioned transactions of more than
    [bs_limit] instructions are too large; a quote gives one unit less than its input. *)
Record script := mkScript {
  bs_clock : Z;
  bs_accounts : list (bytes * bytes);
  bs_balances : list (bytes * string);
  bs_tokens : list (PublicKey * option bytes);
  bs_limit : nat;
  bs_claims : list DegenClaimData;
  bs_sent : nat
}.

Definition assoc {X} (l : list (bytes * X)) (key : PublicKey) : option X :=
  (fun p : nat * (bytes * X) => snd (snd p)) <$> list_find (fun kv => fst kv = toBuffer key) l.

Definition account_of (w : script) (key : PublicKey) : option AccountInfo :=
  (fun d => mkInfo d (k 1)) <$> assoc (bs_accounts w) key.

Definition too_large (tx : WalletTx) (limit : nat) : bool :=
  match tx with LegacyTx _ => false | V0Tx v => (limit <? length (vt_instructions v))%nat end.

Definition with_claims (w : script) (l : list DegenClaimData) : script :=
  mkScript (bs_clock w) (bs_accounts w) (bs_balances w) (bs_tokens w) (bs_limit w) l (bs_sent w).

Definition services : FrontServices := {|
  FWorld := script;
  fxNow := fun w => (bs_clock w, mkScript (bs_clock w + 1000) (bs_accounts w) (bs_balances w)
                                   (bs_tokens w) (bs_limit w) (bs_claims w) (bs_sent w));
  fxRandom := fun w => (S754_zero false, w);
  fxSleep := fun ms w => (tt, mkScript (bs_clock w + ms) (bs_accounts w) (bs_balances w)
                                (bs_tokens w) (bs_limit w) (bs_claims w) (bs_sent w));
  fxAccountInfo := fun key w => (Ok (account_of w key), w);
  fxAccountsInfo := fun ks w => (Ok (account_of w <$> ks), w);
  fxTokenBalance := fun key w =>
    (match assoc (bs_balances w) key with
     | Some b => Ok (mkTokenAmount b 6)
     | None => Throw (mkError "Error" "could not find account")
     end, w);
  fxTokenAccounts := fun _ w => (Ok (bs_tokens w), w);
  fxBlockhash := fun w => (Ok "hash", w);
  fxCompile := fun _ => Ok tt;
  fxSendTransaction := fun tx w =>
    if too_large tx (bs_limit w) then (Throw (mkError "Error" "VersionedTransaction too large"), w)
    else (Ok ("sig" +:+ pretty (bs_sent w)),
          mkScript (bs_clock w) (bs_accounts w) (bs_balances w) (bs_tokens w) (bs_limit w)
            (bs_claims w) (S (bs_sent w)));
  fxQuote := fun q w =>
    (Ok (mkTyped 200 (Ok "") (Ok (Jup.mkQuote (Jup.qr_inputMint q) (Jup.qr_outputMint q)
       (Jup.qr_amount q) (Jup.qr_amount q) (pretty (digits (Jup.qr_amount q) - 1))
       (Jup.qr_swapMode q) "0" JNull (num_of_Z (Jup.qr_slippageBps q))))), w);
  fxSwap := fun _ w =>
    (Ok (mkTyped 200 (Ok "") (Ok (mkSwapIxs [] [] (mkSerIx "swap" [] "data") None []))), w);
  fxTokenSearch := fun _ w => (Ok (mkTyped 200 (Ok "") (Ok (JArr []))), w);
  fxUri := fun _ w => (Ok (mkResponse 404 (Ok "") (Ok JNull)), w);
  fxConfig := fun _ w => (Ok (mkConfig (k 1) (k 2) (k 3) 25 10000 60 2 2 false 255 0), w);
  fxDegenClaim := fun _ w =>
    match bs_claims w with
    | [] => (Throw (mkError "Error" "Account does not exist"), w)
    | c :: l => (Ok c, with_claims w l)
    end;
  fxParticipant := fun _ w => (Throw (mkError "Error" "Account does not exist"), w);
  fxArchiveGet := fun _ w => (Ok None, w);
  fxArchiveSet := fun _ _ w => (Ok tt, w);
  fxArchiveRecent := fun _ w => (Ok None, w);
  fxArchiveMax := fun w => (Ok None, w);
  fxSignatures := fun _ w => (Ok [], w);
  fxParsedTx := fun _ w => (Ok None, w);
  fxOwned := fun _ token2022 w =>
    (Ok (if token2022 then [] else omap (fun a => DataBytes <$> snd a) (bs_tokens w)), w);
  fxLamports := fun _ w => (Ok 0, w);
  fxTokenTag := fun w => (Ok (mkTyped 200 (Ok "") (Ok (JArr []))), w);
  fxPrices := fun _ w => (Ok (mkTyped 200 (Ok "") (Ok (JObj []))), w);
  fxStorage := fun w => (Ok tt, w);
  utf8Decode := fun b => String.string_of_list_ascii (Ascii.ascii_of_byte <$> b);
  jsonParse := fun s => Ok (JStr s);
  jsToString := fun j => match j with JStr s => s | _ => "" end;
  tokenAccountSpan := 40;
  tokenAccountDecode := fun d =>
    key ← keyOfBytes (take 32 d); Ok (key, le_decode (take 8 (drop 32 d)));
  accountLayoutDecode := fun d => (take 32 d, inr (take 8 (drop 32 d)));
  mintSpan := 4;
  mintDecimals := fun _ => 6
|}.
End ToyBrowser.
