(* ===== verification/JupiterClient.v ===== *)
(** * JupiterClient: src/lib/jupiterClient.ts

    Quotes and swap instructions of Jupiter, and the merge of several swaps with the
    deposit that follows them into one transaction: one compute-unit limit for all of
    them, the highest of their priority fees, then the instructions leg by leg. *)

From stdpp Require Import base list gmap strings pretty.
From Stdlib Require Import ZArith Lia Ascii Strings.Byte SpecFloat.
From S2P Require Import Prelude Buffers Accounts JsRuntime Effects Solana Instructions DegenExecutor Browser.

Local Open Scope string_scope.
Local Open Scope list_scope.
Local Open Scope Z_scope.
Set Warnings "-clear-no-such-hyp".

Definition DEPOSIT_ANY_CU_BUFFER : Z := 150000.
Definition MIN_CU : Z := 400000.
Definition MAX_CU : Z := 1400000.

Definition clamp (n min max : Z) : Z := Z.min (Z.max n min) max.

(** The eight bytes from [offset], a missing one read as 0. *)
Definition readU64LeAsBigInt (buf : bytes) (offset : Z) : Z :=
  fold_left (fun out i => Z.lor out (Z.shiftl (default 0 (byte_at buf (offset + i))) (8 * i)))
    (seqZ 0 8) 0.

(** The variables of the loop over Jupiter's compute-budget instructions. *)
Record CuState `{Web3Keys} := mkCu {
  totalJupiterCuEstimate : Z;
  sawCuEstimate : bool;
  maxPriorityFeeMicrolamports : option Z;
  passthroughComputeBudgetIxs : list TransactionInstruction
}.
Arguments mkCu {_}.

Section client.
Context `{FrontServices} {St : Type} (COMPUTE_BUDGET_PROGRAM : PublicKey) (API_KEY : string).
Local Abbreviation M := (M St FWorld FEvent).

(** One iteration of the inner loop, on the deserialised instruction. *)
Definition cu_step (st : CuState) (ix : TransactionInstruction) : Res CuState :=
  let d := ix_data ix in
  let pass := mkCu (totalJupiterCuEstimate st) (sawCuEstimate st) (maxPriorityFeeMicrolamports st)
                (passthroughComputeBudgetIxs st ++ [ix]) in
  if negb (bool_decide (programId ix = COMPUTE_BUDGET_PROGRAM)) then Ok pass
  else
    let kind := byte_at d 0 in
    if bool_decide (kind = Some 2) && (5 <=? blen d) then
      n ← getUint32 d 1;
      Ok (mkCu (totalJupiterCuEstimate st + n) true (maxPriorityFeeMicrolamports st)
            (passthroughComputeBudgetIxs st))
    else if bool_decide (kind = Some 3) && (9 <=? blen d) then
      let price := readU64LeAsBigInt d 1 in
      let best := match maxPriorityFeeMicrolamports st with
                  | None => price
                  | Some m => if m <? price then price else m
                  end in
      Ok (mkCu (totalJupiterCuEstimate st) (sawCuEstimate st) (Some best)
            (passthroughComputeBudgetIxs st))
    else Ok pass.

Fixpoint cu_loop (st : CuState) (ixs : list SerializedInstruction) : Res CuState :=
  match ixs with
  | [] => Ok st
  | ix :: ixs => d ← deserializeInstruction ix; st ← cu_step st d; cu_loop st ixs
  end.

Definition swap_body (swapIxs : JupiterSwapInstructions) : list SerializedInstruction :=
  setupInstructions swapIxs ++ [swapInstruction swapIxs] ++
  option_list (cleanupInstruction swapIxs).

(** [computeBudgetIxs] and [bodyIxs]. *)
Definition splitJupiterInstructions (swapIxSets : list JupiterSwapInstructions)
    : Res (list TransactionInstruction * list TransactionInstruction) :=
  st ← cu_loop (mkCu 0 false None []) (swapIxSets ≫= computeBudgetInstructions);
  let fallbackEstimatePerSwap := 200000 in
  let jupiterCuEstimate :=
    if sawCuEstimate st then totalJupiterCuEstimate st
    else fallbackEstimatePerSwap * Z.of_nat (length swapIxSets) in
  let boostedCu := clamp (jupiterCuEstimate + DEPOSIT_ANY_CU_BUFFER) MIN_CU MAX_CU in
  let computeBudgetIxs :=
    [setComputeUnitLimit boostedCu] ++
    option_list (setComputeUnitPrice <$> maxPriorityFeeMicrolamports st) ++
    passthroughComputeBudgetIxs st in
  bodyIxs ← res_mapM deserializeInstruction (swapIxSets ≫= swap_body);
  Ok (computeBudgetIxs, bodyIxs).

Definition getJupiterQuote (inputMint outputMint amount : string) (slippageBps : Z)
    (swapMode : string) : M Jup.JupiterQuote :=
  let q := Jup.mkQuoteRequest inputMint outputMint amount slippageBps swapMode in
  jupiterFetchJson API_KEY (invoke (fxQuote q) (FQuote q)) 5000 None.

Definition getJupiterSwapInstructions (userPublicKey : string) (quote : Jup.JupiterQuote)
    : M JupiterSwapInstructions :=
  let q := Jup.mkSwapRequest quote userPublicKey in
  jupiterFetchJson API_KEY (invoke (fxSwap q) (FSwap q)) 10000 None.

(** Accounts that do not exist are skipped. *)
Definition resolveAddressLookupTables (addresses : list string) : M (list ALT) :=
  if (length addresses =? 0)%nat then mret []
  else
    ks ← lift (res_mapM keyOfString addresses);
    accounts ← f_accounts ks;
    alts ← lift (res_mapM (fun entry : string * option AccountInfo =>
             match snd entry with
             | None => Ok []
             | Some acc =>
                 k ← keyOfString (fst entry);
                 alt ← altDeserialize k (ai_data acc);
                 Ok [alt]
             end) (zip addresses accounts));
    mret (concat alts).

Definition buildMultiJupiterInstructions (swapIxSets : list JupiterSwapInstructions)
    : Res (list TransactionInstruction) :=
  if (length swapIxSets =? 0)%nat then Ok []
  else '(computeBudgetIxs, bodyIxs) ← splitJupiterInstructions swapIxSets;
       Ok (computeBudgetIxs ++ bodyIxs).

Definition buildJupiterInstructions (swapIxs : JupiterSwapInstructions)
    : Res (list TransactionInstruction) := buildMultiJupiterInstructions [swapIxs].

(** Each address once, in the order of its first occurrence. *)
Definition mergeAltAddresses (swapIxSets : list JupiterSwapInstructions) : list string :=
  fold_left set_add (swapIxSets ≫= addressLookupTableAddresses) [].

Definition compile_v0 (tx : VersionedTx) : M VersionedTx := _ ← lift (fxCompile tx); mret tx.

Definition buildMultiSwapAndDepositTx (payer : PublicKey)
    (jupiterSwapIxSets : list JupiterSwapInstructions) (depositIx : TransactionInstruction)
    (prefixInstructions : list TransactionInstruction) : M VersionedTx :=
  jupIxs ← lift (buildMultiJupiterInstructions jupiterSwapIxSets);
  let allIxs := prefixInstructions ++ jupIxs ++ [depositIx] in
  alts ← resolveAddressLookupTables (mergeAltAddresses jupiterSwapIxSets);
  blockhash ← f_blockhash;
  compile_v0 (mkVtx payer blockhash allIxs alts).

Definition buildSwapAndDepositTx (payer : PublicKey) (jupiterSwapIxs : JupiterSwapInstructions)
    (depositIx : TransactionInstruction) (prefixInstructions : list TransactionInstruction)
    : M VersionedTx :=
  buildMultiSwapAndDepositTx payer [jupiterSwapIxs] depositIx prefixInstructions.

Definition buildClaimAndSwapTx (payer : PublicKey) (claimIx : TransactionInstruction)
    (jupiterSwapIxs : JupiterSwapInstructions) : M VersionedTx :=
  '(computeBudgetIxs, bodyIxs) ← lift (splitJupiterInstructions [jupiterSwapIxs]);
  alts ← resolveAddressLookupTables (addressLookupTableAddresses jupiterSwapIxs);
  blockhash ← f_blockhash;
  compile_v0 (mkVtx payer blockhash (computeBudgetIxs ++ [claimIx] ++ bodyIxs) alts).
End client.

(** ** The merge, declaratively *)

Section merge.
Context `{ExecutorLibs} (COMPUTE_BUDGET_PROGRAM : PublicKey).

(** The compute-unit limit and the price an instruction sets, if it sets one. *)
Definition sets_limit (ix : TransactionInstruction) : option Z :=
  if decide (programId ix = COMPUTE_BUDGET_PROGRAM /\ head (ix_data ix) = Some x02 /\
             (5 <= length (ix_data ix))%nat)
  then Some (le_decode (take 4 (tail (ix_data ix)))) else None.

Definition sets_price (ix : TransactionInstruction) : option Z :=
  if decide (programId ix = COMPUTE_BUDGET_PROGRAM /\ head (ix_data ix) = Some x03 /\
             (9 <= length (ix_data ix))%nat)
  then Some (le_decode (take 8 (tail (ix_data ix)))) else None.

Definition sum (l : list Z) : Z := fold_right Z.add 0 l.
Definition greatest (l : list Z) : option Z :=
  match l with [] => None | x :: l => Some (fold_left Z.max l x) end.

(** The limit of a batch of [n] swaps. *)
Definition merged_units (n : nat) (budget : list TransactionInstruction) : Z :=
  let limits := omap sets_limit budget in
  clamp ((match limits with [] => 200000 * Z.of_nat n | _ => sum limits end) +
         DEPOSIT_ANY_CU_BUFFER) MIN_CU MAX_CU.

(** The instructions of a batch, from the deserialised parts of its swaps. *)
Definition merged (n : nat) (budget body : list TransactionInstruction)
    : list TransactionInstruction :=
  [setComputeUnitLimit (merged_units n budget)] ++
  option_list (setComputeUnitPrice <$> greatest (omap sets_price budget)) ++
  filter (fun ix => sets_limit ix = None /\ sets_price ix = None) budget ++
  body.
End merge.

(** ** Facts *)

Lemma lor_shift_add a b n : 0 <= n -> 0 <= a < 2 ^ n -> Z.lor a (Z.shiftl b n) = a + b * 2 ^ n.
Proof.
  intros Hn Ha. rewrite Z.shiftl_mul_pow2 by done.
  assert (Z.land a (b * 2 ^ n) = 0) as E; [|pose proof (Z.add_lor_land a (b * 2 ^ n)); lia].
  apply Z.bits_inj'. intros i Hi. rewrite Z.land_spec, Z.bits_0. destruct (Z.lt_ge_cases i n).
  - rewrite Z.mul_pow2_bits_low by done. apply andb_false_r.
  - rewrite <- (Z.mod_small a (2 ^ n)) by done. rewrite Z.mod_pow2_bits_high by lia. done.
Qed.

(** The byte-by-byte reading is the little-endian value. *)
Lemma readU64_decode x (d : bytes) :
  (8 <= length d)%nat -> readU64LeAsBigInt (x :: d) 1 = le_decode (take 8 d).
Proof.
  intros Hl. do 8 (destruct d as [|? d]; [simpl in Hl; lia|]).
  unfold readU64LeAsBigInt, byte_at. change (seqZ 0 8) with [0; 1; 2; 3; 4; 5; 6; 7].
  cbn [fold_left take le_decode].
  repeat match goal with |- context [Z.to_nat (1 + ?i)] =>
    let n := eval compute in (Z.to_nat (1 + i)) in change (Z.to_nat (1 + i)) with n end.
  cbn [lookup list_lookup fmap option_fmap option_map default].
  repeat match goal with |- context [byte_val ?b] =>
    lazymatch goal with H : 0 <= byte_val b < 256 |- _ => fail | _ => pose proof (byte_val_bound b) end
  end.
  unfold id. rewrite take_0.
  repeat match goal with |- context [Z.lor ?a (?b ≪ ?n)] =>
    lazymatch a with
    | context [Z.lor] => fail
    | _ => rewrite (lor_shift_add a b n) by lia
    end
  end.
  change (le_decode []) with 0. lia.
Qed.

Lemma getUint32_decode x (d : bytes) :
  (4 <= length d)%nat -> getUint32 (x :: d) 1 = Ok (le_decode (take 4 d)).
Proof.
  intros Hl. unfold getUint32. rewrite view_bytes_ok by (unfold blen; simpl length; lia). done.
Qed.

Lemma greatest_snoc l x :
  greatest (l ++ [x]) = Some (match greatest l with Some m => Z.max m x | None => x end).
Proof. destruct l as [|y l]; [done|]. simpl. by rewrite fold_left_app. Qed.

Lemma sum_app l1 l2 : sum (l1 ++ l2) = sum l1 + sum l2.
Proof. induction l1 as [|x l1 IH]; simpl; [done|]. rewrite IH. lia. Qed.

Section merge_facts.
Context `{ExecutorLibs} (CB : PublicKey).

(** The state of the loop after a prefix of the instructions. *)
Definition cu_of (budget : list TransactionInstruction) : CuState :=
  mkCu (sum (omap (sets_limit CB) budget))
    (match omap (sets_limit CB) budget with [] => false | _ => true end)
    (greatest (omap (sets_price CB) budget))
    (filter (fun ix => sets_limit CB ix = None /\ sets_price CB ix = None) budget).

Lemma byte_at_head (d : bytes) (b : byte) :
  byte_at d 0 = Some (byte_val b) <-> head d = Some b.
Proof.
  destruct d as [|c d]; [done|]. unfold byte_at. simpl. split; [|by intros [= ->]].
  intros [= E]. f_equal. rewrite <- (byte_of_val c), <- (byte_of_val b). by f_equal.
Qed.

Lemma cu_step_kind st ix :
  cu_step CB st ix = Ok
    match sets_limit CB ix, sets_price CB ix with
    | Some n, _ => mkCu (totalJupiterCuEstimate st + n) true (maxPriorityFeeMicrolamports st)
                     (passthroughComputeBudgetIxs st)
    | None, Some p =>
        mkCu (totalJupiterCuEstimate st) (sawCuEstimate st)
          (Some match maxPriorityFeeMicrolamports st with Some m => Z.max m p | None => p end)
          (passthroughComputeBudgetIxs st)
    | None, None =>
        mkCu (totalJupiterCuEstimate st) (sawCuEstimate st) (maxPriorityFeeMicrolamports st)
          (passthroughComputeBudgetIxs st ++ [ix])
    end.
Proof.
  unfold cu_step, sets_limit, sets_price, blen.
  pose proof (byte_at_head (ix_data ix) x02) as H2. pose proof (byte_at_head (ix_data ix) x03) as H3.
  change (byte_val x02) with 2 in H2. change (byte_val x03) with 3 in H3.
  case_bool_decide as HC; simpl; [|by rewrite !decide_False by naive_solver].
  destruct (decide _) as [(_ & Hh & Hl)|Hn2].
  { rewrite bool_decide_true by by apply H2. rewrite (proj2 (Z.leb_le _ _)) by lia.
    destruct (ix_data ix) as [|b d]; [done|]. simpl in Hl |- *.
    by rewrite getUint32_decode by lia. }
  assert (bool_decide (byte_at (ix_data ix) 0 = Some 2) &&
          (5 <=? Z.of_nat (length (ix_data ix))) = false) as ->.
  { apply not_true_is_false. rewrite andb_true_iff, bool_decide_eq_true, Z.leb_le, H2.
    intros [??]. apply Hn2. split_and!; [done..|lia]. }
  destruct (decide _) as [(_ & Hh & Hl)|Hn3].
  { rewrite bool_decide_true by by apply H3. rewrite (proj2 (Z.leb_le _ _)) by lia.
    destruct (ix_data ix) as [|b d]; [done|]. simpl in Hl |- *.
    rewrite readU64_decode by lia. do 3 f_equal. destruct (maxPriorityFeeMicrolamports st); [|done].
    case_match; lia. }
  assert (bool_decide (byte_at (ix_data ix) 0 = Some 3) &&
          (9 <=? Z.of_nat (length (ix_data ix))) = false) as ->; [|done].
  apply not_true_is_false. rewrite andb_true_iff, bool_decide_eq_true, Z.leb_le, H3.
  intros [??]. apply Hn3. split_and!; [done..|lia].
Qed.

(** An instruction does not set both. *)
Lemma sets_one ix : sets_limit CB ix = None \/ sets_price CB ix = None.
Proof.
  unfold sets_limit, sets_price. destruct (decide _) as [(? & E & ?)|]; [|by left].
  right. rewrite decide_False; [done|]. rewrite E. naive_solver.
Qed.

Lemma cu_step_of budget ix : cu_step CB (cu_of budget) ix = Ok (cu_of (budget ++ [ix])).
Proof.
  rewrite cu_step_kind. unfold cu_of. rewrite !omap_app, filter_app, filter_cons, sum_app. simpl.
  destruct (sets_limit CB ix) as [n|] eqn:E1, (sets_price CB ix) as [q|] eqn:E2; simpl.
  - destruct (sets_one ix); congruence.
  - rewrite !app_nil_r. f_equal. f_equal; [lia|].
    by destruct (omap _ budget).
  - rewrite !app_nil_r, greatest_snoc, Z.add_0_r. done.
  - rewrite !app_nil_r, Z.add_0_r. done.
Qed.

Lemma cu_loop_of ixs budget :
  cu_loop CB (cu_of budget) ixs =
  (ds ← res_mapM deserializeInstruction ixs; Ok (cu_of (budget ++ ds))).
Proof.
  revert budget. induction ixs as [|ix ixs IH]; intros budget; cbn [cu_loop res_mapM].
  { simpl. by rewrite app_nil_r. }
  destruct (deserializeInstruction ix) as [d|e]; simpl; [|done].
  rewrite cu_step_of. simpl. rewrite IH.
  destruct (res_mapM deserializeInstruction ixs) as [ds|e]; simpl; [|done].
  by rewrite <- app_assoc.
Qed.

Lemma splitJupiterInstructions_eq swapIxSets :
  splitJupiterInstructions CB swapIxSets =
  (budget ← res_mapM deserializeInstruction (swapIxSets ≫= computeBudgetInstructions);
   body ← res_mapM deserializeInstruction (swapIxSets ≫= swap_body);
   Ok (merged CB (length swapIxSets) budget [], body)).
Proof.
  unfold splitJupiterInstructions. change (mkCu 0 false None []) with (cu_of []).
  rewrite cu_loop_of. destruct (res_mapM _ (_ ≫= computeBudgetInstructions)) as [budget|e]; [|done].
  cbn [mbind Res_bind app]. destruct (res_mapM _ (_ ≫= swap_body)) as [body|e]; [|done].
  cbn [mbind Res_bind]. unfold merged, merged_units, cu_of. rewrite app_nil_r. simpl.
  do 4 f_equal. by destruct (omap _ budget).
Qed.

Lemma clamp_bounds n lo hi : lo <= hi -> lo <= clamp n lo hi <= hi.
Proof. unfold clamp. lia. Qed.

Lemma buildMulti_eq swapIxSets :
  swapIxSets ≠ [] ->
  buildMultiJupiterInstructions CB swapIxSets =
  (budget ← res_mapM deserializeInstruction (swapIxSets ≫= computeBudgetInstructions);
   body ← res_mapM deserializeInstruction (swapIxSets ≫= swap_body);
   Ok (merged CB (length swapIxSets) budget body)).
Proof.
  intros Hne. unfold buildMultiJupiterInstructions.
  destruct (length swapIxSets =? 0)%nat eqn:E; [by apply Nat.eqb_eq, nil_length_inv in E|].
  rewrite splitJupiterInstructions_eq.
  destruct (res_mapM _ (_ ≫= computeBudgetInstructions)) as [budget|e]; [|done].
  cbn [mbind Res_bind]. destruct (res_mapM _ (_ ≫= swap_body)) as [body|e]; [|done].
  cbn [mbind Res_bind]. unfold merged. by rewrite app_nil_r, <- !app_assoc.
Qed.
End merge_facts.

(** The instructions built for a batch of swaps are exactly the declarative merge:
    one compute-unit limit, the sum of Jupiter's limits (or 200000 per swap when it gave
    none) plus the buffer of the deposit, clamped to 400000-1400000; then the highest of
    the priority fees, if any; then the other budget instructions; then setup, swap and
    cleanup of every leg in the order of the legs.  It throws exactly when one of the
    instructions cannot be deserialised. *)
Theorem merge_swaps `{ExecutorLibs} COMPUTE_BUDGET_PROGRAM swapIxSets :
  swapIxSets ≠ [] ->
  match buildMultiJupiterInstructions COMPUTE_BUDGET_PROGRAM swapIxSets with
  | Ok ixs => exists budget body,
      res_mapM deserializeInstruction (swapIxSets ≫= computeBudgetInstructions) = Ok budget /\
      res_mapM deserializeInstruction (swapIxSets ≫= swap_body) = Ok body /\
      ixs = merged COMPUTE_BUDGET_PROGRAM (length swapIxSets) budget body /\
      MIN_CU <= merged_units COMPUTE_BUDGET_PROGRAM (length swapIxSets) budget <= MAX_CU
  | Throw e => exists swapIxs ix, swapIxs ∈ swapIxSets /\
      ix ∈ computeBudgetInstructions swapIxs ++ swap_body swapIxs /\
      deserializeInstruction ix = Throw e
  end.
Proof.
  intros Hne. rewrite buildMulti_eq by done.
  destruct (res_mapM _ (_ ≫= computeBudgetInstructions)) as [budget|e] eqn:E1; cbn [mbind Res_bind].
  - destruct (res_mapM _ (_ ≫= swap_body)) as [body|e] eqn:E2; cbn [mbind Res_bind].
    + exists budget, body. do 3 (split; [done|]). by apply clamp_bounds.
    + apply res_mapM_throw in E2 as (ix & (s & Hix & Hs)%list_elem_of_bind & Hd).
      exists s, ix. rewrite elem_of_app. auto.
  - apply res_mapM_throw in E1 as (ix & (s & Hix & Hs)%list_elem_of_bind & Hd).
    exists s, ix. rewrite elem_of_app. auto.
Qed.

Module JupiterWitness.
#[local] Existing Instance ToyKeys.keys.
#[local] Existing Instance ToySolana.libs.
#[local] Existing Instance ToyBrowser.xlibs.

(** Two legs as in src/lib/jupiterClient.test.ts: limits 100 and 1, prices 3 and 5. *)
Definition CB : PublicKey := ToyKeys.of_text "budget".
Definition text (b : bytes) : string :=
  String.string_of_list_ascii (Ascii.ascii_of_byte <$> b).
Definition leg (limit price : Z) (tag : string) : JupiterSwapInstructions :=
  mkSwapIxs [mkSerIx "budget" [] (text (x02 :: le_encode 4 limit));
             mkSerIx "budget" [] (text (x03 :: le_encode 8 price))]
    [mkSerIx "setup" [] tag] (mkSerIx "swap" [] tag) None [].
Definition legs : list JupiterSwapInstructions := [leg 100000 3 "a"; leg 700000 5 "b"].

Example merged_legs :
  buildMultiJupiterInstructions CB legs = Ok
    [setComputeUnitLimit 950000; setComputeUnitPrice 5;
     mkIx (ToyKeys.of_text "setup") [] [x61]; mkIx (ToyKeys.of_text "swap") [] [x61];
     mkIx (ToyKeys.of_text "setup") [] [x62]; mkIx (ToyKeys.of_text "swap") [] [x62]].
Proof. vm_compute. reflexivity. Qed.

Lemma merge_swaps_witness :
  exists budget body,
    res_mapM deserializeInstruction (legs ≫= computeBudgetInstructions) = Ok budget /\
    MIN_CU <= merged_units CB 2 budget <= MAX_CU /\
    buildMultiJupiterInstructions CB legs = Ok (merged CB 2 budget body).
Proof.
  pose proof (merge_swaps CB legs ltac:(discriminate)) as H.
  destruct (buildMultiJupiterInstructions CB legs) as [ixs|e] eqn:E; [|vm_compute in E; discriminate].
  destruct H as (budget & body & Hb & _ & -> & Hu). exists budget, body. auto.
Defined.
End JupiterWitness.
