(* ===== verification/TokenMetadata.v ===== *)
(** * TokenMetadata: src/lib/tokenMetadata.ts and the metadata part of degenClaim.ts

    Names, symbols and logos of tokens, from the Metaplex account of a mint and from
    Jupiter, with the three module-level caches.  The pages keep these caches inside
    their state: [HasMeta] says where.  A request that is under way is not shared with a
    second caller ([jupiterLogoInflight]): computations run one after the other here. *)

From stdpp Require Import base list gmap strings pretty.
From Stdlib Require Import ZArith Lia Ascii Strings.Byte SpecFloat.
From S2P Require Import Prelude Buffers Accounts JsRuntime Effects Solana Instructions Firebase DegenExecutor Browser.

Local Open Scope string_scope.
Local Open Scope list_scope.
Local Open Scope Z_scope.
Set Warnings "-clear-no-such-hyp".

Record TokenMetadataResult := mkMetadata {
  tm_name : string;
  tm_symbol : string;
  tm_image : string;
  tm_uri : string
}.

Record DegenToken := mkDegenToken {
  dt_mint : string;
  dt_symbol : string;
  dt_name : option string;
  dt_logoURI : option string
}.

(** [cache], [jupiterLogoCache] and [tokenMetaCache]. *)
Record MetaCaches := mkMetaCaches {
  mc_cache : gmap string TokenMetadataResult;
  mc_logos : gmap string string;
  mc_degen : gmap string DegenToken
}.
Definition no_metadata : MetaCaches := mkMetaCaches ∅ ∅ ∅.

Class HasMeta (St : Type) := {
  meta_of : St -> MetaCaches;
  with_meta : MetaCaches -> St -> St
}.

(** [s.replace(/\0/g, "")] *)
Fixpoint remove_nul (s : string) : string :=
  match s with
  | EmptyString => EmptyString
  | String c rest => if (c =? "000")%char then remove_nul rest else String c (remove_nul rest)
  end.

(** The first field that converts to [true], as text. *)
Section rows.
Context `{FrontServices}.

Fixpoint first_truthy (j : Json) (keys : list string) : option Json :=
  match keys with
  | [] => None
  | key :: keys => match truthy_field j key with
                   | Some v => Some v
                   | None => first_truthy j keys
                   end
  end.

Definition text_field (token : option Json) (keys : list string) : option string :=
  match token with Some j => jsToString <$> first_truthy j keys | None => None end.

(** [(r.id || r.address || r.mint) === mint] *)
Definition row_matches (mint : string) (r : Json) : bool :=
  match first_truthy r ["id"; "address"; "mint"] with
  | Some (JStr s) => String.eqb s mint
  | _ => false
  end.

(** [Array.isArray(rows) ? rows.find(...) : null]; a [null] row throws. *)
Fixpoint find_row (mint : string) (rows : list Json) : Res (option Json) :=
  match rows with
  | [] => Ok None
  | JNull :: _ => Throw (mkError "TypeError" "Cannot read properties of null (reading 'id')")
  | r :: rows => if row_matches mint r then Ok (Some r) else find_row mint rows
  end.

Definition token_of_rows (mint : string) (rows : Json) : Res (option Json) :=
  match rows with JArr l => find_row mint l | _ => Ok None end.

Definition normalizeTokenMetadata (mint : string) (payload : option Json) : DegenToken :=
  mkDegenToken mint
    (default (String.substring 0 4 mint +:+ "…") (text_field payload ["symbol"]))
    (text_field payload ["name"])
    (text_field payload ["logoURI"; "icon"]).

(** ** The metadata account *)

(** [data.subarray(s, e)] with [e] clamped to the end. *)
Definition borsh_text (data : bytes) (offset len : Z) : string :=
  trim (remove_nul (utf8Decode (subarray data offset (offset + len)))).

(** Key, update authority and mint come first; [None] when a read is out of bounds. *)
Definition parseMetadataAccount (data : bytes) : option (string * string * string) :=
  res_value (
    let offset := 1 + 32 + 32 in
    nameLen ← getUint32 data offset;
    let offset := offset + 4 in
    let name := borsh_text data offset nameLen in
    let offset := offset + nameLen in
    symbolLen ← getUint32 data offset;
    let offset := offset + 4 in
    let symbol := borsh_text data offset symbolLen in
    let offset := offset + symbolLen in
    uriLen ← getUint32 data offset;
    let offset := offset + 4 in
    let uri := borsh_text data offset uriLen in
    Ok (name, symbol, uri)).
End rows.

Section metadata.
Context `{FrontServices} {St : Type} `{!HasMeta St}.
Context (TOKEN_METADATA_PROGRAM_ID : PublicKey) (API_KEY : string).
Local Abbreviation M := (M St FWorld FEvent).

Definition getMetadataPda (mint : PublicKey) : PublicKey :=
  fst (findProgramAddressSync
         [buffer_of "metadata"; toBuffer TOKEN_METADATA_PROGRAM_ID; toBuffer mint]
         TOKEN_METADATA_PROGRAM_ID).

Definition update_meta (f : MetaCaches -> MetaCaches) : M unit :=
  modify (fun s => with_meta (f (meta_of s)) s).

Definition put_metadata (mint : string) (m : TokenMetadataResult) : M unit :=
  update_meta (fun c => mkMetaCaches (<[mint := m]> (mc_cache c)) (mc_logos c) (mc_degen c)).
Definition put_logo (mint logo : string) : M unit :=
  update_meta (fun c => mkMetaCaches (mc_cache c) (<[mint := logo]> (mc_logos c)) (mc_degen c)).
Definition put_degen (mint : string) (t : DegenToken) : M unit :=
  update_meta (fun c => mkMetaCaches (mc_cache c) (mc_logos c) (<[mint := t]> (mc_degen c))).

Definition token_search (mint : string) (timeoutMs : Z) (retries : option Z) : M Json :=
  jupiterFetchJson API_KEY (invoke (fxTokenSearch mint) (FSearch mint)) timeoutMs retries.

Definition fetchTokenLogoViaJupiter (mint : string) : M string :=
  cached ← gets (fun s => mc_logos (meta_of s) !! mint);
  match cached with
  | Some logo => mret logo
  | None =>
      try_catch
        (rows ← token_search mint 4000 (Some 1);
         token ← lift (token_of_rows mint rows);
         let logo := default "" (text_field token ["logoURI"; "icon"]) in
         put_logo mint logo ;; mret logo)
        (fun _ => put_logo mint "" ;; mret "")
  end.

(** The image named by the JSON file at [uri]. *)
Definition metaplex_image (uri : string) : M string :=
  or_else
    (r ← f_uri uri;
     if rs_ok r then j ← lift (rs_json r); mret (default "" (text_field (Some j) ["image"]))
     else mret "") "".

(** Both sources are asked; Jupiter's logo is preferred. *)
Definition token_image (mint uri : string) : M string :=
  jupLogo ← settled (fetchTokenLogoViaJupiter mint);
  metaplex ← settled (metaplex_image uri);
  let jupImage := default "" (res_value jupLogo) in
  let metaplexImage := default "" (res_value metaplex) in
  mret (if String.eqb jupImage "" then metaplexImage else jupImage).

(** The metadata of a parsed account, put into the cache. *)
Definition resolve_metadata (mint : string) (parsed : string * string * string)
    : M TokenMetadataResult :=
  let '(name, symbol, uri) := parsed in
  image ← token_image mint uri;
  let result := mkMetadata name symbol image uri in
  put_metadata mint result ;; mret result.

(** An account with a name, a symbol and an address of its JSON file. *)
Definition usable_metadata (info : option AccountInfo) : option (string * string * string) :=
  match info with
  | None => None
  | Some acc => match parseMetadataAccount (ai_data acc) with
                | Some (name, symbol, uri) =>
                    if String.eqb uri "" then None else Some (name, symbol, uri)
                | None => None
                end
  end.

Definition fetchTokenMetadata (mint : PublicKey) : M (option TokenMetadataResult) :=
  let mintStr := toBase58 mint in
  cached ← gets (fun s => mc_cache (meta_of s) !! mintStr);
  match cached with
  | Some m => mret (Some m)
  | None =>
      or_else
        (accountInfo ← f_account (getMetadataPda mint);
         match usable_metadata accountInfo with
         | None => mret None
         | Some parsed => m ← resolve_metadata mintStr parsed; mret (Some m)
         end) None
  end.

(** The cached results and the mints still to be fetched. *)
Fixpoint split_cached (c : gmap string TokenMetadataResult) (mints : list PublicKey)
    (results : gmap string TokenMetadataResult) (uncached : list PublicKey)
    : gmap string TokenMetadataResult * list PublicKey :=
  match mints with
  | [] => (results, uncached)
  | mint :: mints =>
      match c !! toBase58 mint with
      | Some m => split_cached c mints (<[toBase58 mint := m]> results) uncached
      | None => split_cached c mints results (uncached ++ [mint])
      end
  end.

Definition batch_entry (results : gmap string TokenMetadataResult)
    (entry : option AccountInfo * option PublicKey) : M (gmap string TokenMetadataResult) :=
  match snd entry with
  | None => throw type_error
  | Some mint =>
      match usable_metadata (fst entry) with
      | None => mret results
      | Some parsed =>
          m ← resolve_metadata (toBase58 mint) parsed;
          mret (<[toBase58 mint := m]> results)
      end
  end.

Definition fetchTokenMetadataBatch (mints : list PublicKey)
    : M (gmap string TokenMetadataResult) :=
  c ← gets (fun s => mc_cache (meta_of s));
  let '(results, uncachedMints) := split_cached c mints ∅ [] in
  if (length uncachedMints =? 0)%nat then mret results
  else
    accounts ← f_accounts (getMetadataPda <$> uncachedMints);
    for_acc (imap (fun i info => (info, uncachedMints !! i)) accounts) batch_entry results.

(** The cached logos, then the others in groups of five. *)
Definition logo_entry (results : gmap string string) (mint : string) : M (gmap string string) :=
  r ← settled (fetchTokenLogoViaJupiter mint);
  mret (match r with Ok logo => <[mint := logo]> results | Throw _ => results end).

Definition fetchTokenLogosBatchViaJupiter (mints : list string) : M (gmap string string) :=
  c ← gets (fun s => mc_logos (meta_of s));
  let results := fold_left (fun r m => match c !! m with Some l => <[m := l]> r | None => r end)
                   mints ∅ in
  let toFetch := filter (fun m => c !! m = None) mints in
  for_acc toFetch logo_entry results.

Definition clearMetadataCache : M unit :=
  update_meta (fun c => mkMetaCaches ∅ ∅ (mc_degen c)).

(** [fetchDegenTokenMeta] of src/lib/degenClaim.ts: the request's failure is cached as
    an unknown token. *)
Definition fetchDegenTokenMeta (mint : string) : M DegenToken :=
  cached ← gets (fun s => mc_degen (meta_of s) !! mint);
  match cached with
  | Some t => mret t
  | None =>
      t ← try_catch
            (rows ← token_search mint 5000 None;
             token ← lift (token_of_rows mint rows);
             mret (normalizeTokenMetadata mint token))
            (fun _ => mret (normalizeTokenMetadata mint None));
      put_degen mint t ;; mret t
  end.
End metadata.
