(* ===== verification/History.v ===== *)
(** * History: src/lib/roundArchive.ts and the entries of src/hooks/useRoundHistory.ts

    The archive of closed rounds in Firebase as the frontend reads and writes it, and the
    conversion of a round account into a history entry. *)

From stdpp Require Import base list gmap strings pretty sorting.
From Stdlib Require Import ZArith Lia Ascii Strings.Byte SpecFloat.
From S2P Require Import Prelude Buffers Accounts JsRuntime Effects Solana Instructions Firebase DegenExecutor Browser.

Local Open Scope string_scope.
Local Open Scope list_scope.
Local Open Scope Z_scope.
Set Warnings "-clear-no-such-hyp".

(** ** Values *)

(** The base a literal's second character announces after a leading [0]. *)
Definition literal_base (x : ascii) : option Z :=
  if (x =? "x")%char || (x =? "X")%char then Some 16
  else if (x =? "o")%char || (x =? "O")%char then Some 8
  else if (x =? "b")%char || (x =? "B")%char then Some 2 else None.

(** [BigInt(text)]: a decimal literal with an optional sign, or one with a base prefix. *)
Definition bigint_of_text (text : string) : Res Z :=
  let bad := mkError "SyntaxError" ("Cannot convert " +:+ text +:+ " to a BigInt") in
  let decimal s := match read_digits 0 0 s with
                   | (v, S _, EmptyString) => Some v
                   | _ => None
                   end in
  match trim text with
  | EmptyString => Ok 0
  | String c rest =>
      let value :=
        if (c =? "-")%char then Z.opp <$> decimal rest
        else if (c =? "+")%char then decimal rest
        else match rest with
             | String x ds =>
                 match (if (c =? "0")%char then literal_base x else None) with
                 | Some base => match ds with EmptyString => None | _ => read_radix base 0 ds end
                 | None => decimal (String c rest)
                 end
             | EmptyString => decimal (String c rest)
             end in
      match value with Some z => Ok z | None => Throw bad end
  end.

(** [x || d] for an optional text or number. *)
Definition text_or (x : option string) (d : string) : string :=
  match x with Some s => if String.eqb s "" then d else s | None => d end.

Definition nonempty (x : option string) : option string :=
  match x with Some s => if String.eqb s "" then None else Some s | None => None end.

Definition num_or_zero (x : option num) : num :=
  match x with Some S754_nan | None => S754_zero false | Some n => n end.

(** The value of a number that is an integer. *)
Definition num_Z (x : num) : option Z :=
  match num_floor x with
  | Some z => if SFeqb (num_of_Z z) x then Some z else None
  | None => None
  end.

(** ** src/lib/roundArchive.ts *)

Section archive.
Context `{FrontServices} {St : Type}.
(** whether Firebase is configured *)
Context (db : bool).
Local Abbreviation M := (M St FWorld FEvent).

Definition is_permission_denied (e : JsError) : bool :=
  bool_decide (err_code e = Some "PERMISSION_DENIED") ||
  includes (err_message e) "PERMISSION_DENIED".

Definition saveRoundToFirebase (round : Hist.HistoryRound) : M unit :=
  if negb db then mret tt
  else
    try_catch
      (now ← f_now;
       f_archiveSet (Hist.roundId round)
         (Hist.mkSnapshot (Hist.roundId round) (Hist.status round) (Hist.totalUsdc round)
            (Some (Hist.totalTickets round)) (Hist.participantsCount round) (Hist.winner round)
            (Some (pretty (Hist.winningTicket round))) (Some (Hist.randomness round))
            (Hist.startTs round) (Hist.endTs round) (nonempty (Hist.claimTx round))
            (Some (Hist.vaultUsdcAta round)) (Some (Hist.participants round))
            (Some (default [] (Hist.participantDeposits round))) now))
      (fun e => if is_permission_denied e then mret tt else throw e).

Definition entry_of_snapshot (val : Hist.Snapshot) : Res Hist.HistoryRound :=
  ticket ← bigint_of_text (text_or (Hist.s_winningTicket val) "0");
  Ok (Hist.mkHistoryRound (Hist.s_roundId val) (Hist.s_status val) (Hist.s_totalUsdc val)
        (num_or_zero (Hist.s_totalTickets val)) (Hist.s_participantsCount val)
        (Hist.s_winner val) ticket (text_or (Hist.s_randomness val) "")
        (Hist.s_startTs val) (Hist.s_endTs val) (nonempty (Hist.s_claimTx val))
        (text_or (Hist.s_vaultUsdcAta val) "") (default [] (Hist.s_participants val))
        (Some (default [] (Hist.s_participantDeposits val)))).

Definition fetchRoundFromFirebase (roundId : Z) : M (option Hist.HistoryRound) :=
  if negb db then mret None
  else
    or_else
      (snapshot ← f_archiveGet roundId;
       match snapshot with
       | None => mret None
       | Some val => round ← lift (entry_of_snapshot val); mret (Some round)
       end) None.

(** The rounds found, in the order of the ids. *)
Definition fetchRoundsFromFirebase (roundIds : list Z) : M (list Hist.HistoryRound) :=
  if negb db || (length roundIds =? 0)%nat then mret []
  else
    settled ← all_settled (fetchRoundFromFirebase <$> roundIds);
    mret (omap (fun r => match r with Ok (Some h) => Some h | _ => None end) settled).

Definition getMaxArchivedRoundId : M num :=
  if negb db then mret (S754_zero false)
  else
    or_else
      (key ← f_archiveMax;
       mret (match key with Some k => Number k | None => S754_zero false end))
      (S754_zero false).

(** [(a, b) => b.roundId - a.roundId]: [a] comes before [b] unless [b] is greater. *)
Definition newer (a b : Hist.HistoryRound) : Prop :=
  SFltb (Hist.roundId a) (Hist.roundId b) = false.

#[global] Instance newer_dec a b : Decision (newer a b).
Proof. unfold newer. apply _. Defined.

(** [Array.prototype.sort] with that comparison: a stable insertion. *)
Fixpoint insert_by_id (h : Hist.HistoryRound) (l : list Hist.HistoryRound)
    : list Hist.HistoryRound :=
  match l with
  | [] => [h]
  | g :: l => if decide (newer h g) then h :: g :: l else g :: insert_by_id h l
  end.

Definition newest_first (l : list Hist.HistoryRound) : list Hist.HistoryRound :=
  fold_right insert_by_id [] l.

(** An entry of the list of winners: [??] keeps empty texts. *)
Definition winner_of_snapshot (r : Hist.Snapshot) : Res Hist.HistoryRound :=
  ticket ← match Hist.s_winningTicket r with Some t => bigint_of_text t | None => Ok 0 end;
  Ok (Hist.mkHistoryRound (Hist.s_roundId r) (Hist.s_status r) (Hist.s_totalUsdc r)
        (default S754_nan (Hist.s_totalTickets r)) (Hist.s_participantsCount r) (Hist.s_winner r)
        ticket (default "" (Hist.s_randomness r)) (Hist.s_startTs r) (Hist.s_endTs r)
        (Hist.s_claimTx r) (default "" (Hist.s_vaultUsdcAta r))
        (default [] (Hist.s_participants r)) (Hist.s_participantDeposits r)).

Definition has_winner (r : Hist.HistoryRound) : bool :=
  negb (String.eqb (Hist.winner r) "") &&
  negb (String.eqb (Hist.winner r) "11111111111111111111111111111111").

Definition fetchRecentWinnersFromFirebase (count : Z) : M (list Hist.HistoryRound) :=
  if negb db then mret []
  else
    or_else
      (snapshot ← f_archiveRecent count;
       match snapshot with
       | None => mret []
       | Some l =>
           rounds ← lift (res_mapM winner_of_snapshot l);
           mret (newest_first (filter (fun r => Is_true (has_winner r)) rounds))
       end) [].
End archive.

(** ** src/hooks/useRoundHistory.ts: entries *)

Section entries.
Context `{FrontServices} {St : Type} (A : Addresses).
Local Abbreviation M := (M St FWorld FEvent).

Definition toHistoryRound (rd : Front.RoundData) (deposits : option (list ParticipantDeposit))
    : Hist.HistoryRound :=
  Hist.mkHistoryRound (num_of_Z (Front.roundId rd)) (Front.status rd)
    (usdc_of_raw (Front.totalUsdc rd)) (num_of_Z (Front.totalTickets rd))
    (Front.participantsCount rd) (toBase58 (Front.winner rd)) (Front.winningTicket rd)
    (hex (Front.randomness rd)) (num_of_Z (Front.startTs rd)) (num_of_Z (Front.endTs rd)) None
    (toBase58 (Front.vaultUsdcAta rd)) (toBase58 <$> Front.participants rd) deposits.

(** One iteration of the loop over the participants: their account, or an equal share
    when it is closed. *)
Definition deposit_entry (rd : Front.RoundData) (roundPda : PublicKey)
    (deposits : list ParticipantDeposit) (i : nat) : M (list ParticipantDeposit) :=
  match Front.participants rd !! i with
  | None => throw type_error
  | Some addr =>
      let addrStr := toBase58 addr in
      let n := num_of_Z (Front.participantsCount rd) in
      d ← try_catch
            (pData ← f_participant (getParticipantPda A roundPda addr);
             mret (mkDeposit addrStr (usdc_of_raw (fst pData)) (num_of_Z (snd pData))))
            (fun _ => mret (mkDeposit addrStr (num_over (usdc_of_raw (Front.totalUsdc rd)) n)
                       (num_of_Z (default 0 (num_floor
                          (num_over (num_of_Z (Front.totalTickets rd)) n))))));
      mret (deposits ++ [d])
  end.

Definition toHistoryRoundWithDeposits (rd : Front.RoundData) (roundId : Z) : M Hist.HistoryRound :=
  roundPda ← lift (getRoundPda A roundId);
  deposits ← for_acc (seq 0 (Z.to_nat (Front.participantsCount rd))) (deposit_entry rd roundPda) [];
  mret (toHistoryRound rd (Some deposits)).
End entries.
