(* ===== verification/Fairness.v ===== *)
(** * Fairness: src/pages/Fairness.tsx, the page that recomputes a winning ticket

    The user pastes the round's randomness in hexadecimal and its number of tickets; the
    page derives the ticket again, in exact [bigint] arithmetic.  The theorems relate it to
    the draw of the on-chain program ([RoundProgram.derive_winning_ticket]): the page
    shows the ticket the program drew, for every randomness and total. *)

From stdpp Require Import base list gmap strings pretty.
From Stdlib Require Import ZArith Lia Ascii Strings.Byte SpecFloat.
From S2P Require Import Prelude Buffers Accounts JsRuntime Effects Solana Instructions Firebase DegenLogic DegenExecutor Browser JupiterClient History Fenwick RoundProgram RoundProgramSpec.

Local Open Scope string_scope.
Local Open Scope list_scope.
Local Open Scope Z_scope.
Set Warnings "-clear-no-such-hyp".

(** ** The derivation *)

Record VerifyResult := mkVerifyResult { vr_ticket : string; vr_error : option string }.

(** [s.replace(/^0x/i, '')] *)
Definition strip_0x (s : string) : string :=
  match s with
  | String "0" (String x rest) => if (x =? "x")%char || (x =? "X")%char then rest else s
  | _ => s
  end.

(** [s.replace(/\s/g, '')] *)
Fixpoint remove_spaces (s : string) : string :=
  match s with
  | EmptyString => EmptyString
  | String c rest => if is_space c then remove_spaces rest else String c (remove_spaces rest)
  end.

Definition is_hex_char (c : ascii) : bool :=
  is_digit c || ascii_between "a" "f" c || ascii_between "A" "F" c.

Fixpoint all_chars (f : ascii -> bool) (s : string) : bool :=
  match s with EmptyString => true | String c rest => f c && all_chars f rest end.

(** [/^[0-9a-fA-F]{64}$/.test(hex)] *)
Definition is_hex64 (s : string) : bool := (String.length s =? 64)%nat && all_chars is_hex_char s.

(** [parseInt(first16Hex.slice(i, i + 2), 16)] of characters that are digits. *)
Definition parse_pair (s : string) (i : nat) : Z := default 0 (read_radix 16 0 (String.substring i 2 s)).

(** The byte loop, [i = 0, 2, ..., 30], and the accumulation of [r]. *)
Definition page_bytes (first16Hex : string) : list Z := parse_pair first16Hex <$> ((fun k => 2 * k)%nat <$> seq 0 16).

Definition page_value (bs : list Z) : Z :=
  fold_left (fun r i => Z.lor r (Z.shiftl (default 0 (bs !! i)) (8 * Z.of_nat i))) (seq 0 16) 0.

Definition deriveWinningTicket (randomnessHex totalTickets : string) : VerifyResult :=
  let hex := remove_spaces (strip_0x randomnessHex) in
  if negb (is_hex64 hex) then
    mkVerifyResult "" (Some "Randomness must be exactly 64 hex characters (32 bytes)")
  else match bigint_of_text totalTickets with
       | Throw _ => mkVerifyResult "" (Some "Invalid input")
       | Ok totalBig =>
           if totalBig <=? 0 then mkVerifyResult "" (Some "Total tickets must be > 0")
           else
             let first16Hex := String.substring 0 32 hex in
             let ticket := Z.rem (page_value (page_bytes first16Hex)) totalBig + 1 in
             mkVerifyResult (pretty ticket) None
       end.

(** ** The page *)

Record FairnessState := mkFairness {
  vrfRandomness : string;
  vrfTotalTickets : string;
  vrfResult : option VerifyResult;
  copiedField : option string
}.

Definition handleVerify (s : FairnessState) : FairnessState :=
  mkFairness (vrfRandomness s) (vrfTotalTickets s)
    (Some (deriveWinningTicket (vrfRandomness s) (vrfTotalTickets s))) (copiedField s).

(** [handleCopy] marks the field; its timer, 1500 ms later, clears whatever is marked. *)
Definition handleCopy (field : string) (s : FairnessState) : FairnessState :=
  mkFairness (vrfRandomness s) (vrfTotalTickets s) (vrfResult s) (Some field).
Definition copy_timer (s : FairnessState) : FairnessState :=
  mkFairness (vrfRandomness s) (vrfTotalTickets s) (vrfResult s) None.

(** ** Texts of digits *)

Lemma all_chars_mono (f g : ascii -> bool) s :
  (forall c, f c = true -> g c = true) -> all_chars f s = true -> all_chars g s = true.
Proof.
  intros Hfg. induction s as [|c s IH]; simpl; [done|]. intros [Hc Hs]%andb_true_iff.
  rewrite (Hfg c Hc). auto.
Qed.

Lemma remove_spaces_none s : all_chars (fun c => negb (is_space c)) s = true -> remove_spaces s = s.
Proof.
  induction s as [|c s IH]; simpl; [done|]. intros [Hc Hs]%andb_true_iff.
  apply negb_true_iff in Hc. rewrite Hc. f_equal. auto.
Qed.

Lemma trim_none s : all_chars (fun c => negb (is_space c)) s = true -> trim s = s.
Proof.
  intros Hs. unfold trim. assert (trim_start s = s) as ->.
  { destruct s as [|c s]; [done|]. simpl in *. apply andb_true_iff in Hs as [Hc _].
    apply negb_true_iff in Hc. by rewrite Hc. }
  induction s as [|c s IH]; simpl in *; [done|]. apply andb_true_iff in Hs as [Hc Hs].
  rewrite IH by done. apply negb_true_iff in Hc. rewrite Hc. by destruct s.
Qed.

Lemma hex_char_no_space c : is_hex_char c = true -> negb (is_space c) = true.
Proof. by destruct c as [[] [] [] [] [] [] [] []]. Qed.

Lemma digit_no_space c : is_digit c = true -> negb (is_space c) = true.
Proof. by destruct c as [[] [] [] [] [] [] [] []]. Qed.

(** ** Decimal numbers read back *)

Lemma pretty_char_value (d : N) :
  (d < 10)%N -> is_digit (pretty_N_char d) = true /\ Z.of_N (N_of_ascii (pretty_N_char d)) - 48 = Z.of_N d.
Proof.
  intros Hd. assert (d ∈ [0; 1; 2; 3; 4; 5; 6; 7; 8; 9]%N) as Hin.
  { rewrite !elem_of_cons. lia. }
  repeat (apply elem_of_cons in Hin as [->|Hin]; [done|]). by apply elem_of_nil in Hin.
Qed.

Lemma read_pretty_go x s acc n :
  exists d, read_digits acc n (pretty_N_go x s) = read_digits (acc * 10 ^ Z.of_nat d + Z.of_N x) (n + d) s /\
    ((0 < x)%N -> (0 < d)%nat) /\
    (all_chars is_digit s = true -> all_chars is_digit (pretty_N_go x s) = true).
Proof.
  revert s acc n. induction (N.lt_wf_0 x) as [x _ IH]. intros s acc n.
  destruct (decide (0 < x)%N) as [Hx|Hx].
  - rewrite pretty_N_go_step by done.
    destruct (IH (x / 10)%N ltac:(apply N.div_lt; lia) (String (pretty_N_char (x mod 10)) s) acc n)
      as (d & E & _ & Ha).
    destruct (pretty_char_value (x mod 10)) as [Hdig Hval]; [by apply N.mod_lt|].
    exists (S d). split_and!.
    + rewrite E. simpl read_digits at 1. rewrite Hdig, Hval. f_equal; [|lia].
      rewrite Nat2Z.inj_succ, Z.pow_succ_r by lia.
      assert (Z.of_N x = 10 * Z.of_N (x / 10) + Z.of_N (x mod 10)) as Ex
        by (pose proof (N.div_mod x 10 ltac:(done)); lia).
      rewrite Ex. lia.
    + lia.
    + intros Hs. apply Ha. simpl. by rewrite Hdig.
  - replace x with 0%N by lia. rewrite pretty_N_go_0. exists 0%nat. split_and!; [|lia|done].
    f_equal; lia.
Qed.

(** [BigInt(z.toString()) === z] *)
Lemma bigint_of_pretty z : 0 <= z -> bigint_of_text (pretty z) = Ok z.
Proof.
  intros Hz. destruct (decide (z = 0)) as [->|Hne]; [done|].
  destruct z as [|p|p]; [done| |lia]. change (pretty (Z.pos p)) with (pretty_N_go (N.pos p) "").
  destruct (read_pretty_go (N.pos p) "" 0 0) as (d & E & Hd & Ha). specialize (Ha eq_refl).
  unfold bigint_of_text. rewrite trim_none by (by eapply all_chars_mono; [apply digit_no_space|]).
  destruct (pretty_N_go (N.pos p) "") as [|c rest] eqn:Ep.
  { simpl in E. injection E as E. specialize (Hd ltac:(lia)). lia. }
  simpl in Ha. apply andb_true_iff in Ha as [Hc Hr].
  assert ((c =? "-")%char = false /\ (c =? "+")%char = false) as [-> ->]
    by (by destruct c as [[] [] [] [] [] [] [] []]).
  assert (match read_digits 0 0 (String c rest) with (v, S _, EmptyString) => Some v | _ => None end
    = Some (Z.pos p)) as Ed.
  { rewrite E. simpl. specialize (Hd ltac:(lia)). destruct d; [lia|done]. }
  destruct rest as [|x ds]; [by rewrite Ed|].
  simpl in Hr. apply andb_true_iff in Hr as [Hx _].
  assert ((if (c =? "0")%char then literal_base x else None) = None) as ->.
  { destruct (c =? "0")%char; [|done]. by destruct x as [[] [] [] [] [] [] [] []]. }
  by rewrite Ed.
Qed.

(** ** Hexadecimal bytes read back *)

Lemma hex_chars b : all_chars is_hex_char (hex b) = true.
Proof. induction b as [|x b IH]; simpl; [done|]. rewrite IH. by destruct x. Qed.

Lemma length_hex b : String.length (hex b) = (2 * length b)%nat.
Proof. induction b as [|x b IH]; simpl; [done|]. rewrite IH. lia. Qed.

Lemma strip_hex b : length b = 32%nat -> strip_0x (hex b) = hex b.
Proof.
  intros Hb. destruct b as [|x b]; [done|]. simpl.
  by destruct x.
Qed.

Lemma substring_prefix i n m s :
  (i + n <= m)%nat -> String.substring i n (String.substring 0 m s) = String.substring i n s.
Proof.
  revert i n m. induction s as [|c s IH]; intros i n m Hle.
  - destruct m; by destruct i, n.
  - destruct m as [|m]; [by destruct i, n; simpl; try lia|].
    destruct i as [|i]; simpl.
    + destruct n as [|n]; simpl; [done|]. f_equal. apply (IH 0%nat). lia.
    + apply IH. lia.
Qed.

Lemma substring_hex b k x :
  b !! k = Some x -> String.substring (2 * k) 2 (hex b) = hex [x].
Proof.
  revert k. induction b as [|y b IH]; intros k Hk; [done|]. destruct k as [|k].
  - injection Hk as ->. simpl. by destruct (hex b).
  - replace (2 * S k)%nat with (S (S (2 * k))) by lia. simpl in Hk. cbn [hex String.substring]. by apply IH.
Qed.

Lemma read_hex_byte x : read_radix 16 0 (hex [x]) = Some (byte_val x).
Proof. by destruct x. Qed.

Lemma page_bytes_hex b : length b = 32%nat ->
  page_bytes (String.substring 0 32 (hex b)) = byte_val <$> take 16 b.
Proof.
  intros Hb. apply list_eq. intros k. unfold page_bytes. rewrite !list_lookup_fmap.
  destruct (decide (k < 16)%nat) as [Hk|Hk].
  - rewrite lookup_seq_lt by done. rewrite lookup_take_lt by done. simpl.
    destruct (lookup_lt_is_Some_2 b k ltac:(lia)) as [x Hx]. rewrite Hx. simpl. f_equal.
    unfold parse_pair. rewrite (substring_prefix (k + (k + 0)) 2 32) by lia.
    change (k + (k + 0))%nat with (2 * k)%nat.
    rewrite (substring_hex b k x Hx), read_hex_byte. done.
  - rewrite (proj2 (lookup_ge_None _ _)) by (rewrite length_seq; lia).
    by rewrite (proj2 (lookup_ge_None _ _)) by (rewrite length_take; lia).
Qed.

Lemma le_decode_app (a b : bytes) :
  le_decode (a ++ b) = le_decode a + 256 ^ Z.of_nat (length a) * le_decode b.
Proof.
  induction a as [|x a IH]; [simpl; lia|]. cbn [app le_decode length]. rewrite IH.
  rewrite Nat2Z.inj_succ, Z.pow_succ_r by lia. lia.
Qed.

(** The accumulation is the little-endian value of the bytes. *)
Lemma fold_le (b : bytes) n :
  (n <= length b)%nat ->
  fold_left (fun r i => Z.lor r (Z.shiftl (default 0 ((byte_val <$> b) !! i)) (8 * Z.of_nat i))) (seq 0 n) 0
  = le_decode (take n b).
Proof.
  induction n as [|n IH]; intros Hn; [done|]. rewrite seq_S, fold_left_app, IH by lia. simpl.
  destruct (lookup_lt_is_Some_2 b n ltac:(lia)) as [x Hx]. rewrite list_lookup_fmap, Hx. simpl.
  rewrite (take_S_r _ _ _ Hx). pose proof (le_decode_bound (take n b)) as Hb.
  rewrite length_take_le in Hb by lia.
  assert (256 ^ Z.of_nat n = 2 ^ (8 * Z.of_nat n)) as E by (rewrite Z.pow_mul_r by lia; done).
  rewrite E in Hb. rewrite lor_shift_add by lia. rewrite <- E.
  rewrite le_decode_app. simpl. rewrite length_take_le by lia. lia.
Qed.

(** ** The page and the program *)

Lemma page_value_hex b : length b = 32%nat ->
  page_value (page_bytes (String.substring 0 32 (hex b))) = le_decode (take 16 b).
Proof.
  intros Hb. rewrite page_bytes_hex by done. unfold page_value.
  rewrite (fold_le (take 16 b) 16) by (rewrite length_take; lia). by rewrite take_take.
Qed.

Lemma derive_on_hex b total : length b = 32%nat -> 0 < total ->
  deriveWinningTicket (hex b) (pretty total) =
  mkVerifyResult (pretty (le_decode (take 16 b) mod total + 1)) None.
Proof.
  intros Hb Ht. unfold deriveWinningTicket. rewrite strip_hex by done.
  rewrite remove_spaces_none by (eapply all_chars_mono; [apply hex_char_no_space|apply hex_chars]).
  unfold is_hex64. rewrite length_hex, Hb, hex_chars. cbn [Nat.eqb Nat.mul Nat.add andb negb].
  rewrite bigint_of_pretty by lia. rewrite (proj2 (Z.leb_gt _ _)) by lia.
  rewrite page_value_hex by done. pose proof (le_decode_bound (take 16 b)).
  by rewrite Z.rem_mod_nonneg by lia.
Qed.

(** The page and the program's callback agree on every randomness and total: the page shows
    the ticket the program draws, and refuses exactly the total on which it fails. *)
Theorem page_reproduces_draw b total :
  length b = 32%nat -> 0 <= total ->
  deriveWinningTicket (hex b) (pretty total) =
  match derive_winning_ticket b total with
  | ROk ticket => mkVerifyResult (pretty ticket) None
  | RErr _ => mkVerifyResult "" (Some "Total tickets must be > 0")
  end.
Proof.
  intros Hb Ht. destruct (decide (total = 0)) as [->|Hne].
  - unfold deriveWinningTicket. rewrite strip_hex by done.
    rewrite remove_spaces_none by (eapply all_chars_mono; [apply hex_char_no_space|apply hex_chars]).
    unfold is_hex64. rewrite length_hex, Hb, hex_chars. done.
  - rewrite derive_on_hex by (done || lia). unfold derive_winning_ticket.
    by rewrite (proj2 (Z.eqb_neq _ _)).
Qed.


Module FairnessWitness.
Import RoundWitness.

End FairnessWitness.
