(* ===== verification/NumFacts.v ===== *)
(** * NumFacts: integers as JavaScript numbers

    An integer below [2^53] in absolute value is represented exactly: [num_floor] and
    [num_Z] read it back, and comparison of the numbers is comparison of the integers. *)

From stdpp Require Import base list.
From Stdlib Require Import ZArith Lia SpecFloat.
From S2P Require Import Prelude JsRuntime History.

Local Open Scope Z_scope.

(** The integers every number represents exactly. *)
Definition safe_id (z : Z) : Prop := Z.abs z < 2 ^ 53.

#[export] Instance safe_id_dec z : Decision (safe_id z).
Proof. unfold safe_id. apply _. Defined.

Lemma digits2_pos_size p : digits2_pos p = Pos.size p.
Proof. induction p as [p IH|p IH|]; simpl; rewrite ?IH; done. Qed.

Lemma iter_xO m k : Pos.iter xO m k = (m * 2 ^ k)%positive.
Proof.
  induction k as [|k IH] using Pos.peano_ind; [simpl; lia|].
  rewrite Pos.iter_succ, IH, Pos.pow_succ_r. lia.
Qed.

Lemma size_iter_xO m k : Pos.size (Pos.iter xO m k) = (Pos.size m + k)%positive.
Proof.
  induction k as [|k IH] using Pos.peano_ind; [simpl; lia|].
  rewrite Pos.iter_succ. simpl. rewrite IH. lia.
Qed.

Lemma size_bound p : Z.pos p < 2 ^ 53 -> Z.pos (Pos.size p) <= 53.
Proof.
  intros Hp. pose proof (Pos.size_le p) as Hs.
  destruct (Z.le_gt_cases (Z.pos (Pos.size p)) 53) as [|Hgt]; [done|].
  assert (2 ^ 54 <= 2 ^ Z.pos (Pos.size p)) by (apply Z.pow_le_mono_r; lia).
  assert (2 ^ Z.pos (Pos.size p) = Z.pos (2 ^ Pos.size p)) as E by (symmetry; apply Pos2Z.inj_pow).
  lia.
Qed.

(** The number of a small positive integer: its digits shifted to fill the mantissa. *)
Lemma binary_round_exact s p :
  Z.pos p < 2 ^ 53 ->
  exists k, (binary_round PREC EMAX s p 0 = S754_finite s (Pos.iter xO p k) (- Z.pos k)) \/
            binary_round PREC EMAX s p 0 = S754_finite s p 0.
Proof.
  intros Hp%size_bound. unfold binary_round, fexp, PREC, EMAX, emin. rewrite digits2_pos_size, Z.add_0_r.
  set (d := Pos.size p) in *.
  rewrite Z.max_l by lia. unfold shl_align. rewrite Z.sub_0_r.
  destruct (Z.pos d - 53) as [|k|k] eqn:Ed; [|lia|].
  - exists 1%positive. right. unfold binary_round_aux, shr_fexp, fexp, emin, Zdigits2.
    rewrite digits2_pos_size. fold d. rewrite Z.max_l by lia.
    replace (Z.pos d + 0 - 53 - 0) with 0 by lia. simpl.
    rewrite digits2_pos_size. fold d. rewrite Z.max_l by lia.
    replace (Z.pos d + 0 - 53 - 0) with 0 by lia. simpl. done.
  - exists k. left. unfold binary_round_aux, shr_fexp, fexp, emin, Zdigits2.
    rewrite digits2_pos_size, size_iter_xO. fold d. rewrite Z.max_l by lia.
    replace (Z.pos (d + k) + Z.neg k - 53 - Z.neg k) with 0 by lia. simpl.
    rewrite digits2_pos_size, size_iter_xO. fold d. rewrite Z.max_l by lia.
    replace (Z.pos (d + k) + Z.neg k - 53 - Z.neg k) with 0 by lia. simpl. done.
Qed.

Lemma floor_shifted s p k :
  num_floor (S754_finite s (Pos.iter xO p k) (- Z.pos k)) = Some (if s then Z.neg p else Z.pos p).
Proof.
  unfold num_floor. rewrite (proj2 (Z.leb_gt _ _)) by lia. rewrite iter_xO, Z.opp_involutive.
  f_equal. assert (Z.pos (p * 2 ^ k) = Z.pos p * 2 ^ Z.pos k) as E by (rewrite <- Pos2Z.inj_pow; lia).
  destruct s; [|rewrite E; apply Z.div_mul; lia].
  replace (Z.neg (p * 2 ^ k)) with (Z.neg p * 2 ^ Z.pos k) by lia. apply Z.div_mul. lia.
Qed.

Lemma num_of_Z_floor z : safe_id z -> num_floor (num_of_Z z) = Some z.
Proof.
  unfold safe_id. intros Hz. unfold num_of_Z, binary_normalize. destruct z as [|p|p]; [done|..].
  - destruct (binary_round_exact false p) as (k & [-> | ->]); [lia|apply floor_shifted|].
    simpl. f_equal. lia.
  - destruct (binary_round_exact true p) as (k & [-> | ->]); [lia|apply floor_shifted|].
    simpl. f_equal. lia.
Qed.

(** Equal numbers have the same integer part. *)
Lemma SFeqb_floor x y z : SFeqb x y = true -> num_floor x = Some z -> num_floor y = Some z.
Proof.
  unfold SFeqb, SFcompare.
  destruct x as [sx|sx| |sx mx ex], y as [sy|sy| |sy my ey]; try done;
    try (by destruct sx); try (by destruct sy).
  intros Hc. assert (sx = sy /\ mx = my /\ ex = ey) as (-> & -> & ->); [|done].
  assert (forall c, Pos.compare_cont Eq mx my = c -> c = Eq -> mx = my) as Hm.
  { intros c Hcm ->. by apply Pos.compare_eq. }
  destruct sx, sy; try done; destruct (Z.compare_spec ex ey) as [->| |]; try done;
    destruct (Pos.compare_cont Eq mx my) eqn:Em; try done; eauto.
Qed.

Lemma SFeqb_sym x y : SFeqb x y = SFeqb y x.
Proof.
  unfold SFeqb, SFcompare.
  destruct x as [sx|sx| |sx mx ex], y as [sy|sy| |sy my ey]; try done;
    try (by destruct sx); try (by destruct sy); try (by destruct sx, sy).
  change (Pos.compare_cont Eq mx my) with (mx ?= my)%positive.
  change (Pos.compare_cont Eq my mx) with (my ?= mx)%positive.
  rewrite (Z.compare_antisym ex ey), (Pos.compare_antisym mx my).
  destruct sx, sy; try done; destruct (ex ?= ey), (mx ?= my)%positive; done.
Qed.

Lemma SFeqb_refl_Z z : safe_id z -> SFeqb (num_of_Z z) (num_of_Z z) = true.
Proof.
  intros Hz%num_of_Z_floor. destruct (num_of_Z z) as [s|s| |s m e]; try done.
  unfold SFeqb, SFcompare. rewrite Z.compare_refl.
  change (Pos.compare_cont Eq m m) with (m ?= m)%positive. rewrite Pos.compare_refl.
  by destruct s.
Qed.

(** [x === z] for an integer [z]. *)
Lemma num_eq_Z x z : safe_id z -> SFeqb x (num_of_Z z) = true <-> num_Z x = Some z.
Proof.
  intros Hz. unfold num_Z. split.
  - intros He. assert (num_floor x = Some z) as ->.
    { eapply (SFeqb_floor (num_of_Z z)); [by rewrite SFeqb_sym|by apply num_of_Z_floor]. }
    by rewrite SFeqb_sym, He.
  - destruct (num_floor x) as [z'|] eqn:Ef; [|done].
    destruct (SFeqb (num_of_Z z') x) eqn:E; [|done]. intros [= ->]. by rewrite SFeqb_sym.
Qed.

Lemma num_Z_of_Z z : safe_id z -> num_Z (num_of_Z z) = Some z.
Proof. intros Hz. apply num_eq_Z; [done|by apply SFeqb_refl_Z]. Qed.

Lemma SFltb_asym x y : SFltb x y = true -> SFltb y x = false.
Proof.
  unfold SFltb, SFcompare. destruct x as [sx|sx| |sx mx ex], y as [sy|sy| |sy my ey]; try done;
    destruct sx, sy; try done; rewrite (Z.compare_antisym ex ey);
    destruct (ex ?= ey); simpl; try done;
    change (Pos.compare_cont Eq my mx) with (my ?= mx)%positive;
    change (Pos.compare_cont Eq mx my) with (mx ?= my)%positive;
    rewrite (Pos.compare_antisym mx my); by destruct (mx ?= my)%positive.
Qed.
