(* ===== verification/ActionHandlers.v ===== *)
(** * ActionHandlers: api/actions/*.ts

    The request handlers of the Solana Actions over the operations of Actions.v: join,
    join-batch, claim, claim-refund, claim-degen and round.  A handler answers with one
    response; [withHandler] turns an exception into an error response.  Texts that only
    name a number are kept as data ([Message], [Link]); headers are not modelled. *)

From stdpp Require Import base list gmap strings pretty.
From Stdlib Require Import ZArith Lia Ascii Strings.Byte SpecFloat.
From S2P Require Import Prelude Buffers Accounts JsRuntime Effects ActiveRoundScan Solana Instructions Firebase DegenExecutor Actions ActionsSpec History NumFacts.

Local Open Scope string_scope.
Local Open Scope list_scope.
Local Open Scope Z_scope.
Set Warnings "-clear-no-such-hyp".

(** ** Requests and responses *)

(** [req.body]: absent, a text with what [JSON.parse] makes of it, or an object. *)
Inductive Body := BodyNone | BodyText (parsed : Res Json) | BodyJson (j : Json).

Record ActionRequest := mkActionRequest {
  ar_method : string;
  ar_roundId : Query;
  ar_amount : Query;
  ar_account : Query;
  ar_legs : Query;
  ar_body : Body
}.

(** What the texts of the responses say. *)
Inductive Message :=
| JoinMessage (roundId : num) (amountRaw : Z)
| ClaimMessage (roundId : num)
| RefundMessage (roundId : num).

(** A value of a link: a number, or a placeholder the client fills in. *)
Inductive LinkValue := LinkNumber (n : num) | LinkBlank (name : string).
Record Link := mkLink {
  lk_label : string;
  lk_path : string;
  lk_query : list (string * LinkValue);
  lk_parameter : option string
}.

(** The round a GET response shows, with the numbers of its account if it was read. *)
Record RoundInfo := mkRoundInfo {
  ri_id : num;
  ri_source : Source;
  ri_details : option (Z * num * Z * num)
}.

(** [eligibility] of a GET response: the account and the round that was found, with whether
    the request named another one; or why there is none. *)
Inductive EligibilityInfo :=
| Eligible (account : string) (roundId : Z) (walletAuto : bool)
| NotEligible (account : string) (why : Eligibility).

Record RoundReport := mkReport {
  rr_roundId : num;
  rr_source : Source;
  rr_status : Z;
  rr_totalUsdcRaw : Z;
  rr_totalUsdc : num;
  rr_totalTickets : Z;
  rr_participantsCount : Z;
  rr_endTs : num;
  rr_ticketUnitRaw : Z;
  rr_minTotalTickets : Z;
  rr_minPotUsdc : num;
  rr_randomnessHex : string;
  rr_winningTicket : Z;
  rr_winner : string
}.

Inductive ActionResponse `{Web3Keys} :=
| NoContent
| MethodNotAllowed
| RoundNotFound
| ErrorJson (e : ErrorResponse)
| JoinOffer (links : list Link) (info : RoundInfo)
| ClaimOffer (link : Link) (eligibility : option EligibilityInfo)
| ExternalLink (action : string) (roundId : num) (legs : option (list (string * num)))
| PostTransaction (tx : Transaction) (encoded : string) (message : Message)
| Report (r : RoundReport).
Arguments NoContent {_}.
Arguments MethodNotAllowed {_}.
Arguments RoundNotFound {_}.
Arguments ErrorJson {_}.
Arguments JoinOffer {_}.
Arguments ClaimOffer {_}.
Arguments ExternalLink {_}.
Arguments PostTransaction {_}.
Arguments Report {_}.

(** ** Libraries *)

Class ActionLibs `{ExecutorLibs} `{!Services} := {
  (** [new BN(n)] of any number, and [new BN(x.toString())] of a [bigint] *)
  newBNNumber : num -> Res Z;
  newBNBigInt : Z -> Res Z;
  (** [connection.getTokenAccountBalance(ata)]: the text of the amount *)
  callTokenBalance : PublicKey -> World -> Res string * World;
  (** [compileToV0Message] and [createPostResponse]: the encoded transaction *)
  postTransaction : Transaction -> Res string;
  (** [JSON.parse], [String(x)] and [Number(x)] *)
  parseJson : string -> Res Json;
  jsonToString : Json -> string;
  jsonToNumber : Json -> num
}.

(** [x.account] when it is a text. *)
Definition account_text (j : Json) : option string :=
  match json_field j "account" with Some (JStr s) => Some s | _ => None end.

Definition parseBody (b : Body) : Res Json :=
  match b with
  | BodyNone => Ok (JObj [])
  | BodyText parsed => parsed
  | BodyJson j => Ok j
  end.

(** ** Batch legs *)

Definition invalid_legs (msg : string) : JsError := action_error 400 "INVALID_LEGS" msg.

Section legs.
Context `{ActionLibs}.

Definition falsy (j : Json) : bool :=
  match j with
  | JNull => true
  | JBool b => negb b
  | JNum n => match n with S754_zero _ | S754_nan => true | _ => false end
  | JStr s => String.eqb s ""
  | JArr _ | JObj _ => false
  end.

(** [String(leg.mint || "")] and [Number(leg.amount)] *)
Definition leg_mint_of (leg : Json) : string :=
  match json_field leg "mint" with
  | Some j => if falsy j then "" else jsonToString j
  | None => ""
  end.
Definition leg_amount_of (leg : Json) : num :=
  match json_field leg "amount" with Some j => jsonToNumber j | None => S754_nan end.

Definition batch_leg (i : nat) (leg : Json) : Res (string * num) :=
  match leg with
  | JObj _ | JArr _ =>
      let mint := leg_mint_of leg in
      let amount := leg_amount_of leg in
      if String.eqb mint "" || negb (isFinite amount) || negb (positive_num amount)
      then Throw (invalid_legs ("legs[" +:+ pretty i +:+ "] requires mint + amount>0"))
      else Ok (mint, amount)
  | _ => Throw (invalid_legs ("legs[" +:+ pretty i +:+ "] must be object"))
  end.

Definition parseBatchLegs (legs : Query) : Res (option (list (string * num))) :=
  match query_text legs with
  | None => Ok None
  | Some raw =>
      if match legs with QText "" => true | _ => false end then Ok None
      else
        match parseJson raw with
        | Throw _ => Throw (invalid_legs "Invalid legs JSON")
        | Ok (JArr l) =>
            if (length l =? 0)%nat then Throw (invalid_legs "legs must not be empty")
            else if (5 <? length l)%nat
            then Throw (invalid_legs "legs length too large (max 5 in action launcher)")
            else parsed ← res_mapM (fun e => batch_leg (fst e) (snd e)) (imap pair l); Ok (Some parsed)
        | Ok _ => Throw (invalid_legs "legs must be an array")
        end
  end.
End legs.

(** ** Handlers *)

Section handlers.
Context `{ActionLibs} (A : Addresses).
Local Abbreviation M := (M RoundCache World Event).

(** [getRoundPda] of a number from the query. *)
Definition round_pda (roundId : num) : Res PublicKey :=
  id ← newBNNumber roundId;
  le ← toArrayLikeLE8 id;
  Ok (fst (findProgramAddressSync [SEED_ROUND; le] (PROGRAM_ID A))).

Definition fetch_round (roundId : num) : M (option Crank.RoundData) :=
  pda ← lift (round_pda roundId);
  info ← getAccountInfo pda;
  match info with
  | None => mret None
  | Some info => mret (res_value (Crank.parseRound (ai_data info)))
  end.

Definition outcome {X} (m : M X) : M (Res X) :=
  try_catch (x ← m; mret (Ok x)) (fun e => mret (Throw e)).

Definition withHandler (fn : M ActionResponse) : M ActionResponse :=
  try_catch fn (fun e => mret (ErrorJson (error_response e))).

(** The dispatch common to the handlers. *)
Definition handler (get post : ActionRequest -> M ActionResponse) (req : ActionRequest)
    : M ActionResponse :=
  if String.eqb (ar_method req) "OPTIONS" then mret NoContent
  else if String.eqb (ar_method req) "GET" then withHandler (get req)
  else if negb (String.eqb (ar_method req) "POST") then withHandler (mret MethodNotAllowed)
  else withHandler (post req).

(** [requireAccount(parseBody(req))] *)
Definition body_account (req : ActionRequest) : M PublicKey :=
  body ← lift (parseBody (ar_body req));
  lift (requireAccount (account_text body)).

Definition buildActionTxResponse (payer : PublicKey) (instructions : list TransactionInstruction)
    (message : Message) : M ActionResponse :=
  blockhash ← getLatestBlockhash;
  let tx := mkTx instructions payer blockhash in
  encoded ← lift (postTransaction tx);
  mret (PostTransaction tx encoded message).

(** *** join.ts *)

(** The call is not recorded in the history. *)
Definition tokenBalance (ata : PublicKey) : M string := fun p =>
  let '(r, w) := callTokenBalance ata (world p) in (r, mkProc (local p) w (history p)).

Definition getUserUsdcBalanceRaw (ata : PublicKey) : M Z :=
  try_catch (amount ← tokenBalance ata; lift (bigint_of_text amount)) (fun _ => mret 0).

Definition join_link (roundId : num) (amount : Z) (label : string) : Link :=
  mkLink label "/api/actions/join"
    [("roundId", LinkNumber roundId); ("amount", LinkNumber (num_of_Z amount))] None.

Definition join_get (req : ActionRequest) : M ActionResponse :=
  queryRoundId ← lift (parseOptionalRoundId (ar_roundId req));
  '(roundId, source) ← match queryRoundId with
                       | Some n => mret (n, FromQuery)
                       | None => resolveRoundId A (ar_roundId req) Joinable
                       end;
  round ← fetch_round roundId;
  mret (JoinOffer
    [join_link roundId 1 "Join with 1 USDC"; join_link roundId 5 "Join with 5 USDC";
     mkLink "Custom amount" "/api/actions/join"
       [("roundId", LinkNumber roundId); ("amount", LinkBlank "amount")] (Some "amount")]
    (mkRoundInfo roundId source
       ((fun rd => (Crank.status rd, usdc_of_raw (Crank.totalUsdc rd),
                    Crank.participantsCount rd, num_of_Z (Crank.endTs rd))) <$> round))).

Definition deposit_ix (user : PublicKey) (roundId : num) (balanceBefore amountRaw : Z)
    (usdcMint userUsdcAta : PublicKey) : Res TransactionInstruction :=
  roundPda ← round_pda roundId;
  vaultUsdcAta ← getAssociatedTokenAddress usdcMint roundPda true;
  id ← newBNNumber roundId;
  before ← newBNBigInt balanceBefore;
  amount ← newBNBigInt amountRaw;
  methodInstruction (PROGRAM_ID A) "depositAny" [ABn id; ABn before; ABn amount]
    [("user", Some user);
     ("config", Some (getConfigPda A));
     ("round", Some roundPda);
     ("participant", Some (getParticipantPda A roundPda user));
     ("userUsdcAta", Some userUsdcAta);
     ("vaultUsdcAta", Some vaultUsdcAta);
     ("tokenProgram", Some TOKEN_PROGRAM_ID);
     ("systemProgram", Some SystemProgram_programId)].

Definition join_post (req : ActionRequest) : M ActionResponse :=
  user ← body_account req;
  amountRaw ← lift (parseUsdcAmountRaw (ar_amount req));
  '(roundId, _) ← resolveRoundId A (ar_roundId req) Joinable;
  rawConfig ← fetchParsedConfig A;
  userUsdcAta ← lift (getAssociatedTokenAddress (usdcMint rawConfig) user false);
  balanceBeforeRaw ← getUserUsdcBalanceRaw userUsdcAta;
  let createAtaIx :=
    createAssociatedTokenAccountIdempotent user userUsdcAta user (usdcMint rawConfig) TOKEN_PROGRAM_ID in
  depositIx ← lift (deposit_ix user roundId balanceBeforeRaw amountRaw (usdcMint rawConfig) userUsdcAta);
  buildActionTxResponse user [createAtaIx; depositIx] (JoinMessage roundId amountRaw).

Definition join : ActionRequest -> M ActionResponse := handler join_get join_post.

(** *** join-batch.ts *)

Definition join_batch_get (req : ActionRequest) : M ActionResponse :=
  '(roundId, source) ← resolveRoundId A (ar_roundId req) Joinable;
  mret (JoinOffer
    [mkLink "Open Batch Deposit" "/api/actions/join-batch" [("roundId", LinkNumber roundId)] None;
     mkLink "Open with batch legs (JSON)" "/api/actions/join-batch"
       [("roundId", LinkNumber roundId); ("legs", LinkBlank "legs")] (Some "legs")]
    (mkRoundInfo roundId source None)).

Definition join_batch_post (req : ActionRequest) : M ActionResponse :=
  _ ← body_account req;
  queryRoundId ← lift (parseOptionalRoundId (ar_roundId req));
  roundId ← match queryRoundId with
            | Some n => mret n
            | None => '(n, _) ← resolveRoundId A (ar_roundId req) Joinable; mret n
            end;
  legs ← lift (parseBatchLegs (ar_legs req));
  mret (ExternalLink "join-batch" roundId legs).

Definition join_batch : ActionRequest -> M ActionResponse := handler join_batch_get join_batch_post.

(** *** claim.ts, claim-refund.ts and claim-degen.ts *)

(** The link of the GET response: the round if it is known. *)
Definition claim_link (label path : string) (roundId : option num) : Link :=
  match roundId with
  | Some n => mkLink label path [("roundId", LinkNumber n)] None
  | None => mkLink label path [("roundId", LinkBlank "roundId")] (Some "roundId")
  end.

(** The GET handler the three share: [find] looks for a round of the account. *)
Definition claim_get (label path fallbackCode : string) (find : PublicKey -> M Z)
    (req : ActionRequest) : M ActionResponse :=
  account ← lift (parseOptionalAccountQuery (ar_account req));
  queryRoundId ← lift (parseOptionalRoundId (ar_roundId req));
  match account with
  | None => mret (ClaimOffer (claim_link label path queryRoundId) None)
  | Some account =>
      found ← outcome (find account);
      match found with
      | Ok discovered =>
          let roundId := default (num_of_Z discovered) queryRoundId in
          mret (ClaimOffer (claim_link label path (Some roundId))
                  (Some (Eligible (toBase58 account) discovered
                           (SFeqb roundId (num_of_Z discovered)))))
      | Throw e =>
          mret (ClaimOffer (claim_link label path queryRoundId)
                  (Some (NotEligible (toBase58 account) (serializeEligibilityError e fallbackCode))))
      end
  end.

(** [queryRoundId != null ? queryRoundId : await find(account)] *)
Definition claim_round (find : PublicKey -> M Z) (account : PublicKey) (req : ActionRequest) : M num :=
  queryRoundId ← lift (parseOptionalRoundId (ar_roundId req));
  match queryRoundId with
  | Some n => mret n
  | None => r ← find account; mret (num_of_Z r)
  end.

Definition round_missing : JsError := action_error 404 "ROUND_NOT_FOUND" "Round not found".

Definition claim_ix (winner : PublicKey) (roundId : num) (usdcMint treasuryUsdcAta vrfPayer : PublicKey)
    : Res TransactionInstruction :=
  roundPda ← round_pda roundId;
  vaultUsdcAta ← getAssociatedTokenAddress usdcMint roundPda true;
  winnerUsdcAta ← getAssociatedTokenAddress usdcMint winner false;
  vrfPayerUsdcAta ← (if bool_decide (vrfPayer = defaultKey) then Ok None
                     else ata ← getAssociatedTokenAddress usdcMint vrfPayer false; Ok (Some ata));
  id ← newBNNumber roundId;
  methodInstruction (PROGRAM_ID A) "claim" [ABn id]
    [("winner", Some winner);
     ("config", Some (getConfigPda A));
     ("round", Some roundPda);
     ("vaultUsdcAta", Some vaultUsdcAta);
     ("winnerUsdcAta", Some winnerUsdcAta);
     ("treasuryUsdcAta", Some treasuryUsdcAta);
     ("vrfPayerUsdcAta", vrfPayerUsdcAta);
     ("tokenProgram", Some TOKEN_PROGRAM_ID)].

Definition claim_post (req : ActionRequest) : M ActionResponse :=
  winner ← body_account req;
  roundId ← claim_round (findLatestClaimableRoundId A) winner req;
  config ← outcome (fetchParsedConfig A);
  pda ← lift (round_pda roundId);
  info ← outcome (getAccountInfo pda);
  rawConfig ← lift config;
  roundInfo ← lift info;
  match roundInfo with
  | None => throw round_missing
  | Some info =>
      round ← lift (Crank.parseRound (ai_data info));
      claimIx ← lift (claim_ix winner roundId (usdcMint rawConfig) (treasuryUsdcAta rawConfig)
                        (Crank.vrfPayer round));
      buildActionTxResponse winner [claimIx] (ClaimMessage roundId)
  end.

Definition claim : ActionRequest -> M ActionResponse :=
  handler (claim_get "Claim Prize" "/api/actions/claim" "NO_UNCLAIMED_PRIZE"
             (findLatestClaimableRoundId A)) claim_post.

Definition refund_ix (user : PublicKey) (roundId : num) (usdcMint : PublicKey)
    : Res TransactionInstruction :=
  roundPda ← round_pda roundId;
  vaultAta ← getAssociatedTokenAddress usdcMint roundPda true;
  userUsdcAta ← getAssociatedTokenAddress usdcMint user false;
  id ← newBNNumber roundId;
  methodInstruction (PROGRAM_ID A) "claimRefund" [ABn id]
    [("config", Some (getConfigPda A));
     ("round", Some roundPda);
     ("user", Some user);
     ("participant", Some (getParticipantPda A roundPda user));
     ("vaultUsdcAta", Some vaultAta);
     ("userUsdcAta", Some userUsdcAta);
     ("tokenProgram", Some TOKEN_PROGRAM_ID)].

Definition refund_post (req : ActionRequest) : M ActionResponse :=
  user ← body_account req;
  roundId ← claim_round (findLatestRefundableRoundId A) user req;
  rawConfig ← fetchParsedConfig A;
  ix ← lift (refund_ix user roundId (usdcMint rawConfig));
  buildActionTxResponse user [ix] (RefundMessage roundId).

Definition claim_refund : ActionRequest -> M ActionResponse :=
  handler (claim_get "Claim Refund" "/api/actions/claim-refund" "NO_REFUND_AVAILABLE"
             (findLatestRefundableRoundId A)) refund_post.

Definition degen_post (req : ActionRequest) : M ActionResponse :=
  winner ← body_account req;
  roundId ← claim_round (findLatestClaimableRoundId A) winner req;
  mret (ExternalLink "claim-degen" roundId None).

Definition claim_degen : ActionRequest -> M ActionResponse :=
  handler (claim_get "Open Degen Claim" "/api/actions/claim-degen" "NO_UNCLAIMED_PRIZE"
             (findLatestClaimableRoundId A)) degen_post.

(** *** round.ts *)

Definition round_report (roundId : num) (source : Source) (round : Crank.RoundData)
    (rawConfig : ParsedConfigLike) : RoundReport :=
  mkReport roundId source (Crank.status round) (Crank.totalUsdc round)
    (usdc_of_raw (Crank.totalUsdc round)) (Crank.totalTickets round)
    (Crank.participantsCount round) (num_of_Z (Crank.endTs round)) (ticketUnit rawConfig)
    (minTotalTickets rawConfig)
    (usdc_of_raw (ticketUnit rawConfig * minTotalTickets rawConfig))
    (hex (Crank.randomness round)) (Crank.winningTicket round) (toBase58 (Crank.winner round)).

Definition round_get (req : ActionRequest) : M ActionResponse :=
  '(roundId, source) ← resolveRoundId A (ar_roundId req) Active;
  pda ← lift (round_pda roundId);
  info ← outcome (getAccountInfo pda);
  config ← outcome (fetchParsedConfig A);
  roundInfo ← lift info;
  rawConfig ← lift config;
  match roundInfo with
  | None => mret RoundNotFound
  | Some info =>
      round ← lift (Crank.parseRound (ai_data info));
      mret (Report (round_report roundId source round rawConfig))
  end.

Definition round (req : ActionRequest) : M ActionResponse :=
  if String.eqb (ar_method req) "OPTIONS" then mret NoContent
  else if negb (String.eqb (ar_method req) "GET") then withHandler (mret MethodNotAllowed)
  else withHandler (round_get req).
End handlers.

(** ** The transactions handed out *)

Section transactions.
Context `{ActionLibs} (A : Addresses).
Local Abbreviation M := (M RoundCache World Event).
Local Abbreviation Proc := (Proc RoundCache World Event).

(** bn.js holds an integer given as a number below [2^53], and reads back a decimal text. *)
Class BnNumberLaws : Prop := {
  newBNNumber_integer : forall z, 0 <= z < 2 ^ 53 -> newBNNumber (num_of_Z z) = newBN z;
  newBNBigInt_value : forall z, 0 <= z -> newBNBigInt z = Ok z
}.

(** The request speaks for the account. *)
Definition acts_for (req : ActionRequest) (user : PublicKey) : Prop :=
  exists body, parseBody (ar_body req) = Ok body /\ requireAccount (account_text body) = Ok user.

(** The round of a claim: that of the query, or the one the search finds. *)
Definition round_for (find : PublicKey -> M Z) (req : ActionRequest) (user : PublicKey) (p : Proc)
    (n : num) : Prop :=
  parseOptionalRoundId (ar_roundId req) = Ok (Some n) \/
  parseOptionalRoundId (ar_roundId req) = Ok None /\ exists r, fst (find user p) = Ok r /\ n = num_of_Z r.

(** The configuration, and the account of the round, were read. *)
Definition config_read (cfg : ParsedConfigLike) (h : list Event) : Prop :=
  exists info, EvAccount (getConfigPda A) (Ok (Some info)) ∈ h /\ parseConfig (ai_data info) = Ok cfg.
Definition round_read (n : num) (rd : Crank.RoundData) (h : list Event) : Prop :=
  exists pda info, round_pda A n = Ok pda /\ EvAccount pda (Ok (Some info)) ∈ h /\
    Crank.parseRound (ai_data info) = Ok rd.

(** The instructions of a transaction for the user, from a request served in [p], after
    the calls [h]. *)
Inductive action_tx (req : ActionRequest) (user : PublicKey) (p : Proc) (h : list Event)
    : Message -> list TransactionInstruction -> Prop :=
| join_tx n source amount cfg ata before ix :
    parseUsdcAmountRaw (ar_amount req) = Ok amount ->
    fst (resolveRoundId A (ar_roundId req) Joinable p) = Ok (n, source) ->
    config_read cfg h ->
    getAssociatedTokenAddress (usdcMint cfg) user false = Ok ata ->
    deposit_ix A user n before amount (usdcMint cfg) ata = Ok ix ->
    action_tx req user p h (JoinMessage n amount)
      [createAssociatedTokenAccountIdempotent user ata user (usdcMint cfg) TOKEN_PROGRAM_ID; ix]
| claim_tx n cfg rd ix :
    round_for (findLatestClaimableRoundId A) req user p n ->
    config_read cfg h -> round_read n rd h ->
    claim_ix A user n (usdcMint cfg) (treasuryUsdcAta cfg) (Crank.vrfPayer rd) = Ok ix ->
    action_tx req user p h (ClaimMessage n) [ix]
| refund_tx n cfg ix :
    round_for (findLatestRefundableRoundId A) req user p n ->
    config_read cfg h ->
    refund_ix A user n (usdcMint cfg) = Ok ix ->
    action_tx req user p h (RefundMessage n) [ix].

(** What a response may be. *)
Definition good_response (req : ActionRequest) (p : Proc) (r : Res ActionResponse) (p' : Proc) : Prop :=
  match r with
  | Ok (PostTransaction tx _ message) =>
      ar_method req = "POST" /\ exists user, acts_for req user /\ feePayer tx = user /\
        action_tx req user p (history p') message (tx_instructions tx)
  | Ok _ => True
  | Throw _ => False
  end.

(** Inside [withHandler] an exception is fine. *)
Definition good_body (req : ActionRequest) (p : Proc) (r : Res ActionResponse) (p' : Proc) : Prop :=
  match r with Throw _ => True | _ => good_response req p r p' end.

Definition offers (m : M ActionResponse) : Prop :=
  forall p, wp m (fun r _ => match r with Ok (PostTransaction _ _ _) => False | _ => True end) p.

Lemma with_handler_good req (m : M ActionResponse) p :
  wp m (good_body req p) p -> wp (withHandler m) (good_response req p) p.
Proof.
  intros Hm. unfold withHandler. apply wp_try. eapply wp_mono; [exact Hm|].
  intros [resp|e] p' Hr; [exact Hr|done].
Qed.

Lemma offers_good req m p : offers m -> wp m (good_body req p) p.
Proof. intros Hm. eapply wp_mono; [apply Hm|]. by intros [[]|] p' Hr. Qed.

Lemma handler_good get post req p :
  (ar_method req = "GET" -> offers (get req)) ->
  (ar_method req = "POST" -> wp (post req) (good_body req p) p) ->
  wp (handler get post req) (good_response req p) p.
Proof.
  intros Hg Hp. unfold handler. destruct (String.eqb_spec (ar_method req) "OPTIONS"); [done|].
  destruct (String.eqb_spec (ar_method req) "GET"); [by apply with_handler_good, offers_good, Hg|].
  destruct (String.eqb_spec (ar_method req) "POST"); [by apply with_handler_good, Hp|done].
Qed.

(** An exception before the end. *)
Lemma good_body_bind {X} req p (m : M X) f q :
  wp m (fun r q' => match r with Ok x => wp (f x) (good_body req p) q' | Throw _ => True end) q ->
  wp (mbind f m) (good_body req p) q.
Proof. intros Hm. apply wp_bind. eapply wp_mono; [exact Hm|]. by intros []. Qed.

(** *** GET requests offer no transaction *)

Lemma offers_bind {X} (m : M X) f : (forall x, offers (f x)) -> offers (mbind f m).
Proof. intros Hf p. apply wp_bind, wp_any. intros [x|e] p'; [apply Hf|done]. Qed.

Lemma claim_get_offers label path code find req : offers (claim_get label path code find req).
Proof.
  unfold claim_get. do 2 (apply offers_bind; intros ?). case_match; [|by intros ?].
  apply offers_bind. intros [r|e]; by intros ?.
Qed.

Lemma join_get_offers req : offers (join_get A req).
Proof. unfold join_get. do 2 (apply offers_bind; intros ?). case_match. apply offers_bind. intros o. by intros ?. Qed.

Lemma join_batch_get_offers req : offers (join_batch_get A req).
Proof. unfold join_batch_get. apply offers_bind. intros [n source]. by intros ?. Qed.

Lemma external_offers (m : M num) action legs : offers (n ← m; l ← legs n; mret (ExternalLink action n l)).
Proof. do 2 (apply offers_bind; intros ?). by intros ?. Qed.

(** *** Steps of the POST handlers *)

Lemma account_step {X} req (f : PublicKey -> M X) (Q : Res X -> Proc -> Prop) q :
  (forall user, acts_for req user -> wp (f user) Q q) -> (forall e, Q (Throw e) q) ->
  wp (mbind f (body_account req)) Q q.
Proof.
  intros Hf Ht. unfold body_account. apply wp_bind, wp_bind, wp_lift.
  destruct (parseBody (ar_body req)) as [body|e] eqn:Eb; [|done]. apply wp_lift.
  destruct (requireAccount (account_text body)) as [user|e] eqn:Ea; [|done]. apply Hf. by exists body.
Qed.

(** The round of a claim is known when the rest runs. *)
Lemma claim_round_step find req user (f : num -> M ActionResponse) p :
  (forall n q, round_for find req user p n -> wp (f n) (good_body req p) q) ->
  wp (mbind f (claim_round find user req)) (good_body req p) p.
Proof.
  intros Hf. unfold claim_round. apply good_body_bind, wp_bind, wp_lift.
  destruct (parseOptionalRoundId (ar_roundId req)) as [[n|]|e] eqn:E; [|..|done].
  - apply wp_ret, Hf. by left.
  - apply wp_bind. unfold wp at 1. destruct (find user p) as [[r|e] q] eqn:Ef; [|done].
    apply wp_ret, Hf. right. split; [done|]. exists r. by rewrite Ef.
Qed.

Lemma fetch_config_step q :
  wp (fetchParsedConfig A) (fun r q' => (exists ev, history q' = ev :: history q) /\
    forall cfg, r = Ok cfg -> config_read cfg (history q')) q.
Proof.
  unfold fetchParsedConfig, getAccountInfo. apply wp_bind, wp_invoke. intros [[info|]|e] w.
  - destruct (parseConfig (ai_data info)) as [cfg|e] eqn:E; (split; [by eexists|]); [|done].
    intros cfg' [= <-]. exists info. split; [by left|done].
  - split; [by eexists|done].
  - split; [by eexists|done].
Qed.

Lemma config_read_cons cfg ev h : config_read cfg h -> config_read cfg (ev :: h).
Proof. intros (info & Hin & E). exists info. split; [by right|done]. Qed.
Lemma round_read_cons n rd ev h : round_read n rd h -> round_read n rd (ev :: h).
Proof. intros (pda & info & Ep & Hin & E). exists pda, info. split_and!; [done|by right|done]. Qed.

Lemma post_step req user ixs message p q :
  ar_method req = "POST" -> acts_for req user ->
  (forall h, (exists ev, h = ev :: history q) -> action_tx req user p h message ixs) ->
  wp (buildActionTxResponse user ixs message) (good_body req p) q.
Proof.
  intros Hm Hu Htx. unfold buildActionTxResponse, getLatestBlockhash. apply good_body_bind, wp_invoke.
  intros [bh|e] w; [|done]. apply good_body_bind, wp_lift. destruct (postTransaction _) as [enc|e]; [|done].
  split; [exact Hm|]. exists user. split; [done|]. split; [done|]. apply Htx. by eexists.
Qed.

Lemma outcome_step {X} (m : M X) (Q : Res (Res X) -> Proc -> Prop) q :
  wp m (fun r q' => Q (Ok r) q') q -> wp (outcome m) Q q.
Proof.
  intros Hm. unfold outcome, wp, try_catch, mbind, M_bind in *. by destruct (m q) as [[x|e] q'].
Qed.

(** *** The POST handlers *)

Lemma join_post_good req p : ar_method req = "POST" -> wp (join_post A req) (good_body req p) p.
Proof.
  intros Hm. unfold join_post. apply account_step; [|done]. intros user Hu.
  apply good_body_bind, wp_lift. destruct (parseUsdcAmountRaw (ar_amount req)) as [amount|e] eqn:Ea; [|done].
  apply good_body_bind. unfold wp at 1.
  destruct (resolveRoundId A (ar_roundId req) Joinable p) as [[[n source]|e] q] eqn:Er; [|done]. simpl.
  apply good_body_bind. eapply wp_mono; [apply fetch_config_step|]. intros [cfg|e] q1 [_ Hc]; [|done].
  specialize (Hc cfg eq_refl). apply good_body_bind, wp_lift.
  destruct (getAssociatedTokenAddress (usdcMint cfg) user false) as [ata|e] eqn:Eata; [|done].
  apply good_body_bind. unfold getUserUsdcBalanceRaw.
  assert (forall before q2, history q2 = history q1 ->
    wp (depositIx ← lift (deposit_ix A user n before amount (usdcMint cfg) ata);
        buildActionTxResponse user
          [createAssociatedTokenAccountIdempotent user ata user (usdcMint cfg) TOKEN_PROGRAM_ID; depositIx]
          (JoinMessage n amount)) (good_body req p) q2) as Hrest.
  { intros before q2 Hh. apply good_body_bind, wp_lift.
    destruct (deposit_ix _ _ _ _ _ _ _) as [ix|e] eqn:Ei; [|done]. apply post_step; [done..|].
    intros h [ev ->]. rewrite Hh. eapply join_tx; try done; [by rewrite Er|by apply config_read_cons]. }
  apply wp_try, wp_bind. unfold wp at 1, tokenBalance.
  destruct (callTokenBalance ata (world q1)) as [[text|e] w]; [|by apply wp_ret, Hrest].
  apply wp_lift. destruct (bigint_of_text text); [by apply Hrest|by apply wp_ret, Hrest].
Qed.

Lemma claim_post_good req p : ar_method req = "POST" -> wp (claim_post A req) (good_body req p) p.
Proof.
  intros Hm. unfold claim_post. apply account_step; [|done]. intros winner Hw.
  apply claim_round_step. intros n q Hn. apply good_body_bind, outcome_step.
  eapply wp_mono; [apply fetch_config_step|]. intros config q1 [_ Hc].
  apply good_body_bind, wp_lift. destruct (round_pda A n) as [pda|e] eqn:Ep; [|done].
  apply good_body_bind, outcome_step. unfold getAccountInfo. apply wp_invoke. intros info w.
  apply good_body_bind, wp_lift. destruct config as [cfg|e]; [|done]. specialize (Hc cfg eq_refl).
  apply good_body_bind, wp_lift. destruct info as [[info|]|e]; [|done..].
  apply good_body_bind, wp_lift. destruct (Crank.parseRound (ai_data info)) as [rd|e] eqn:Erd; [|done].
  apply good_body_bind, wp_lift. destruct (claim_ix _ _ _ _ _ _) as [ix|e] eqn:Ei; [|done].
  apply post_step; [done..|]. intros h [ev ->]. simpl.
  eapply claim_tx; [exact Hn|by do 2 apply config_read_cons| |exact Ei].
  apply round_read_cons. exists pda, info. split_and!; [done|by left|done].
Qed.

Lemma refund_post_good req p : ar_method req = "POST" -> wp (refund_post A req) (good_body req p) p.
Proof.
  intros Hm. unfold refund_post. apply account_step; [|done]. intros user Hu.
  apply claim_round_step. intros n q Hn. apply good_body_bind.
  eapply wp_mono; [apply fetch_config_step|]. intros [cfg|e] q1 [_ Hc]; [|done]. specialize (Hc cfg eq_refl).
  apply good_body_bind, wp_lift. destruct (refund_ix _ _ _ _) as [ix|e] eqn:Ei; [|done].
  apply post_step; [done..|]. intros h [ev ->].
  eapply refund_tx; [exact Hn|by apply config_read_cons|exact Ei].
Qed.

Lemma launcher_good req p :
  offers (join_batch_post A req) /\ offers (degen_post A req) /\ wp (round A req) (good_response req p) p.
Proof.
  split_and!.
  - unfold join_batch_post. do 4 (apply offers_bind; intros ?). by intros ?.
  - unfold degen_post. do 2 (apply offers_bind; intros ?). by intros ?.
  - unfold round. destruct (String.eqb _ _); [done|]. destruct (negb _); [done|].
    apply with_handler_good, offers_good. unfold round_get. apply offers_bind. intros [n source].
    do 5 (apply offers_bind; intros ?). case_match; [apply offers_bind; intros ?|]; by intros ?.
Qed.

(** *** The same instructions as the frontend *)

Context `{!BnNumberLaws}.

Lemma round_pda_integer z : 0 <= z < 2 ^ 53 -> round_pda A (num_of_Z z) = getRoundPda A z.
Proof. intros Hz. unfold round_pda. by rewrite newBNNumber_integer. Qed.

Lemma deposit_ix_front user z before amount mint ata :
  0 <= z < 2 ^ 53 -> 0 <= before -> 0 <= amount -> getAssociatedTokenAddress mint user false = Ok ata ->
  deposit_ix A user (num_of_Z z) before amount mint ata = FrontIx.buildDepositAny A user z before amount mint.
Proof.
  intros Hz Hb Ha Eata. unfold deposit_ix, FrontIx.buildDepositAny.
  rewrite round_pda_integer, newBNNumber_integer, !newBNBigInt_value, Eata by done. done.
Qed.

Lemma claim_ix_front winner z mint treasury vrfPayer :
  0 <= z < 2 ^ 53 ->
  claim_ix A winner (num_of_Z z) mint treasury vrfPayer =
  FrontIx.buildClaim A winner z mint treasury (Some vrfPayer).
Proof.
  intros Hz. unfold claim_ix, FrontIx.buildClaim, CrankIx.vrfPayerAta, present_key.
  rewrite round_pda_integer, newBNNumber_integer by done.
  destruct (getRoundPda A z) as [pda|]; [|done]. cbn [mbind Res_bind].
  destruct (getAssociatedTokenAddress mint pda true); [|done]. cbn [mbind Res_bind].
  destruct (getAssociatedTokenAddress mint winner false); [|done]. cbn [mbind Res_bind].
  destruct (bool_decide _); [done|]. by destruct (getAssociatedTokenAddress mint vrfPayer false).
Qed.

Lemma refund_ix_front user z mint :
  0 <= z < 2 ^ 53 -> refund_ix A user (num_of_Z z) mint = FrontIx.buildClaimRefund A user z mint.
Proof.
  intros Hz. unfold refund_ix, FrontIx.buildClaimRefund.
  by rewrite round_pda_integer, newBNNumber_integer by done.
Qed.

Definition handlers : list (ActionRequest -> M ActionResponse) :=
  [join A; join_batch A; claim A; claim_refund A; claim_degen A; round A].

(** C20: The transactions of the Actions.  Every handler answers every request, whatever its
    calls raise.  A transaction is handed out only to a POST, to be paid for and signed by
    the account of the request's body, and it holds exactly the deposit of the requested
    amount (after the creation of the user's token account), the claim or the refund of
    the user, in the round that the query names or the search has found, with the mint and
    the treasury of the configuration that was read; a claim only after the round's account
    was read.  For a round number these instructions are the frontend's. *)
Theorem action_transactions req p :
  Forall (fun h => let '(r, p') := h req p in good_response req p r p') handlers /\
  forall user z before amount mint treasury ata vrfPayer,
    0 <= z < 2 ^ 53 -> 0 <= before -> 0 <= amount -> getAssociatedTokenAddress mint user false = Ok ata ->
    deposit_ix A user (num_of_Z z) before amount mint ata =
      FrontIx.buildDepositAny A user z before amount mint /\
    claim_ix A user (num_of_Z z) mint treasury vrfPayer =
      FrontIx.buildClaim A user z mint treasury (Some vrfPayer) /\
    refund_ix A user (num_of_Z z) mint = FrontIx.buildClaimRefund A user z mint.
Proof.
  split.
  - destruct (launcher_good req p) as (Hb & Hd & Hr).
    assert (forall (h : ActionRequest -> M ActionResponse), wp (h req) (good_response req p) p ->
      let '(r, p') := h req p in good_response req p r p') as Hwp.
    { intros h Hw. unfold wp in Hw. by destruct (h req p). }
    repeat constructor; apply Hwp; try done; apply handler_good; intros Hm;
      first [ apply join_get_offers | apply join_batch_get_offers | apply claim_get_offers
            | by apply join_post_good | by apply claim_post_good | by apply refund_post_good
            | by apply offers_good ].
  - intros user z before amount mint treasury ata vrfPayer Hz Hb Ha Eata.
    split; [by apply deposit_ix_front|]. split; [by apply claim_ix_front|by apply refund_ix_front].
Qed.
End transactions.

(** ** Concrete requests *)

Module HandlersWitness.
#[local] Existing Instance ToyKeys.keys.
#[local] Existing Instance ToySolana.libs.
Local Abbreviation k := ActionsWitness.k.
Local Abbreviation A := ActionsWitness.addresses.
Local Abbreviation user := ActionsWitness.user.

#[local] Instance xlibs : ExecutorLibs := {|
  ALT := bytes;
  altDeserialize := fun _ d => Ok d;
  TOKEN_2022_PROGRAM_ID := k 100;
  getAssociatedTokenAddressFor := fun mint owner _ _ => getAssociatedTokenAddress mint owner true;
  createAssociatedTokenAccountIdempotent := fun payer ata owner mint program =>
    mkIx (k 101) [mkMeta payer true true; mkMeta ata false true; mkMeta owner false false] [];
  createTransfer := fun src dst owner amount => mkIx TOKEN_PROGRAM_ID [] (le_encode 8 amount);
  base64Bytes := fun _ => [];
  newBNText := fun _ => Ok 0;
  bnToNumber := Ok;
  nodeSha256 := fun _ => [];
  jsonText := fun _ => "{}"
|}.

(** The chain of the searches, with a configuration whose mint is [k 2]. *)
Definition config_bytes : bytes :=
  concat (config_fields (replicate 8 x00) (mkConfig (k 1) (k 2) (k 3) 25 10000 60 2 2 false 255 0)
            (replicate 64 x00)).
Definition account (key : PublicKey) : option AccountInfo :=
  if bool_decide (key = getConfigPda A) then Some (mkInfo config_bytes (k 1)) else ActionsWitness.account key.
#[local] Instance chain : Services := ActionsWitness.services account.

#[local] Instance alibs : ActionLibs := {|
  newBNNumber := fun n => match num_Z n with Some z => newBN z | None => Throw ToySolana.bn_assert end;
  newBNBigInt := fun z => Ok z;
  callTokenBalance := fun _ w => (Ok "7000000", w);
  postTransaction := fun tx => Ok "AQ==";
  parseJson := fun _ => Ok (JArr [JObj [("mint", JStr "m"); ("amount", JNum (num_of_Z 2))]]);
  jsonToString := fun j => match j with JStr s => s | _ => "" end;
  jsonToNumber := fun j => match j with JNum n => n | _ => S754_nan end
|}.

#[local] Instance bn_laws : BnNumberLaws.
Proof.
  split; [|done]. intros z Hz. cbn [newBNNumber alibs]. rewrite num_Z_of_Z; [done|]. unfold safe_id. lia.
Qed.

Definition p0 : Proc RoundCache World Event := mkProc initial_cache 1700000000000 [].
Definition post (roundId amount : Query) : ActionRequest :=
  mkActionRequest "POST" roundId amount QNone QNone (BodyJson (JObj [("account", JStr (toBase58 user))])).

(** Join without a round joins round 5, the open one; claim and refund find rounds 2
    and 4. *)
Definition sent (r : Res ActionResponse) : option (Message * nat * bytes) :=
  match r with
  | Ok (PostTransaction tx _ m) => Some (m, length (tx_instructions tx), toBuffer (feePayer tx))
  | _ => None
  end.

Example posts :
  sent (fst (join A (post QNone (QText "1.5")) p0)) = Some (JoinMessage (num_of_Z 5) 1500000, 2%nat, toBuffer user) /\
  sent (fst (claim A (post QNone QNone) p0)) = Some (ClaimMessage (num_of_Z 2), 1%nat, toBuffer user) /\
  sent (fst (claim_refund A (post QNone QNone) p0)) = Some (RefundMessage (num_of_Z 4), 1%nat, toBuffer user).
Proof. vm_compute. done. Qed.

(** A body that is no JSON is the server's error, not the client's. *)
Example bad_body :
  fst (join A (mkActionRequest "POST" QNone (QText "1") QNone QNone
                 (BodyText (Throw (mkError "SyntaxError" "Unexpected token")))) p0) =
  Ok (ErrorJson (mkErrorResponse 500 "INTERNAL_ERROR" "Unexpected token")).
Proof. vm_compute. reflexivity. Qed.

Lemma action_transactions_witness :
  claim_ix A user (num_of_Z 2) (k 2) (k 3) (k 9) = FrontIx.buildClaim A user 2 (k 2) (k 3) (Some (k 9)) /\
  let '(r, p') := claim A (post QNone QNone) p0 in good_response A (post QNone QNone) p0 r p'.
Proof.
  destruct (action_transactions A (post QNone QNone) p0) as [Hh Hf]. split.
  - apply (fun Hata => proj1 (proj2 (Hf user 2 0 0 (k 2) (k 3)
      (ToyKeys.mk (take 16 (toBuffer (k 2)) ++ toBuffer user)) (k 9) ltac:(lia) ltac:(lia) ltac:(lia) Hata))).
    reflexivity.
  - apply (Forall_lookup_1 _ _ 2%nat (claim A) Hh). reflexivity.
Defined.
End HandlersWitness.
