(* ===== verification/JsMap.v ===== *)
(** * JsMap: [Map] with text keys, and caches of bounded size

    A JavaScript [Map] iterates over its entries in the order in which their keys were
    first inserted: it is an association list whose keys are distinct.  On top of it, the
    eviction of the oldest entries of lib/api/tapestry-shared.ts. *)

From stdpp Require Import base list strings sorting.
From Stdlib Require Import ZArith Lia.
From S2P Require Import Prelude.

Local Open Scope Z_scope.
Set Warnings "-clear-no-such-hyp".

Section js_map.
Context {V : Type}.
Implicit Types m : list (string * V).

Fixpoint map_get (k : string) m : option V :=
  match m with
  | [] => None
  | (k', v) :: m => if String.eqb k k' then Some v else map_get k m
  end.

(** A new key comes last, a known one keeps its place. *)
Fixpoint map_set (k : string) (v : V) m : list (string * V) :=
  match m with
  | [] => [(k, v)]
  | (k', v') :: m => if String.eqb k k' then (k, v) :: m else (k', v') :: map_set k v m
  end.

Definition map_delete (k : string) m : list (string * V) :=
  filter (fun e => fst e <> k) m.

(** The keys of an object or a [Map] are distinct. *)
Definition map_wf m : Prop := NoDup (map fst m).

Lemma map_get_elem k v m : map_wf m -> map_get k m = Some v <-> (k, v) ∈ m.
Proof.
  induction m as [|[k' v'] m IH]; intros Hm; simpl.
  { rewrite elem_of_nil. done. }
  apply NoDup_cons in Hm as [Hk Hm]. rewrite elem_of_cons.
  destruct (String.eqb_spec k k') as [->|Hne].
  - split; [intros [= ->]; by left|]. intros [[= ->]|Hin]; [done|].
    destruct Hk. apply list_elem_of_In, in_map_iff. exists (k', v). by rewrite <- list_elem_of_In.
  - rewrite (IH Hm). split; [by right|]. intros [[= -> _]|Hin]; [done|done].
Qed.

Lemma map_get_set k v m : map_get k (map_set k v m) = Some v.
Proof.
  induction m as [|[k' v'] m IH]; simpl; [by rewrite String.eqb_refl|].
  destruct (String.eqb_spec k k') as [->|Hne]; simpl; [by rewrite String.eqb_refl|].
  by rewrite (proj2 (String.eqb_neq k k')).
Qed.

Lemma map_get_set_ne k k' v m : k <> k' -> map_get k (map_set k' v m) = map_get k m.
Proof.
  intros Hne. induction m as [|[k'' v'] m IH]; simpl; [by rewrite (proj2 (String.eqb_neq k k'))|].
  destruct (String.eqb_spec k' k'') as [->|]; simpl; [|by rewrite IH].
  by rewrite (proj2 (String.eqb_neq k k'')).
Qed.

Lemma elem_of_map_set_key k v m x : x ∈ map fst (map_set k v m) <-> x = k \/ x ∈ map fst m.
Proof.
  induction m as [|[k' v'] m IH]; simpl; [by rewrite list_elem_of_singleton, elem_of_nil; naive_solver|].
  destruct (String.eqb_spec k k') as [->|]; simpl; rewrite !elem_of_cons; [naive_solver|].
  rewrite IH. naive_solver.
Qed.

Lemma map_set_wf k v m : map_wf m -> map_wf (map_set k v m).
Proof.
  unfold map_wf. induction m as [|[k' v'] m IH]; intros Hm; simpl; [apply NoDup_singleton|].
  apply NoDup_cons in Hm as [Hk Hm]. destruct (String.eqb_spec k k') as [->|Hne]; simpl.
  - by apply NoDup_cons.
  - apply NoDup_cons. split; [|by apply IH]. rewrite elem_of_map_set_key. naive_solver.
Qed.

Lemma map_set_length k v m : (length (map_set k v m) <= S (length m))%nat.
Proof.
  induction m as [|[k' v'] m IH]; simpl; [done|]. destruct (String.eqb k k'); simpl; lia.
Qed.

(** A subsequence of a map is a map. *)
Lemma map_filter_wf (P : string * V -> Prop) `{forall e, Decision (P e)} m : map_wf m -> map_wf (filter P m).
Proof.
  unfold map_wf. induction m as [|[k v] m IH]; intros Hm; [done|].
  apply NoDup_cons in Hm as [Hk Hm]. rewrite filter_cons. destruct (decide _); [|by apply IH].
  simpl. apply NoDup_cons. split; [|by apply IH].
  intros Hin. destruct Hk. apply list_elem_of_fmap in Hin as ([k' v'] & -> & Hin).
  apply list_elem_of_filter in Hin as [_ Hin]. apply list_elem_of_fmap. by exists (k', v').
Qed.

Lemma map_delete_wf k m : map_wf m -> map_wf (map_delete k m).
Proof. apply map_filter_wf. Qed.

Lemma map_get_filter_key (P : string -> Prop) `{forall k, Decision (P k)} k m :
  map_get k (filter (fun e => P (fst e)) m) = if decide (P k) then map_get k m else None.
Proof.
  induction m as [|[k' v] m IH]; simpl; [by destruct (decide _)|].
  rewrite filter_cons. simpl. destruct (decide (P k')) as [Hk'|Hk']; simpl; rewrite IH;
    destruct (String.eqb_spec k k') as [->|]; try done.
  - by rewrite decide_True.
  - by rewrite !decide_False.
Qed.

Lemma map_get_delete k k' m :
  map_get k (map_delete k' m) = if String.eqb k k' then None else map_get k m.
Proof.
  etransitivity; [exact (map_get_filter_key (fun x => x <> k') k m)|].
  destruct (String.eqb_spec k k'); [by rewrite decide_False by naive_solver|by rewrite decide_True].
Qed.
End js_map.

(** ** Stable sorting *)

Section sort_on.
Context {A : Type} (key : A -> Z).

(** [x] goes before the elements with a greater key. *)
Fixpoint insert_on (x : A) (l : list A) : list A :=
  match l with
  | [] => [x]
  | y :: l => if key y <=? key x then y :: insert_on x l else x :: y :: l
  end.

(** [l.sort((a, b) => key(a) - key(b))] *)
Definition sort_on (l : list A) : list A := fold_left (fun acc x => insert_on x acc) l [].

Definition ordered : list A -> Prop := Sorted (fun a b => key a <= key b).

Lemma insert_on_perm x l : insert_on x l ≡ₚ x :: l.
Proof.
  induction l as [|y l IH]; simpl; [done|]. destruct (key y <=? key x); [|done].
  rewrite IH. apply perm_swap.
Qed.

Lemma sort_on_acc l acc : fold_left (fun acc x => insert_on x acc) l acc ≡ₚ acc ++ l.
Proof.
  revert acc. induction l as [|x l IH]; intros acc; simpl; [by rewrite app_nil_r|].
  rewrite IH, insert_on_perm. by rewrite <- Permutation_middle.
Qed.

Lemma sort_on_perm l : sort_on l ≡ₚ l.
Proof. apply sort_on_acc. Qed.

Lemma insert_on_ordered x l :
  StronglySorted (fun a b => key a <= key b) l -> StronglySorted (fun a b => key a <= key b) (insert_on x l).
Proof.
  induction 1 as [|y l Hl IH Hy]; simpl; [repeat constructor|].
  destruct (Z.leb_spec (key y) (key x)).
  - constructor; [done|]. apply Forall_forall. intros z Hz.
    rewrite insert_on_perm in Hz. apply elem_of_cons in Hz as [->|Hz]; [done|].
    by apply (proj1 (Forall_forall _ _) Hy).
  - constructor; [by constructor|]. constructor; [lia|]. eapply Forall_impl; [exact Hy|].
    intros z Hz. simpl in Hz. lia.
Qed.

Lemma sort_on_ordered l : StronglySorted (fun a b => key a <= key b) (sort_on l).
Proof.
  unfold sort_on. assert (StronglySorted (fun a b : A => key a <= key b) []) as Hacc by constructor.
  revert Hacc. generalize (@nil A) as acc. induction l as [|x l IH]; intros acc Hacc; simpl; [done|].
  by apply IH, insert_on_ordered.
Qed.

(** What is taken from a sorted list is no greater than what is left. *)
Lemma sort_on_split l n x y : x ∈ take n (sort_on l) -> y ∈ drop n (sort_on l) -> key x <= key y.
Proof.
  intros Hx Hy. pose proof (sort_on_ordered l) as Hs. rewrite <- (take_drop n (sort_on l)) in Hs.
  revert Hs Hx Hy. generalize (drop n (sort_on l)) as b. generalize (take n (sort_on l)) as a.
  induction a as [|z a IH]; intros b Hs Hx Hy; [by apply elem_of_nil in Hx|].
  apply StronglySorted_inv in Hs as [Hs Hz]. apply elem_of_cons in Hx as [->|Hx]; [|by eapply IH].
  apply (proj1 (Forall_forall _ _) Hz). apply elem_of_app. by right.
Qed.
End sort_on.

(** ** Eviction *)

Section evict.
Context {T : Type} (ts : T -> Z).
Implicit Types m : list (string * T).

Definition oldest_entries m (overflow : nat) : list (string * T) :=
  take overflow (sort_on (fun e => ts (snd e)) m).

Definition evictOldestEntries m (maxEntries : nat) : list (string * T) :=
  if (length m <=? maxEntries)%nat then m
  else fold_left (fun m (e : string * T) => map_delete (fst e) m) (oldest_entries m (length m - maxEntries)) m.

Lemma fold_delete_filter l m :
  fold_left (fun m (e : string * T) => map_delete (fst e) m) l m = filter (fun e => fst e ∉ map fst l) m.
Proof.
  revert m. induction l as [|[k v] l IH]; intros m; simpl.
  - symmetry. induction m as [|e m IHm]; [done|]. rewrite filter_cons_True; [by rewrite IHm|apply not_elem_of_nil].
  - rewrite IH. unfold map_delete. rewrite list_filter_filter. apply list_filter_iff. intros [k' v'].
    rewrite not_elem_of_cons. simpl. naive_solver.
Qed.

Lemma map_key_unique (m : list (string * T)) a b : map_wf m -> a ∈ m -> b ∈ m -> fst a = fst b -> a = b.
Proof.
  intros Hwf Ha Hb Hk. destruct a as [k v], b as [k' v']. simpl in Hk. subst k'.
  apply (map_get_elem _ _ _ Hwf) in Ha. apply (map_get_elem _ _ _ Hwf) in Hb. congruence.
Qed.

Lemma evict_wf m n : map_wf m -> map_wf (evictOldestEntries m n).
Proof.
  intros Hm. unfold evictOldestEntries. destruct (_ <=? _)%nat; [done|].
  rewrite fold_delete_filter. by apply map_filter_wf.
Qed.

(** The eviction splits the entries: the sorted entries that are dropped, and the rest. *)
Lemma evict_split m n : map_wf m -> (n < length m)%nat ->
  oldest_entries m (length m - n) ++ evictOldestEntries m n ≡ₚ m.
Proof.
  intros Hwf Hn. unfold evictOldestEntries. rewrite (proj2 (Nat.leb_gt _ _) Hn), fold_delete_filter.
  set (old := oldest_entries m (length m - n)).
  set (rest := drop (length m - n) (sort_on (fun e => ts (snd e)) m)).
  assert (old ++ rest ≡ₚ m) as Hsplit by (unfold old, rest, oldest_entries; rewrite take_drop; apply sort_on_perm).
  assert (NoDup m) as Hnd by (eapply NoDup_fmap_1; exact Hwf).
  apply NoDup_Permutation; [|done|].
  - apply NoDup_app. split_and!.
    + rewrite <- Hsplit in Hnd. by apply NoDup_app in Hnd as [? _].
    + intros e He Hf. apply list_elem_of_filter in Hf as [Hf _]. apply Hf.
      apply list_elem_of_fmap. by exists e.
    + by apply NoDup_filter.
  - intros e. rewrite elem_of_app, list_elem_of_filter. split.
    + intros [He|[_ He]]; [|done]. rewrite <- Hsplit. apply elem_of_app. by left.
    + intros He. destruct (decide (fst e ∈ map fst old)) as [Hin|]; [left|by right].
      apply list_elem_of_fmap in Hin as (e' & Hk & He').
      assert (e' ∈ m) by (rewrite <- Hsplit; apply elem_of_app; by left).
      by rewrite (map_key_unique m e e').
Qed.

(** A full cache keeps exactly [n] entries, in their order, and none that it drops is
    newer than one that it keeps. *)
Lemma evict_spec m n : map_wf m ->
  let kept := evictOldestEntries m n in
  length kept = (length m `min` n)%nat /\ sublist kept m /\ map_wf kept /\
  forall a b, a ∈ m -> a ∉ kept -> b ∈ kept -> ts (snd a) <= ts (snd b).
Proof.
  intros Hwf kept. destruct (Nat.leb_spec (length m) n) as [Hle|Hgt].
  { assert (kept = m) as -> by (unfold kept, evictOldestEntries; by rewrite (proj2 (Nat.leb_le _ _))).
    split_and!; [lia|done|done|]. done. }
  pose proof (evict_split m n Hwf Hgt) as Hsplit. fold kept in Hsplit.
  set (old := oldest_entries m (length m - n)) in Hsplit.
  assert (length old = (length m - n)%nat) as Hold.
  { unfold old, oldest_entries. rewrite length_take, sort_on_perm. lia. }
  assert (NoDup (old ++ kept)) as Hnd by (rewrite Hsplit; eapply NoDup_fmap_1; exact Hwf).
  split_and!.
  - apply Permutation_length in Hsplit. rewrite length_app in Hsplit. lia.
  - unfold kept, evictOldestEntries. rewrite (proj2 (Nat.leb_gt _ _) Hgt), fold_delete_filter.
    apply sublist_filter.
  - by apply evict_wf.
  - intros a b Ha Hak Hb. assert (a ∈ old) as Hao.
    { rewrite <- Hsplit in Ha. apply elem_of_app in Ha as [?|?]; [done|contradiction]. }
    apply (sort_on_split (fun e => ts (snd e)) m (length m - n) a b Hao).
    assert (b ∉ old) as Hbo.
    { apply NoDup_app in Hnd as (_ & Hdis & _). intros Hin. by apply (Hdis b). }
    assert (b ∈ m) as Hbm by (rewrite <- Hsplit; apply elem_of_app; by right).
    rewrite <- (sort_on_perm (fun e => ts (snd e)) m), <- (take_drop (length m - n) (sort_on _ m)) in Hbm.
    apply elem_of_app in Hbm as [?|?]; [contradiction|done].
Qed.

Lemma evict_length m n : map_wf m -> (length (evictOldestEntries m n) <= n)%nat.
Proof. intros Hwf. destruct (evict_spec m n Hwf) as [-> _]. lia. Qed.
End evict.

#[export] Hint Resolve map_set_wf map_delete_wf map_filter_wf evict_wf evict_length : crank.
