(* ===== verification/MainnetSmoke.v ===== *)
(** * MainnetSmoke: the read-only check of a deployment

    src/scripts/lib/mainnetSmoke.ts in full and the reads of
    src/scripts/mainnet_smoke_readonly.ts: the environment files, the comparison of the
    addresses file, the constants of the crank, the chain and the environments, and the list
    of rounds on the chain with the active one.

    The script only reads: what the chain answers is a record of its answers.  Of a check the
    name and the level are kept; its details are only printed. *)

From stdpp Require Import base list gmap strings sorting pretty.
From Stdlib Require Import ZArith Lia Ascii SpecFloat Strings.Byte.
From S2P Require Import Prelude Buffers Accounts JsRuntime Solana Instructions JsMap.

Local Open Scope string_scope.
Local Open Scope list_scope.
Local Open Scope Z_scope.
Set Warnings "-clear-no-such-hyp".

(** ** Environment files *)

Definition EnvMap : Type := gmap string string.

Definition CR : ascii := "013".
Definition LF : ascii := "010".

(** A line of [text.split(/\r?\n/)] but the last loses its carriage return. *)
Fixpoint drop_cr (s : string) : string :=
  match s with
  | EmptyString => EmptyString
  | String c EmptyString => if (c =? CR)%char then EmptyString else s
  | String c rest => String c (drop_cr rest)
  end.

Fixpoint split_lines (l : list string) : list string :=
  match l with
  | [] => []
  | [last] => [last]
  | line :: l => drop_cr line :: split_lines l
  end.

(** [t.indexOf("=")], with what comes before and after it. *)
Fixpoint split_eq (t : string) : option (string * string) :=
  match t with
  | EmptyString => None
  | String c rest =>
      if (c =? "=")%char then Some ("", rest)
      else '(k, v) ← split_eq rest; Some (String c k, v)
  end.

Definition env_line (line : string) : option (string * string) :=
  let t := trim line in
  if String.eqb t "" || String.prefix "#" t then None
  else match split_eq t with
       | Some (k, v) => if String.eqb k "" then None else Some (k, v)
       | None => None
       end.

Definition parseEnvFileMap (text : string) : EnvMap :=
  fold_left (fun out line => match env_line line with Some (k, v) => <[k := v]> out | None => out end)
    (split_lines (split_on LF text)) ∅.

(** ** Amounts and addresses *)

Definition uiUsdcFromRaw (raw : Z) : num := num_over (num_of_Z raw) (num_of_Z 1000000).

Definition computeMinPotUsdc (ticketUnitRaw minTotalTicketsRaw : Z) : num :=
  uiUsdcFromRaw (ticketUnitRaw * minTotalTicketsRaw).

Definition lower (c : ascii) : ascii :=
  if ascii_between "A" "Z" c then ascii_of_nat (nat_of_ascii c + 32) else c.

Fixpoint lower_text (s : string) : string :=
  match s with EmptyString => EmptyString | String c rest => String (lower c) (lower_text rest) end.

Definition isAshRpcUrl (url : option string) : bool :=
  match url with
  | None | Some EmptyString => false
  | Some url => includes (lower_text url) "ash.rpc.gadflynode.com"
  end.

(** ** Checks *)

Inductive MainnetSmokeCheckLevel := Pass | Failed | Warn.

#[export] Instance level_eq_dec : EqDecision MainnetSmokeCheckLevel.
Proof. solve_decision. Defined.

Record MainnetSmokeCheck := mkCheck { ck_name : string; ck_level : MainnetSmokeCheckLevel }.

Record SmokeAddresses := mkSmokeAddresses {
  sa_programId : string;
  sa_configPda : string;
  sa_adminVault : string;
  sa_treasuryUsdcAta : string;
  sa_usdcMint : string;
  sa_upgradeAuthorityVault : option string;
  sa_programData : option string
}.

Record SmokeCode := mkSmokeCode {
  sc_programId : string;
  sc_configPda : string;
  sc_adminPubkey : string;
  sc_treasuryUsdcAta : string;
  sc_usdcMint : string
}.

Record SmokeConfig := mkSmokeConfig {
  cfg_admin : string;
  cfg_usdcMint : string;
  cfg_treasuryUsdcAta : string
}.

Record SmokeTreasury := mkSmokeTreasury {
  tr_exists : bool;
  tr_owner : option string;
  tr_mint : option string
}.

Record SmokeOnchain := mkSmokeOnchain {
  oc_programExecutable : bool;
  oc_programData : option string;
  oc_upgradeAuthority : option string;
  oc_config : SmokeConfig;
  oc_treasuryAccount : SmokeTreasury;
  oc_crankSol : option num            (* the balance of the wallet of the crank *)
}.

Record MainnetSmokeInputs := mkSmokeInputs {
  in_addresses : SmokeAddresses;
  in_code : SmokeCode;
  in_onchain : SmokeOnchain;
  in_rootMainnet : option EnvMap;
  in_crankMainnet : option EnvMap
}.

Record SmokeSummary := mkSummary { sm_pass : Z; sm_fail : Z; sm_warn : Z; sm_total : Z }.

Definition isPass (c : MainnetSmokeCheck) : bool := bool_decide (ck_level c = Pass).

Definition summarizeChecks (checks : list MainnetSmokeCheck) : SmokeSummary :=
  let '(pass, fail, warn) :=
    fold_left (fun '(pass, fail, warn) c =>
      match ck_level c with
      | Pass => (pass + 1, fail, warn)
      | Failed => (pass, fail + 1, warn)
      | Warn => (pass, fail, warn + 1)
      end) checks (0, 0, 0) in
  mkSummary pass fail warn (Z.of_nat (length checks)).

Definition pass_if (b : bool) : MainnetSmokeCheckLevel := if b then Pass else Failed.

(** [x] when it is a text that is not empty. *)
Definition truthy (x : option string) : option string :=
  match x with Some s => if String.eqb s "" then None else Some s | None => None end.

(** [onchain == null ? "warn" : onchain === expected ? "pass" : "fail"] *)
Definition compare_optional (onchain : option string) (expected : string) : MainnetSmokeCheckLevel :=
  match onchain with None => Warn | Some s => pass_if (String.eqb s expected) end.

Definition env_is (env : EnvMap) (key value : string) : bool := bool_decide (env !! key = Some value).

Definition core_checks (input : MainnetSmokeInputs) : list MainnetSmokeCheck :=
  let addresses := in_addresses input in
  let code := in_code input in
  let onchain := in_onchain input in
  let cfg := oc_config onchain in
  [mkCheck "Program ID matches addresses.mainnet.json"
     (pass_if (String.eqb (sc_programId code) (sa_programId addresses)));
   mkCheck "Program account exists and executable" (pass_if (oc_programExecutable onchain));
   mkCheck "Config PDA matches addresses.mainnet.json"
     (pass_if (String.eqb (sc_configPda code) (sa_configPda addresses)));
   mkCheck "Config admin matches expected Ops vault"
     (pass_if (String.eqb (cfg_admin cfg) (sa_adminVault addresses) && String.eqb (cfg_admin cfg) (sc_adminPubkey code)));
   mkCheck "Config treasury ATA matches expected"
     (pass_if (String.eqb (cfg_treasuryUsdcAta cfg) (sa_treasuryUsdcAta addresses) &&
               String.eqb (cfg_treasuryUsdcAta cfg) (sc_treasuryUsdcAta code)));
   mkCheck "Config USDC mint matches mainnet USDC"
     (pass_if (String.eqb (cfg_usdcMint cfg) (sa_usdcMint addresses) && String.eqb (cfg_usdcMint cfg) (sc_usdcMint code)));
   mkCheck "Treasury token account exists with expected mint"
     (pass_if (tr_exists (oc_treasuryAccount onchain) &&
               bool_decide (tr_mint (oc_treasuryAccount onchain) = Some (cfg_usdcMint cfg))))].

Definition treasury_owner_check (onchain : SmokeOnchain) : list MainnetSmokeCheck :=
  match tr_exists (oc_treasuryAccount onchain), truthy (tr_owner (oc_treasuryAccount onchain)) with
  | true, Some owner =>
      [mkCheck "Treasury token account owner matches config.admin (recommended)"
         (if String.eqb owner (cfg_admin (oc_config onchain)) then Pass else Warn)]
  | _, _ => []
  end.

Definition program_data_check (addresses : SmokeAddresses) (onchain : SmokeOnchain) : list MainnetSmokeCheck :=
  match truthy (sa_programData addresses) with
  | Some expected =>
      [mkCheck "ProgramData address matches rollout addresses" (compare_optional (oc_programData onchain) expected)]
  | None => []
  end.

Definition upgrade_authority_check (addresses : SmokeAddresses) (onchain : SmokeOnchain) : list MainnetSmokeCheck :=
  match truthy (sa_upgradeAuthorityVault addresses) with
  | Some expected =>
      [mkCheck "Program upgrade authority matches Upgrade vault" (compare_optional (oc_upgradeAuthority onchain) expected)]
  | None => []
  end.

Definition frontend_env_check (code : SmokeCode) (cfg : SmokeConfig) (root : option EnvMap) : list MainnetSmokeCheck :=
  match root with
  | Some env =>
      [mkCheck "Frontend mainnet env points to expected program/treasury/admin"
         (pass_if (env_is env "VITE_NETWORK" "mainnet" && env_is env "VITE_PROGRAM_ID" (sc_programId code) &&
                   env_is env "VITE_TREASURY_ATA" (cfg_treasuryUsdcAta cfg) && env_is env "VITE_ADMIN_PUBKEY" (cfg_admin cfg) &&
                   env_is env "VITE_USDC_MINT" (cfg_usdcMint cfg)))]
  | None => []
  end.

Definition crank_env_check (crank : option EnvMap) : list MainnetSmokeCheck :=
  match crank with
  | Some env =>
      [mkCheck "Crank .env.mainnet uses dedicated provider (not ash)"
         (if isAshRpcUrl (env !! "RPC_URL") || isAshRpcUrl (env !! "RPC_WS_URL") then Warn else Pass)]
  | None => []
  end.

Definition crank_wallet_check (onchain : SmokeOnchain) : list MainnetSmokeCheck :=
  match oc_crankSol onchain with
  | Some sol =>
      [mkCheck "Crank hot wallet balance > 0.05 SOL" (if SFltb (num_of_decimal false 5 (-2)) sol then Pass else Warn)]
  | None => []
  end.

Definition evaluateMainnetSmokeChecks (input : MainnetSmokeInputs) : list MainnetSmokeCheck :=
  let addresses := in_addresses input in
  let onchain := in_onchain input in
  core_checks input ++ treasury_owner_check onchain ++ program_data_check addresses onchain ++
  upgrade_authority_check addresses onchain ++
  frontend_env_check (in_code input) (oc_config onchain) (in_rootMainnet input) ++
  crank_env_check (in_crankMainnet input) ++ crank_wallet_check onchain.

(** ** Rounds *)

Definition is_live (status : Z) : bool := (0 <=? status) && (status <=? 3).

(** Rounds by their id and status. *)
Definition next_active (active : option Z) (round : Z * Z) : option Z :=
  let '(id, status) := round in
  if is_live status then
    match active with Some a => if a <? id then Some id else active | None => Some id end
  else active.

Definition findActiveRoundIdFromExisting (rounds : list (Z * Z)) : option Z := fold_left next_active rounds None.

(** For a whole number of rounds. *)
Definition recentRoundIds (existingRoundIds : list Z) (count : Z) : list Z :=
  if (length existingRoundIds =? 0)%nat || (count <=? 0) then []
  else
    let sorted := sort_on (fun id => id) (set_of_list existingRoundIds) in
    drop (Z.to_nat (Z.max 0 (Z.of_nat (length sorted) - count))) sorted.

Definition statusName (s : Z) : string :=
  if s =? RoundStatus.Open then "Open"
  else if s =? RoundStatus.Locked then "Locked"
  else if s =? RoundStatus.VrfRequested then "VrfRequested"
  else if s =? RoundStatus.Settled then "Settled"
  else if s =? RoundStatus.Claimed then "Claimed"
  else if s =? RoundStatus.Cancelled then "Cancelled"
  else "Unknown(" +:+ pretty s +:+ ")".

Definition MAX_SAFE_INTEGER : Z := 2 ^ 53 - 1.

Section script.
Context `{SolanaLibs} (A : Addresses).

Record RoundSummary := mkRoundSummary {
  rs_id : Z;
  rs_pda : string;
  rs_status : Z;
  rs_statusName : string;
  rs_startTs : num;
  rs_endTs : num;
  rs_firstDepositTs : num;
  rs_totalUsdc : num;
  rs_totalTickets : num;
  rs_participantsCount : Z;
  rs_vaultAta : string;
  rs_vaultUi : option num;
  rs_pendingParticipantRefunds : option Z;
  rs_participantAccountsExisting : option Z
}.

(** What the chain answers: the accounts of the program, the balance of a token account, an
    account, and several. *)
Record SmokeChain := mkSmokeChain {
  ch_programAccounts : Res (list (PublicKey * bytes));
  ch_tokenBalance : PublicKey -> Res num;
  ch_accountInfo : PublicKey -> Res (option bytes);
  ch_multipleAccounts : list PublicKey -> Res (list (option bytes))
}.

Context (chain : SmokeChain).

(** An account that parses as a round and sits at the address of that round. *)
Definition round_of_account (pubkey : PublicKey) (data : bytes) : Res (option Crank.RoundData) :=
  match Crank.parseRound data with
  | Throw _ => Ok None
  | Ok round =>
      if (Crank.roundId round <=? 0) || (MAX_SAFE_INTEGER <? Crank.roundId round) then Ok None
      else
        pda ← getRoundPda A (Crank.roundId round);
        Ok (if bool_decide (pubkey = pda) then Some round else None)
  end.

Definition summary_of (pubkey : PublicKey) (round : Crank.RoundData) : RoundSummary :=
  mkRoundSummary (Crank.roundId round) (toBase58 pubkey) (Crank.status round) (statusName (Crank.status round))
    (num_of_Z (Crank.startTs round)) (num_of_Z (Crank.endTs round)) (num_of_Z (Crank.firstDepositTs round))
    (uiUsdcFromRaw (Crank.totalUsdc round)) (num_of_Z (Crank.totalTickets round)) (Crank.participantsCount round)
    (toBase58 (Crank.vaultUsdcAta round)) (res_value (ch_tokenBalance chain (Crank.vaultUsdcAta round))) None None.

Fixpoint summaries (accounts : list (PublicKey * bytes)) : Res (list RoundSummary) :=
  match accounts with
  | [] => Ok []
  | (pubkey, data) :: accounts =>
      round ← round_of_account pubkey data;
      rest ← summaries accounts;
      Ok (match round with Some r => summary_of pubkey r :: rest | None => rest end)
  end.

Definition fetchAllRounds : Res (list RoundSummary) :=
  accounts ← ch_programAccounts chain;
  rounds ← summaries accounts;
  Ok (sort_on rs_id rounds).

Definition count_refunds (pinfos : list (option bytes)) : Z * Z :=
  fold_left (fun '(pending, existing) pinfo =>
    match pinfo with
    | None => (pending, existing)
    | Some data =>
        match Crank.parseParticipant data with
        | Ok p => (if 0 <? Crank.p_usdcTotal p then pending + 1 else pending, existing + 1)
        | Throw _ => (pending, existing + 1)
        end
    end) pinfos (0, 0).

Definition enrichPendingRefunds (roundId : Z) : Res (Z * Z) :=
  roundPda ← getRoundPda A roundId;
  info ← ch_accountInfo chain roundPda;
  match info with
  | None => Ok (0, 0)
  | Some data =>
      match Crank.parseRound data with
      | Throw _ => Ok (0, 0)
      | Ok round =>
          if (length (Crank.participants round) =? 0)%nat ||
             (negb (Crank.status round =? RoundStatus.Cancelled) && negb (Crank.status round =? RoundStatus.Claimed))
          then Ok (0, 0)
          else
            pinfos ← ch_multipleAccounts chain (getParticipantPda A roundPda <$> Crank.participants round);
            Ok (count_refunds pinfos)
      end
  end.

(** [Object.assign(round, ...)] *)
Definition with_refunds (r : RoundSummary) (pending existing : Z) : RoundSummary :=
  mkRoundSummary (rs_id r) (rs_pda r) (rs_status r) (rs_statusName r) (rs_startTs r) (rs_endTs r) (rs_firstDepositTs r)
    (rs_totalUsdc r) (rs_totalTickets r) (rs_participantsCount r) (rs_vaultAta r) (rs_vaultUi r) (Some pending) (Some existing).

Definition enrich (round : RoundSummary) : Res RoundSummary :=
  if (rs_status round =? RoundStatus.Cancelled) || (rs_status round =? RoundStatus.Claimed) then
    '(pending, existing) ← enrichPendingRefunds (rs_id round);
    Ok (with_refunds round pending existing)
  else Ok round.

Record RoundsReport := mkReport {
  rr_totalExisting : Z;
  rr_maxRoundId : option Z;
  rr_activeRoundId : option Z;
  rr_recent : list RoundSummary
}.

(** The rounds of the output of [main]. *)
Definition rounds_report (count : Z) : Res RoundsReport :=
  allRounds ← fetchAllRounds;
  let recentIds := recentRoundIds (rs_id <$> allRounds) count in
  recentRounds ← res_mapM enrich (filter (fun r => rs_id r ∈ recentIds) allRounds);
  Ok (mkReport (Z.of_nat (length allRounds)) (rs_id <$> last allRounds)
        (findActiveRoundIdFromExisting ((fun r => (rs_id r, rs_status r)) <$> allRounds)) recentRounds).

(** The addresses, code and environments [main] compares: it asks neither for the program
    data nor for the upgrade authority. *)
Definition smoke_inputs (addresses : SmokeAddresses) (executable : bool) (config : SmokeConfig)
    (treasury : SmokeTreasury) (crankSol : option num) (rootText crankText : option string) : MainnetSmokeInputs :=
  mkSmokeInputs addresses
    (mkSmokeCode (toBase58 (PROGRAM_ID A)) (toBase58 (getConfigPda A)) (toBase58 (ADMIN_PUBKEY A))
       (toBase58 (TREASURY_USDC_ATA A)) (toBase58 (USDC_MINT A)))
    (mkSmokeOnchain executable None None config treasury crankSol)
    (Some (parseEnvFileMap (default "" rootText))) (Some (parseEnvFileMap (default "" crankText))).
End script.

(** ** The summary *)

Definition count_level (lv : MainnetSmokeCheckLevel) (checks : list MainnetSmokeCheck) : Z :=
  Z.of_nat (length (filter (fun c => ck_level c = lv) checks)).

Ltac split_pairs := apply pair_eq; split; [apply pair_eq; split|].

Lemma summarize_counts checks :
  summarizeChecks checks =
  mkSummary (count_level Pass checks) (count_level Failed checks) (count_level Warn checks) (Z.of_nat (length checks)).
Proof.
  unfold summarizeChecks.
  assert (forall p f w, fold_left (fun '(pass, fail, warn) c =>
      match ck_level c with
      | Pass => (pass + 1, fail, warn)
      | Failed => (pass, fail + 1, warn)
      | Warn => (pass, fail, warn + 1)
      end) checks (p, f, w) = (p + count_level Pass checks, f + count_level Failed checks, w + count_level Warn checks)) as E.
  { unfold count_level. induction checks as [|c checks IH]; intros p f w; [cbn; split_pairs; lia|].
    cbn [fold_left]. destruct (ck_level c) eqn:Ec; rewrite IH, !filter_cons, Ec;
      repeat case_decide; try congruence; cbn [length]; split_pairs; lia. }
  by rewrite E.
Qed.

(** ** What the checks compare *)

(** The deployment is the one the addresses file, the code and the frontend environment
    name. *)
Record consistent (input : MainnetSmokeInputs) : Prop := {
  cs_program : sc_programId (in_code input) = sa_programId (in_addresses input);
  cs_executable : oc_programExecutable (in_onchain input) = true;
  cs_config : sc_configPda (in_code input) = sa_configPda (in_addresses input);
  cs_admin : cfg_admin (oc_config (in_onchain input)) = sa_adminVault (in_addresses input) /\
    sa_adminVault (in_addresses input) = sc_adminPubkey (in_code input);
  cs_treasury : cfg_treasuryUsdcAta (oc_config (in_onchain input)) = sa_treasuryUsdcAta (in_addresses input) /\
    sa_treasuryUsdcAta (in_addresses input) = sc_treasuryUsdcAta (in_code input);
  cs_mint : cfg_usdcMint (oc_config (in_onchain input)) = sa_usdcMint (in_addresses input) /\
    sa_usdcMint (in_addresses input) = sc_usdcMint (in_code input);
  cs_account : tr_exists (oc_treasuryAccount (in_onchain input)) = true /\
    tr_mint (oc_treasuryAccount (in_onchain input)) = Some (sa_usdcMint (in_addresses input));
  cs_programData : forall d e, oc_programData (in_onchain input) = Some d ->
    sa_programData (in_addresses input) = Some e -> e <> "" -> d = e;
  cs_authority : forall d e, oc_upgradeAuthority (in_onchain input) = Some d ->
    sa_upgradeAuthorityVault (in_addresses input) = Some e -> e <> "" -> d = e;
  cs_frontend : forall env, in_rootMainnet input = Some env ->
    env !! "VITE_NETWORK" = Some "mainnet" /\ env !! "VITE_PROGRAM_ID" = Some (sa_programId (in_addresses input)) /\
    env !! "VITE_TREASURY_ATA" = Some (sa_treasuryUsdcAta (in_addresses input)) /\
    env !! "VITE_ADMIN_PUBKEY" = Some (sa_adminVault (in_addresses input)) /\
    env !! "VITE_USDC_MINT" = Some (sa_usdcMint (in_addresses input))
}.

Definition no_failure (checks : list MainnetSmokeCheck) : Prop := Forall (fun c => ck_level c <> Failed) checks.

Lemma count_zero checks : count_level Failed checks = 0 <-> no_failure checks.
Proof.
  unfold count_level, no_failure. induction checks as [|c checks IH]; [by split|].
  rewrite filter_cons, Forall_cons, <- IH. destruct (decide (ck_level c = Failed)); cbn [length]; naive_solver lia.
Qed.

Lemma pass_if_ok b : pass_if b <> Failed <-> b = true.
Proof. by destruct b. Qed.

Lemma compare_optional_ok x e : compare_optional x e <> Failed <-> forall d, x = Some d -> d = e.
Proof.
  destruct x as [d|]; cbn; [|naive_solver]. rewrite pass_if_ok, String.eqb_eq. naive_solver.
Qed.

Lemma optional_check_ok name (expected onchain : option string) :
  no_failure (match truthy expected with Some e => [mkCheck name (compare_optional onchain e)] | None => [] end) <->
  forall d e, onchain = Some d -> expected = Some e -> e <> "" -> d = e.
Proof.
  unfold no_failure. destruct expected as [e|]; cbn [truthy]; [|by split; [|constructor]].
  destruct (String.eqb_spec e "") as [->|Hne]; [by split; [naive_solver|constructor]|].
  rewrite Forall_singleton. cbn [ck_level]. rewrite compare_optional_ok. naive_solver.
Qed.

Lemma env_is_ok env k v : env_is env k v = true <-> env !! k = Some v.
Proof. unfold env_is. by rewrite bool_decide_eq_true. Qed.

Lemma advisory_ok name (b : bool) : no_failure [mkCheck name (if b then Pass else Warn)].
Proof. constructor; [by destruct b|constructor]. Qed.

Lemma advisory_checks_ok input :
  no_failure (treasury_owner_check (in_onchain input)) /\ no_failure (crank_env_check (in_crankMainnet input)) /\
  no_failure (crank_wallet_check (in_onchain input)).
Proof.
  split; [|split].
  - unfold treasury_owner_check. destruct (tr_exists _); [|constructor]. destruct (truthy _); [apply advisory_ok|constructor].
  - unfold crank_env_check. destruct (in_crankMainnet input); [|constructor]. constructor; [by destruct (_ || _)|constructor].
  - unfold crank_wallet_check. destruct (oc_crankSol _); [apply advisory_ok|constructor].
Qed.

Lemma core_checks_ok input :
  no_failure (core_checks input) <->
  sc_programId (in_code input) = sa_programId (in_addresses input) /\
  oc_programExecutable (in_onchain input) = true /\
  sc_configPda (in_code input) = sa_configPda (in_addresses input) /\
  (cfg_admin (oc_config (in_onchain input)) = sa_adminVault (in_addresses input) /\
   cfg_admin (oc_config (in_onchain input)) = sc_adminPubkey (in_code input)) /\
  (cfg_treasuryUsdcAta (oc_config (in_onchain input)) = sa_treasuryUsdcAta (in_addresses input) /\
   cfg_treasuryUsdcAta (oc_config (in_onchain input)) = sc_treasuryUsdcAta (in_code input)) /\
  (cfg_usdcMint (oc_config (in_onchain input)) = sa_usdcMint (in_addresses input) /\
   cfg_usdcMint (oc_config (in_onchain input)) = sc_usdcMint (in_code input)) /\
  (tr_exists (oc_treasuryAccount (in_onchain input)) = true /\
   tr_mint (oc_treasuryAccount (in_onchain input)) = Some (cfg_usdcMint (oc_config (in_onchain input)))).
Proof.
  unfold no_failure, core_checks. rewrite !Forall_cons, Forall_nil. cbn [ck_level].
  rewrite !pass_if_ok, !andb_true_iff, !String.eqb_eq, bool_decide_eq_true. tauto.
Qed.

Lemma frontend_check_ok code cfg root :
  no_failure (frontend_env_check code cfg root) <-> forall env, root = Some env ->
    env !! "VITE_NETWORK" = Some "mainnet" /\ env !! "VITE_PROGRAM_ID" = Some (sc_programId code) /\
    env !! "VITE_TREASURY_ATA" = Some (cfg_treasuryUsdcAta cfg) /\ env !! "VITE_ADMIN_PUBKEY" = Some (cfg_admin cfg) /\
    env !! "VITE_USDC_MINT" = Some (cfg_usdcMint cfg).
Proof.
  unfold no_failure, frontend_env_check. destruct root as [env|]; [|by split; [|constructor]].
  rewrite Forall_singleton. cbn [ck_level]. rewrite pass_if_ok, !andb_true_iff, !env_is_ok.
  split; [intros E env' [= <-]; tauto|]. intros E. specialize (E env eq_refl). tauto.
Qed.

(** The check of a deployment reports no failure exactly when the deployment is
    consistent: the program id, configuration address, admin, treasury and USDC mint of the
    chain, of the addresses file, of the crank's constants and of the frontend environment
    are the same, the program is executable, the treasury account exists with that mint, and
    the program data and upgrade authority, where known, are the expected ones.  The other
    checks can only warn, and every check is counted once. *)
Theorem smoke_passes_iff_consistent (input : MainnetSmokeInputs) :
  let s := summarizeChecks (evaluateMainnetSmokeChecks input) in
  (sm_fail s = 0 <-> consistent input) /\ sm_pass s + sm_fail s + sm_warn s = sm_total s.
Proof.
  intros s. unfold s. rewrite summarize_counts. cbn [sm_fail sm_pass sm_warn sm_total]. split.
  - rewrite count_zero. unfold no_failure, evaluateMainnetSmokeChecks. rewrite !Forall_app.
    fold (no_failure (core_checks input)). rewrite core_checks_ok.
    pose proof (advisory_checks_ok input) as (Ho & Hc & Hw).
    unfold program_data_check, upgrade_authority_check.
    pose proof (optional_check_ok "ProgramData address matches rollout addresses" (sa_programData (in_addresses input)) (oc_programData (in_onchain input))) as Hd.
    pose proof (optional_check_ok "Program upgrade authority matches Upgrade vault" (sa_upgradeAuthorityVault (in_addresses input)) (oc_upgradeAuthority (in_onchain input))) as Ha.
    pose proof (frontend_check_ok (in_code input) (oc_config (in_onchain input)) (in_rootMainnet input)) as Hf.
    unfold no_failure in *. rewrite Hd, Ha, Hf. split.
    + intros ((E1 & E2 & E3 & [E4 E4'] & [E5 E5'] & [E6 E6'] & [E7 E7']) & _ & H1 & H2 & H3 & _ & _).
      rewrite E1, E4, E5, E6 in *. by split.
    + intros [E1 E2 E3 [E4 E4'] [E5 E5'] [E6 E6'] [E7 E7'] H1 H2 H3]. rewrite E1, E4, E5, E6 in *.
      repeat (split; try done).
  - unfold count_level. generalize (evaluateMainnetSmokeChecks input) as checks.
    induction checks as [|c checks IH]; [done|]. rewrite !filter_cons.
    destruct (ck_level c); repeat case_decide; try congruence; cbn [length]; lia.
Qed.

(** ** The rounds of the report *)

Lemma active_step rounds acc a :
  fold_left next_active rounds acc = Some a ->
  (acc = Some a \/ exists st, (a, st) ∈ rounds /\ is_live st = true) /\ (forall b, acc = Some b -> b <= a) /\
  (forall id st, (id, st) ∈ rounds -> is_live st = true -> id <= a).
Proof.
  revert acc. induction rounds as [|[id st] rounds IH]; intros acc E; cbn [fold_left] in E.
  { subst acc. split; [by left|]. split; [by intros b [= ->]|]. by intros ?? ?%elem_of_nil. }
  apply IH in E as (Hfrom & Hacc & Hall). setoid_rewrite elem_of_cons. unfold next_active in *.
  destruct (is_live st) eqn:El; [|split; [naive_solver|split; [done|]]; intros i s [[= -> ->]|Hi] Hs; [congruence|by eapply Hall]].
  destruct acc as [b|]; [destruct (Z.ltb_spec b id)|]; (split; [destruct Hfrom as [[= <-]|(st' & ? & ?)]; eauto|]);
    pose proof (Hacc _ eq_refl); (split; [naive_solver lia|]); intros i s [[= -> ->]|Hi] Hs; eauto; lia.
Qed.

Lemma active_none rounds acc :
  fold_left next_active rounds acc = None -> acc = None /\ forall id st, (id, st) ∈ rounds -> is_live st = false.
Proof.
  revert acc. induction rounds as [|[id st] rounds IH]; intros acc E; cbn [fold_left] in E.
  { split; [done|]. by intros ?? ?%elem_of_nil. }
  apply IH in E as [Hacc Hall]. unfold next_active in *. setoid_rewrite elem_of_cons.
  destruct (is_live st) eqn:El; [destruct acc as [b|]; [destruct (b <? id)|]; done|]. split; [done|]. naive_solver.
Qed.

Section script_spec.
Context `{SolanaLibs} (A : Addresses) (chain : SmokeChain).

(** Among [accounts], a round with this id and status at its own address. *)
Definition on_chain (accounts : list (PublicKey * bytes)) (id st : Z) : Prop :=
  exists pubkey data round, (pubkey, data) ∈ accounts /\ Crank.parseRound data = Ok round /\
    Crank.roundId round = id /\ Crank.status round = st /\ 1 <= id <= MAX_SAFE_INTEGER /\ getRoundPda A id = Ok pubkey.

Definition id_status (r : RoundSummary) : Z * Z := (rs_id r, rs_status r).

Lemma round_of_account_spec k d o :
  round_of_account A k d = Ok o -> forall r, o = Some r <->
    Crank.parseRound d = Ok r /\ 1 <= Crank.roundId r <= MAX_SAFE_INTEGER /\ getRoundPda A (Crank.roundId r) = Ok k.
Proof.
  unfold round_of_account. destruct (Crank.parseRound d) as [r'|e]; [|intros [= <-]; naive_solver].
  destruct (Z.leb_spec (Crank.roundId r') 0), (Z.ltb_spec MAX_SAFE_INTEGER (Crank.roundId r')); cbn [orb];
    try (intros [= <-] r; split; [done|intros ([= ->] & ? & ?); lia]).
  destruct (getRoundPda A (Crank.roundId r')) as [pda|e] eqn:Ep; [|done]. intros [= <-] r.
  case_bool_decide as Hk; [subst k|]; (split; [intros [= <-]|intros ([= <-] & _ & E)]); [|done|congruence].
  split; [done|split; [lia|done]].
Qed.

Lemma summaries_listed accounts rs :
  summaries A chain accounts = Ok rs -> forall id st, (id, st) ∈ id_status <$> rs <-> on_chain accounts id st.
Proof.
  revert rs. induction accounts as [|[k d] accounts IH]; intros rs E id st; cbn [summaries] in E.
  { injection E as <-. split; [by intros ?%elem_of_nil|]. intros (? & ? & ? & Hin & _). by apply elem_of_nil in Hin. }
  destruct (round_of_account A k d) as [o|] eqn:Eo; [|done]. cbn [mbind Res_bind] in E.
  destruct (summaries A chain accounts) as [rest|]; [|done]. injection E as <-.
  pose proof (round_of_account_spec k d o Eo) as Ho. specialize (IH rest eq_refl id st).
  transitivity ((exists r, o = Some r /\ (id, st) = (Crank.roundId r, Crank.status r)) \/ on_chain accounts id st).
  - destruct o as [r|]; [rewrite fmap_cons, elem_of_cons, IH|rewrite IH]; unfold id_status; cbn; naive_solver.
  - unfold on_chain. setoid_rewrite elem_of_cons. split.
    + intros [(r & Hr & [= -> ->])|(k' & d' & r & ? & ?)]; [|exists k', d', r; by split; [right|]].
      apply Ho in Hr as (? & ? & ?). exists k, d, r. by split; [left|].
    + intros (k' & d' & r & [[= -> ->]|Hin] & Hp & Hi & Hs & Hr & Hk); [left|right; by exists k', d', r].
      exists r. subst. split; [by apply Ho|done].
Qed.

(** The round the check of a deployment reports as active is the one with the greatest id
    among the accounts of the program that parse as a live round and sit at the address
    derived from their id; it reports none exactly when there is none, whatever else the
    program owns. *)
Theorem smoke_active_round (accounts : list (PublicKey * bytes)) (count : Z) (report : RoundsReport) :
  ch_programAccounts chain = Ok accounts -> rounds_report A chain count = Ok report ->
  match rr_activeRoundId report with
  | Some a => (exists st, on_chain accounts a st /\ is_live st = true) /\
      (forall id st, on_chain accounts id st -> is_live st = true -> id <= a)
  | None => forall id st, on_chain accounts id st -> is_live st = false
  end.
Proof.
  intros Ha. unfold rounds_report, fetchAllRounds. rewrite Ha. cbn [mbind Res_bind].
  destruct (summaries A chain accounts) as [rs|] eqn:Es; [|done]. cbn [mbind Res_bind].
  destruct (res_mapM _ _) as [recent|]; [|done]. intros [= <-]. cbn [rr_activeRoundId].
  assert (forall id st, (id, st) ∈ (fun r => (rs_id r, rs_status r)) <$> sort_on rs_id rs <-> on_chain accounts id st) as Hin.
  { intros id st. rewrite <- (summaries_listed accounts rs Es), sort_on_perm. done. }
  unfold findActiveRoundIdFromExisting. destruct (fold_left _ _ _) as [a|] eqn:E.
  - apply active_step in E as ([?|(st & Hst & Hl)] & _ & Hall); [done|].
    split; [exists st; split; [by apply Hin|done]|]. intros id st' ?%Hin. by apply Hall.
  - apply active_none in E as [_ Hall]. intros id st ?%Hin. by eapply Hall.
Qed.
End script_spec.

(** The script never learns the program data and the upgrade authority: their checks warn,
    whatever is deployed. *)
Lemma upgrade_authority_never_compared `{SolanaLibs} (A : Addresses) addresses executable config treasury sol root crank :
  let input := smoke_inputs A addresses executable config treasury sol root crank in
  Forall (fun c => ck_level c = Warn)
    (upgrade_authority_check addresses (in_onchain input) ++ program_data_check addresses (in_onchain input)).
Proof.
  cbn. unfold upgrade_authority_check, program_data_check.
  destruct (truthy (sa_upgradeAuthorityVault addresses)), (truthy (sa_programData addresses)); repeat constructor.
Qed.

Module SmokeWitness.
#[local] Existing Instance ToyKeys.keys.
#[local] Existing Instance ToySolana.libs.

Definition k (n : Z) : PublicKey := ToyKeys.mk (le_encode 4 n).
Definition addresses : Addresses := mkAddresses (k 1) (k 2) (k 3) (k 4) (k 5) (k 6) (k 7).

Definition round_bytes (id status : Z) : bytes :=
  encode_round (mkRoundImage (replicate 8 x00) id status 254 (replicate 6 x00) 0 0 0 (k 20) 0
    0 0 (replicate 6 x00) (replicate 32 x00) 0 defaultKey (replicate 200 defaultKey)
    (replicate (Z.to_nat 1608) x00) defaultKey 0 0 (replicate 30 x00)).

Definition pda (id : Z) : PublicKey :=
  fst (findProgramAddressSync [SEED_ROUND; le_encode 8 (Z.abs id)] (PROGRAM_ID addresses)).

(** A claimed round, an open one, an account that is no round, and an open round at an address
    that is not its own. *)
Definition accounts : list (PublicKey * bytes) :=
  [(pda 4, round_bytes 4 RoundStatus.Open); (k 30, [x01]); (pda 3, round_bytes 3 RoundStatus.Claimed);
   (k 31, round_bytes 9 RoundStatus.Open)].

Definition chain : SmokeChain :=
  mkSmokeChain (Ok accounts) (fun _ => Throw (mkError "Error" "could not find account")) (fun _ => Ok None) (fun _ => Ok []).

Definition report : RoundsReport :=
  match rounds_report addresses chain 1 with Ok r => r | Throw _ => mkReport 0 None None [] end.

Lemma report_ok : rounds_report addresses chain 1 = Ok report.
Proof.
  unfold report. assert (is_ok (rounds_report addresses chain 1) = true) as E by (vm_compute; reflexivity).
  by destruct (rounds_report addresses chain 1).
Qed.

Lemma report_active : rr_activeRoundId report = Some 4.
Proof. vm_compute. reflexivity. Qed.

Lemma smoke_active_round_witness :
  (exists st, on_chain addresses accounts 4 st /\ is_live st = true) /\
  (forall id st, on_chain addresses accounts id st -> is_live st = true -> id <= 4).
Proof.
  pose proof (smoke_active_round addresses chain accounts 1 report eq_refl report_ok) as E.
  rewrite report_active in E. exact E.
Defined.

(** An environment file, and a list of rounds. *)
Definition env_text : string :=
  "# comment" +:+ String CR (String LF "RPC_URL=http://ASH.rpc.gadflynode.com:80" +:+ String LF
  "  EMPTY=" +:+ String LF "INVALID_LINE").

Lemma env_example :
  parseEnvFileMap env_text = {["RPC_URL" := "http://ASH.rpc.gadflynode.com:80"; "EMPTY" := ""]} /\
  isAshRpcUrl (parseEnvFileMap env_text !! "RPC_URL") = true /\ recentRoundIds [5; 3; 5; 9; 1] 2 = [5; 9].
Proof. split; [|split]; vm_compute; reflexivity. Qed.
End SmokeWitness.
