(* ===== verification/Missions.v ===== *)
(** * Missions: src/hooks/useMissions.ts

    Daily, weekly and lasting missions of a wallet, with their rewards and levels, kept in
    local storage.  The texts of the missions are not modelled.  A date [YYYY-MM-DD] is its
    number of days since 1970 (in UTC), the empty text is [None]; local time is the
    difference to UTC at an instant. *)

From stdpp Require Import base list strings.
From Stdlib Require Import ZArith Lia SpecFloat.
From S2P Require Import Prelude JsRuntime JsMap.

Local Open Scope string_scope.
Local Open Scope list_scope.
Local Open Scope Z_scope.
Set Warnings "-clear-no-such-hyp".

Inductive MissionType := Daily | Weekly | Achievement.

Record Mission := mkMission {
  m_id : string;
  m_type : MissionType;
  requirement : num;
  progress : num;
  xp : Z;
  completed : bool;
  claimed : bool
}.

Record MissionsData := mkData {
  walletAddress : string;
  missions : list Mission;
  totalJup : Z;
  level : Z;
  streak : Z;
  lastPlayDate : option Z;
  jupiterSwapCount : Z;
  totalDeposits : Z;
  totalVolume : num;
  roundsPlayed : Z;
  wins : Z
}.

Definition set_missions l d := mkData (walletAddress d) l (totalJup d) (level d) (streak d) (lastPlayDate d)
  (jupiterSwapCount d) (totalDeposits d) (totalVolume d) (roundsPlayed d) (wins d).
Definition set_streak n d := mkData (walletAddress d) (missions d) (totalJup d) (level d) n (lastPlayDate d)
  (jupiterSwapCount d) (totalDeposits d) (totalVolume d) (roundsPlayed d) (wins d).
Definition set_jup n l d := mkData (walletAddress d) (missions d) n l (streak d) (lastPlayDate d)
  (jupiterSwapCount d) (totalDeposits d) (totalVolume d) (roundsPlayed d) (wins d).

(** ** Dates *)

Definition DAY_MS : Z := 86400000.

(** [today()] at an instant *)
Definition today (now : Z) : Z := now / DAY_MS.

Definition jupForLevel (level : Z) : Z := level * 100.

Section missions.
(** Local time minus UTC at an instant, in milliseconds. *)
Context (offset : Z -> Z).

(** The local day of the Monday of the week of an instant; [getDay] is 0 on Sundays, and
    1970-01-01 was a Thursday. *)
Definition getMonday (time : Z) : Z :=
  let localDay := (time + offset time) / DAY_MS in
  let day := (localDay + 4) mod 7 in
  localDay - day + (if day =? 0 then -6 else 1).

(** ** Loading *)

Definition mission (id : string) (type : MissionType) (requirement xp : Z) : Mission :=
  mkMission id type (num_of_Z requirement) (num_of_Z 0) xp false false.

Definition getDefaultMissions : list Mission :=
  [mission "daily_deposit" Daily 1 25;
   mission "daily_3rounds" Daily 3 50;
   mission "daily_jupiter_swap" Daily 1 40;
   mission "weekly_volume" Weekly 100 200;
   mission "weekly_5_rounds" Weekly 5 150;
   mission "achievement_first_win" Achievement 1 100;
   mission "achievement_3day_streak" Achievement 3 150;
   mission "achievement_10_swaps" Achievement 10 300].

Definition reset (m : Mission) : Mission :=
  mkMission (m_id m) (m_type m) (requirement m) (num_of_Z 0) (xp m) false false.
Definition reset_daily (m : Mission) : Mission := match m_type m with Daily => reset m | _ => m end.
Definition reset_weekly (m : Mission) : Mission := match m_type m with Weekly => reset m | _ => m end.

(** The dailies start again on another day, and the streak goes on or ends. *)
Definition new_day (t : Z) (data : MissionsData) : MissionsData :=
  if bool_decide (lastPlayDate data = Some t) then data
  else
    let data := set_missions (reset_daily <$> missions data) data in
    match lastPlayDate data with
    | None => data
    | Some last =>
        let diffDays := t - last in
        if diffDays =? 1 then set_streak (streak data + 1) data
        else if 1 <? diffDays then set_streak 0 data
        else data
    end.

(** The weeklies start again in another week; the Monday of no date is no Monday. *)
Definition new_week (now : Z) (data : MissionsData) : MissionsData :=
  if bool_decide (Some (getMonday now) = (fun d => getMonday (d * DAY_MS)) <$> lastPlayDate data) then data
  else set_missions (reset_weekly <$> missions data) data.

Definition merge_missions (data : MissionsData) : MissionsData :=
  let existingIds := m_id <$> missions data in
  let added := filter (fun dm => m_id dm ∉ existingIds) getDefaultMissions in
  set_missions (filter (fun m => m_id m ∈ m_id <$> getDefaultMissions) (missions data ++ added)) data.

Definition fresh_data (wallet : string) : MissionsData :=
  mkData wallet getDefaultMissions 0 1 0 None 0 0 (num_of_Z 0) 0 0.

(** [raw] is the stored text: absent, or what [JSON.parse] makes of it; the clock is read
    for the date and for the week. *)
Definition loadMissionsData (raw : option (Res MissionsData)) (wallet : string) (now1 now2 : Z) : MissionsData :=
  match raw with
  | Some (Ok data) => merge_missions (new_week now2 (new_day (today now1) data))
  | _ => fresh_data wallet
  end.

(** ** Updates *)

(** [Math.min] *)
Definition num_min (a b : num) : num :=
  match a, b with
  | S754_nan, _ | _, S754_nan => S754_nan
  | _, _ => if SFltb b a then b else a
  end.

(** [completed: m.progress >= m.requirement] *)
Definition recompute (m : Mission) : Mission :=
  mkMission (m_id m) (m_type m) (requirement m) (progress m) (xp m) (SFleb (requirement m) (progress m)) (claimed m).

Definition with_progress (p : num) (m : Mission) : Mission :=
  mkMission (m_id m) (m_type m) (requirement m) p (xp m) (completed m) (claimed m).
Definition set_claimed (m : Mission) : Mission :=
  mkMission (m_id m) (m_type m) (requirement m) (progress m) (xp m) (completed m) true.

(** The object that [find] answers, changed in place. *)
Fixpoint change_first (id : string) (f : Mission -> Mission) (l : list Mission) : list Mission :=
  match l with
  | [] => []
  | m :: l => if String.eqb (m_id m) id then f m :: l else m :: change_first id f l
  end.
Fixpoint find_mission (id : string) (l : list Mission) : option Mission :=
  match l with
  | [] => None
  | m :: l => if String.eqb (m_id m) id then Some m else find_mission id l
  end.

(** [if (m && !m.completed) m.progress = Math.min(p(m), m.requirement)] *)
Definition advance_mission (p : Mission -> num) (m : Mission) : Mission :=
  if completed m then m else with_progress (num_min (p m) (requirement m)) m.
Definition plus (n : num) (m : Mission) : num := num_plus (progress m) n.

Definition updateAndSave (updater : MissionsData -> MissionsData) (prev : MissionsData) : MissionsData :=
  let next := updater prev in set_missions (recompute <$> missions next) next.

Definition deposit_update (amount : num) (isJupiterSwap : bool) (now : Z) (d : MissionsData) : MissionsData :=
  let l := change_first "weekly_volume" (advance_mission (plus amount))
             (change_first "daily_deposit" (advance_mission (plus (num_of_Z 1))) (missions d)) in
  let count := if isJupiterSwap then jupiterSwapCount d + 1 else jupiterSwapCount d in
  let l := if isJupiterSwap
           then change_first "achievement_10_swaps" (advance_mission (fun _ => num_of_Z count))
                  (change_first "daily_jupiter_swap" (advance_mission (plus (num_of_Z 1))) l)
           else l in
  mkData (walletAddress d) l (totalJup d) (level d) (streak d) (Some (today now)) count
    (totalDeposits d + 1) (num_plus (totalVolume d) amount) (roundsPlayed d) (wins d).

Definition round_update (now : Z) (d : MissionsData) : MissionsData :=
  let l := change_first "achievement_3day_streak" (advance_mission (fun _ => num_of_Z (streak d + 1)))
             (change_first "weekly_5_rounds" (advance_mission (plus (num_of_Z 1)))
                (change_first "daily_3rounds" (advance_mission (plus (num_of_Z 1))) (missions d))) in
  mkData (walletAddress d) l (totalJup d) (level d) (streak d) (Some (today now)) (jupiterSwapCount d)
    (totalDeposits d) (totalVolume d) (roundsPlayed d + 1) (wins d).

Definition win_update (d : MissionsData) : MissionsData :=
  mkData (walletAddress d)
    (change_first "achievement_first_win" (advance_mission (fun _ => num_of_Z (wins d + 1))) (missions d))
    (totalJup d) (level d) (streak d) (lastPlayDate d) (jupiterSwapCount d)
    (totalDeposits d) (totalVolume d) (roundsPlayed d) (wins d + 1).

(** [while (d.totalJup >= jupForLevel(d.level)) ...] *)
Fixpoint level_up (fuel : nat) (totalJup level : Z) : option (Z * Z) :=
  match fuel with
  | O => None
  | S fuel =>
      if jupForLevel level <=? totalJup then level_up fuel (totalJup - jupForLevel level) (level + 1)
      else Some (totalJup, level)
  end.

(** The mission that can be claimed. *)
Definition claimable_mission (missionId : string) (d : MissionsData) : option Mission :=
  match find_mission missionId (missions d) with
  | Some m => if negb (completed m) || claimed m then None else Some m
  | None => None
  end.

Definition claim_update (missionId : string) (d : MissionsData) : MissionsData :=
  match claimable_mission missionId d with
  | None => d
  | Some m =>
      let d := set_missions (change_first missionId set_claimed (missions d)) d in
      let jup := totalJup d + xp m in
      match level_up (S (Z.to_nat jup)) jup (level d) with
      | Some (jup, level) => set_jup jup level d
      | None => d
      end
  end.

(** ** The hook *)

Inductive MissionOp :=
| Mount (wallet : option string) (now1 now2 : Z)
| TrackDeposit (amount : num) (isJupiterSwap : bool) (now : Z)
| TrackRoundPlayed (now : Z)
| TrackWin
| ClaimMission (missionId : string).

(** The state of the hook, and local storage by wallet. *)
Record MissionsHook := mkMissionsHook {
  h_data : option MissionsData;
  h_storage : list (string * MissionsData)
}.

Definition updater_of (op : MissionOp) : MissionsData -> MissionsData :=
  match op with
  | Mount _ _ _ => fun d => d
  | TrackDeposit amount swap now => deposit_update amount swap now
  | TrackRoundPlayed now => round_update now
  | TrackWin => win_update
  | ClaimMission id => claim_update id
  end.

(** [ok]: whether local storage takes the data. *)
Definition saveMissionsData (ok : bool) (data : MissionsData) (storage : list (string * MissionsData)) :=
  if ok then map_set (walletAddress data) data storage else storage.

Definition mission_step (ok : bool) (op : MissionOp) (s : MissionsHook) : MissionsHook :=
  match op with
  | Mount None _ _ | Mount (Some "") _ _ => mkMissionsHook None (h_storage s)
  | Mount (Some wallet) now1 now2 =>
      mkMissionsHook (Some (loadMissionsData (Ok <$> map_get wallet (h_storage s)) wallet now1 now2)) (h_storage s)
  | _ =>
      match h_data s with
      | None => s
      | Some prev =>
          let next := updateAndSave (updater_of op) prev in
          mkMissionsHook (Some next) (saveMissionsData ok next (h_storage s))
      end
  end.

(** What the hook shows. *)
Definition completedCount (s : MissionsHook) : nat :=
  match h_data s with Some d => length (filter (fun m => completed m = true) (missions d)) | None => 0%nat end.
Definition claimableCount (s : MissionsHook) : nat :=
  match h_data s with
  | Some d => length (filter (fun m => completed m && negb (claimed m) = true) (missions d))
  | None => 0%nat
  end.
End missions.

(** ** The state of the missions *)

Section correctness.
Context (offset : Z -> Z).

(** All the rewards claimed so far: what is left plus the levels that were paid for. *)
Definition jup_earned (d : MissionsData) : Z := totalJup d + 50 * level d * (level d - 1).

(** The requirement is a positive number. *)
Definition sane (r : num) : Prop :=
  SFltb r r = false /\ SFltb r (num_of_Z 0) = false /\ SFleb r (num_of_Z 0) = false.

(** The mission is that of the program, apart from its progress. *)
Definition same_mission (m dm : Mission) : Prop :=
  m_id m = m_id dm /\ m_type m = m_type dm /\ requirement m = requirement dm /\ xp m = xp dm.

(** While it is updated: the progress does not exceed the requirement, and a claimed
    mission has reached it. *)
Definition progress_ok (m : Mission) : Prop :=
  sane (requirement m) /\ SFltb (requirement m) (progress m) = false /\
  (claimed m = true -> completed m = true /\ SFleb (requirement m) (progress m) = true).

Definition mission_ok (m : Mission) : Prop :=
  progress_ok m /\ completed m = SFleb (requirement m) (progress m).

Record data_ok (d : MissionsData) : Prop := {
  ok_same : Forall2 same_mission (missions d) getDefaultMissions;
  ok_missions : Forall mission_ok (missions d);
  ok_level : 1 <= level d;
  ok_jup : 0 <= totalJup d < jupForLevel (level d)
}.

Lemma level_up_ends fuel jup lv :
  1 <= lv -> 0 <= jup < Z.of_nat fuel ->
  exists j l, level_up fuel jup lv = Some (j, l) /\ 1 <= l /\ 0 <= j < jupForLevel l /\
    j + 50 * l * (l - 1) = jup + 50 * lv * (lv - 1).
Proof.
  revert jup lv. induction fuel as [|fuel IH]; intros jup lv Hlv Hj; [lia|].
  cbn [level_up]. unfold jupForLevel in *. destruct (Z.leb_spec (lv * 100) jup).
  - destruct (IH (jup - lv * 100) (lv + 1)) as (j & l & Hl & H1 & H2 & H3); [lia|lia|].
    exists j, l. split_and!; try done; lia.
  - exists jup, lv. split_and!; try done; lia.
Qed.

Lemma change_first_same id f l dl :
  (forall m dm, same_mission m dm -> same_mission (f m) dm) ->
  Forall2 same_mission l dl -> Forall2 same_mission (change_first id f l) dl.
Proof.
  intros Hf. induction 1 as [|m dm l dl Hm Hl IH]; simpl; [constructor|].
  destruct (String.eqb _ _); constructor; auto.
Qed.

Lemma change_first_ok (P : Mission -> Prop) id f l :
  (forall m, P m -> find_mission id l = Some m -> P (f m)) -> Forall P l -> Forall P (change_first id f l).
Proof.
  intros Hf. induction 1 as [|m l Hm Hl IH]; simpl; [constructor|].
  destruct (String.eqb (m_id m) id) eqn:E; constructor; try done.
  - apply Hf; [done|]. simpl. by rewrite E.
  - apply IH. intros m' Hm' Hfind. apply Hf; [done|]. simpl. by rewrite E.
Qed.

Lemma advance_same p m dm : same_mission m dm -> same_mission (advance_mission p m) dm.
Proof. unfold advance_mission. by destruct (completed m). Qed.

Lemma num_min_bound a r : SFltb r r = false -> SFltb r (num_min a r) = false.
Proof.
  intros Hr. unfold num_min.
  destruct (SFltb r a) eqn:E; destruct a, r; try done; simpl in *; by rewrite ?E.
Qed.

Lemma advance_ok p m : progress_ok m -> progress_ok (advance_mission p m).
Proof.
  unfold advance_mission. destruct (completed m) eqn:Hc; [done|]. intros (Hs & Hb & Hcl).
  split_and!; [done|apply num_min_bound, Hs|]. simpl. intros Hclaimed. destruct (Hcl Hclaimed) as [Hcm _].
  congruence.
Qed.

Lemma advance_first_ok id p l : Forall progress_ok l -> Forall progress_ok (change_first id (advance_mission p) l).
Proof. apply change_first_ok. intros m Hm _. by apply advance_ok. Qed.

Lemma advance_first_same id p l dl :
  Forall2 same_mission l dl -> Forall2 same_mission (change_first id (advance_mission p) l) dl.
Proof. apply change_first_same. intros. by apply advance_same. Qed.

Lemma mission_progress_ok l : Forall mission_ok l -> Forall progress_ok l.
Proof. intros Hl. eapply Forall_impl; [exact Hl|]. by intros m []. Qed.

Lemma recompute_ok m : progress_ok m -> mission_ok (recompute m).
Proof.
  intros (Hs & Hb & Hcl). split; [|done]. split_and!; [done|done|]. simpl. intros Hclaimed.
  destruct (Hcl Hclaimed) as [_ Hr]. done.
Qed.

Lemma recompute_same m dm : same_mission m dm -> same_mission (recompute m) dm.
Proof. done. Qed.

(** An update keeps the data good if it keeps the progress within bounds. *)
Lemma update_ok updater d :
  Forall2 same_mission (missions (updater d)) getDefaultMissions ->
  Forall progress_ok (missions (updater d)) ->
  1 <= level (updater d) -> 0 <= totalJup (updater d) < jupForLevel (level (updater d)) ->
  data_ok (updateAndSave updater d).
Proof.
  intros Hs Hp Hl Hj. split; [| |exact Hl|exact Hj].
  - unfold updateAndSave. simpl. apply Forall2_fmap_l. eapply Forall2_impl; [exact Hs|]. done.
  - unfold updateAndSave. simpl. apply Forall_fmap. eapply Forall_impl; [exact Hp|]. apply recompute_ok.
Qed.

Lemma find_mission_in id l m : find_mission id l = Some m -> m ∈ l /\ m_id m = id.
Proof.
  induction l as [|m' l IH]; simpl; [done|]. destruct (String.eqb_spec (m_id m') id) as [Hid|].
  - intros [= ->]. split; [left|done].
  - intros Hf. destruct (IH Hf). split; [by right|done].
Qed.

Lemma same_xp l dl : Forall2 same_mission l dl -> Forall (fun m => 0 <= xp m) dl -> Forall (fun m => 0 <= xp m) l.
Proof.
  induction 1 as [|m dm l dl (_ & _ & _ & Hx) Hl IH]; intros Hd; constructor; inversion_clear Hd; [lia|auto].
Qed.

Lemma reward_nonneg d id m : data_ok d -> find_mission id (missions d) = Some m -> 0 <= xp m.
Proof.
  intros [Hs _ _ _] [Hin _]%find_mission_in.
  assert (Forall (fun m => 0 <= xp m) getDefaultMissions) as Hd by (repeat constructor; simpl; lia).
  exact (proj1 (Forall_forall _ _) (same_xp _ _ Hs Hd) m Hin).
Qed.

Lemma claim_spec id d : data_ok d ->
  let d' := claim_update id d in
  Forall2 same_mission (missions d') getDefaultMissions /\ Forall progress_ok (missions d') /\
  1 <= level d' /\ 0 <= totalJup d' < jupForLevel (level d') /\
  jup_earned d' = jup_earned d + match claimable_mission id d with Some m => xp m | None => 0 end.
Proof.
  intros Hok d'. destruct Hok as [Hs Hm Hl Hj] eqn:Hd. unfold d', claim_update.
  destruct (claimable_mission id d) as [m|] eqn:Hc.
  2:{ split_and!; try done; [by apply mission_progress_ok|lia|lia|lia]. }
  unfold claimable_mission in Hc. destruct (find_mission id (missions d)) as [m'|] eqn:Hf; [|done].
  destruct (negb (completed m') || claimed m') eqn:Hg; [done|]. injection Hc as ->.
  apply orb_false_iff in Hg as [Hcomp%negb_false_iff Hncl].
  pose proof (reward_nonneg d id m Hok Hf) as Hxp.
  destruct (level_up_ends (S (Z.to_nat (totalJup d + xp m))) (totalJup d + xp m) (level d))
    as (j & l & Hup & H1 & H2 & H3); [done|lia|].
  cbn [set_missions totalJup level]. rewrite Hup. unfold jup_earned. cbn [set_jup set_missions missions level totalJup].
  split_and!; try done; [by apply change_first_same| |lia|lia|lia].
  apply change_first_ok; [|by apply mission_progress_ok].
  intros m1 (Hsane & Hb & _) Hf1. rewrite Hf1 in Hf. injection Hf as ->.
  split_and!; [done|done|]. intros _. simpl. split; [done|].
  destruct (find_mission_in _ _ _ Hf1) as [Hin _].
  destruct (proj1 (Forall_forall _ _) Hm m Hin) as [_ <-]. done.
Qed.

Lemma find_recompute id l : find_mission id (recompute <$> l) = recompute <$> find_mission id l.
Proof.
  induction l as [|m l IH]; [done|]. simpl. destruct (String.eqb (m_id m) id); [done|exact IH].
Qed.

Lemma find_change_first id f l : (forall m, m_id (f m) = m_id m) ->
  find_mission id (change_first id f l) = f <$> find_mission id l.
Proof.
  intros Hf. induction l as [|m l IH]; [done|]. simpl.
  destruct (String.eqb (m_id m) id) eqn:E; simpl; [by rewrite Hf, E|by rewrite E].
Qed.

(** A mission that was claimed cannot be claimed again. *)
Lemma claim_once id d : data_ok d -> claimable_mission id (updateAndSave (claim_update id) d) = None.
Proof.
  intros [_ Hm _ _]. unfold claimable_mission at 1. unfold updateAndSave. cbn [missions set_missions].
  rewrite find_recompute. unfold claim_update. destruct (claimable_mission id d) as [m|] eqn:Hc.
  - assert (find_mission id (missions (set_missions (change_first id set_claimed (missions d)) d)) =
      set_claimed <$> find_mission id (missions d)) as Hf by by apply find_change_first.
    destruct (level_up _ _ _) as [[j l]|]; cbn [missions set_jup]; rewrite Hf;
      destruct (find_mission id (missions d)); simpl; by rewrite ?orb_true_r.
  - unfold claimable_mission in Hc. destruct (find_mission id (missions d)) as [m|] eqn:Hf; [|done]. simpl.
    destruct (find_mission_in _ _ _ Hf) as [Hin _].
    destruct (proj1 (Forall_forall _ _) Hm m Hin) as [_ <-]. by destruct (_ || _).
Qed.

(** *** Loading *)

Lemma reset_ok m : mission_ok m -> mission_ok (reset m).
Proof. intros [(Hs & Hb & Hcl) _]. destruct Hs as (Hr & H0 & H1). by repeat split. Qed.

Lemma reset_all_ok (f : Mission -> Mission) d :
  (forall m, f m = m \/ f m = reset m) -> data_ok d -> data_ok (set_missions (f <$> missions d) d).
Proof.
  intros Hf [Hs Hm Hl Hj]. split; [| |exact Hl|exact Hj]; cbn [missions set_missions].
  - apply Forall2_fmap_l. eapply Forall2_impl; [exact Hs|]. intros m dm Hsame. simpl. by destruct (Hf m) as [-> | ->].
  - apply Forall_fmap. eapply Forall_impl; [exact Hm|]. intros m Hmk. simpl.
    destruct (Hf m) as [-> | ->]; [done|by apply reset_ok].
Qed.

Lemma new_day_ok t d : data_ok d -> data_ok (new_day t d).
Proof.
  intros Hd. unfold new_day. case_bool_decide; [done|].
  assert (data_ok (set_missions (reset_daily <$> missions d) d)) as [Hs Hm Hl Hj].
  { apply reset_all_ok; [|done]. intros m. unfold reset_daily. destruct (m_type m); auto. }
  cbn [lastPlayDate set_missions]. destruct (lastPlayDate d); [|by split].
  destruct (_ =? _); [by split|]. destruct (_ <? _); by split.
Qed.

Lemma new_week_ok now d : data_ok d -> data_ok (new_week offset now d).
Proof.
  intros Hd. unfold new_week. case_bool_decide; [done|]. apply reset_all_ok; [|done].
  intros m. unfold reset_weekly. destruct (m_type m); auto.
Qed.

Lemma same_ids l dl : Forall2 same_mission l dl -> m_id <$> l = m_id <$> dl.
Proof. induction 1 as [|m dm l dl (Hi & _) Hl IH]; [done|]. cbn. f_equal; [exact Hi|exact IH]. Qed.

(** The missions of stored data are those of the program: nothing is added or removed. *)
Lemma merge_same d : data_ok d -> merge_missions d = d.
Proof.
  intros [Hs _ _ _]. unfold merge_missions. rewrite (same_ids _ _ Hs).
  rewrite (filter_drops _ getDefaultMissions).
  2:{ apply Forall_forall. intros m Hin Hn. apply Hn. by apply list_elem_of_fmap_2. }
  rewrite app_nil_r. assert (filter (fun m => m_id m ∈ m_id <$> getDefaultMissions) (missions d) = missions d) as ->.
  { apply filter_keeps. rewrite <- (same_ids _ _ Hs). apply Forall_forall. intros m Hin.
    by apply list_elem_of_fmap_2. }
  by destruct d.
Qed.

Lemma fresh_ok w : data_ok (fresh_data w).
Proof.
  split; [| |simpl; lia|unfold jupForLevel; simpl; lia].
  - by repeat constructor.
  - repeat (apply Forall_cons; split; [vm_compute; naive_solver|]). apply Forall_nil. done.
Qed.

Lemma load_ok raw w now1 now2 :
  (forall d, raw = Some (Ok d) -> data_ok d) -> data_ok (loadMissionsData offset raw w now1 now2).
Proof.
  intros Hraw. unfold loadMissionsData. destruct raw as [[d|e]|]; try apply fresh_ok.
  assert (data_ok (new_week offset now2 (new_day (today now1) d))) as Hd by by apply new_week_ok, new_day_ok, Hraw.
  by rewrite merge_same.
Qed.

(** *** The hook *)

(** The states of the hook, from an empty storage; a write may fail. *)
Inductive mission_state : MissionsHook -> Prop :=
| mission_start : mission_state (mkMissionsHook None [])
| mission_next ok op s : mission_state s -> mission_state (mission_step offset ok op s).

Definition hook_ok (s : MissionsHook) : Prop :=
  (forall d, h_data s = Some d -> data_ok d) /\
  (forall w d, (w, d) ∈ h_storage s -> data_ok d /\ walletAddress d = w) /\
  map_wf (h_storage s).

(** The updates, apart from the claims, leave the rewards alone. *)
Lemma track_spec op d : data_ok d ->
  match op with ClaimMission _ | Mount _ _ _ => True | _ =>
    data_ok (updateAndSave (updater_of op) d) /\ jup_earned (updateAndSave (updater_of op) d) = jup_earned d
  end.
Proof.
  intros [Hs Hm Hl Hj]. pose proof (mission_progress_ok _ Hm) as Hp.
  destruct op as [|amount swap now|now| |]; try done; (split; [|done]); apply update_ok; try done;
    cbn [updater_of deposit_update round_update win_update missions];
    try (destruct swap); auto using advance_first_same, advance_first_ok.
Qed.

Lemma updated_ok op d : data_ok d -> data_ok (updateAndSave (updater_of op) d).
Proof.
  intros Hd. destruct op as [w n1 n2|amount swap now|now| |id].
  - destruct Hd as [Hs Hm Hl Hj]. apply update_ok; try done. by apply mission_progress_ok.
  - by destruct (track_spec (TrackDeposit amount swap now) d Hd).
  - by destruct (track_spec (TrackRoundPlayed now) d Hd).
  - by destruct (track_spec TrackWin d Hd).
  - destruct (claim_spec id d Hd) as (Hs & Hp & Hl & Hj & _). by apply update_ok.
Qed.

Lemma saved_ok ok d storage :
  data_ok d -> (forall w d, (w, d) ∈ storage -> data_ok d /\ walletAddress d = w) -> map_wf storage ->
  (forall w d', (w, d') ∈ saveMissionsData ok d storage -> data_ok d' /\ walletAddress d' = w) /\
  map_wf (saveMissionsData ok d storage).
Proof.
  intros Hd Hst Hwf. unfold saveMissionsData. destruct ok; [|done]. split; [|by apply map_set_wf].
  intros w d' Hin. apply map_get_elem in Hin; [|by apply map_set_wf].
  destruct (String.eqb_spec w (walletAddress d)) as [->|Hne].
  - rewrite map_get_set in Hin. by injection Hin as <-.
  - rewrite map_get_set_ne in Hin by done. by apply Hst, map_get_elem.
Qed.

Lemma mission_step_ok ok op s : hook_ok s -> hook_ok (mission_step offset ok op s).
Proof.
  intros Hok. pose proof Hok as (Hd & Hst & Hwf).
  assert (forall prev, h_data s = Some prev ->
    hook_ok (let next := updateAndSave (updater_of op) prev in
             mkMissionsHook (Some next) (saveMissionsData ok next (h_storage s)))) as Hup.
  { intros prev Hprev. pose proof (updated_ok op prev (Hd _ Hprev)) as Hn.
    destruct (saved_ok ok _ _ Hn Hst Hwf) as [Hs' Hw']. split; [by intros d [= <-]|split; done]. }
  assert (hook_ok (mkMissionsHook None (h_storage s))) as Hnone by (split; [done|split; done]).
  assert (match h_data s with None => hook_ok s | Some _ => True end) as Hs by by destruct (h_data s).
  destruct op as [[[|c w]|] n1 n2| | | |]; cbn [mission_step]; try exact Hnone;
    try (destruct (h_data s) as [prev|] eqn:Hp; [by apply Hup|exact Hs]).
  split; [|split; done]. cbn [h_data]. intros d [= <-].
  apply load_ok. intros d Hraw. destruct (map_get _ _) as [d'|] eqn:Hg; [|done]. injection Hraw as ->.
  apply map_get_elem in Hg; [|done]. by eapply Hst.
Qed.

Lemma mission_state_ok s : mission_state s -> hook_ok s.
Proof.
  induction 1 as [|ok op s _ IH]; [|by apply mission_step_ok].
  split; [done|]. split; [|apply NoDup_nil_2]. intros w d Hin. by apply elem_of_nil in Hin.
Qed.
End correctness.


(** ** Concrete days *)

Module MissionsWitness.
Local Abbreviation utc := (fun _ : Z => 0).
Local Abbreviation run ops := (fold_left (fun s op => mission_step utc true op s) ops (mkMissionsHook None [])).

Definition day (n : Z) : Z := n * DAY_MS.
Definition first_day : list MissionOp :=
  [Mount (Some "W") (day 100) (day 100); TrackDeposit (num_of_Z 40) true (day 100); TrackRoundPlayed (day 100);
   TrackDeposit (num_of_Z 70) false (day 100); TrackWin; ClaimMission "daily_deposit"; ClaimMission "weekly_volume";
   ClaimMission "weekly_volume"; ClaimMission "daily_3rounds"].

(** 25 and 200 are claimed: 100 of them for the second level. *)
Example first_claims :
  match h_data (run first_day) with
  | Some d => (totalJup d, level d, jup_earned d) = (125, 2, 225) /\
      map m_id (filter (fun m => completed m = true) (missions d)) =
        ["daily_deposit"; "daily_jupiter_swap"; "weekly_volume"; "achievement_first_win"]
  | None => False
  end /\ claimableCount (run first_day) = 2%nat /\ completedCount (run first_day) = 4%nat.
Proof. vm_compute. done. Qed.

(** The next day the dailies start again and the streak goes on. *)
Example next_day :
  match h_data (run (first_day ++ [Mount (Some "W") (day 101) (day 101)])) with
  | Some d => streak d = 1 /\ map m_id (filter (fun m => claimed m = true) (missions d)) = ["weekly_volume"]
  | None => False
  end.
Proof. vm_compute. done. Qed.

(** In a page that stays open past midnight they do not: once something is played on the new
    day, reloading finds the dailies of the day before, and the streak is lost. *)
Example stale_dailies :
  match h_data (run (first_day ++ [TrackRoundPlayed (day 101); Mount (Some "W") (day 101) (day 101)])) with
  | Some d => streak d = 0 /\
      map m_id (filter (fun m => claimed m = true) (missions d)) = ["daily_deposit"; "weekly_volume"]
  | None => False
  end.
Proof. vm_compute. done. Qed.

Lemma run_from ops s :
  mission_state utc s -> mission_state utc (fold_left (fun s op => mission_step utc true op s) ops s).
Proof. revert s. induction ops as [|op ops IH]; intros s Hs; [done|]. simpl. by apply IH, mission_next. Qed.

Lemma run_state ops : mission_state utc (run ops).
Proof. apply run_from. constructor. Qed.

End MissionsWitness.
