(* ===== verification/TapestryBridge.v ===== *)
(** * TapestryBridge: crank/src/tapestry.ts

    The crank's announcement of a settled round to the Tapestry social graph: a "win" for
    the winner and a "loss" for every other participant.  The requests are recorded with
    what they send; the console output is not.  The texts [String(n)] of numbers are kept
    as the numbers ([NumText]). *)

From stdpp Require Import base list strings pretty.
From Stdlib Require Import ZArith Lia Ascii SpecFloat.
From S2P Require Import Prelude JsRuntime Effects.

Local Open Scope string_scope.
Local Open Scope list_scope.
Local Open Scope Z_scope.

(** [s.toLowerCase()] of ASCII text. *)
Definition lower_char (c : ascii) : ascii :=
  if ascii_between "A" "Z" c then ascii_of_nat (nat_of_ascii c + 32) else c.
Fixpoint toLowerCase (s : string) : string :=
  match s with
  | EmptyString => EmptyString
  | String c rest => String (lower_char c) (toLowerCase rest)
  end.

Module Bridge.

Record TapestryProfile := mkProfile { id : string; username : string }.

(** The answer to a request for a profile: [ok], and the body [{ profile?: ... }] if it
    can be read. *)
Record ProfileReply := mkReply { ok : bool; body : Res (option TapestryProfile) }.

(** [String(n)] of a number, or a text. *)
Inductive PropText := NumText (n : num) | Text (s : string).

Record Content := mkContent { c_id : string; c_profileId : string; c_properties : list (string * PropText) }.

Record RoundSettledEvent := mkSettled {
  roundId : Z;
  winnerWallet : string;
  totalUsdc : num;
  participantWallets : list string
}.

(** What the bridge does: it asks for the profile of a wallet, creates a content, or waits. *)
Inductive BridgeEvent :=
| EvProfile (name wallet : string) (r : Res ProfileReply)
| EvContent (c : Content) (r : Res bool)
| EvSleep (ms : Z).

Class TapestryRest := {
  RestWorld : Type;
  (** [POST profiles/findOrCreate]; it can fail or time out *)
  postProfile : string -> string -> RestWorld -> Res ProfileReply * RestWorld;
  (** [POST contents/findOrCreate]: [res.ok] *)
  postContent : Content -> RestWorld -> Res bool * RestWorld
}.

Section bridge.
Context `{TapestryRest} (TAPESTRY_API_KEY TAPESTRY_NAMESPACE : string).
Local Abbreviation M := (M unit RestWorld BridgeEvent).
Local Abbreviation Proc := (Proc unit RestWorld BridgeEvent).

Definition isTapestryEnabled : bool := (0 <? String.length TAPESTRY_API_KEY)%nat.

Definition profile_name (wallet : string) : string :=
  TAPESTRY_NAMESPACE +:+ "-" +:+ toLowerCase (String.substring 0 6 wallet).

Definition resolveProfileId (wallet : string) : M (option string) :=
  try_catch
    (res ← invoke (postProfile (profile_name wallet) wallet) (EvProfile (profile_name wallet) wallet);
     if negb (ok res) then mret None
     else data ← lift (body res); mret (id <$> data))
    (fun _ => mret None).

Definition createContent (profileId contentId : string) (properties : list (string * PropText)) : M bool :=
  let c := mkContent contentId profileId properties in
  try_catch (invoke (postContent c) (EvContent c)) (fun _ => mret false).

Definition sleep (ms : Z) : M unit := emit (EvSleep ms).

(** [!profileId] *)
Definition usable (profileId : option string) : option string :=
  match profileId with Some "" => None | other => other end.

(** The contents, with a single retry. *)
Definition create_twice (profileId contentId : string) (props : list (string * PropText)) : M bool :=
  ok ← createContent profileId contentId props;
  if negb ok then createContent profileId contentId props else mret ok.

Definition content_id (profileId kind : string) (roundId : Z) : string :=
  profileId +:+ ":" +:+ kind +:+ ":" +:+ pretty roundId.

(** The properties the two kinds of event share. *)
Definition event_props (e : RoundSettledEvent) (kind : string) : list (string * PropText) :=
  [("eventType", Text kind);
   ("round", Text (pretty (roundId e)));
   ("totalPot", NumText (totalUsdc e));
   ("currency", Text "USDC");
   ("participants", Text (pretty (length (participantWallets e))))].

(** The win of the winner; false if the function returns early. *)
Definition publish_win (e : RoundSettledEvent) : M bool :=
  try_catch
    (profileId ← resolveProfileId (winnerWallet e);
     match usable profileId with
     | None => mret false
     | Some profileId =>
         _ ← create_twice profileId (content_id profileId "win" (roundId e)) (event_props e "win");
         mret true
     end)
    (fun _ => mret true).

Definition losers (e : RoundSettledEvent) : list string :=
  filter (fun w => w ≠ winnerWallet e) (participantWallets e).

Definition publish_loss (e : RoundSettledEvent) (loserWallet : string) : M unit :=
  try_catch
    (profileId ← resolveProfileId loserWallet;
     match usable profileId with
     | None => mret tt
     | Some profileId =>
         _ ← create_twice profileId (content_id profileId "loss" (roundId e))
               (event_props e "loss" ++ [("winner", Text (winnerWallet e))]);
         if bool_decide (last (losers e) = Some loserWallet) then mret tt else sleep 250
     end)
    (fun _ => mret tt).

Definition publishRoundSettled (e : RoundSettledEvent) : M unit :=
  if negb isTapestryEnabled then mret tt
  else
    goes_on ← publish_win e;
    if negb goes_on then mret tt else for_each (losers e) (publish_loss e).

(** ** What is requested *)

(** The profile that an answer gives, as the code reads it. *)
Definition answered (r : Res ProfileReply) : option string :=
  match r with
  | Ok reply => if ok reply then usable (id <$> default None (res_value (body reply))) else None
  | Throw _ => None
  end.

Definition contents_of (e : RoundSettledEvent) (kind wallet profileId : string) : Content :=
  mkContent (content_id profileId kind (roundId e)) profileId
    (event_props e kind ++ (if String.eqb kind "loss" then [("winner", Text (winnerWallet e))] else [])).

(** The requests that announce a wallet's event, in order, and whether its profile was
    found: the profile, then the content, once more if the first attempt failed. *)
Inductive announced (e : RoundSettledEvent) (kind wallet : string) : bool -> list BridgeEvent -> Prop :=
| not_resolved r :
    answered r = None -> announced e kind wallet false [EvProfile (profile_name wallet) wallet r]
| created r profileId :
    answered r = Some profileId ->
    announced e kind wallet true
      [EvProfile (profile_name wallet) wallet r; EvContent (contents_of e kind wallet profileId) (Ok true)]
| retried r profileId r1 r2 :
    answered r = Some profileId -> r1 <> Ok true ->
    announced e kind wallet true
      [EvProfile (profile_name wallet) wallet r;
       EvContent (contents_of e kind wallet profileId) r1; EvContent (contents_of e kind wallet profileId) r2].

Definition is_request (ev : BridgeEvent) : bool := match ev with EvSleep _ => false | _ => true end.

(** The computation returns [a] after the events [evs], in order. *)
Definition emits {A} (m : M A) (Q : A -> list BridgeEvent -> Prop) (p : Proc) : Prop :=
  wp m (fun r q => exists a evs, r = Ok a /\ history q = rev evs ++ history p /\ Q a evs) p.

Lemma emits_bind {A B} (m : M A) (f : A -> M B) Q R p :
  emits m Q p ->
  (forall a evs q, Q a evs -> emits (f a) (fun b evs' => R b (evs ++ evs')) q) ->
  emits (mbind f m) R p.
Proof.
  unfold emits. intros Hm Hf. apply wp_bind. eapply wp_mono; [exact Hm|].
  intros r q (a & evs & -> & Hh & HQ). eapply wp_mono; [exact (Hf a evs q HQ)|].
  intros r' q' (b & evs' & -> & Hh' & HR). exists b, (evs ++ evs'). split_and!; [done| |done].
  rewrite Hh', Hh, rev_app_distr. by rewrite app_assoc.
Qed.

Lemma emits_ret {A} (a : A) (Q : A -> list BridgeEvent -> Prop) p : Q a [] -> emits (mret a) Q p.
Proof. intros HQ. by exists a, []. Qed.

Lemma emits_mono {A} (m : M A) (Q R : A -> list BridgeEvent -> Prop) p :
  emits m Q p -> (forall a evs, Q a evs -> R a evs) -> emits m R p.
Proof.
  unfold emits. intros Hm HQ. eapply wp_mono; [exact Hm|]. intros r q (a & evs & Hr & Hh & Ha). exists a, evs. auto.
Qed.

Lemma emits_run {A} (m : M A) Q p :
  emits m Q p -> exists a q evs, m p = (Ok a, q) /\ history q = rev evs ++ history p /\ Q a evs.
Proof.
  unfold emits, wp. destruct (m p) as [r q]. intros (a & evs & Hr & Hh & HQ). simpl in *. subst r.
  by exists a, q, evs.
Qed.

(** What does not throw is not caught. *)
Lemma emits_try {A} (m : M A) h Q p : emits m Q p -> emits (try_catch m h) Q p.
Proof.
  unfold emits. intros Hm. apply wp_try. eapply wp_mono; [exact Hm|].
  intros r q (a & evs & -> & Hh & HQ). by exists a, evs.
Qed.

Lemma resolve_emits wallet p :
  emits (resolveProfileId wallet)
    (fun a evs => exists r, evs = [EvProfile (profile_name wallet) wallet r] /\ usable a = answered r) p.
Proof.
  apply wp_try, wp_bind, wp_invoke. intros r w. destruct r as [reply|er].
  - unfold answered. destruct (ok reply) eqn:Hok; simpl.
    + apply wp_bind, wp_lift. destruct (body reply) as [data|er] eqn:Hb.
      * exists (id <$> data), [EvProfile (profile_name wallet) wallet (Ok reply)].
        split_and!; [done|done|]. exists (Ok reply). by rewrite Hok, Hb.
      * exists None, [EvProfile (profile_name wallet) wallet (Ok reply)].
        split_and!; [done|done|]. exists (Ok reply). by rewrite Hok, Hb.
    + exists None, [EvProfile (profile_name wallet) wallet (Ok reply)].
      split_and!; [done|done|]. exists (Ok reply). by rewrite Hok.
  - exists None, [EvProfile (profile_name wallet) wallet (Throw er)]. split_and!; [done|done|].
    by exists (Throw er).
Qed.

Lemma create_emits profileId contentId props p :
  let c := mkContent contentId profileId props in
  emits (createContent profileId contentId props)
    (fun a evs => exists r, evs = [EvContent c r] /\ (a = true <-> r = Ok true)) p.
Proof.
  intros c. apply wp_try, wp_invoke. intros [[]|er] w; simpl.
  - exists true, [EvContent c (Ok true)]. split_and!; [done|done|]. by exists (Ok true).
  - exists false, [EvContent c (Ok false)]. split_and!; [done|done|]. by exists (Ok false).
  - exists false, [EvContent c (Throw er)]. split_and!; [done|done|]. by exists (Throw er).
Qed.

Lemma create_twice_emits profileId contentId props p :
  let c := mkContent contentId profileId props in
  emits (create_twice profileId contentId props)
    (fun _ evs => evs = [EvContent c (Ok true)] \/
       exists r1 r2, r1 <> Ok true /\ evs = [EvContent c r1; EvContent c r2]) p.
Proof.
  intros c. eapply emits_bind; [apply create_emits|].
  intros a evs q (r1 & -> & Hr1). destruct a; simpl.
  - apply emits_ret. left. by rewrite (proj1 Hr1).
  - eapply emits_mono; [apply create_emits|]. intros b evs (r2 & -> & _). right. exists r1, r2.
    split; [|done]. intros ->. discriminate (proj2 Hr1 eq_refl).
Qed.

(** One announcement, followed by [rest] when the profile was found. *)
Lemma announce_emits {A} e kind wallet extra (no : A) (yes : M A) (R : A -> list BridgeEvent -> Prop) p :
  extra = event_props e kind ++ (if String.eqb kind "loss" then [("winner", Text (winnerWallet e))] else []) ->
  (forall evs, announced e kind wallet false evs -> R no evs) ->
  (forall evs q, announced e kind wallet true evs -> emits yes (fun a evs' => R a (evs ++ evs')) q) ->
  emits (profileId ← resolveProfileId wallet;
         match usable profileId with
         | None => mret no
         | Some profileId =>
             _ ← create_twice profileId (content_id profileId kind (roundId e)) extra; yes
         end) R p.
Proof.
  intros -> Hno Hyes. eapply emits_bind; [apply resolve_emits|].
  intros a evs q (r & -> & Hr). destruct (usable a) as [profileId|].
  - eapply emits_bind; [apply create_twice_emits|].
    intros b evs q' [->|(r1 & r2 & Hr1 & ->)].
    + eapply emits_mono; [apply (Hyes _ q' (created e kind wallet r profileId (eq_sym Hr)))|]. done.
    + eapply emits_mono; [apply (Hyes _ q' (retried e kind wallet r profileId r1 r2 (eq_sym Hr) Hr1))|].
      done.
  - apply emits_ret. rewrite app_nil_r. apply Hno. by constructor.
Qed.

Lemma announced_requests e kind wallet b evs : announced e kind wallet b evs -> filter is_request evs = evs.
Proof. by intros []. Qed.

Lemma win_emits e p : emits (publish_win e) (announced e "win" (winnerWallet e)) p.
Proof.
  apply emits_try, announce_emits; [by rewrite app_nil_r|done|].
  intros evs q Ha. apply emits_ret. by rewrite app_nil_r.
Qed.

Lemma loss_emits e wallet p :
  emits (publish_loss e wallet)
    (fun _ evs => exists b, announced e "loss" wallet b (filter is_request evs)) p.
Proof.
  apply emits_try, announce_emits; [done| |].
  - intros evs Ha. exists false. by rewrite (announced_requests _ _ _ _ _ Ha).
  - intros evs q Ha. assert (filter is_request evs = evs) as Hf by eauto using announced_requests.
    case_bool_decide.
    + apply emits_ret. exists true. by rewrite app_nil_r, Hf.
    + exists tt, [EvSleep 250]. split_and!; [done|done|]. exists true. by rewrite filter_app, Hf, app_nil_r.
Qed.

Lemma losses_emit e l p :
  emits (for_each l (publish_loss e))
    (fun _ evs => exists parts, evs = concat parts /\
       Forall2 (fun wallet part => exists b, announced e "loss" wallet b (filter is_request part)) l parts) p.
Proof.
  revert p. induction l as [|wallet l IH]; intros p; simpl.
  - apply emits_ret. by exists [].
  - eapply emits_bind; [apply loss_emits|]. intros [] evs q Hl.
    eapply emits_mono; [apply IH|]. intros [] evs' (parts & -> & Hp).
    exists (evs :: parts). split; [done|]. by constructor.
Qed.
End bridge.
End Bridge.

Section claims.
Context `{Bridge.TapestryRest} (TAPESTRY_API_KEY TAPESTRY_NAMESPACE : string).
Import Bridge.

(** The announcement of a settled round never throws, and makes no request without an
    API key.  Otherwise its requests are the announcement of the winner's win, followed,
    exactly if the winner's profile was found, by that of the loss of every other
    participant, in their order; each of them asks for the wallet's profile, and creates
    one content of that profile and of this round, with one more attempt if and only if
    the first did not succeed. *)
Theorem publish_requests e (p : Proc unit RestWorld BridgeEvent) :
  let run := publishRoundSettled TAPESTRY_API_KEY TAPESTRY_NAMESPACE e p in
  fst run = Ok tt /\
  (TAPESTRY_API_KEY = "" -> snd run = p) /\
  (TAPESTRY_API_KEY <> "" ->
   exists found win parts,
     history (snd run) = rev (win ++ concat parts) ++ history p /\
     announced TAPESTRY_NAMESPACE e "win" (winnerWallet e) found win /\
     (found = false -> parts = []) /\
     (found = true ->
      Forall2 (fun wallet part => exists b, announced TAPESTRY_NAMESPACE e "loss" wallet b (filter is_request part))
        (filter (fun w => w <> winnerWallet e) (participantWallets e)) parts)).
Proof.
  cbv zeta. unfold publishRoundSettled, isTapestryEnabled.
  destruct TAPESTRY_API_KEY as [|c key]; [done|].
  change (negb (0 <? String.length (String c key))%nat) with false. cbv iota.
  assert (emits (A := unit) (goes_on ← publish_win TAPESTRY_NAMESPACE e;
      if negb goes_on then mret tt else for_each (losers e) (publish_loss TAPESTRY_NAMESPACE e))
    (fun _ evs => exists found win parts, evs = win ++ concat parts /\
       announced TAPESTRY_NAMESPACE e "win" (winnerWallet e) found win /\ (found = false -> parts = []) /\
       (found = true -> Forall2 (fun wallet part => exists b,
          announced TAPESTRY_NAMESPACE e "loss" wallet b (filter is_request part)) (losers e) parts)) p) as Hall.
  { eapply emits_bind; [apply win_emits|]. intros found win q Hw. destruct found; simpl.
    - eapply emits_mono; [apply losses_emit|]. intros [] evs (parts & -> & Hp).
      by exists true, win, parts.
    - apply emits_ret. by exists false, win, []. }
  apply emits_run in Hall as ([] & q & evs & -> & Hh & (found & win & parts & -> & Hrest)).
  split_and!; [done|done|]. intros _. exists found, win, parts. done.
Qed.
End claims.

(** ** A concrete service *)

Module BridgeWitness.
Import Bridge.

(** Knows every wallet but ["Nobody"]; contents succeed at the second attempt. *)
Instance toy : TapestryRest := {|
  RestWorld := nat;
  postProfile name wallet w :=
    (Ok (mkReply true (Ok (if String.eqb wallet "Nobody" then None
                           else Some (mkProfile ("id-" +:+ wallet) name)))), w);
  postContent c w := (Ok (Nat.odd w), S w)
|}.

Definition settled (winner : string) : RoundSettledEvent :=
  mkSettled 7 winner (num_of_Z 12) ["ALICE11"; "Bob"; winner; "Nobody"].

Local Abbreviation run e := (history (snd (publishRoundSettled "key" "winny" e (mkProc tt 0%nat [])))).

Example publishes :
  map (fun ev => match ev with
                 | EvProfile name _ _ => name
                 | EvContent c _ => c_id c
                 | EvSleep _ => "sleep"
                 end) (rev (run (settled "Winner"))) =
  ["winny-winner"; "id-Winner:win:7"; "id-Winner:win:7";
   "winny-alice1"; "id-ALICE11:loss:7"; "id-ALICE11:loss:7"; "sleep";
   "winny-bob"; "id-Bob:loss:7"; "id-Bob:loss:7"; "sleep"; "winny-nobody"].
Proof. reflexivity. Qed.

(** Without the winner's profile the losses are not announced either. *)
Example losses_skipped : length (run (settled "Nobody")) = 1%nat.
Proof. reflexivity. Qed.

Lemma publish_requests_witness :
  exists found win parts,
    run (settled "Winner") = rev (win ++ concat parts) ++ [] /\
    announced "winny" (settled "Winner") "win" "Winner" found win /\
    (found = false -> parts = []) /\
    (found = true ->
     Forall2 (fun wallet part => exists b,
       announced "winny" (settled "Winner") "loss" wallet b (filter is_request part))
       ["ALICE11"; "Bob"; "Nobody"] parts).
Proof. exact (proj2 (proj2 (publish_requests "key" "winny" (settled "Winner") (mkProc tt 0%nat []))) ltac:(discriminate)). Defined.
End BridgeWitness.
