(* ===== verification/TapestryApi.v ===== *)
(** * TapestryApi: lib/api/tapestry-shared.ts and src/lib/tapestry/normalize.ts

    The server's access to the Tapestry social graph: profiles, the activity feed,
    comments, likes, search and identities, with four caches in the memory of the server.
    The SDK client is a parameter; the requests that change the graph are recorded, and so
    are the requests for profiles.  The functions of a [Promise.all] run one after the
    other in the model, in the order of the list. *)

From stdpp Require Import base list strings pretty.
From Stdlib Require Import ZArith Lia Ascii SpecFloat.
From S2P Require Import Prelude JsRuntime Effects Solana Actions JsMap TapestryBridge.

Local Open Scope string_scope.
Local Open Scope list_scope.
Local Open Scope Z_scope.
Set Warnings "-clear-no-such-hyp".

Module Tap.

(** ** Data *)

(** [x || undefined] for a text *)
Definition truthy (x : option string) : option string :=
  match x with Some "" => None | other => other end.

(** [a || b] and [a ?? b] *)
Definition or_text (a b : option string) : option string :=
  match truthy a with Some s => Some s | None => b end.
Definition or_null {A} (a b : option A) : option A := match a with Some _ => a | None => b end.

(** [s.replace(/^@/, "")] *)
Definition strip_at (s : string) : string :=
  match s with String "@" rest => rest | _ => s end.

Record ContactLike := mkContact {
  k_id : option string; k_type : string; k_image : option string; k_bio : option string }.
Record ProfilePart := mkProfilePart {
  pp_id : string; pp_username : option string; pp_image : option string; pp_bio : option string }.

(** A profile as the service answers it; [pl_counts] is [following + followers]. *)
Record TapestryProfileLike := mkProfileLike {
  pl_profile : option ProfilePart;
  pl_wallet : option string;
  pl_walletAddress : option string;
  pl_namespace : option (option string * option string);
  pl_contact : option ContactLike;
  pl_counts : Z
}.

Record Roll2RollSocialProfile := mkSocial {
  wallet : string;
  profileId : option string;
  displayName : string;
  username : option string;
  avatarUrl : option string;
  bio : option string;
  namespaceName : option string;
  namespaceReadableName : option string;
  twitterHandle : option string
}.

Definition set_twitter (h : string) (p : Roll2RollSocialProfile) : Roll2RollSocialProfile :=
  mkSocial (wallet p) (profileId p) (displayName p) (username p) (avatarUrl p) (bio p)
    (namespaceName p) (namespaceReadableName p) (Some h).

(** [s?.trim() || null] *)
Definition trimmed (s : option string) : option string := truthy (trim <$> s).

Definition normalizeTapestryProfile (input : option TapestryProfileLike) : option Roll2RollSocialProfile :=
  match input with
  | None => None
  | Some input =>
      match pl_profile input with
      | None => None
      | Some profile =>
          match truthy (or_text (pl_wallet input) (pl_walletAddress input)) with
          | None => None
          | Some wallet =>
              let username := trimmed (pp_username profile) in
              let name := pl_namespace input ≫= fst in
              let readableName := pl_namespace input ≫= snd in
              let displayName :=
                default wallet (or_null username (or_null (trimmed readableName) (trimmed name))) in
              let twitterHandle :=
                match pl_contact input with
                | Some contact =>
                    if String.eqb (k_type contact) "TWITTER" then strip_at <$> truthy (k_id contact) else None
                | None => None
                end in
              Some (mkSocial wallet (Some (pp_id profile)) displayName username
                      (or_null (pp_image profile) (pl_contact input ≫= k_image))
                      (or_null (pp_bio profile) (pl_contact input ≫= k_bio))
                      name readableName twitterHandle)
          end
      end
  end.

Record ActivityItem := mkItem {
  i_type : string; i_actor : string; i_actorName : string; i_target : option string;
  i_targetName : option string; i_comment : option string; i_timestamp : Z; i_activity : string }.

Record Roll2RollSocialActivity := mkActivity {
  a_id : string;
  a_type : string;
  actorProfileId : string;
  actorUsername : string;
  targetProfileId : option string;
  targetUsername : option string;
  commentId : option string;
  timestamp : Z;
  activity : string;
  gameEvent : option (list (string * string));
  actorWallet : option string;
  targetWallet : option string
}.

Record Feed := mkFeed { activities : list Roll2RollSocialActivity; f_page : Z; f_pageSize : Z }.

Record Timed (A : Type) := mkTimed { ts : Z; payload : A }.
Arguments mkTimed {A} ts payload.
Arguments ts {A} t.
Arguments payload {A} t.

(** The caches of the module. *)
Record Caches := mkCaches {
  profileCacheByWallet : list (string * Timed (option Roll2RollSocialProfile));
  activityFeedCacheByKey : list (string * Timed Feed);
  identityCacheByWallet : list (string * Timed (option string));
  WALLET_BY_PROFILE_CACHE : list (string * Timed (option string))
}.

Definition set_profiles f c := mkCaches (f (profileCacheByWallet c)) (activityFeedCacheByKey c)
  (identityCacheByWallet c) (WALLET_BY_PROFILE_CACHE c).
Definition set_feeds f c := mkCaches (profileCacheByWallet c) (f (activityFeedCacheByKey c))
  (identityCacheByWallet c) (WALLET_BY_PROFILE_CACHE c).
Definition set_identities f c := mkCaches (profileCacheByWallet c) (activityFeedCacheByKey c)
  (f (identityCacheByWallet c)) (WALLET_BY_PROFILE_CACHE c).
Definition set_wallets f c := mkCaches (profileCacheByWallet c) (activityFeedCacheByKey c)
  (identityCacheByWallet c) (f (WALLET_BY_PROFILE_CACHE c)).

Definition PROFILE_CACHE_TTL_MS : Z := 60000.
Definition ACTIVITY_FEED_CACHE_TTL_MS : Z := 15000.
Definition PROFILE_CACHE_MAX_ENTRIES : nat := 1000.
Definition ACTIVITY_FEED_CACHE_MAX_ENTRIES : nat := 500.
Definition IDENTITY_CACHE_TTL_MS : Z := 120000.
Definition WALLET_BY_PROFILE_CACHE_TTL_MS : Z := 120000.
Definition TAPESTRY_PAGE_SIZE : Z := 50.

(** ** The service *)

Record CreateProfile := mkCreateProfile { cp_wallet : string; cp_username : string; cp_bio : option string }.
Record CreateContent := mkCreateContent {
  cc_id : string; cc_profileId : string; cc_properties : list (string * Json) }.
Record CreateComment := mkCreateComment {
  co_profileId : string; co_contentId : string; co_text : string; co_commentId : option string }.

(** The requests that change the graph, apart from the creation of profiles. *)
Inductive Write :=
| WFollow (startId endId : string)
| WUnfollow (startId endId : string)
| WContent (r : CreateContent)
| WComment (r : CreateComment)
| WDeleteComment (commentId : string)
| WLike (nodeId startId : string)
| WUnlike (nodeId startId : string).

(** What is recorded: the clock, the requests for profiles, and the changes with the
    profile that a creation answers or the error. *)
Inductive TapEvent :=
| EvClock (t : Z)
| EvProfilesOf (wallet : string) (r : Res (list TapestryProfileLike))
| EvRead
| EvCreated (r : CreateProfile) (answer : Res TapestryProfileLike)
| EvWrite (w : Write) (ok : bool).

Record FeedAnswer := mkFeedAnswer { fa_activities : list ActivityItem; fa_page : option Z; fa_pageSize : option Z }.
Record CommentAnswer := mkCommentAnswer {
  ca_id : string; ca_text : string; ca_createdAt : Z;
  ca_author : option (string * string * option string); ca_likes : option Z; ca_hasLiked : option bool }.

Class TapestryClient := {
  TapWorld : Type;
  callNow : TapWorld -> Z * TapWorld;
  callProfilesList : string -> TapWorld -> Res (list TapestryProfileLike) * TapWorld;
  callFindOrCreate : CreateProfile -> TapWorld -> Res TapestryProfileLike * TapWorld;
  callStateList : string -> string -> TapWorld -> Res bool * TapWorld;
  callFollow : string -> string -> TapWorld -> Res unit * TapWorld;
  callUnfollow : string -> string -> TapWorld -> Res unit * TapWorld;
  (** the feed of a user name: page and page size *)
  callFeed : string -> Z -> Z -> TapWorld -> Res FeedAnswer * TapWorld;
  callComments : Query -> Query -> option Z -> option Z -> TapWorld -> Res (list CommentAnswer * Z * Z) * TapWorld;
  callComment : CreateComment -> TapWorld -> Res (string * string * Z) * TapWorld;
  callDeleteComment : string -> TapWorld -> Res unit * TapWorld;
  callLike : string -> string -> TapWorld -> Res unit * TapWorld;
  callUnlike : string -> string -> TapWorld -> Res unit * TapWorld;
  callSearch : string -> option Z -> option Z -> TapWorld -> Res (list TapestryProfileLike * Z * Z) * TapWorld;
  (** the ids of the contacts of the identities of a wallet *)
  callIdentities : string -> TapWorld -> Res (list (option string)) * TapWorld;
  (** the [content] objects of a batch *)
  callContents : list string -> TapWorld -> Res (list Json) * TapWorld;
  callCreateContent : CreateContent -> TapWorld -> Res (option string) * TapWorld;
  (** [walletAddress] and [wallet.address] of a profile *)
  callProfileDetail : string -> TapWorld -> Res (option string * option string) * TapWorld;
  (** [e.response?.status] of an error of the client *)
  responseStatus : JsError -> option Z;
  (** [String(x)] of a JSON value *)
  textOfJson : Json -> string
}.

(** The answers. *)
Record TapestryComment := mkComment {
  tc_id : string; tc_text : string; tc_createdAt : Z;
  tc_author : option (string * string * option string); tc_likeCount : Z; tc_hasLiked : bool }.

(** [x || d] of a number *)
Definition or_number (x : option Z) (d : Z) : Z :=
  match x with Some n => if n =? 0 then d else n | None => d end.

(** [x ? { x } : {}] of a number *)
Definition if_number (x : Z) : option Z := if x =? 0 then None else Some x.

(** [/^\+?\d[\d\s-]+$/.test(s)] *)
Definition phone_char (c : ascii) : bool := is_digit c || is_space c || (c =? "-")%char.
Fixpoint all_chars (f : ascii -> bool) (s : string) : bool :=
  match s with EmptyString => true | String c rest => f c && all_chars f rest end.
Definition is_phone (s : string) : bool :=
  match (match s with String "+" rest => rest | _ => s end) with
  | String d (String c rest) => is_digit d && phone_char c && all_chars phone_char rest
  | _ => false
  end.

(** The first contact that looks like a handle. *)
Fixpoint find_handle (contacts : list (option string)) : option string :=
  match contacts with
  | [] => None
  | c :: contacts =>
      match truthy (trim <$> truthy c) with
      | Some id =>
          if negb (includes id "@") && negb (is_phone id) then Some (strip_at id) else find_handle contacts
      | None => find_handle contacts
      end
  end.

Definition best_profile (w : string) (profiles : list TapestryProfileLike) : option TapestryProfileLike :=
  let candidates := filter (fun p => pl_wallet p = Some w) profiles in
  or_null (head (sort_on (fun p => - pl_counts p) candidates)) (head profiles).

Definition normalizeActivityItem (item : ActivityItem) : Roll2RollSocialActivity :=
  mkActivity
    (i_type item +:+ ":" +:+ i_actor item +:+ ":" +:+ default "" (i_target item) +:+ ":" +:+
     default "" (i_comment item) +:+ ":" +:+ pretty (i_timestamp item))
    (i_type item) (i_actor item) (i_actorName item) (i_target item) (i_targetName item)
    (i_comment item) (i_timestamp item) (i_activity item) None None None.

Definition GAME_EVENT_KEYS : list string :=
  ["eventType"; "amount"; "currency"; "round"; "totalPot"; "mint"; "sig"; "winner"; "participants"].

(** A value that is neither [null] nor [undefined], and a truthy one. *)
Definition not_null (j : option Json) : option Json :=
  match j with Some JNull => None | other => other end.
Definition json_truthy (j : option Json) : option Json :=
  match j with
  | Some JNull | Some (JBool false) | Some (JStr "")
  | Some (JNum (S754_zero _)) | Some (JNum S754_nan) => None
  | other => other
  end.

Section api.
Context `{TapestryClient} (API_KEY : option string).
Local Abbreviation M := (M Caches TapWorld TapEvent).

Definition tapestryKeyPresent : bool :=
  match API_KEY with Some k => negb (String.eqb (trim k) "") | None => false end.

Definition now : M Z := invoke_total callNow EvClock.

Definition read {A} (call : TapWorld -> Res A * TapWorld) : M A := invoke call (fun _ => EvRead).
Definition write {A} (w : Write) (call : TapWorld -> Res A * TapWorld) : M A :=
  invoke call (fun r => EvWrite w (is_ok r)).

(** *** Caches *)

Definition getFreshProfileFromCache (wallet : string) : M (option (option Roll2RollSocialProfile)) :=
  hit ← gets (fun c => map_get wallet (profileCacheByWallet c));
  match hit with
  | None => mret None
  | Some hit =>
      t ← now;
      if PROFILE_CACHE_TTL_MS <? t - ts hit then
        modify (set_profiles (map_delete wallet)) ;; mret None
      else mret (Some (payload hit))
  end.

Definition getFreshActivityFeedFromCache (cacheKey : string) : M (option Feed) :=
  hit ← gets (fun c => map_get cacheKey (activityFeedCacheByKey c));
  match hit with
  | None => mret None
  | Some hit =>
      t ← now;
      if ACTIVITY_FEED_CACHE_TTL_MS <? t - ts hit then
        modify (set_feeds (map_delete cacheKey)) ;; mret None
      else mret (Some (payload hit))
  end.

Definition cacheTapestryProfile (wallet : string) (profile : option Roll2RollSocialProfile) : M unit :=
  t ← now;
  modify (set_profiles (map_set wallet (mkTimed t profile))) ;;
  modify (set_profiles (fun m => evictOldestEntries ts m PROFILE_CACHE_MAX_ENTRIES)).

Definition cache_feed (cacheKey : string) (feed : Feed) : M unit :=
  t ← now;
  modify (set_feeds (map_set cacheKey (mkTimed t feed))) ;;
  modify (set_feeds (fun m => evictOldestEntries ts m ACTIVITY_FEED_CACHE_MAX_ENTRIES)).

(** [key.startsWith(`${wallet}:`)] *)
Definition feed_of (wallet key : string) : bool := String.prefix (wallet +:+ ":") key.

Definition invalidateActivityFeed (wallet : string) : M unit :=
  modify (set_feeds (filter (fun e => feed_of wallet (fst e) = false))).

Definition getFreshIdentityFromCache (wallet : string) : M (option (option string)) :=
  hit ← gets (fun c => map_get wallet (identityCacheByWallet c));
  match hit with
  | None => mret None
  | Some hit =>
      t ← now;
      if IDENTITY_CACHE_TTL_MS <? t - ts hit then
        modify (set_identities (map_delete wallet)) ;; mret None
      else mret (Some (payload hit))
  end.

(** *** Identities *)

Definition getIdentityForWallet (wallet : string) : M (option string * option (list (option string))) :=
  if negb tapestryKeyPresent then mret (None, None)
  else
    cached ← getFreshIdentityFromCache wallet;
    match cached with
    | Some twitter => mret (twitter, None)
    | None =>
        try_catch
          (identities ← read (callIdentities wallet);
           let twitter := find_handle identities in
           t ← now;
           modify (set_identities (map_set wallet (mkTimed t twitter))) ;;
           modify (set_identities (fun m => evictOldestEntries ts m PROFILE_CACHE_MAX_ENTRIES)) ;;
           mret (twitter, Some identities))
          (fun _ =>
             t ← now;
             modify (set_identities (map_set wallet (mkTimed t None))) ;;
             mret (None, None))
    end.

Abbreviation Profiles := (list (string * option Roll2RollSocialProfile)).

(** [p && !p.twitterHandle] *)
Definition without_twitter (p : option Roll2RollSocialProfile) : bool :=
  match p with
  | Some p => match truthy (twitterHandle p) with Some _ => false | None => true end
  | None => false
  end.

Definition enrich_profile (profiles : Profiles) (wallet : string) : M Profiles :=
  '(twitter, _) ← getIdentityForWallet wallet;
  match default None (map_get wallet profiles), truthy twitter with
  | Some profile, Some twitter =>
      let profile := set_twitter twitter profile in
      cacheTapestryProfile wallet (Some profile) ;;
      mret (map_set wallet (Some profile) profiles)
  | _, _ => mret profiles
  end.

Definition enrichProfilesWithTwitter (profiles : Profiles) : M Profiles :=
  for_acc (map fst (filter (fun e => without_twitter (snd e) = true) profiles)) enrich_profile profiles.

(** *** Profiles *)

Definition distinct_wallets (wallets : list string) : list string :=
  set_of_list (filter (fun w => w <> "") wallets).

(** The cached profiles, and the wallets that are missing. *)
Definition cached_profiles (wallets : list string) : M (Profiles * list string) :=
  for_acc wallets (fun acc wallet =>
    cached ← getFreshProfileFromCache wallet;
    match cached with
    | Some profile => mret (map_set wallet profile (fst acc), snd acc)
    | None => mret (fst acc, snd acc ++ [wallet])
    end) ([], []).

Definition fetch_profile (result : Profiles) (wallet : string) : M Profiles :=
  try_catch
    (profiles ← invoke (callProfilesList wallet) (EvProfilesOf wallet);
     let normalized := normalizeTapestryProfile (best_profile wallet profiles) in
     cacheTapestryProfile wallet normalized ;;
     mret (map_set wallet normalized result))
    (fun _ =>
       cacheTapestryProfile wallet None ;;
       mret (map_set wallet None result)).

Definition getProfilesByWallets (wallets : list string) : M Profiles :=
  let deduped := distinct_wallets wallets in
  if negb tapestryKeyPresent then mret ((fun w => (w, None)) <$> deduped)
  else
    '(result, missing) ← cached_profiles deduped;
    if (length missing =? 0)%nat then mret result
    else
      result ← for_acc missing fetch_profile result;
      try_catch (enrichProfilesWithTwitter result) (fun _ => mret result).

Definition default_username (wallet : string) : string :=
  "winny-" +:+ toLowerCase (String.substring 0 6 wallet).

(** [client.profiles.findOrCreateCreate] *)
Definition find_or_create (r : CreateProfile) : M TapestryProfileLike :=
  invoke (callFindOrCreate r) (EvCreated r).

(** [cached !== undefined && cached?.profileId] *)
Definition usable_profile (cached : option (option Roll2RollSocialProfile)) : option Roll2RollSocialProfile :=
  match cached with
  | Some (Some profile) => match truthy (profileId profile) with Some _ => Some profile | None => None end
  | _ => None
  end.

Definition findOrCreateProfileByWallet (wallet : string) : M (option Roll2RollSocialProfile) :=
  cached ← getFreshProfileFromCache wallet;
  match usable_profile cached with
  | Some profile => mret (Some profile)
  | None =>
      created ← find_or_create (mkCreateProfile wallet (default_username wallet) None);
      let normalized := normalizeTapestryProfile (Some created) in
      cacheTapestryProfile wallet normalized ;;
      mret normalized
  end.

Definition getFollowState (startId endId : string) : M bool := read (callStateList startId endId).
Definition followProfiles (startId endId : string) : M unit :=
  write (WFollow startId endId) (callFollow startId endId).
Definition unfollowProfiles (startId endId : string) : M unit :=
  write (WUnfollow startId endId) (callUnfollow startId endId).

(** *** The activity feed *)

(** The properties of a content. *)
Definition event_properties (c : Json) : list (string * string) :=
  let props := omap (fun key => (fun v => (key, textOfJson v)) <$> not_null (json_field c key)) GAME_EVENT_KEYS in
  match truthy (map_get "eventType" props), json_truthy (json_field c "type") with
  | None, Some v => map_set "eventType" (textOfJson v) props
  | _, _ => props
  end.

Definition content_map (items : list Json) : list (string * list (string * string)) :=
  fold_left (fun m c =>
    match json_truthy (json_field c "id") with
    | Some id =>
        let props := event_properties c in
        if (length props =? 0)%nat then m else map_set (textOfJson id) props m
    | None => m
    end) items [].

(** [a.type === "new_content" && a.targetProfileId] *)
Definition content_of (a : Roll2RollSocialActivity) : option string :=
  if String.eqb (a_type a) "new_content" then truthy (targetProfileId a) else None.

Definition with_event (props : list (string * string)) (a : Roll2RollSocialActivity) : Roll2RollSocialActivity :=
  mkActivity (a_id a) (a_type a) (actorProfileId a) (actorUsername a) (targetProfileId a)
    (targetUsername a) (commentId a) (timestamp a) (activity a) (Some props) (actorWallet a) (targetWallet a).

Definition attach_event (contentMap : list (string * list (string * string))) (a : Roll2RollSocialActivity)
    : Roll2RollSocialActivity :=
  match content_of a ≫= (fun id => map_get id contentMap) with
  | Some props => with_event props a
  | None => a
  end.

Definition enrichContentActivities (activities : list Roll2RollSocialActivity)
    : M (list Roll2RollSocialActivity) :=
  let contentIds := omap content_of activities in
  if (length contentIds =? 0)%nat then mret activities
  else
    try_catch
      (items ← read (callContents contentIds);
       mret (attach_event (content_map items) <$> activities))
      (fun _ => mret activities).

(** The profiles whose wallets an activity shows. *)
Definition profiles_of (a : Roll2RollSocialActivity) : list string :=
  (if String.eqb (actorProfileId a) "" then [] else [actorProfileId a]) ++
  match truthy (targetProfileId a) with
  | Some t => if String.eqb (a_type a) "following" || String.eqb (a_type a) "new_follower" then [t] else []
  | None => []
  end.

Abbreviation Wallets := (list (string * option string)).

Definition cached_wallets (profileIds : list string) : M (Wallets * list string) :=
  for_acc profileIds (fun acc pid =>
    cached ← gets (fun c => map_get pid (WALLET_BY_PROFILE_CACHE c));
    match cached with
    | Some hit =>
        t ← now;
        if t - ts hit <? WALLET_BY_PROFILE_CACHE_TTL_MS
        then mret (map_set pid (payload hit) (fst acc), snd acc)
        else mret (fst acc, snd acc ++ [pid])
    | None => mret (fst acc, snd acc ++ [pid])
    end) ([], []).

Definition resolve_wallet (walletMap : Wallets) (pid : string) : M Wallets :=
  try_catch
    ('(walletAddress, address) ← read (callProfileDetail pid);
     let wallet := truthy (or_text walletAddress address) in
     t ← now;
     modify (set_wallets (map_set pid (mkTimed t wallet))) ;;
     mret (map_set pid wallet walletMap))
    (fun _ =>
       t ← now;
       modify (set_wallets (map_set pid (mkTimed t None))) ;;
       mret (map_set pid None walletMap)).

Definition with_wallets (walletMap : Wallets) (a : Roll2RollSocialActivity) : Roll2RollSocialActivity :=
  mkActivity (a_id a) (a_type a) (actorProfileId a) (actorUsername a) (targetProfileId a)
    (targetUsername a) (commentId a) (timestamp a) (activity a) (gameEvent a)
    (default None (map_get (actorProfileId a) walletMap))
    (match truthy (targetProfileId a) with
     | Some t => default None (map_get t walletMap)
     | None => None
     end).

Definition enrichActivitiesWithWallets (activities : list Roll2RollSocialActivity)
    : M (list Roll2RollSocialActivity) :=
  let profileIds := set_of_list (activities ≫= profiles_of) in
  if (length profileIds =? 0)%nat then mret activities
  else
    '(walletMap, toResolve) ← cached_wallets profileIds;
    walletMap ← for_acc toResolve resolve_wallet walletMap;
    modify (set_wallets (fun m => evictOldestEntries ts m PROFILE_CACHE_MAX_ENTRIES)) ;;
    mret (with_wallets walletMap <$> activities).

Definition feed_key (wallet : string) (limit page : Z) : string :=
  wallet +:+ ":" +:+ pretty limit +:+ ":" +:+ pretty page.

(** An empty feed, remembered. *)
Definition empty_feed (cacheKey : string) (limit page : Z) : M Feed :=
  let empty := mkFeed [] page limit in
  cache_feed cacheKey empty ;; mret empty.

Definition fetch_feed (cacheKey username : string) (limit page : Z) : M Feed :=
  data ← read (callFeed username (Z.max 1 page) TAPESTRY_PAGE_SIZE);
  activities ← enrichContentActivities
    (take (Z.to_nat (Z.max 1 limit)) (normalizeActivityItem <$> fa_activities data));
  activities ← try_catch (enrichActivitiesWithWallets activities) (fun _ => mret activities);
  let feed := mkFeed activities (or_number (fa_page data) page) (or_number (fa_pageSize data) limit) in
  cache_feed cacheKey feed ;;
  mret feed.

(** [status === 404 || code === "ERR_BAD_REQUEST"] *)
Definition no_feed (e : JsError) : bool :=
  bool_decide (responseStatus e = Some 404) || bool_decide (err_code e = Some "ERR_BAD_REQUEST").

Definition getActivityFeed (wallet : string) (limit page : Z) : M Feed :=
  let cacheKey := feed_key wallet limit page in
  cached ← getFreshActivityFeedFromCache cacheKey;
  match cached with
  | Some feed => mret feed
  | None =>
      if negb tapestryKeyPresent then empty_feed cacheKey limit page
      else
        selfProfile ← try_catch (p ← findOrCreateProfileByWallet wallet; mret (Ok p))
                        (fun e => mret (Throw e));
        match selfProfile with
        | Throw _ => empty_feed cacheKey limit page
        | Ok selfProfile =>
            match trimmed (selfProfile ≫= username) with
            | None => empty_feed cacheKey limit page
            | Some username =>
                try_catch (fetch_feed cacheKey username limit page)
                  (fun e => if no_feed e then empty_feed cacheKey limit page else throw e)
            end
        end
  end.

(** *** Comments, likes and search *)

Definition unresolved : JsError :=
  mkJsError "Error" "Unable to resolve profile" (Some 400) (Some "PROFILE_RESOLUTION_FAILED").

Definition comment_of (c : CommentAnswer) : TapestryComment :=
  mkComment (ca_id c) (ca_text c) (ca_createdAt c) (ca_author c) (default 0 (ca_likes c))
    (default false (ca_hasLiked c)).

(** [x || undefined] of a query parameter *)
Definition query_truthy (q : Query) : Query := match q with QText "" => QNone | other => other end.

Definition getComments (contentId requestingProfileId : Query) (page pageSize : Z)
    : M (list TapestryComment * Z * Z) :=
  if negb tapestryKeyPresent then mret ([], 1, or_number (Some pageSize) 20)
  else
    '(comments, p, size) ← read (callComments contentId (query_truthy requestingProfileId)
                                   (if_number page) (if_number pageSize));
    mret (comment_of <$> comments, p, size).

(** The profile of a wallet, for a change. *)
Definition acting_profile (wallet : string) : M string :=
  profile ← findOrCreateProfileByWallet wallet;
  match profile ≫= (fun p => truthy (profileId p)) with
  | Some id => mret id
  | None => throw unresolved
  end.

Definition createComment (wallet contentId text : string) (commentId : option string)
    : M (string * string * Z) :=
  profileId ← acting_profile wallet;
  let r := mkCreateComment profileId contentId text (truthy commentId) in
  write (WComment r) (callComment r).

Definition deleteComment (commentId : string) : M unit :=
  write (WDeleteComment commentId) (callDeleteComment commentId).

Definition likeNode (wallet nodeId : string) : M unit :=
  profileId ← acting_profile wallet;
  write (WLike nodeId profileId) (callLike nodeId profileId).

Definition unlikeNode (wallet nodeId : string) : M unit :=
  profileId ← acting_profile wallet;
  write (WUnlike nodeId profileId) (callUnlike nodeId profileId).

Definition searchProfiles (query : string) (page pageSize : Z)
    : M (list Roll2RollSocialProfile * Z * Z) :=
  if negb tapestryKeyPresent then mret ([], 1, or_number (Some pageSize) 20)
  else
    '(profiles, p, size) ← read (callSearch query (if_number page) (if_number pageSize));
    mret (omap (fun p => normalizeTapestryProfile (Some p)) profiles, p, size).
End api.
End Tap.
