(* ===== verification/TapestryHandlers.v ===== *)
(** * TapestryHandlers: api/tapestry/index.ts

    The request handlers of the social API over the operations of TapestryApi.v, and the
    dispatch on the query parameter [action].  A handler sends one response, and [handler]
    may send none. *)

From stdpp Require Import base list strings pretty.
From Stdlib Require Import ZArith Lia Ascii SpecFloat.
From S2P Require Import Prelude JsRuntime Effects Solana Actions ActionHandlers JsMap TapestryBridge TapestryApi.

Local Open Scope string_scope.
Local Open Scope list_scope.
Local Open Scope Z_scope.
Set Warnings "-clear-no-such-hyp".

Module TapHandlers.
Import Tap.

Record TapRequest := mkTapRequest {
  tr_method : string;
  tr_action : Query;
  tr_wallet : Query;
  tr_limit : Query;
  tr_page : Query;
  tr_contentId : Query;
  tr_requestingProfileId : Query;
  tr_q : Query;
  tr_body : Body
}.

Inductive TapResponse :=
| TNoContent
| TError (status : Z) (code message : string)
| TProfile (profile : option Roll2RollSocialProfile)
| TProfiles (profiles : list (string * option Roll2RollSocialProfile))
| TImported (profile : option Roll2RollSocialProfile) (raw : TapestryProfileLike)
| TFeed (feed : Feed) (limit : Z)
| TFollowed (action wallet : string) (targetWallet : option string) (targetProfileId : string)
| TPublished (contentId eventType : string)
| TComments (comments : list TapestryComment) (page pageSize : Z)
| TComment (id text : string) (createdAt : Z)
| TOk
| TSearch (profiles : list Roll2RollSocialProfile) (page pageSize : Z)
| TIdentity (wallet : string) (twitter : option string) (raw : option (list (option string))).

Definition tap_error (status : Z) (code message : string) : JsError :=
  mkJsError "Error" message (Some status) (Some code).

(** *** Parameters *)

Definition parseWalletQuery (q : Query) : Res string :=
  match q with
  | QText raw => if String.eqb raw "" then Throw (tap_error 400 "INVALID_WALLET" "wallet query param is required")
                 else Ok (trim raw)
  | _ => Throw (tap_error 400 "INVALID_WALLET" "wallet query param is required")
  end.

(** The integral part of a positive number, or the default. *)
Definition number_query (q : Query) (default_ : Z) (f : Z -> Z) : Z :=
  match q with
  | QNone | QText "" => default_
  | _ =>
      let n := query_number q in
      if negb (isFinite n) || negb (positive_num n) then default_
      else match num_floor n with Some z => f z | None => default_ end
  end.
Definition parseLimitQuery (q : Query) (defaultLimit : Z) : Z := number_query q defaultLimit (Z.min 20).
Definition parsePageQuery (q : Query) (defaultPage : Z) : Z := number_query q defaultPage (Z.max 1).

(** [typeof x === "string" ? x.trim() : ""] *)
Definition query_word (q : Query) : string := match q with QText s => trim s | _ => "" end.
Definition body_word (body : Json) (key : string) : string :=
  match json_field body key with Some (JStr s) => trim s | _ => "" end.

(** [body.wallets], if it is an array: its texts, trimmed, the empty ones left out. *)
Definition body_wallets (body : Json) : list string :=
  match json_field body "wallets" with
  | Some (JArr l) =>
      filter (fun w => w <> "") (omap (fun j => match j with JStr s => Some (trim s) | _ => None end) l)
  | _ => []
  end.

(** [Object.entries(x)] *)
Fixpoint chars (s : string) : list string :=
  match s with EmptyString => [] | String c rest => String c EmptyString :: chars rest end.
Definition json_entries (j : Json) : list (string * Json) :=
  match j with
  | JObj fields => fields
  | JArr l => imap (fun i v => (pretty i, v)) l
  | JStr s => imap (fun i c => (pretty i, JStr c)) (chars s)
  | _ => []
  end.

(** A text, a number or a boolean. *)
Definition is_plain (j : Json) : bool :=
  match j with JStr _ | JNum _ | JBool _ => true | _ => false end.

Section handlers.
Context `{TapestryClient} (API_KEY : option string).
Local Abbreviation M := (M Caches TapWorld TapEvent).

Definition withHandler (fn : M TapResponse) : M TapResponse :=
  try_catch fn (fun e =>
    mret (TError (default 500 (err_status e))
            (default "INTERNAL_ERROR" (truthy (err_code e)))
            (if String.eqb (err_message e) "" then "Internal error" else err_message e))).

Definition not_allowed (message : string) : M TapResponse :=
  mret (TError 405 "METHOD_NOT_ALLOWED" message).

(** A text of the body that must not be empty. *)
Definition require_word (body : Json) (key code message : string) : M string :=
  let s := body_word body key in
  if String.eqb s "" then throw (tap_error 400 code message) else mret s.
Definition require_wallet (body : Json) : M string :=
  require_word body "wallet" "INVALID_WALLET" "wallet is required".

Definition handleProfile (req : TapRequest) : M TapResponse :=
  if String.eqb (tr_method req) "GET" then
    withHandler
      (wallet ← lift (parseWalletQuery (tr_wallet req));
       profiles ← getProfilesByWallets API_KEY [wallet];
       mret (TProfile (default None (map_get wallet profiles))))
  else if String.eqb (tr_method req) "POST" then
    withHandler
      (body ← lift (parseBody (tr_body req));
       let wallets := body_wallets body in
       (if (length wallets =? 0)%nat then throw (tap_error 400 "INVALID_WALLETS" "wallets[] is required")
        else mret tt) ;;
       profiles ← getProfilesByWallets API_KEY wallets;
       mret (TProfiles profiles))
  else withHandler (not_allowed "Use GET or POST").

Definition handleProfileImport (req : TapRequest) : M TapResponse :=
  if negb (String.eqb (tr_method req) "POST") then withHandler (not_allowed "Use POST")
  else
    withHandler
      (body ← lift (parseBody (tr_body req));
       wallet ← require_wallet body;
       let username := default (default_username wallet) (truthy (Some (body_word body "username"))) in
       created ← find_or_create (mkCreateProfile wallet username (truthy (Some (body_word body "bio"))));
       let normalized := normalizeTapestryProfile (Some created) in
       (match normalized with
        | Some profile => cacheTapestryProfile wallet (Some profile) ;; invalidateActivityFeed wallet
        | None => mret tt
        end) ;;
       mret (TImported normalized created)).

Definition handleActivityFeed (req : TapRequest) : M TapResponse :=
  if negb (String.eqb (tr_method req) "GET") then withHandler (not_allowed "Use GET")
  else
    withHandler
      (wallet ← lift (parseWalletQuery (tr_wallet req));
       let limit := parseLimitQuery (tr_limit req) 5 in
       let page := parsePageQuery (tr_page req) 1 in
       feed ← getActivityFeed API_KEY wallet limit page;
       mret (TFeed feed limit)).

(** [typeof body?.action === "string" ? body.action.trim() : "follow"] *)
Definition follow_action (body : Json) : string :=
  match json_field body "action" with Some (JStr s) => trim s | _ => "follow" end.

(** The profile to follow: that of the body, or that of the wallet of the body. *)
Definition follow_target (targetWallet rawTargetProfileId : string) : M string :=
  if negb (String.eqb rawTargetProfileId "") then mret rawTargetProfileId
  else
    profiles ← getProfilesByWallets API_KEY [targetWallet];
    mret (default "" (default None (map_get targetWallet profiles) ≫= profileId)).

Definition handleFollow (req : TapRequest) : M TapResponse :=
  if negb (String.eqb (tr_method req) "POST") then withHandler (not_allowed "Use POST")
  else
    withHandler
      (body ← lift (parseBody (tr_body req));
       wallet ← require_wallet body;
       let action := follow_action body in
       (if negb (String.eqb action "follow") && negb (String.eqb action "unfollow")
        then throw (tap_error 400 "INVALID_ACTION" "action must be 'follow' or 'unfollow'") else mret tt) ;;
       let targetWallet := body_word body "targetWallet" in
       let rawTargetProfileId := body_word body "targetProfileId" in
       (if String.eqb targetWallet "" && String.eqb rawTargetProfileId ""
        then throw (tap_error 400 "INVALID_TARGET" "targetWallet or targetProfileId is required") else mret tt) ;;
       source ← findOrCreateProfileByWallet wallet;
       match source ≫= (fun p => truthy (profileId p)) with
       | None => throw (tap_error 400 "PROFILE_RESOLUTION_FAILED" "Unable to resolve requester profile")
       | Some sourceId =>
           targetProfileId ← follow_target targetWallet rawTargetProfileId;
           (if String.eqb targetProfileId ""
            then throw (tap_error 404 "TARGET_PROFILE_NOT_FOUND" "Unable to resolve target profile")
            else mret tt) ;;
           (if String.eqb targetProfileId sourceId
            then throw (tap_error 400
                   (if String.eqb action "follow" then "SELF_FOLLOW_NOT_ALLOWED" else "SELF_UNFOLLOW_NOT_ALLOWED")
                   ("Cannot " +:+ action +:+ " yourself"))
            else mret tt) ;;
           (if String.eqb action "follow" then followProfiles sourceId targetProfileId
            else unfollowProfiles sourceId targetProfileId) ;;
           invalidateActivityFeed wallet ;;
           mret (TFollowed action wallet (truthy (Some targetWallet)) targetProfileId)
       end).

(** [typeof r === "string" || typeof r === "number" ? String(r) : ""] *)
Definition round_text (rawProps : Json) : string :=
  match json_field rawProps "round" with
  | Some (JStr s) => s
  | Some (JNum n) => textOfJson (JNum n)
  | _ => ""
  end.

(** [`${profileId}:${eventType}:${round || Date.now()}`] *)
Definition event_content_id (profileId eventType round : string) : M string :=
  (if String.eqb round "" then t ← now; mret (profileId +:+ ":" +:+ eventType +:+ ":" +:+ pretty t)
   else mret (profileId +:+ ":" +:+ eventType +:+ ":" +:+ round)).

(** One more attempt after an error that is not the client's. *)
Definition create_content (c : CreateContent) : M (option string) :=
  let attempt := write (WContent c) (callCreateContent c) in
  try_catch attempt
    (fun firstErr =>
       match responseStatus firstErr with
       | Some status =>
           if negb (status =? 0) && (status <? 500) then throw firstErr
           else try_catch attempt (fun _ => throw firstErr)
       | None => try_catch attempt (fun _ => throw firstErr)
       end).

Definition handlePublishEvent (req : TapRequest) : M TapResponse :=
  if negb (String.eqb (tr_method req) "POST") then withHandler (not_allowed "Use POST")
  else
    withHandler
      (body ← lift (parseBody (tr_body req));
       wallet ← require_wallet body;
       eventType ← require_word body "eventType" "INVALID_EVENT_TYPE" "eventType is required";
       let rawProps := default (JObj []) (json_truthy (json_field body "properties")) in
       profileId ← acting_profile wallet;
       contentId ← event_content_id profileId eventType (round_text rawProps);
       let properties :=
         filter (fun e => is_plain (snd e) = true) (json_entries rawProps) ++ [("eventType", JStr eventType)] in
       content ← create_content (mkCreateContent contentId profileId properties);
       invalidateActivityFeed wallet ;;
       mret (TPublished (default contentId content) eventType)).

Definition handleComments (req : TapRequest) : M TapResponse :=
  if String.eqb (tr_method req) "GET" then
    withHandler
      (let contentId := query_truthy (tr_contentId req) in
       (match contentId with
        | QNone => throw (tap_error 400 "INVALID_CONTENT_ID" "contentId is required")
        | _ => mret tt
        end) ;;
       '(comments, page, pageSize) ← getComments API_KEY contentId (tr_requestingProfileId req)
            (parsePageQuery (tr_page req) 1) (parseLimitQuery (tr_limit req) 20);
       mret (TComments comments page pageSize))
  else not_allowed "Use GET for comments list".

Definition handleComment (req : TapRequest) : M TapResponse :=
  if String.eqb (tr_method req) "POST" then
    withHandler
      (body ← lift (parseBody (tr_body req));
       wallet ← require_wallet body;
       contentId ← require_word body "contentId" "INVALID_CONTENT_ID" "contentId is required";
       text ← require_word body "text" "INVALID_TEXT" "text is required";
       '(id, text, createdAt) ← createComment wallet contentId text (truthy (Some (body_word body "commentId")));
       mret (TComment id text createdAt))
  else if String.eqb (tr_method req) "DELETE" then
    withHandler
      (body ← lift (parseBody (tr_body req));
       commentId ← require_word body "commentId" "INVALID_COMMENT_ID" "commentId is required";
       deleteComment commentId ;;
       mret TOk)
  else not_allowed "Use POST or DELETE".

(** The handlers of likes, which only differ in the operation. *)
Definition handle_like (op : string -> string -> M unit) (req : TapRequest) : M TapResponse :=
  if negb (String.eqb (tr_method req) "POST") then withHandler (not_allowed "Use POST")
  else
    withHandler
      (body ← lift (parseBody (tr_body req));
       wallet ← require_wallet body;
       nodeId ← require_word body "nodeId" "INVALID_NODE_ID" "nodeId is required";
       op wallet nodeId ;;
       mret TOk).
Definition handleLike : TapRequest -> M TapResponse := handle_like likeNode.
Definition handleUnlike : TapRequest -> M TapResponse := handle_like unlikeNode.

Definition handleSearch (req : TapRequest) : M TapResponse :=
  if negb (String.eqb (tr_method req) "GET") then withHandler (not_allowed "Use GET")
  else
    withHandler
      (let q := query_word (tr_q req) in
       (if String.eqb q "" then throw (tap_error 400 "INVALID_QUERY" "q query param is required") else mret tt) ;;
       '(profiles, page, pageSize) ← searchProfiles API_KEY q
            (parsePageQuery (tr_page req) 1) (parseLimitQuery (tr_limit req) 20);
       mret (TSearch profiles page pageSize)).

Definition handleIdentity (req : TapRequest) : M TapResponse :=
  if negb (String.eqb (tr_method req) "GET") then withHandler (not_allowed "Use GET")
  else
    withHandler
      (wallet ← lift (parseWalletQuery (tr_wallet req));
       '(twitter, raw) ← getIdentityForWallet API_KEY wallet;
       mret (TIdentity wallet twitter raw)).

(** *** The dispatch *)

Definition ACTIONS : list (string * (TapRequest -> M TapResponse)) :=
  [("profile", handleProfile); ("profile-import", handleProfileImport);
   ("activity-feed", handleActivityFeed); ("follow", handleFollow);
   ("publish-event", handlePublishEvent); ("comments", handleComments); ("comment", handleComment);
   ("like", handleLike); ("unlike", handleUnlike); ("search", handleSearch); ("identity", handleIdentity)].

(** The names [ACTIONS] inherits from [Object.prototype].  The first two are functions that
    return without sending a response; calling one of the others throws. *)
Definition inherited_quiet : list string := ["constructor"; "toString"].
Definition inherited_throwing : list string :=
  ["valueOf"; "hasOwnProperty"; "isPrototypeOf"; "propertyIsEnumerable"; "toLocaleString"; "__proto__";
   "__defineGetter__"; "__defineSetter__"; "__lookupGetter__"; "__lookupSetter__"].

Definition quote : string := String "034" EmptyString.
Definition unknown_action (action : string) : TapResponse :=
  TError 400 "INVALID_ACTION"
    ("Unknown action: " +:+ quote +:+ action +:+ quote +:+ ". Valid: " +:+ String.concat ", " (map fst ACTIONS)).

(** [None]: no response is sent. *)
Definition handler (req : TapRequest) : M (option TapResponse) :=
  if String.eqb (tr_method req) "OPTIONS" then mret (Some TNoContent)
  else
    let action := query_word (tr_action req) in
    match map_get action ACTIONS with
    | Some fn => res ← fn req; mret (Some res)
    | None =>
        if bool_decide (action ∈ inherited_quiet) then mret None
        else if bool_decide (action ∈ inherited_throwing) then throw (mkError "TypeError" action)
        else mret (Some (unknown_action action))
    end.
End handlers.
End TapHandlers.
