(* ===== verification/TapestrySpec.v ===== *)
(** * TapestrySpec: the caches and the changes of the social API

    The caches of lib/api/tapestry-shared.ts stay within their bounds and hold only
    profiles the service has answered for their wallet; the changes a request makes are
    made for the profile of the wallet it names. *)

From stdpp Require Import base list strings pretty.
From Stdlib Require Import ZArith Lia Ascii SpecFloat.
From S2P Require Import Prelude JsRuntime Effects Solana Actions ActionHandlers JsMap TapestryBridge TapestryApi TapestryHandlers.

Local Open Scope string_scope.
Local Open Scope list_scope.
Local Open Scope Z_scope.
Set Warnings "-clear-no-such-hyp".

Import Tap TapHandlers.

(** ** Traces *)

(** Every event, newest first, is justified by the ones before it. *)
Fixpoint trace_ok {E} (G : E -> list E -> Prop) (older evs : list E) : Prop :=
  match evs with
  | [] => True
  | ev :: evs => G ev (evs ++ older) /\ trace_ok G older evs
  end.

Lemma trace_ok_app {E} (G : E -> list E -> Prop) older a b :
  trace_ok G (b ++ older) a -> trace_ok G older b -> trace_ok G older (a ++ b).
Proof.
  intros Ha Hb. induction a as [|ev a IH]; [done|]. destruct Ha as [Hev Ha]. simpl.
  split; [by rewrite <- app_assoc|by apply IH].
Qed.

Section sound.
Context `{TapestryClient}.
Local Abbreviation M := (M Caches TapWorld TapEvent).
Local Abbreviation Proc := (Proc Caches TapWorld TapEvent).
Local Abbreviation Hist := (list TapEvent).
Context (G : TapEvent -> Hist -> Prop) (I : Caches -> Hist -> Prop) (E : Prop).

(** From a state with [I] and a history with [P], [m] only makes justified calls, keeps [I],
    and gives a value with [Q]; it throws only if [E]. *)
Definition sound {A} (P : Hist -> Prop) (m : M A) (Q : A -> Hist -> Prop) : Prop :=
  forall p : Proc, I (local p) (history p) -> P (history p) ->
  wp m (fun r q => (exists evs, history q = evs ++ history p /\ trace_ok G (history p) evs) /\
                   I (local q) (history q) /\
                   match r with Ok a => Q a (history q) | Throw _ => E end) p.

(** A fact on the past that later events keep. *)
Definition stable (P : Hist -> Prop) : Prop := forall h evs, P h -> P (evs ++ h).

Lemma sound_bind {A B} P (m : M A) Q (f : A -> M B) R :
  sound P m Q -> (forall a, sound (Q a) (f a) R) -> sound P (mbind f m) R.
Proof.
  intros Hm Hf p HI HP. apply wp_bind. eapply wp_mono; [by apply Hm|].
  intros [a|e] q ((evs & Hh & Ht) & HIq & HQ); [|by eauto 10].
  eapply wp_mono; [by apply Hf|]. intros r q' ((evs' & Hh' & Ht') & HIq' & HR).
  split; [|done]. exists (evs' ++ evs). rewrite Hh', Hh, app_assoc. split; [done|].
  apply trace_ok_app; [by rewrite <- Hh|done].
Qed.

Lemma sound_ret {A} P (a : A) (Q : A -> Hist -> Prop) : (forall h, P h -> Q a h) -> sound P (mret a) Q.
Proof. intros HQ p HI HP. apply wp_ret. split; [by exists []|]. auto. Qed.

Lemma sound_throw {A} P e (Q : A -> Hist -> Prop) : E -> sound P (throw e) Q.
Proof. intros HE p HI HP. apply wp_throw. split; [by exists []|]. auto. Qed.

Lemma sound_lift {A} P (r : Res A) (Q : A -> Hist -> Prop) :
  E -> (forall a h, r = Ok a -> P h -> Q a h) -> sound P (lift r) Q.
Proof. intros HE HQ p HI HP. apply wp_lift. split; [by exists []|]. split; [done|]. destruct r; auto. Qed.

(** What is known of the past is kept. *)
Lemma sound_keep {A} (P P' : Hist -> Prop) (m : M A) Q :
  sound P' m Q -> stable P -> (forall h, P h -> P' h) -> sound P m (fun a h => P h /\ Q a h).
Proof.
  intros Hm Hs HP' p HI HP. eapply wp_mono; [by apply Hm; auto|].
  intros r q ((evs & Hh & Ht) & HIq & HQ). split; [by exists evs|]. split; [done|].
  destruct r; [|done]. split; [|done]. rewrite Hh. by apply Hs.
Qed.

Lemma sound_weaken {A} (P P' : Hist -> Prop) (m : M A) (Q Q' : A -> Hist -> Prop) :
  sound P m Q -> (forall h, P' h -> P h) -> (forall a h, Q a h -> Q' a h) -> sound P' m Q'.
Proof.
  intros Hm HP HQ p HI HP'. eapply wp_mono; [apply Hm; auto|].
  intros r q (Ht & HIq & HQr). split; [done|]. split; [done|]. destruct r; auto.
Qed.

Lemma sound_invoke {A} P (call : TapWorld -> Res A * TapWorld) ev (Q : A -> Hist -> Prop) :
  (forall r c h, P h -> I c h -> G (ev r) h /\ I c (ev r :: h) /\
     match r with Ok a => Q a (ev r :: h) | Throw _ => E end) ->
  sound P (invoke call ev) Q.
Proof.
  intros Hev p HI HP. apply wp_invoke. intros r w.
  destruct (Hev r (local p) (history p) HP HI) as (HG & HI' & HQ). split; [|done]. by exists [ev r].
Qed.

Lemma sound_now P (Q : Z -> Hist -> Prop) :
  (forall t h, G (EvClock t) h) -> (forall t c h, I c h -> I c (EvClock t :: h)) ->
  (forall t h, P h -> Q t (EvClock t :: h)) -> sound P now Q.
Proof.
  intros HG HI HQ p HIp HP. apply wp_invoke_total. intros t w.
  split; [by exists [EvClock t]|]. simpl. auto.
Qed.

Lemma sound_gets {A} P (f : Caches -> A) (Q : A -> Hist -> Prop) :
  (forall c h, P h -> I c h -> Q (f c) h) -> sound P (gets f) Q.
Proof. intros HQ p HI HP. apply wp_gets. split; [by exists []|]. auto. Qed.

Lemma sound_modify P f (Q : unit -> Hist -> Prop) :
  (forall c h, P h -> I c h -> I (f c) h /\ Q tt h) -> sound P (modify f) Q.
Proof.
  intros HQ p HI HP. apply wp_modify. destruct (HQ _ _ HP HI). split; [by exists []|]. by simpl.
Qed.

Lemma sound_pair {A X Y B} P (m : M (X * Y)) (k : X -> Y -> M A) (g : A -> M B) Q :
  sound P (a ← ('(x, y) ← m; k x y); g a) Q -> sound P ('(x, y) ← m; a ← k x y; g a) Q.
Proof.
  intros Hm p HI HP. specialize (Hm p HI HP). revert Hm. unfold wp, mbind, M_bind.
  by destruct (m p) as [[[x y]|e] q].
Qed.

Lemma sound_for_acc {A B} (l : list A) (body : B -> A -> M B) (P : B -> Hist -> Prop) b :
  (forall b a, a ∈ l -> sound (P b) (body b a) P) -> sound (P b) (for_acc l body b) P.
Proof.
  revert b. induction l as [|a l IH]; intros b Hb; [by apply sound_ret|].
  eapply sound_bind; [apply Hb; by left|]. intros b'. apply IH. intros b'' a' Ha. apply Hb. by right.
Qed.
End sound.
Arguments sound {_} G I E {A} P m Q.

(** An exception that is caught. *)
Lemma sound_try `{TapestryClient} G I (E E' : Prop) {A} P (m : M Caches TapWorld TapEvent A) h Q :
  stable P -> sound G I E' P m Q -> (forall e, sound G I E P (h e) Q) -> sound G I E P (try_catch m h) Q.
Proof.
  intros Hs Hm Hh p HI HP. apply wp_try. eapply wp_mono; [by apply Hm|].
  intros [a|e] q ((evs & He & Ht) & HIq & HQ).
  - split; [by exists evs|]. done.
  - eapply wp_mono; [apply Hh; [done|rewrite He; by apply Hs]|].
    intros r q' ((evs' & He' & Ht') & HIq' & HR). split; [|done].
    exists (evs' ++ evs). rewrite He', He, app_assoc. split; [done|].
    apply trace_ok_app; [by rewrite <- He|done].
Qed.

(** ** The caches *)

Section caches.
Context `{TapestryClient}.
Local Abbreviation Hist := (list TapEvent).

(** The service has answered this profile for the wallet. *)
Definition answered_for (h : Hist) (w : string) (profile : Roll2RollSocialProfile) : Prop :=
  exists answer, profileId <$> normalizeTapestryProfile answer = Some (profileId profile) /\
  ((exists l, EvProfilesOf w (Ok l) ∈ h /\ best_profile w l = answer) \/
   (exists r a, EvCreated r (Ok a) ∈ h /\ cp_wallet r = w /\ answer = Some a)).

Definition cached_answers (c : Caches) (h : Hist) : Prop :=
  forall w t profile, (w, mkTimed t (Some profile)) ∈ profileCacheByWallet c -> answered_for h w profile.

Record base_ok (c : Caches) (h : Hist) : Prop := {
  ok_profiles : map_wf (profileCacheByWallet c) /\ (length (profileCacheByWallet c) <= PROFILE_CACHE_MAX_ENTRIES)%nat;
  ok_feeds : map_wf (activityFeedCacheByKey c) /\ (length (activityFeedCacheByKey c) <= ACTIVITY_FEED_CACHE_MAX_ENTRIES)%nat;
  ok_identities : map_wf (identityCacheByWallet c);
  ok_wallets : map_wf (WALLET_BY_PROFILE_CACHE c);
  ok_answers : cached_answers c h
}.

(** The caches between requests. *)
Definition caches_ok (c : Caches) (h : Hist) : Prop :=
  base_ok c h /\ (length (WALLET_BY_PROFILE_CACHE c) <= PROFILE_CACHE_MAX_ENTRIES)%nat.

Lemma answered_for_app h evs w profile : answered_for h w profile -> answered_for (evs ++ h) w profile.
Proof.
  intros (answer & Hn & Ha). exists answer. split; [done|].
  destruct Ha as [(l & Hl & Hb)|(r & a & Hr & Hw & Ha)]; [left; exists l|right; exists r, a];
    rewrite elem_of_app; auto.
Qed.

Lemma answered_for_stable w profile : stable (fun h => answered_for h w profile).
Proof. intros h evs. apply answered_for_app. Qed.

Lemma base_ok_cons c h ev : base_ok c h -> base_ok c (ev :: h).
Proof.
  intros []. split; try done. intros w t profile Hin. apply (answered_for_app h [ev]). by eapply ok_answers0.
Qed.

Lemma caches_ok_cons c h ev : caches_ok c h -> caches_ok c (ev :: h).
Proof. intros [Hb Hl]. split; [by apply base_ok_cons|done]. Qed.

Lemma elem_of_map_set {V} k (v : V) m e : e ∈ map_set k v m -> e = (k, v) \/ e ∈ m.
Proof.
  induction m as [|[k' v'] m IH]; simpl; [rewrite list_elem_of_singleton; auto|].
  destruct (String.eqb k k'); rewrite !elem_of_cons; naive_solver.
Qed.

Lemma elem_of_evict {T} (tsf : T -> Z) m n e : map_wf m -> e ∈ evictOldestEntries tsf m n -> e ∈ m.
Proof.
  intros Hwf Hin. destruct (evict_spec tsf m n Hwf) as (_ & Hsub & _).
  by eapply sublist_subseteq.
Qed.

(** Storing a profile, and evicting, keep the profile cache good. *)
Lemma caches_ok_set_profile c h w t p :
  caches_ok c h -> (forall profile, p = Some profile -> answered_for h w profile) ->
  caches_ok (set_profiles (fun m => evictOldestEntries ts m PROFILE_CACHE_MAX_ENTRIES)
               (set_profiles (map_set w (mkTimed t p)) c)) h.
Proof.
  intros [[[Hp Hpl] Hf Hi Hw Ha] Hl] Hans. split; [|done].
  assert (map_wf (map_set w (mkTimed t p) (profileCacheByWallet c))) as Hwf by auto with crank.
  split; try done; simpl; [auto with crank|].
  intros w' t' profile Hin. apply elem_of_evict in Hin; [|done].
  apply elem_of_map_set in Hin as [[= -> -> <-]|Hin]; [by apply Hans|by eapply Ha].
Qed.

Lemma caches_ok_delete_profile c h w : caches_ok c h -> caches_ok (set_profiles (map_delete w) c) h.
Proof.
  intros [[[Hp Hpl] Hf Hi Hw Ha] Hl]. split; [|done]. split; try done; simpl.
  - split; [auto with crank|]. unfold map_delete. etransitivity; [apply length_filter|done].
  - intros w' t' profile Hin. apply list_elem_of_filter in Hin as [_ Hin]. by eapply Ha.
Qed.

(** Any change of the feeds that keeps them a bounded map. *)
Lemma caches_ok_set_feeds c h f :
  (forall m, map_wf m -> (length m <= ACTIVITY_FEED_CACHE_MAX_ENTRIES)%nat ->
     map_wf (f m) /\ (length (f m) <= ACTIVITY_FEED_CACHE_MAX_ENTRIES)%nat) ->
  caches_ok c h -> caches_ok (set_feeds f c) h.
Proof. intros Hf' [[Hp [Hf Hfl] Hi Hw Ha] Hl]. split; [|done]. split; try done. simpl. by apply Hf'. Qed.

Lemma caches_ok_set_identities c h f :
  (forall m, map_wf m -> map_wf (f m)) -> caches_ok c h -> caches_ok (set_identities f c) h.
Proof. intros Hf' [[Hp Hf Hi Hw Ha] Hl]. split; [|done]. split; try done. simpl. by apply Hf'. Qed.

Lemma base_ok_set_wallets c h f :
  (forall m, map_wf m -> map_wf (f m)) -> base_ok c h -> base_ok (set_wallets f c) h.
Proof. intros Hf' [Hp Hf Hi Hw Ha]. split; try done. simpl. by apply Hf'. Qed.
End caches.

#[export] Hint Resolve base_ok_cons caches_ok_cons caches_ok_delete_profile : crank.

(** ** The operations *)

Section operations.
Context `{TapestryClient} (API_KEY : option string).
Local Abbreviation Hist := (list TapEvent).
Context (G : TapEvent -> Hist -> Prop).

(** Reading is always allowed. *)
Class ReadsAllowed : Prop := {
  allow_clock : forall t h, G (EvClock t) h;
  allow_read : forall h, G EvRead h;
  allow_profiles : forall w r h, G (EvProfilesOf w r) h
}.
Context `{ReadsAllowed}.

Definition anything {A} : A -> Hist -> Prop := fun _ _ => True.
Local Abbreviation always := (fun _ : Hist => True).

(** The profiles of a result are those the service has answered. *)
Definition all_answered (l : list (string * option Roll2RollSocialProfile)) (h : Hist) : Prop :=
  forall w profile, (w, Some profile) ∈ l -> answered_for h w profile.

Lemma all_answered_stable l : stable (all_answered l).
Proof. intros h evs Hl w profile Hin. by apply answered_for_app, Hl. Qed.

Lemma all_answered_set l h w p :
  all_answered l h -> (forall profile, p = Some profile -> answered_for h w profile) ->
  all_answered (map_set w p l) h.
Proof.
  intros Hl Hp w' profile Hin. apply elem_of_map_set in Hin as [[= -> <-]|Hin]; [by apply Hp|by apply Hl].
Qed.

Lemma now_sound E (I : Caches -> Hist -> Prop) P :
  (forall c h ev, I c h -> I c (ev :: h)) -> stable P -> sound G I E P now (fun _ h => P h).
Proof.
  intros HI Hs. apply sound_now; [apply allow_clock|auto|]. intros t h HP. by apply (Hs h [EvClock t]).
Qed.

Lemma read_sound {A} (I : Caches -> Hist -> Prop) (call : TapWorld -> Res A * TapWorld) :
  (forall c h ev, I c h -> I c (ev :: h)) -> sound G I True always (read call) anything.
Proof.
  intros HI. apply sound_invoke. intros r c h _ Hc. split; [apply allow_read|]. split; [by apply HI|].
  by destruct r.
Qed.

Lemma fresh_profile_sound E w :
  sound G caches_ok E always (getFreshProfileFromCache w)
    (fun a h => forall profile, a = Some (Some profile) -> answered_for h w profile).
Proof.
  eapply sound_bind with (Q := fun hit h => forall t profile,
    hit = Some (mkTimed t (Some profile)) -> answered_for h w profile).
  - apply sound_gets. intros c h _ [[[Hwf _] _ _ _ Ha] _] t profile Hg.
    eapply Ha. by apply map_get_elem.
  - intros [hit|]; [|by apply sound_ret].
    eapply sound_bind; [apply now_sound; [auto with crank|]|].
    { intros h evs Hh t profile Hp. apply answered_for_app. by eapply Hh. }
    intros t. destruct (_ <? _).
    + eapply sound_bind with (Q := anything); [|intros; by apply sound_ret].
      apply sound_modify. intros c h _ Hc. split; [auto with crank|done].
    + apply sound_ret. intros h Hh profile [= Hp]. destruct hit as [t' pl]. simpl in Hp. subst pl. by eapply Hh.
Qed.

Lemma cache_profile_sound E w p :
  sound G caches_ok E (fun h => forall profile, p = Some profile -> answered_for h w profile)
    (cacheTapestryProfile w p) anything.
Proof.
  eapply sound_bind; [apply now_sound; [auto with crank|]|].
  { intros h evs Hh profile Hp. by apply answered_for_app, Hh. }
  intros t q Hq HP. apply wp_bind, wp_modify, wp_modify.
  split; [by exists []|]. split; [|done]. simpl. by apply caches_ok_set_profile.
Qed.

Lemma set_twitter_answered h w t profile : answered_for h w profile -> answered_for h w (set_twitter t profile).
Proof. done. Qed.

Lemma map_get_in {V} k (v : V) m : map_get k m = Some v -> (k, v) ∈ m.
Proof.
  induction m as [|[k' v'] m IH]; [done|]. simpl. destruct (String.eqb_spec k k') as [->|].
  - intros [= ->]. by left.
  - intros Hm. right. by apply IH.
Qed.

Lemma identities_sound E f : (forall m, map_wf m -> map_wf (f m)) ->
  sound G caches_ok E always (modify (set_identities f)) anything.
Proof. intros Hf. apply sound_modify. intros c h _ Hc. split; [by apply caches_ok_set_identities|done]. Qed.

Lemma identity_sound E w : sound G caches_ok E always (getIdentityForWallet API_KEY w) anything.
Proof.
  unfold getIdentityForWallet. destruct (negb _); [by apply sound_ret|].
  eapply sound_bind with (Q := anything).
  - eapply sound_bind with (Q := anything); [by apply sound_gets|]. intros [hit|]; [|by apply sound_ret].
    eapply sound_bind; [apply now_sound; [auto with crank|done]|]. intros t. destruct (_ <? _).
    + eapply sound_bind with (Q := anything); [|intros; by apply sound_ret].
      apply identities_sound; auto with crank.
    + by apply sound_ret.
  - intros [twitter|]; [by apply sound_ret|]. apply (sound_try _ _ _ True); [done| |].
    + eapply sound_bind; [apply read_sound; auto with crank|]. intros ids.
      eapply sound_bind with (Q := anything); [by apply sound_now; auto using allow_clock with crank|]. intros t.
      eapply sound_bind with (Q := anything).
      { apply identities_sound; auto with crank. }
      intros []. eapply sound_bind with (Q := anything); [|intros; by apply sound_ret].
      apply identities_sound; auto with crank.
    + intros e. eapply sound_bind; [apply now_sound; [auto with crank|done]|]. intros t.
      eapply sound_bind with (Q := anything); [|intros; by apply sound_ret].
      apply identities_sound; auto with crank.
Qed.

Lemma enrich_profile_sound E l w :
  sound G caches_ok E (all_answered l) (enrich_profile API_KEY l w) all_answered.
Proof.
  eapply sound_bind; [eapply sound_keep; [apply identity_sound|apply all_answered_stable|done]|].
  intros [twitter raw]. destruct (default None (map_get w l)) as [profile|] eqn:Hg, (truthy twitter) as [t|];
    try (apply sound_ret; naive_solver).
  assert ((w, Some profile) ∈ l) as Hin.
  { destruct (map_get w l) as [v|] eqn:Hm; [|done]. simpl in Hg. subst v. by apply map_get_in. }
  eapply sound_bind; [eapply sound_keep; [apply cache_profile_sound| |]|].
  { intros h evs [Ha _]. split; [by apply all_answered_stable|done]. }
  { intros h [Ha _] profile' [= <-]. by apply set_twitter_answered, Ha. }
  intros []. apply sound_ret. intros h [[Ha _] _]. apply all_answered_set; [done|].
  intros profile' [= <-]. by apply set_twitter_answered, Ha.
Qed.

Lemma cached_profiles_sound E wallets :
  sound G caches_ok E always (cached_profiles wallets) (fun a h => all_answered (fst a) h).
Proof.
  set (R := fun (acc : _ * list string) h => all_answered (fst acc) h).
  apply (sound_weaken _ _ _ (R ([], [])) _ _ R); [|intros h _ w profile Hin; by apply elem_of_nil in Hin|done].
  apply sound_for_acc. intros acc w Hw.
  eapply sound_bind; [eapply sound_keep; [apply fresh_profile_sound|apply all_answered_stable|done]|].
  intros [profile|]; apply sound_ret; intros h [Ha Hp]; [|done].
  apply all_answered_set; [done|]. intros profile' ->. by apply Hp.
Qed.

Lemma fetch_profile_sound E l w : sound G caches_ok E (all_answered l) (fetch_profile l w) all_answered.
Proof.
  apply (sound_try _ _ _ True); [apply all_answered_stable| |].
  - eapply sound_bind with (Q := fun profiles h => all_answered l h /\
      forall profile, normalizeTapestryProfile (best_profile w profiles) = Some profile -> answered_for h w profile).
    { apply sound_invoke. intros r c h Ha Hc. split; [apply allow_profiles|]. split; [auto with crank|].
      destruct r as [profiles|]; [|done]. split; [by apply (all_answered_stable l h [_])|].
      intros profile Hn. exists (best_profile w profiles). split; [by rewrite Hn|]. left. exists profiles.
      split; [left|done]. }
    intros profiles. eapply sound_bind; [eapply sound_keep; [apply cache_profile_sound| |]|].
    + intros h evs [Ha Hw]. split; [by apply all_answered_stable|]. intros profile Hn. by apply answered_for_app, Hw.
    + by intros h [_ Hw].
    + intros []. apply sound_ret. intros h [[Ha Hw] _]. by apply all_answered_set.
  - intros e. eapply sound_bind; [eapply sound_keep; [apply cache_profile_sound|apply all_answered_stable|done]|].
    intros []. apply sound_ret. intros h [Ha _]. by apply all_answered_set.
Qed.

Lemma get_profiles_sound E wallets :
  sound G caches_ok E always (getProfilesByWallets API_KEY wallets) all_answered.
Proof.
  unfold getProfilesByWallets. destruct (negb _).
  { apply sound_ret. intros h _ w profile Hin. by apply list_elem_of_fmap in Hin as (? & [=] & _). }
  eapply sound_bind; [apply cached_profiles_sound|]. intros [result missing]. simpl.
  destruct (_ =? _)%nat; [by apply sound_ret|].
  eapply sound_bind; [apply sound_for_acc; intros; apply fetch_profile_sound|]. intros result'.
  apply (sound_try _ _ _ E); [apply all_answered_stable| |intros e; by apply sound_ret].
  apply sound_for_acc. intros. apply enrich_profile_sound.
Qed.

(** *** Profiles that are created *)

Section creating.
Context (w : string) (Gcreate : forall name bio a h, G (EvCreated (mkCreateProfile w name bio) a) h).

Lemma create_sound name bio :
  sound G caches_ok True always (find_or_create (mkCreateProfile w name bio))
    (fun a h => forall profile, normalizeTapestryProfile (Some a) = Some profile -> answered_for h w profile).
Proof.
  apply sound_invoke. intros r c h _ Hc. split; [apply Gcreate|]. split; [auto with crank|].
  destruct r as [a|]; [|done]. intros profile Hn. exists (Some a). split; [by rewrite Hn|].
  right. eexists _, a. split; [left|done].
Qed.

Lemma find_or_create_sound :
  sound G caches_ok True always (findOrCreateProfileByWallet w)
    (fun a h => forall profile, a = Some profile -> answered_for h w profile).
Proof.
  eapply sound_bind; [apply fresh_profile_sound|]. intros cached.
  destruct (usable_profile cached) as [profile|] eqn:Hu.
  - apply sound_ret. intros h Hh profile' [= <-]. apply Hh. destruct cached as [[p|]|]; try done.
    simpl in Hu. by destruct (truthy (profileId p)); simplify_eq.
  - eapply sound_bind; [eapply sound_weaken; [apply create_sound|done|]|]; [by intros a h Hh; exact Hh|].
    intros created. eapply sound_bind; [eapply sound_keep; [apply cache_profile_sound| |]|].
    + intros h evs Hh profile Hn. by apply answered_for_app, Hh.
    + done.
    + intros []. apply sound_ret. by intros h [Hh _].
Qed.

(** The profile id for a change was answered for the wallet. *)
Definition id_answered (id : string) (h : Hist) : Prop :=
  id <> "" /\ exists profile, profileId profile = Some id /\ answered_for h w profile.

Lemma id_answered_stable id : stable (id_answered id).
Proof. intros h evs (Hne & profile & Hp & Ha). split; [done|]. exists profile. split; [done|by apply answered_for_app]. Qed.

Lemma truthy_some x s : truthy x = Some s -> x = Some s /\ s <> "".
Proof. destruct x as [[|]|]; simpl; intros [=]; by subst. Qed.

Lemma profile_id_answered source id h :
  source ≫= (fun p => truthy (profileId p)) = Some id ->
  (forall profile, source = Some profile -> answered_for h w profile) -> id_answered id h.
Proof.
  destruct source as [profile|]; [|done]. simpl. intros [Hid Hne]%truthy_some Ha.
  split; [done|]. exists profile. auto.
Qed.

Lemma acting_profile_sound : sound G caches_ok True always (acting_profile w) id_answered.
Proof.
  eapply sound_bind; [apply find_or_create_sound|]. intros source.
  destruct (source ≫= _) as [id|] eqn:Hs; [|by apply sound_throw].
  apply sound_ret. intros h Hh. by eapply profile_id_answered.
Qed.
End creating.

(** *** Feeds *)

Lemma feeds_sound E f :
  (forall m, map_wf m -> (length m <= ACTIVITY_FEED_CACHE_MAX_ENTRIES)%nat ->
     map_wf (f m) /\ (length (f m) <= ACTIVITY_FEED_CACHE_MAX_ENTRIES)%nat) ->
  sound G caches_ok E always (modify (set_feeds f)) anything.
Proof. intros Hf. apply sound_modify. intros c h _ Hc. split; [by apply caches_ok_set_feeds|done]. Qed.

Lemma filter_feeds (P : string * Timed Feed -> Prop) `{forall e, Decision (P e)} m :
  map_wf m -> (length m <= ACTIVITY_FEED_CACHE_MAX_ENTRIES)%nat ->
  map_wf (filter P m) /\ (length (filter P m) <= ACTIVITY_FEED_CACHE_MAX_ENTRIES)%nat.
Proof. intros Hm Hl. split; [by apply map_filter_wf|]. etransitivity; [apply length_filter|done]. Qed.

Lemma fresh_feed_sound E key : sound G caches_ok E always (getFreshActivityFeedFromCache key) anything.
Proof.
  eapply sound_bind with (Q := anything); [by apply sound_gets|]. intros [hit|]; [|by apply sound_ret].
  eapply sound_bind; [apply now_sound; [auto with crank|done]|]. intros t. destruct (_ <? _).
  - eapply sound_bind; [apply feeds_sound; intros; by apply filter_feeds|]. intros. by apply sound_ret.
  - by apply sound_ret.
Qed.

Lemma cache_feed_sound E key feed : sound G caches_ok E always (cache_feed key feed) anything.
Proof.
  eapply sound_bind; [apply now_sound; [auto with crank|done]|]. intros t q Hq _.
  apply wp_bind, wp_modify, wp_modify. split; [by exists []|]. split; [|done]. simpl.
  refine (caches_ok_set_feeds (local q) _
    (fun m => evictOldestEntries ts (map_set key (mkTimed t feed) m) ACTIVITY_FEED_CACHE_MAX_ENTRIES) _ Hq).
  intros m Hm _. split; auto with crank.
Qed.

Lemma empty_feed_sound E key limit page : sound G caches_ok E always (empty_feed key limit page) anything.
Proof. eapply sound_bind; [apply cache_feed_sound|]. intros. by apply sound_ret. Qed.

Lemma enrich_content_sound E l : sound G caches_ok E always (enrichContentActivities l) anything.
Proof.
  unfold enrichContentActivities. destruct (_ =? _)%nat; [by apply sound_ret|].
  apply (sound_try _ _ _ True); [done| |intros; by apply sound_ret].
  eapply sound_bind; [apply read_sound; auto with crank|]. intros. by apply sound_ret.
Qed.

Lemma wallets_sound E f : (forall m, map_wf m -> map_wf (f m)) ->
  sound G base_ok E always (modify (set_wallets f)) anything.
Proof. intros Hf. apply sound_modify. intros c h _ Hc. split; [by apply base_ok_set_wallets|done]. Qed.

Lemma cached_wallets_sound E ids : sound G base_ok E always (cached_wallets ids) anything.
Proof.
  apply (sound_for_acc _ _ _ _ _ anything). intros acc pid _.
  eapply sound_bind with (Q := anything); [by apply sound_gets|]. intros [hit|]; [|by apply sound_ret].
  eapply sound_bind; [apply now_sound; [auto with crank|done]|]. intros t.
  destruct (_ <? _); by apply sound_ret.
Qed.

Lemma resolve_wallet_sound E m pid : sound G base_ok E always (resolve_wallet m pid) anything.
Proof.
  apply (sound_try _ _ _ True); [done| |].
  - eapply sound_bind; [apply read_sound; auto with crank|]. intros [a b].
    eapply sound_bind; [apply now_sound; [auto with crank|done]|]. intros t.
    eapply sound_bind; [apply wallets_sound; auto with crank|]. intros. by apply sound_ret.
  - intros e. eapply sound_bind; [apply now_sound; [auto with crank|done]|]. intros t.
    eapply sound_bind; [apply wallets_sound; auto with crank|]. intros. by apply sound_ret.
Qed.

(** The cache of wallets may be too large while they are resolved; then it is trimmed. *)
Lemma trim_wallets_sound {A B} (m : M Caches TapWorld TapEvent A) (f : A -> B) E :
  sound G base_ok False always m anything ->
  sound G caches_ok E always
    (a ← m; modify (set_wallets (fun c => evictOldestEntries ts c PROFILE_CACHE_MAX_ENTRIES)) ;; mret (f a))
    anything.
Proof.
  intros Hm p [Hb Hl] _. apply wp_bind. eapply wp_mono; [by apply Hm|].
  intros [a|e] q (Ht & Hq & HQ); [|done]. apply wp_bind, wp_modify, wp_ret. split; [done|].
  simpl. split; [|done]. split; [apply base_ok_set_wallets; auto with crank|].
  simpl. apply evict_length, Hq.
Qed.

Lemma enrich_wallets_sound E l : sound G caches_ok E always (enrichActivitiesWithWallets l) anything.
Proof.
  unfold enrichActivitiesWithWallets. destruct (_ =? _)%nat; [by apply sound_ret|].
  apply (sound_pair _ _ _ _ _ (fun m l' => for_acc l' resolve_wallet m)).
  apply (trim_wallets_sound _ (fun m => with_wallets m <$> l)). eapply sound_bind; [apply cached_wallets_sound|]. intros [m l'].
  apply (sound_weaken _ _ _ (anything m) _ _ anything); [|done|done].
  apply sound_for_acc. intros. apply resolve_wallet_sound.
Qed.

Lemma fetch_feed_sound key name limit page :
  sound G caches_ok True always (fetch_feed key name limit page) anything.
Proof.
  eapply sound_bind; [apply read_sound; auto with crank|]. intros data.
  eapply sound_bind; [apply enrich_content_sound|]. intros l.
  eapply sound_bind with (Q := anything).
  { apply (sound_try _ _ _ True); [done|apply enrich_wallets_sound|intros; by apply sound_ret]. }
  intros l'. eapply sound_bind; [apply cache_feed_sound|]. intros. by apply sound_ret.
Qed.

Lemma activity_feed_sound w limit page :
  (forall name bio a h, G (EvCreated (mkCreateProfile w name bio) a) h) ->
  sound G caches_ok True always (getActivityFeed API_KEY w limit page) anything.
Proof.
  intros Gc. eapply sound_bind; [apply fresh_feed_sound|]. intros [feed|]; [by apply sound_ret|].
  destruct (negb _); [apply empty_feed_sound|].
  eapply sound_bind with (Q := anything).
  { apply (sound_try _ _ _ True); [done| |intros; by apply sound_ret].
    eapply sound_bind; [by apply find_or_create_sound|]. intros. by apply sound_ret. }
  intros [self|e]; [|apply empty_feed_sound]. destruct (trimmed _) as [name|]; [|apply empty_feed_sound].
  apply (sound_try _ _ _ True); [done|apply fetch_feed_sound|].
  intros e. destruct (no_feed e); [apply empty_feed_sound|by apply sound_throw].
Qed.

Lemma invalidate_sound w : sound G caches_ok True always (invalidateActivityFeed w) anything.
Proof. apply feeds_sound. intros. by apply filter_feeds. Qed.
End operations.

(** ** The requests *)

Section requests.
Context `{TapestryClient} (API_KEY : option string).
Local Abbreviation Hist := (list TapEvent).
Local Abbreviation always := (fun _ : Hist => True).

(** The body has this text, trimmed and not empty, under the key. *)
Definition body_says (req : TapRequest) (key v : string) : Prop :=
  v <> "" /\ exists body, parseBody (tr_body req) = Ok body /\ body_word body key = v.

(** The wallet of the request: that of a body, or that of the query of a GET. *)
Definition names_wallet (req : TapRequest) (w : string) : Prop :=
  body_says req "wallet" w \/ tr_method req = "GET" /\ parseWalletQuery (tr_wallet req) = Ok w.

(** The profile a request wants to follow: named in the body, or that of the wallet in it. *)
Definition is_target (req : TapRequest) (id : string) (h : Hist) : Prop :=
  body_says req "targetProfileId" id \/
  exists w profile, body_says req "targetWallet" w /\ answered_for h w profile /\ profileId profile = Some id.

Definition follow_ok (req : TapRequest) (action startId endId : string) (h : Hist) : Prop :=
  query_word (tr_action req) = "follow" /\
  (exists body, parseBody (tr_body req) = Ok body /\ follow_action body = action) /\
  endId <> startId /\ endId <> "" /\ is_target req endId h.

(** The content, comment, node or relation that a POST for the profile [id] changes is the
    one the request asks for. *)
Definition post_ok (req : TapRequest) (wr : Write) (id : string) (h : Hist) : Prop :=
  match wr with
  | WFollow s e => s = id /\ follow_ok req "follow" s e h
  | WUnfollow s e => s = id /\ follow_ok req "unfollow" s e h
  | WContent c =>
      cc_profileId c = id /\ query_word (tr_action req) = "publish-event" /\
      exists eventType rest, body_says req "eventType" eventType /\
        cc_id c = id +:+ ":" +:+ eventType +:+ ":" +:+ rest /\
        last (cc_properties c) = Some ("eventType", JStr eventType)
  | WComment c =>
      co_profileId c = id /\ query_word (tr_action req) = "comment" /\
      body_says req "contentId" (co_contentId c) /\ body_says req "text" (co_text c)
  | WLike n s => s = id /\ query_word (tr_action req) = "like" /\ body_says req "nodeId" n
  | WUnlike n s => s = id /\ query_word (tr_action req) = "unlike" /\ body_says req "nodeId" n
  | WDeleteComment _ => False
  end.

(** A change is one that the request asks for: the deletion of a comment, or a POST for the
    profile that the service has answered for the wallet of the body. *)
Definition change_ok (req : TapRequest) (ev : TapEvent) (h : Hist) : Prop :=
  match ev with
  | EvClock _ | EvRead | EvProfilesOf _ _ => True
  | EvCreated r _ => names_wallet req (cp_wallet r)
  | EvWrite (WDeleteComment id) _ =>
      tr_method req = "DELETE" /\ query_word (tr_action req) = "comment" /\ body_says req "commentId" id
  | EvWrite wr _ =>
      tr_method req = "POST" /\
      exists w id, body_says req "wallet" w /\ id_answered w id h /\ post_ok req wr id h
  end.

Instance change_ok_reads req : ReadsAllowed (change_ok req).
Proof. by constructor. Qed.

Context (req : TapRequest).
Local Abbreviation snd_ok P m Q := (sound (change_ok req) caches_ok True P m Q).

Lemma with_handler_sound E fn :
  snd_ok always fn anything -> sound (change_ok req) caches_ok E always (withHandler fn) anything.
Proof. intros Hfn. apply (sound_try _ _ _ True); [done|done|]. intros e. by apply sound_ret. Qed.

Lemma not_allowed_sound E msg : sound (change_ok req) caches_ok E always (not_allowed msg) anything.
Proof. by apply sound_ret. Qed.

Lemma body_sound {A} (f : Json -> M Caches TapWorld TapEvent A) Q :
  (forall body, parseBody (tr_body req) = Ok body -> snd_ok always (f body) Q) ->
  snd_ok always (body ← lift (parseBody (tr_body req)); f body) Q.
Proof.
  intros Hf p HI HP. apply wp_bind, wp_lift. destruct (parseBody (tr_body req)) as [body|e] eqn:Hb.
  - by apply Hf.
  - split; [by exists []|]. done.
Qed.

(** A check that throws, followed by the rest. *)
Lemma require_sound {A} P (b : bool) e (f : M Caches TapWorld TapEvent A) Q :
  (b = false -> snd_ok P f Q) -> snd_ok P ((if b then throw e else mret tt) ;; f) Q.
Proof.
  intros Hf. destruct b.
  - intros p HI HP. apply wp_bind, wp_throw. split; [by exists []|]. done.
  - intros p HI HP. apply wp_bind, wp_ret. by apply Hf.
Qed.

Lemma word_sound {A} P body key code msg (f : string -> M Caches TapWorld TapEvent A) Q :
  parseBody (tr_body req) = Ok body ->
  (forall v, body_says req key v -> snd_ok P (f v) Q) ->
  snd_ok P (v ← require_word body key code msg; f v) Q.
Proof.
  intros Hb Hf. unfold require_word. destruct (String.eqb_spec (body_word body key) "") as [|Hne].
  - intros p HI HP. apply wp_bind, wp_throw. split; [by exists []|]. done.
  - intros p HI HP. apply wp_bind, wp_ret. apply Hf; [|done|done]. split; [done|]. by exists body.
Qed.

Lemma wallet_sound {A} P body (f : string -> M Caches TapWorld TapEvent A) Q :
  parseBody (tr_body req) = Ok body ->
  (forall v, body_says req "wallet" v -> snd_ok P (f v) Q) ->
  snd_ok P (v ← require_wallet body; f v) Q.
Proof. apply word_sound. Qed.

Lemma query_wallet_sound {A} (f : string -> M Caches TapWorld TapEvent A) Q :
  (forall w, parseWalletQuery (tr_wallet req) = Ok w -> snd_ok always (f w) Q) ->
  snd_ok always (w ← lift (parseWalletQuery (tr_wallet req)); f w) Q.
Proof.
  intros Hf p HI HP. apply wp_bind, wp_lift. destruct (parseWalletQuery _) as [w|e].
  - by apply Hf.
  - split; [by exists []|]. done.
Qed.

(** The acting profile, then a change that is justified by it. *)
Lemma write_sound {A} P (wr : Write) (call : TapWorld -> Res A * TapWorld) :
  (forall ok h, P h -> change_ok req (EvWrite wr ok) h) -> snd_ok P (write wr call) anything.
Proof.
  intros HG. apply sound_invoke. intros r c h HP Hc. split; [by apply HG|]. split; [by apply caches_ok_cons|].
  by destruct r.
Qed.

Lemma allows_create w : names_wallet req w ->
  forall name bio a h, change_ok req (EvCreated (mkCreateProfile w name bio) a) h.
Proof. done. Qed.

Lemma acting_write_sound {A} w (k : string -> Write) (call : string -> TapWorld -> Res A * TapWorld) :
  body_says req "wallet" w ->
  (forall id ok h, id_answered w id h -> change_ok req (EvWrite (k id) ok) h) ->
  snd_ok always (profileId ← acting_profile w; write (k profileId) (call profileId)) anything.
Proof.
  intros Hw Hp. eapply sound_bind; [apply (acting_profile_sound (change_ok req)); apply allows_create; by left|].
  intros id. apply write_sound. auto.
Qed.

(** *** The handlers *)

Lemma method_is b s : negb (String.eqb b s) = false -> b = s.
Proof. intros Hn%negb_false_iff. by apply String.eqb_eq. Qed.

Context (E : Prop).
Local Abbreviation handled m := (sound (change_ok req) caches_ok E always m anything).

Lemma profile_sound : handled (handleProfile API_KEY req).
Proof.
  unfold handleProfile. destruct (String.eqb _ _); [|destruct (String.eqb _ _)]; apply with_handler_sound.
  - apply query_wallet_sound. intros w _. eapply sound_bind; [apply (get_profiles_sound API_KEY (change_ok req))|]. intros. by apply sound_ret.
  - apply body_sound. intros body _. apply require_sound. intros _.
    eapply sound_bind; [apply (get_profiles_sound API_KEY (change_ok req))|]. intros. by apply sound_ret.
  - apply not_allowed_sound.
Qed.

Lemma import_sound : handled (handleProfileImport req).
Proof.
  unfold handleProfileImport. destruct (negb _) eqn:Hm; apply with_handler_sound; [apply not_allowed_sound|].
  apply body_sound. intros body Hb. apply (wallet_sound _ body); [done|]. intros w Hw.
  eapply sound_bind; [apply (create_sound (change_ok req) w); apply allows_create; by left|]. intros created.
  eapply sound_bind with (Q := anything); [|intros; by apply sound_ret].
  destruct (normalizeTapestryProfile (Some created)) as [profile|]; [|by apply sound_ret].
  eapply sound_bind; [apply (cache_profile_sound (change_ok req))|]. intros. apply (invalidate_sound (change_ok req)).
Qed.

Lemma feed_sound : handled (handleActivityFeed API_KEY req).
Proof.
  unfold handleActivityFeed. destruct (negb _) eqn:Hm; apply with_handler_sound; [apply not_allowed_sound|].
  apply query_wallet_sound. intros w Hw.
  eapply sound_bind; [apply (activity_feed_sound API_KEY (change_ok req)); apply allows_create|]; [|intros; by apply sound_ret].
  right. split; [by apply method_is|done].
Qed.

Lemma target_sound source w targetWallet raw :
  (String.eqb targetWallet "" && String.eqb raw "") = false ->
  (exists body, parseBody (tr_body req) = Ok body /\ body_word body "targetWallet" = targetWallet /\
     body_word body "targetProfileId" = raw) ->
  snd_ok (id_answered w source) (follow_target API_KEY targetWallet raw)
    (fun id h => id_answered w source h /\ (id <> "" -> is_target req id h)).
Proof.
  intros Hne (body & Hb & Ht & Hr). unfold follow_target.
  destruct (String.eqb raw "") eqn:Hraw; simpl.
  - rewrite andb_true_r in Hne. apply String.eqb_neq in Hne.
    eapply sound_bind; [eapply sound_keep; [apply (get_profiles_sound API_KEY (change_ok req))|apply id_answered_stable|done]|].
    intros profiles. apply sound_ret. intros h [Hs Ha]. split; [done|]. intros Hid. right.
    destruct (map_get targetWallet profiles) as [[profile|]|] eqn:Hg; simpl in Hid |- *; try done.
    destruct (profileId profile) as [id|] eqn:Hpid; simpl in Hid |- *; [|done].
    exists targetWallet, profile. split_and!; [split; [done|by exists body]| |done].
    apply Ha. by apply map_get_in.
  - apply sound_ret. intros h Hs. split; [done|]. intros _. left. apply String.eqb_neq in Hraw. split; [done|]. by exists body.
Qed.

Lemma follow_sound : query_word (tr_action req) = "follow" -> handled (handleFollow API_KEY req).
Proof.
  intros Hact. unfold handleFollow. destruct (negb _) eqn:Hm; apply with_handler_sound; [apply not_allowed_sound|].
  apply method_is in Hm. apply body_sound. intros body Hb. apply (wallet_sound _ body); [done|]. intros w Hw.
  apply require_sound. intros Ha. apply require_sound. intros Ht.
  eapply sound_bind; [apply (find_or_create_sound (change_ok req)); apply allows_create; by left|]. intros source.
  destruct (source ≫= _) as [sourceId|] eqn:Hs; [|by apply sound_throw].
  eapply sound_bind.
  { eapply sound_weaken; [apply (target_sound sourceId w); [done|by exists body]| |].
    - intros h Hh. by eapply profile_id_answered.
    - intros a h Hh. exact Hh. }
  intros target. apply require_sound. intros Hne. apply require_sound. intros Hself.
  apply String.eqb_neq in Hne. apply String.eqb_neq in Hself.
  eapply sound_bind with (Q := anything); [|intros; eapply sound_bind; [apply (invalidate_sound (change_ok req))|intros; by apply sound_ret]].
  assert (forall h action, follow_action body = action ->
    id_answered w sourceId h /\ (target <> "" -> is_target req target h) ->
    follow_ok req action sourceId target h) as Hok.
  { intros h action Haction [Hid Htarget]. split_and!; try done; [by exists body|by apply Htarget]. }
  destruct (String.eqb_spec (follow_action body) "follow") as [Hf|Hf].
  - apply write_sound. intros ok h Hh. split; [done|]. exists w, sourceId. split_and!; [done|apply Hh|split; [done|by apply Hok]].
  - apply write_sound. intros ok h Hh. split; [done|]. exists w, sourceId. split_and!; [done|apply Hh|split; [done|]].
    apply Hok; [|done]. simpl in Ha. apply negb_false_iff in Ha. by apply String.eqb_eq.
Qed.

Lemma content_id_sound P profileId eventType round : stable P ->
  snd_ok P (event_content_id profileId eventType round)
    (fun cid h => P h /\ exists rest, cid = profileId +:+ ":" +:+ eventType +:+ ":" +:+ rest).
Proof.
  intros Hs. unfold event_content_id. destruct (String.eqb _ _).
  - eapply sound_bind; [apply (now_sound (change_ok req)); [apply caches_ok_cons|done]|].
    intros t. apply sound_ret. eauto.
  - apply sound_ret. eauto.
Qed.

Lemma create_content_sound P c : stable P ->
  (forall ok h, P h -> change_ok req (EvWrite (WContent c) ok) h) -> snd_ok P (create_content c) anything.
Proof.
  intros Hs HG. assert (snd_ok P (write (WContent c) (callCreateContent c)) anything) as Hw by by apply write_sound.
  apply (sound_try _ _ _ True); [done|done|]. intros e.
  assert (snd_ok P (try_catch (write (WContent c) (callCreateContent c)) (fun _ => throw e)) anything) as Ht.
  { apply (sound_try _ _ _ True); [done|done|]. intros. by apply sound_throw. }
  destruct (responseStatus e) as [status|]; [|done].
  destruct (_ && _); [by apply sound_throw|done].
Qed.

Lemma publish_sound : query_word (tr_action req) = "publish-event" -> handled (handlePublishEvent req).
Proof.
  intros Hact. unfold handlePublishEvent.
  destruct (negb _) eqn:Hm; apply with_handler_sound; [apply not_allowed_sound|].
  apply method_is in Hm. apply body_sound. intros body Hb. apply (wallet_sound _ body); [done|]. intros w Hw.
  apply (word_sound _ body); [done|]. intros eventType He.
  eapply sound_bind; [apply (acting_profile_sound (change_ok req)); apply allows_create; by left|]. intros id.
  eapply sound_bind; [apply content_id_sound, id_answered_stable|]. intros cid.
  eapply sound_bind; [apply create_content_sound| ].
  - intros h evs [Hid Hc]. split; [by apply id_answered_stable|done].
  - intros ok h [Hid [rest Hrest]]. split; [done|]. exists w, id. split_and!; [done|done|].
    split_and!; [done|done|]. exists eventType, rest. split_and!; [done|done|]. apply last_snoc.
  - intros content. eapply sound_bind; [apply (invalidate_sound (change_ok req))|]. intros. by apply sound_ret.
Qed.

Lemma comments_sound : handled (handleComments API_KEY req).
Proof.
  unfold handleComments. destruct (String.eqb _ _); [apply with_handler_sound|apply not_allowed_sound].
  eapply sound_bind with (Q := anything).
  { destruct (query_truthy _); first [by apply sound_throw|by apply sound_ret]. }
  intros []. eapply sound_bind with (Q := anything).
  - unfold getComments. destruct (negb _); [by apply sound_ret|].
    eapply sound_bind; [apply (read_sound (change_ok req)), caches_ok_cons|]. intros [[l a] b]. by apply sound_ret.
  - intros [[l a] b]. by apply sound_ret.
Qed.

Lemma comment_sound : query_word (tr_action req) = "comment" -> handled (handleComment req).
Proof.
  intros Hact. unfold handleComment.
  destruct (String.eqb_spec (tr_method req) "POST") as [Hm|_]; [apply with_handler_sound|
    destruct (String.eqb_spec (tr_method req) "DELETE") as [Hm|_]; [apply with_handler_sound|apply not_allowed_sound]].
  - apply body_sound. intros body Hb. apply (wallet_sound _ body); [done|]. intros w Hw.
    apply (word_sound _ body); [done|]. intros contentId Hc. apply (word_sound _ body); [done|]. intros text Ht.
    eapply sound_bind; [apply (acting_write_sound w (fun id => WComment (mkCreateComment id contentId text _)))|];
      [done| |intros [[a b] c]; by apply sound_ret].
    intros id ok h Hid. split; [done|]. by exists w, id.
  - apply body_sound. intros body Hb. apply (word_sound _ body); [done|]. intros commentId Hc.
    eapply sound_bind; [apply write_sound|intros; by apply sound_ret]. by intros ok h _.
Qed.

Lemma like_sound (k : string -> string -> Write) (call : string -> string -> TapWorld -> Res unit * TapWorld) :
  (forall w nodeId id ok h, tr_method req = "POST" -> body_says req "wallet" w ->
     body_says req "nodeId" nodeId -> id_answered w id h -> change_ok req (EvWrite (k nodeId id) ok) h) ->
  handled (handle_like (fun w nodeId => profileId ← acting_profile w; write (k nodeId profileId) (call nodeId profileId)) req).
Proof.
  intros Hk. unfold handle_like. destruct (negb _) eqn:Hm; apply with_handler_sound; [apply not_allowed_sound|].
  apply method_is in Hm. apply body_sound. intros body Hb. apply (wallet_sound _ body); [done|]. intros w Hw.
  apply (word_sound _ body); [done|]. intros nodeId Hn.
  eapply sound_bind; [apply (acting_write_sound w (k nodeId))|]; [done| |intros; by apply sound_ret].
  intros id ok h Hid. by apply (Hk w).
Qed.

Lemma search_sound : handled (handleSearch API_KEY req).
Proof.
  unfold handleSearch. destruct (negb _); apply with_handler_sound; [apply not_allowed_sound|].
  apply require_sound. intros _. eapply sound_bind with (Q := anything).
  - unfold searchProfiles. destruct (negb _); [by apply sound_ret|].
    eapply sound_bind; [apply (read_sound (change_ok req)), caches_ok_cons|]. intros [[l a] b]. by apply sound_ret.
  - intros [[l a] b]. by apply sound_ret.
Qed.

Lemma identity_handler_sound : handled (handleIdentity API_KEY req).
Proof.
  unfold handleIdentity. destruct (negb _); apply with_handler_sound; [apply not_allowed_sound|].
  apply query_wallet_sound. intros w _. eapply sound_bind; [apply (identity_sound API_KEY (change_ok req))|].
  intros [twitter raw]. by apply sound_ret.
Qed.

Lemma action_sound fn : map_get (query_word (tr_action req)) (ACTIONS API_KEY) = Some fn -> handled (fn req).
Proof.
  unfold ACTIONS. cbn [map_get].
  repeat match goal with
  | |- (if String.eqb ?a ?b then _ else _) = _ -> _ =>
      destruct (String.eqb_spec a b); [intros [= <-]|]
  end.
  - apply profile_sound.
  - apply import_sound.
  - apply feed_sound.
  - by apply follow_sound.
  - by apply publish_sound.
  - apply comments_sound.
  - by apply comment_sound.
  - apply (like_sound WLike callLike). intros w nodeId id ok h Hm Hw Hn Hid. split; [done|]. by exists w, id.
  - apply (like_sound WUnlike callUnlike). intros w nodeId id ok h Hm Hw Hn Hid. split; [done|]. by exists w, id.
  - apply search_sound.
  - apply identity_handler_sound.
  - done.
Qed.
End requests.

(** ** Feeds after a change *)

Section cleared.
Context `{TapestryClient} (API_KEY : option string) (req : TapRequest).
Local Abbreviation M := (M Caches TapWorld TapEvent).
Local Abbreviation Proc := (Proc Caches TapWorld TapEvent).

(** No feed of the wallet of the body is cached. *)
Definition no_cached_feed (q : Proc) : Prop :=
  forall w key, body_says req "wallet" w -> feed_of w key = true ->
  map_get key (activityFeedCacheByKey (local q)) = None.

(** After a response that reports a change of the feed. *)
Definition cleared (r : Res TapResponse) (q : Proc) : Prop :=
  match r with
  | Ok (TFollowed _ _ _ _) | Ok (TPublished _ _) | Ok (TImported (Some _) _) => no_cached_feed q
  | _ => True
  end.

Lemma wp_bind_any {A B} (m : M A) (f : A -> M B) (Q : Res B -> Proc -> Prop) p :
  (forall e q, Q (Throw e) q) -> (forall a q, wp (f a) Q q) -> wp (mbind f m) Q p.
Proof. intros He Hf. apply wp_bind, wp_any. intros [a|e] q; auto. Qed.

Lemma with_handler_cleared fn p : (forall q, wp fn cleared q) -> wp (withHandler fn) cleared p.
Proof.
  intros Hfn. apply wp_try. eapply wp_mono; [apply Hfn|]. intros [a|e] q Hq; [done|]. by apply wp_ret.
Qed.

(** The wallet of the body is the one the handler reads. *)
Lemma invalidate_clears {A} body w (a : A) (Q : Res A -> Proc -> Prop) p :
  parseBody (tr_body req) = Ok body -> body_word body "wallet" = w ->
  (forall q, no_cached_feed q -> Q (Ok a) q) -> wp (invalidateActivityFeed w ;; mret a) Q p.
Proof.
  intros Hb Hw HQ. apply wp_bind, wp_modify, wp_ret, HQ. intros w' key (_ & body' & Hb' & Hw') Hk. simpl.
  assert (w' = w) as -> by congruence.
  etransitivity; [exact (map_get_filter_key (fun k => feed_of w k = false) key _)|].
  rewrite decide_False; [done|]. by rewrite Hk.
Qed.

(** Runs to the final response, whatever the calls answer. *)
Ltac to_response :=
  repeat first
    [ apply wp_bind_any; [done|intros]
    | apply with_handler_cleared; intros
    | apply wp_ret; done
    | apply wp_throw; done
    | match goal with
      | |- wp (match ?x with _ => _ end) _ _ => destruct x
      | |- wp (if ?x then _ else _) _ _ => destruct x
      end ].

Lemma body_step {A} (f : Json -> M A) (Q : Res A -> Proc -> Prop) p :
  (forall e q, Q (Throw e) q) -> (forall body q, parseBody (tr_body req) = Ok body -> wp (f body) Q q) ->
  wp (body ← lift (parseBody (tr_body req)); f body) Q p.
Proof. intros He Hf. apply wp_bind, wp_lift. destruct (parseBody _); auto. Qed.

Lemma wallet_step {A} body (f : string -> M A) (Q : Res A -> Proc -> Prop) p :
  (forall e q, Q (Throw e) q) -> (forall q, wp (f (body_word body "wallet")) Q q) ->
  wp (w ← require_wallet body; f w) Q p.
Proof.
  intros He Hf. apply wp_bind. unfold require_wallet, require_word. destruct (String.eqb _ _).
  - by apply wp_throw.
  - apply wp_ret, Hf.
Qed.

Lemma import_cleared p : wp (handleProfileImport req) cleared p.
Proof.
  unfold handleProfileImport. destruct (negb _); apply with_handler_cleared; intros q; [by to_response|].
  apply body_step; [done|]. intros body q1 Hb. apply wallet_step; [done|]. intros q2.
  apply wp_bind_any; [done|]. intros created q3.
  destruct (normalizeTapestryProfile (Some created)) as [profile|]; [|by to_response].
  apply wp_bind, wp_bind_any; [done|]. intros [] q4.
  apply wp_modify, wp_ret. intros w' key Hsays Hk.
  refine (_ (invalidate_clears body (body_word body "wallet") tt
    (fun _ q => map_get key (activityFeedCacheByKey (local q)) = None) q4 Hb eq_refl _)); [by simpl|].
  intros q5 Hq5. by apply (Hq5 w').
Qed.

Lemma follow_cleared p : wp (handleFollow API_KEY req) cleared p.
Proof.
  unfold handleFollow. destruct (negb _); apply with_handler_cleared; intros q; [by to_response|].
  apply body_step; [done|]. intros body q1 Hb. apply wallet_step; [done|]. intros q2.
  do 3 (apply wp_bind_any; [done|]; intros ? ?). destruct (_ ≫= _) as [sourceId|]; [|by to_response].
  do 4 (apply wp_bind_any; [done|]; intros ? ?). by eapply invalidate_clears.
Qed.

Lemma publish_cleared p : wp (handlePublishEvent req) cleared p.
Proof.
  unfold handlePublishEvent. destruct (negb _); apply with_handler_cleared; intros q; [by to_response|].
  apply body_step; [done|]. intros body q1 Hb. apply wallet_step; [done|]. intros q2.
  do 4 (apply wp_bind_any; [done|]; intros ? ?). by eapply invalidate_clears.
Qed.

Lemma action_cleared fn p :
  map_get (query_word (tr_action req)) (ACTIONS API_KEY) = Some fn -> wp (fn req) cleared p.
Proof.
  unfold ACTIONS. cbn [map_get].
  repeat match goal with
  | |- (if String.eqb ?a ?b then _ else _) = _ -> _ => destruct (String.eqb a b); [intros [= <-]|]
  end; [..|done];
    first [ apply import_cleared | apply follow_cleared | apply publish_cleared
          | unfold handleProfile, handleActivityFeed, handleComments, handleComment, handleLike, handleUnlike,
              handle_like, handleSearch, handleIdentity, not_allowed; by to_response ].
Qed.
End cleared.

(** ** The states of the server *)

Section served.
Context `{TapestryClient} (API_KEY : option string).
Local Abbreviation Proc := (Proc Caches TapWorld TapEvent).

Definition empty_caches : Caches := mkCaches [] [] [] [].

(** The server after any requests, from a cold start. *)
Inductive served : Proc -> Prop :=
| served_start w : served (mkProc empty_caches w [])
| served_request p req : served p -> served (snd (handler API_KEY req p)).

Lemma handler_sound req :
  sound (change_ok req) caches_ok (query_word (tr_action req) ∈ inherited_throwing) (fun _ => True)
    (handler API_KEY req)
    (fun r _ => r = None -> query_word (tr_action req) ∈ inherited_quiet).
Proof.
  unfold handler. destruct (String.eqb _ _); [by apply sound_ret|].
  destruct (map_get _ _) as [fn|] eqn:Hfn.
  - eapply sound_bind; [by eapply action_sound|]. intros. by apply sound_ret.
  - case_bool_decide; [by apply sound_ret|]. case_bool_decide; [by apply sound_throw|]. by apply sound_ret.
Qed.

Lemma served_caches_ok p : served p -> caches_ok (local p) (history p).
Proof.
  induction 1 as [w|p req _ IH].
  - split; [|simpl; lia]. split; simpl; try (split; [|lia]); try apply NoDup_nil_2.
    intros w' t profile Hin. by apply elem_of_nil in Hin.
  - by destruct (handler_sound req p IH I) as (_ & Hok & _).
Qed.


(** C25: The changes of the social graph.  Whatever the requests before it, a request only
    makes changes that it asks for: profiles are created for the wallet it names; follows,
    contents, comments and likes come from a POST and are made for the profile that the
    service has answered for the wallet of its body, never for a profile that follows
    itself; a comment is deleted only by a DELETE that names it.  Once the response reports
    a follow, an import or a published event, no feed of the wallet is left in the cache.
    The handler throws, or sends no response, only for an action named like a property of
    [Object.prototype]. *)
Theorem tapestry_changes p req : served p ->
  let run := handler API_KEY req p in
  (exists evs, history (snd run) = evs ++ history p /\ trace_ok (change_ok req) (history p) evs) /\
  (forall response, fst run = Ok (Some response) -> cleared req (Ok response) (snd run)) /\
  (forall e, fst run = Throw e -> query_word (tr_action req) ∈ inherited_throwing) /\
  (fst run = Ok None -> query_word (tr_action req) ∈ inherited_quiet).
Proof.
  intros Hp run. destruct (handler_sound req p (served_caches_ok p Hp) I) as (Ht & _ & HQ).
  fold run in Ht, HQ. split_and!; [done| | |].
  - assert (wp (handler API_KEY req) (fun r q => match r with
      | Ok (Some response) => cleared req (Ok response) q | _ => True end) p) as Hc.
    { unfold handler. destruct (String.eqb _ _); [by apply wp_ret|].
      destruct (map_get _ _) as [fn|] eqn:Hfn.
      - apply wp_bind. eapply wp_mono; [by apply (action_cleared API_KEY)|]. intros [a|e] q Hq; [by apply wp_ret|done].
      - case_bool_decide; [by apply wp_ret|]. case_bool_decide; [by apply wp_throw|]. by apply wp_ret. }
    unfold wp in Hc. fold run in Hc. intros response Hr. by rewrite Hr in Hc.
  - intros e Hr. by rewrite Hr in HQ.
  - intros Hr. rewrite Hr in HQ. by apply HQ.
Qed.
End served.

(** ** The cache of identities *)

(** A failed request for an identity stores an entry and evicts nothing: the cache grows
    with every wallet, whatever its size. *)
Lemma identity_cache_grows `{TapestryClient} key wallet c w h e w' :
  tapestryKeyPresent (Some key) = true ->
  map_get wallet (identityCacheByWallet c) = None ->
  callIdentities wallet w = (Throw e, w') ->
  length (identityCacheByWallet (local (snd (getIdentityForWallet (Some key) wallet (mkProc c w h))))) =
  S (length (identityCacheByWallet c)).
Proof.
  intros Hk Hg Hc. unfold getIdentityForWallet. rewrite Hk. simpl.
  unfold getFreshIdentityFromCache, mbind, M_bind, gets, try_catch, read, invoke. simpl. rewrite Hg. simpl.
  rewrite Hc. simpl. unfold now, invoke_total. simpl. destruct (callNow w') as [t w'']. simpl. clear -Hg.
  induction (identityCacheByWallet c) as [|[k v] m IH]; [done|]. simpl in Hg |- *.
  destruct (String.eqb wallet k); [done|]. simpl. by rewrite IH.
Qed.

(** ** A concrete service *)

Module TapestryWitness.

Definition like_of (w : string) (counts : Z) : TapestryProfileLike :=
  mkProfileLike (Some (mkProfilePart ("id-" +:+ w) (Some (" name-" +:+ w)) None None)) (Some w) None None None counts.

(** The clock is the world; every wallet has a profile, and the handle of ["B"] is known. *)
Instance client : TapestryClient := {|
  TapWorld := Z;
  callNow w := (w, w + 1);
  callProfilesList wallet w := (Ok [like_of "other" 9; like_of wallet 1; like_of wallet 5], w);
  callFindOrCreate r w := (Ok (like_of (cp_wallet r) 0), w);
  callStateList _ _ w := (Ok false, w);
  callFollow _ _ w := (Ok tt, w);
  callUnfollow _ _ w := (Throw (mkError "Error" "down"), w);
  callFeed user page size w :=
    (Ok (mkFeedAnswer [mkItem "new_content" "id-A" user (Some "c1") None None 7 "won";
                       mkItem "following" "id-A" user (Some "id-B") None None 8 "follows"] (Some page) None), w);
  callComments _ _ _ _ w := (Ok ([], 1, 20), w);
  callComment r w := (Ok ("x", co_text r, 3), w);
  callDeleteComment _ w := (Ok tt, w);
  callLike _ _ w := (Ok tt, w);
  callUnlike _ _ w := (Ok tt, w);
  callSearch _ _ _ w := (Ok ([], 1, 20), w);
  callIdentities wallet w :=
    if String.eqb wallet "B" then (Ok [Some "b@mail.org"; Some "+49 123"; Some " bee "], w)
    else (Throw (mkError "Error" "down"), w);
  callContents ids w := (Ok [JObj [("id", JStr "c1"); ("round", JStr "7"); ("type", JStr "win")]], w);
  callCreateContent c w := (Ok None, w);
  callProfileDetail id w := (Ok (None, Some ("wallet of " +:+ id)), w);
  responseStatus e := None;
  textOfJson j := match j with JStr s => s | _ => "?" end
|}.

Definition cold : Proc Caches TapWorld TapEvent := mkProc empty_caches 1000 [].
Definition body_of (fields : list (string * string)) : Body :=
  BodyJson (JObj ((fun kv => (fst kv, JStr (snd kv))) <$> fields)).
Definition ask (method action : string) (wallet : Query) (body : Body) : TapRequest :=
  mkTapRequest method (QText action) wallet QNone QNone QNone QNone QNone body.

Definition feed_request := ask "GET" "activity-feed" (QText "A") BodyNone.
Definition follow_request := ask "POST" "follow" QNone (body_of [("wallet", " A "); ("targetWallet", "B")]).

Local Abbreviation answer req p := (fst (handler (Some "key") req p)).
Local Abbreviation after req p := (snd (handler (Some "key") req p)).

Example feed_answered :
  match answer feed_request cold with
  | Ok (Some (TFeed f 5)) =>
      map (fun a => (gameEvent a, actorWallet a, targetWallet a)) (activities f) =
      [(Some [("round", "7"); ("eventType", "win")], Some "wallet of id-A", None);
       (None, Some "wallet of id-A", Some "wallet of id-B")] /\ f_page f = 1 /\ f_pageSize f = 5
  | _ => False
  end.
Proof. vm_compute. done. Qed.

Example followed :
  answer follow_request cold = Ok (Some (TFollowed "follow" "A" (Some "B") "id-B")) /\
  omap (fun ev => match ev with EvWrite wr ok => Some (wr, ok) | _ => None end)
    (history (after follow_request cold)) = [(WFollow "id-A" "id-B", true)] /\
  (twitterHandle <$> (map_get "B" (profileCacheByWallet (local (after follow_request cold))) ≫= payload)) =
    Some (Some "bee").
Proof. vm_compute. done. Qed.

(** One does not follow oneself. *)
Example not_oneself :
  answer (ask "POST" "follow" QNone (body_of [("wallet", "A"); ("targetProfileId", "id-A")])) cold =
  Ok (Some (TError 400 "SELF_FOLLOW_NOT_ALLOWED" "Cannot follow yourself")).
Proof. vm_compute. done. Qed.

(** An action that [Object.prototype] knows gets no response. *)
Example no_response :
  answer (ask "GET" "toString" QNone BodyNone) cold = Ok None /\
  answer (ask "GET" "__proto__" QNone BodyNone) cold = Throw (mkError "TypeError" "__proto__").
Proof. vm_compute. done. Qed.

(** A limit between zero and one becomes zero, although one activity is answered. *)
Example limit_zero :
  match answer (mkTapRequest "GET" (QText "activity-feed") (QText "A") (QText "0.5") QNone QNone QNone QNone BodyNone) cold with
  | Ok (Some (TFeed f 0)) => length (activities f) = 1%nat
  | _ => False
  end.
Proof. vm_compute. done. Qed.

(** A handle that is written with an at sign is not recognised. *)
Example handle_with_at : find_handle [Some "@bee"] = None.
Proof. reflexivity. Qed.

Lemma after_feed : served (Some "key") (after feed_request cold).
Proof. apply served_request. constructor. Qed.


Lemma tapestry_changes_witness :
  trace_ok (change_ok follow_request) (history (after feed_request cold))
    (take (length (history (after follow_request (after feed_request cold))) -
           length (history (after feed_request cold))) (history (after follow_request (after feed_request cold)))) /\
  no_cached_feed follow_request (after follow_request (after feed_request cold)).
Proof.
  destruct (tapestry_changes (Some "key") _ follow_request after_feed) as ((evs & Hh & Ht) & Hc & _).
  split.
  - rewrite Hh, length_app, Nat.add_sub, take_app_length. exact Ht.
  - apply (Hc (TFollowed "follow" "A" (Some "B") "id-B")). vm_compute. reflexivity.
Defined.
End TapestryWitness.
