(* ===== verification/SocialClient.v ===== *)
(** * SocialClient: the browser's side of the social API

    src/src/lib/tapestry/api.ts: the functions with which the pages call the social API, and
    that the API (TapestryHandlers.v) takes each of their requests for what it is meant.

    A request is its method, the parameters of its query and the value of its JSON body; that
    the parameters arrive as they were given ([encodeURIComponent] and [URLSearchParams] on
    this side, the decoding of the platform on the other) is taken as it is documented
    ([delivered]).  [social] is the flag [ENABLE_TAPESTRY_SOCIAL]. *)

From stdpp Require Import base list strings pretty.
From Stdlib Require Import ZArith Lia Ascii SpecFloat.
From S2P Require Import Prelude JsRuntime Effects Solana Actions ActionHandlers JsMap TapestryBridge TapestryApi TapestryHandlers TapestrySpec History Fairness NumFacts.

Local Open Scope string_scope.
Local Open Scope list_scope.
Local Open Scope Z_scope.
Set Warnings "-clear-no-such-hyp".

(** ** Requests *)

Record ClientRequest := mkClient {
  cr_method : string;
  cr_params : list (string * string);
  cr_body : option Json
}.

Definition get_request (params : list (string * string)) : ClientRequest := mkClient "GET" params None.
Definition json_request (method action : string) (fields : list (string * Json)) : ClientRequest :=
  mkClient method [("action", action)] (Some (JObj fields)).

(** [...(x ? { key: x } : {})] *)
Definition optional_field (key : string) (x : option string) : list (string * Json) :=
  match x with Some s => if String.eqb s "" then [] else [(key, JStr s)] | None => [] end.

Definition profiles_request (deduped : list string) : ClientRequest :=
  json_request "POST" "profile" [("wallets", JArr (JStr <$> deduped))].
Definition profile_request (clean : string) : ClientRequest :=
  get_request [("action", "profile"); ("wallet", clean)].
Definition import_request (clean : string) : ClientRequest :=
  json_request "POST" "profile-import" [("wallet", JStr clean)].
Definition feed_request (clean : string) (limit : Z) : ClientRequest :=
  get_request [("action", "activity-feed"); ("wallet", clean); ("limit", pretty limit)].

Record FollowTarget := mkTarget { ft_wallet : option string; ft_profileId : option string }.

Definition target_fields (t : FollowTarget) : list (string * Json) :=
  optional_field "targetWallet" (ft_wallet t) ++ optional_field "targetProfileId" (ft_profileId t).
Definition follow_request (clean : string) (t : FollowTarget) : ClientRequest :=
  json_request "POST" "follow" (("wallet", JStr clean) :: target_fields t).
Definition unfollow_request (clean : string) (t : FollowTarget) : ClientRequest :=
  json_request "POST" "follow" (("wallet", JStr clean) :: ("action", JStr "unfollow") :: target_fields t).
Definition event_request (clean eventType : string) (properties : list (string * Json)) : ClientRequest :=
  json_request "POST" "publish-event" [("wallet", JStr clean); ("eventType", JStr eventType); ("properties", JObj properties)].
Definition comments_request (contentId : string) (requestingProfileId : option string) : ClientRequest :=
  get_request ([("action", "comments"); ("contentId", contentId)] ++
    match requestingProfileId with
    | Some s => if String.eqb s "" then [] else [("requestingProfileId", s)]
    | None => []
    end).
Definition comment_request (clean contentId text : string) (commentId : option string) : ClientRequest :=
  json_request "POST" "comment"
    ([("wallet", JStr clean); ("contentId", JStr contentId); ("text", JStr text)] ++ optional_field "commentId" commentId).
Definition delete_request (commentId : string) : ClientRequest :=
  json_request "DELETE" "comment" [("commentId", JStr commentId)].
Definition like_request (action clean nodeId : string) : ClientRequest :=
  json_request "POST" action [("wallet", JStr clean); ("nodeId", JStr nodeId)].

(** [if (page) params.set(...)]: zero is left out. *)
Definition number_param (key : string) (x : option Z) : list (string * string) :=
  match x with Some n => if n =? 0 then [] else [(key, pretty n)] | None => [] end.
Definition search_request (clean : string) (page pageSize : option Z) : ClientRequest :=
  get_request ([("action", "search"); ("q", clean)] ++ number_param "page" page ++ number_param "limit" pageSize).

(** ** The functions *)

Class SocialService := {
  SocialWorld : Type;
  socialFetch : ClientRequest -> SocialWorld -> Res HttpResponse * SocialWorld
}.

Inductive SocialEvent := SocialCall (r : ClientRequest) (a : Res HttpResponse).

Section client.
Context `{SocialService} (social : bool).
Local Abbreviation M := (M unit SocialWorld SocialEvent).

Definition jsonFetch (r : ClientRequest) : M Json :=
  res ← invoke (socialFetch r) (SocialCall r);
  if negb (rs_ok res) then throw (mkError "Error" ("Tapestry API proxy error: " +:+ pretty (rs_status res)))
  else lift (rs_json res).

(** [data.key], which throws when [data] is [null] *)
Definition data_field (data : Json) (key : string) : M (option Json) :=
  match data with
  | JNull => throw (mkError "TypeError" ("Cannot read properties of null (reading '" +:+ key +:+ "')"))
  | _ => mret (json_field data key)
  end.

(** [try { data = await jsonFetch(r); return f(data.key) } catch { return none }] *)
Definition soft_fetch {A} (r : ClientRequest) (key : string) (f : option Json -> A) (none : A) : M A :=
  try_catch (data ← jsonFetch r; x ← data_field data key; mret (f x)) (fun _ => mret none).

Definition fetchTapestryProfiles (wallets : list string) : M Json :=
  if negb social then mret (JObj [])
  else
    let deduped := set_of_list (filter (fun w => w <> "") wallets) in
    if (length deduped =? 0)%nat then mret (JObj [])
    else soft_fetch (profiles_request deduped) "profiles" (fun x => default (JObj []) (Tap.json_truthy x)) (JObj []).

Definition fetchTapestryProfile (wallet : string) : M Json :=
  if negb social || String.eqb (trim wallet) "" then mret JNull
  else soft_fetch (profile_request (trim wallet)) "profile" (default JNull) JNull.

Definition importOrCreateTapestryProfile (wallet : string) : M Json :=
  if negb social || String.eqb (trim wallet) "" then mret JNull
  else soft_fetch (import_request (trim wallet)) "profile" (default JNull) JNull.

Definition fetchTapestryActivityFeed (wallet : string) (limit : Z) : M (list Json) :=
  if negb social || String.eqb (trim wallet) "" then mret []
  else soft_fetch (feed_request (trim wallet) limit) "activities"
         (fun x => match x with Some (JArr l) => l | _ => [] end) [].

Definition social_disabled : JsError := mkError "Error" "Tapestry social disabled".

Definition followTapestryProfile (wallet : string) (t : FollowTarget) : M Json :=
  if negb social then throw social_disabled
  else if String.eqb (trim wallet) "" then throw (mkError "Error" "wallet is required")
  else jsonFetch (follow_request (trim wallet) t).

Definition unfollowTapestryProfile (wallet : string) (t : FollowTarget) : M Json :=
  if negb social then throw social_disabled
  else if String.eqb (trim wallet) "" then throw (mkError "Error" "wallet is required")
  else jsonFetch (unfollow_request (trim wallet) t).

(** Fire and forget: the answer and a failure are ignored. *)
Definition publishTapestryEvent (wallet eventType : string) (properties : list (string * Json)) : M unit :=
  if negb social || String.eqb (trim wallet) "" then mret tt
  else try_catch (_ ← jsonFetch (event_request (trim wallet) eventType properties); mret tt) (fun _ => mret tt).

Definition fetchComments (contentId : string) (requestingProfileId : option string) : M Json :=
  if negb social then mret (JArr [])
  else soft_fetch (comments_request contentId requestingProfileId) "comments"
         (fun x => default (JArr []) (Tap.json_truthy x)) (JArr []).

Definition createComment (wallet contentId text : string) (commentId : option string) : M (option Json) :=
  if negb social then throw social_disabled
  else data ← jsonFetch (comment_request (trim wallet) contentId text commentId); data_field data "comment".

Definition deleteComment (commentId : string) : M unit :=
  if negb social then throw social_disabled else _ ← jsonFetch (delete_request commentId); mret tt.

Definition likeNode (wallet nodeId : string) : M unit :=
  if negb social then throw social_disabled else _ ← jsonFetch (like_request "like" (trim wallet) nodeId); mret tt.

Definition unlikeNode (wallet nodeId : string) : M unit :=
  if negb social then throw social_disabled else _ ← jsonFetch (like_request "unlike" (trim wallet) nodeId); mret tt.

Definition searchProfiles (query : string) (page pageSize : option Z) : M Json :=
  if negb social || String.eqb (trim query) "" then mret (JArr [])
  else soft_fetch (search_request (trim query) page pageSize) "profiles"
         (fun x => default (JArr []) (Tap.json_truthy x)) (JArr []).

(** The reading functions and the publication never throw. *)
Lemma recovered {A} (m : M A) none p : is_ok (fst (try_catch m (fun _ => mret none) p)) = true.
Proof. unfold try_catch. by destruct (m p) as [[a|e] q]. Qed.

Lemma soft_fetch_total {A} r key (f : option Json -> A) none p : is_ok (fst (soft_fetch r key f none p)) = true.
Proof. apply recovered. Qed.

Lemma reads_never_throw wallets w limit cid rid q page size kind props p :
  is_ok (fst (fetchTapestryProfiles wallets p)) = true /\ is_ok (fst (fetchTapestryProfile w p)) = true /\
  is_ok (fst (importOrCreateTapestryProfile w p)) = true /\ is_ok (fst (fetchTapestryActivityFeed w limit p)) = true /\
  is_ok (fst (fetchComments cid rid p)) = true /\ is_ok (fst (searchProfiles q page size p)) = true /\
  is_ok (fst (publishTapestryEvent w kind props p)) = true.
Proof.
  unfold fetchTapestryProfiles, fetchTapestryProfile, importOrCreateTapestryProfile, fetchTapestryActivityFeed,
    fetchComments, searchProfiles, publishTapestryEvent.
  repeat split; repeat case_match; try done; apply recovered.
Qed.
End client.

(** ** Texts and numbers read back *)

Lemma trim_start_idem s : trim_start (trim_start s) = trim_start s.
Proof. induction s as [|c s IH]; [done|]. cbn. destruct (is_space c) eqn:E; [exact IH|]. cbn. by rewrite E. Qed.

Lemma trim_end_idem s : trim_end (trim_end s) = trim_end s.
Proof.
  induction s as [|c s IH]; [done|]. cbn. destruct (trim_end s) as [|d t] eqn:E.
  - destruct (is_space c) eqn:Ec; [done|]. cbn. by rewrite Ec.
  - change (trim_end (String c (String d t))) with
      (match trim_end (String d t) with EmptyString => if is_space c then EmptyString else String c EmptyString | r => String c r end).
    by rewrite IH.
Qed.

Lemma trim_trim s : trim (trim s) = trim s.
Proof.
  unfold trim. assert (forall t, trim_start t = t -> trim_start (trim_end t) = trim_end t) as H.
  { intros [|c t] Ht; [done|]. cbn in Ht |- *. destruct (is_space c) eqn:E.
    - exfalso. assert (forall u, String.length (trim_start u) <= String.length u)%nat as Hl.
      { induction u as [|x u IHu]; [done|]. cbn. destruct (is_space x); cbn; lia. }
      specialize (Hl t). rewrite Ht in Hl. cbn in Hl. lia.
    - destruct (trim_end t); cbn; by rewrite E. }
  rewrite H by apply trim_start_idem. apply trim_end_idem.
Qed.

(** [Number(String(n)) === n] *)
Lemma Number_pretty p : Number (pretty (Z.pos p)) = num_of_Z (Z.pos p).
Proof.
  change (pretty (Z.pos p)) with (pretty_N_go (N.pos p) "").
  destruct (read_pretty_go (N.pos p) "" 0 0) as (d & E & Hd & Ha). specialize (Ha eq_refl). specialize (Hd ltac:(lia)).
  unfold Number. rewrite trim_none by (by eapply all_chars_mono; [apply digit_no_space|]).
  destruct (pretty_N_go (N.pos p) "") as [|c rest] eqn:Ep; [cbn in E; injection E as _ E; lia|].
  simpl in Ha. apply andb_true_iff in Ha as [Hc Hr].
  assert ((if (c =? "0")%char then read_prefixed rest else None) = None) as ->.
  { destruct (c =? "0")%char; [|done]. destruct rest as [|x ds]; [done|]. simpl in Hr. apply andb_true_iff in Hr as [Hx _].
    by destruct x as [[] [] [] [] [] [] [] []]. }
  assert ((c =? "-")%char = false /\ (c =? "+")%char = false) as [-> ->] by (by destruct c as [[] [] [] [] [] [] [] []]).
  unfold read_decimal. assert (String.eqb (String c rest) "Infinity" = false) as ->.
  { apply String.eqb_neq. intros [= -> _]. done. }
  rewrite E. cbn [read_digits]. destruct d as [|d]; [lia|]. cbn [Nat.add read_exponent].
  rewrite Z.mul_0_l, Z.add_0_l. unfold num_of_decimal. cbn [Z.of_N]. rewrite Z.mul_1_r. done.
Qed.

Lemma positive_of_Z p : Z.pos p < 2 ^ 53 -> isFinite (num_of_Z (Z.pos p)) = true /\ positive_num (num_of_Z (Z.pos p)) = true.
Proof. intros Hp. unfold num_of_Z, binary_normalize. by destruct (binary_round_exact false p Hp) as (k & [-> | ->]). Qed.

Import Tap TapHandlers.

Lemma number_query_pretty n d f : 0 < n < 2 ^ 53 -> number_query (QText (pretty n)) d f = f n.
Proof.
  intros Hn. destruct n as [|p|p]; [lia| |lia]. unfold number_query, query_number. cbn [query_text].
  rewrite Number_pretty. destruct (positive_of_Z p ltac:(lia)) as [-> ->]. cbn [negb orb].
  rewrite num_of_Z_floor by (unfold safe_id; lia).
  destruct (pretty (Z.pos p)) as [|c s] eqn:E; [|done]. exfalso.
  pose proof (Number_pretty p) as H. rewrite E in H. destruct (positive_of_Z p ltac:(lia)) as [_ Hp]. by rewrite <- H in Hp.
Qed.

(** ** The requests at the other end *)

(** A parameter of the query as the platform hands it over. *)
Definition param (params : list (string * string)) (key : string) : Query :=
  match filter (fun kv => fst kv = key) params with
  | [] => QNone
  | [kv] => QText (snd kv)
  | l => QMany (snd <$> l)
  end.

Definition delivered (r : ClientRequest) : TapRequest :=
  let q := param (cr_params r) in
  mkTapRequest (cr_method r) (q "action") (q "wallet") (q "limit") (q "page") (q "contentId")
    (q "requestingProfileId") (q "q") (match cr_body r with Some j => BodyJson j | None => BodyNone end).

(** The calls of the client. *)
Inductive SocialOp :=
| OpProfile (wallet : string)
| OpProfiles (wallets : list string)
| OpImport (wallet : string)
| OpFeed (wallet : string) (limit : Z)
| OpFollow (wallet : string) (t : FollowTarget)
| OpUnfollow (wallet : string) (t : FollowTarget)
| OpEvent (wallet eventType : string) (properties : list (string * Json))
| OpComments (contentId : string) (requestingProfileId : option string)
| OpComment (wallet contentId text : string) (commentId : option string)
| OpDelete (commentId : string)
| OpLike (wallet nodeId : string)
| OpUnlike (wallet nodeId : string)
| OpSearch (query : string) (page pageSize : option Z).

Definition request_of (op : SocialOp) : ClientRequest :=
  match op with
  | OpProfile w => profile_request (trim w)
  | OpProfiles ws => profiles_request (set_of_list (filter (fun w => w <> "") ws))
  | OpImport w => import_request (trim w)
  | OpFeed w limit => feed_request (trim w) limit
  | OpFollow w t => follow_request (trim w) t
  | OpUnfollow w t => unfollow_request (trim w) t
  | OpEvent w kind props => event_request (trim w) kind props
  | OpComments cid rid => comments_request cid rid
  | OpComment w cid text id => comment_request (trim w) cid text id
  | OpDelete id => delete_request id
  | OpLike w n => like_request "like" (trim w) n
  | OpUnlike w n => like_request "unlike" (trim w) n
  | OpSearch q page size => search_request (trim q) page size
  end.

Definition word (s : string) : bool := negb (String.eqb (trim s) "").
Definition some_word (x : option string) : bool := match x with Some s => word s | None => false end.
(** A number the query can carry. *)
Definition small (x : option Z) : bool := match x with Some n => (0 <? n) && (n <? 2 ^ 53) | None => true end.

(** The arguments make sense: the texts that are needed are there. *)
Definition op_ok (op : SocialOp) : bool :=
  match op with
  | OpProfile w | OpImport w => word w
  | OpProfiles ws => existsb word ws
  | OpFeed w limit => word w && small (Some limit)
  | OpFollow w t | OpUnfollow w t => word w && (some_word (ft_wallet t) || some_word (ft_profileId t))
  | OpEvent w kind _ => word w && word kind
  | OpComments cid _ => negb (String.eqb cid "")
  | OpComment w cid text _ => word w && word cid && word text
  | OpDelete id => word id
  | OpLike w n | OpUnlike w n => word w && word n
  | OpSearch q page size => word q && small page && small size
  end.

Section server.
Context `{TapestryClient} (API_KEY : option string).
Local Abbreviation M := (M Caches TapWorld TapEvent).

Definition the_text (x : option string) : string := default "" (trim <$> x).

(** Following and unfollowing between profiles, once the request is known to be well formed. *)
Definition follow_profiles (action wallet targetWallet rawTargetProfileId : string) : M TapResponse :=
  source ← findOrCreateProfileByWallet wallet;
  match source ≫= (fun p => truthy (profileId p)) with
  | None => throw (tap_error 400 "PROFILE_RESOLUTION_FAILED" "Unable to resolve requester profile")
  | Some sourceId =>
      targetProfileId ← follow_target API_KEY targetWallet rawTargetProfileId;
      (if String.eqb targetProfileId ""
       then throw (tap_error 404 "TARGET_PROFILE_NOT_FOUND" "Unable to resolve target profile") else mret tt) ;;
      (if String.eqb targetProfileId sourceId
       then throw (tap_error 400
              (if String.eqb action "follow" then "SELF_FOLLOW_NOT_ALLOWED" else "SELF_UNFOLLOW_NOT_ALLOWED")
              ("Cannot " +:+ action +:+ " yourself"))
       else mret tt) ;;
      (if String.eqb action "follow" then followProfiles sourceId targetProfileId
       else unfollowProfiles sourceId targetProfileId) ;;
      invalidateActivityFeed wallet ;;
      mret (TFollowed action wallet (truthy (Some targetWallet)) targetProfileId)
  end.

Definition publish_event (wallet eventType : string) (props : Json) : M TapResponse :=
  profileId ← acting_profile wallet;
  contentId ← event_content_id profileId eventType (round_text props);
  content ← create_content (mkCreateContent contentId profileId
    (filter (fun e => is_plain (snd e) = true) (json_entries props) ++ [("eventType", JStr eventType)]));
  invalidateActivityFeed wallet ;;
  mret (TPublished (default contentId content) eventType).

(** What the API is meant to do: its operation on the trimmed texts, with its error response. *)
Definition meant (op : SocialOp) : M TapResponse :=
  withHandler
    match op with
    | OpProfile w =>
        profiles ← getProfilesByWallets API_KEY [trim w];
        mret (TProfile (default None (map_get (trim w) profiles)))
    | OpProfiles ws =>
        profiles ← getProfilesByWallets API_KEY
                     (filter (fun w => w <> "") (trim <$> set_of_list (filter (fun w => w <> "") ws)));
        mret (TProfiles profiles)
    | OpImport w =>
        created ← find_or_create (mkCreateProfile (trim w) (default_username (trim w)) None);
        let normalized := normalizeTapestryProfile (Some created) in
        (match normalized with
         | Some profile => cacheTapestryProfile (trim w) (Some profile) ;; invalidateActivityFeed (trim w)
         | None => mret tt
         end) ;;
        mret (TImported normalized created)
    | OpFeed w limit =>
        feed ← getActivityFeed API_KEY (trim w) (Z.min 20 limit) 1; mret (TFeed feed (Z.min 20 limit))
    | OpFollow w t => follow_profiles "follow" (trim w) (the_text (ft_wallet t)) (the_text (ft_profileId t))
    | OpUnfollow w t => follow_profiles "unfollow" (trim w) (the_text (ft_wallet t)) (the_text (ft_profileId t))
    | OpEvent w kind props => publish_event (trim w) (trim kind) (JObj props)
    | OpComments cid rid =>
        '(comments, page, pageSize) ← getComments API_KEY (QText cid) (match truthy rid with Some s => QText s | None => QNone end) 1 20;
        mret (TComments comments page pageSize)
    | OpComment w cid text id =>
        '(id, text, createdAt) ← Tap.createComment (trim w) (trim cid) (trim text) (truthy (Some (the_text id)));
        mret (TComment id text createdAt)
    | OpDelete id => Tap.deleteComment (trim id) ;; mret TOk
    | OpLike w n => Tap.likeNode (trim w) (trim n) ;; mret TOk
    | OpUnlike w n => Tap.unlikeNode (trim w) (trim n) ;; mret TOk
    | OpSearch q page size =>
        '(profiles, page, pageSize) ← Tap.searchProfiles API_KEY (trim q) (Z.max 1 (default 1 page)) (Z.min 20 (default 20 size));
        mret (TSearch profiles page pageSize)
    end.
End server.

(** ** Bodies *)

Lemma field_here k v rest : json_field (JObj ((k, v) :: rest)) k = Some v.
Proof. unfold json_field. cbn. by rewrite decide_True by done. Qed.

Lemma field_next k v rest key : k <> key -> json_field (JObj ((k, v) :: rest)) key = json_field (JObj rest) key.
Proof. intros Hk. unfold json_field. cbn. rewrite decide_False by done. by destruct (list_find _ rest) as [[i kv]|]. Qed.

Lemma field_none key : json_field (JObj []) key = None.
Proof. done. Qed.

(** An optional field, read as a text. *)
Lemma field_optional key x rest :
  json_field (JObj (optional_field key x ++ rest)) key =
  match x with Some s => if String.eqb s "" then json_field (JObj rest) key else Some (JStr s) | None => json_field (JObj rest) key end.
Proof. destruct x as [s|]; [|done]. cbn. destruct (String.eqb s ""); [done|]. apply field_here. Qed.

Lemma field_optional_next key key' x rest :
  key <> key' -> json_field (JObj (optional_field key x ++ rest)) key' = json_field (JObj rest) key'.
Proof. intros Hk. destruct x as [s|]; [|done]. cbn. destruct (String.eqb s ""); [done|]. by apply field_next. Qed.

Section server.
Context `{TapestryClient} (API_KEY : option string).
Local Abbreviation M := (M Caches TapWorld TapEvent).

Lemma word_trim s : word s = true -> String.eqb (trim s) "" = false.
Proof. by intros ?%negb_true_iff. Qed.

Lemma dispatched (fn : TapRequest -> M TapResponse) action req :
  String.eqb (tr_method req) "OPTIONS" = false -> tr_action req = QText action -> trim action = action ->
  map_get action (ACTIONS API_KEY) = Some fn ->
  handler API_KEY req = (res ← fn req; mret (Some res)).
Proof. intros Hm Ha Ht Hf. unfold handler. rewrite Hm, Ha. cbn [query_word]. by rewrite Ht, Hf. Qed.

Lemma bind_body {A} j (k : Json -> M A) : (body ← lift (parseBody (BodyJson j)); k body) = k j.
Proof. done. Qed.

Lemma bind_word {A} body key code message s (k : string -> M A) :
  body_word body key = s -> String.eqb s "" = false -> (x ← require_word body key code message; k x) = k s.
Proof. intros <- Hs. unfold require_word. by rewrite Hs. Qed.

Ltac fields := unfold body_word; repeat first [rewrite field_here | rewrite field_next by done | rewrite field_none].
Ltac read_word := erewrite bind_word by (first [fields; rewrite ?trim_trim; reflexivity | by apply word_trim]).

Lemma like_understood w n : word w = true -> word n = true ->
  handler API_KEY (delivered (request_of (OpLike w n))) = (res ← meant API_KEY (OpLike w n); mret (Some res)).
Proof.
  intros Hw Hn. rewrite (dispatched handleLike "like") by reflexivity. f_equal.
  unfold handleLike, handle_like. cbn [tr_method tr_body delivered request_of like_request json_request cr_method cr_body].
  change (negb (String.eqb "POST" "POST")) with false. cbn [meant]. f_equal. rewrite bind_body. unfold require_wallet. read_word. read_word. reflexivity.
Qed.

Ltac understood fn action :=
  rewrite (dispatched fn action) by reflexivity; f_equal.
Ltac checks :=
  cbn [tr_method tr_body delivered request_of json_request get_request cr_method cr_body
       profiles_request profile_request import_request feed_request follow_request unfollow_request event_request
       comments_request comment_request delete_request like_request search_request];
  cbn [String.eqb Ascii.eqb Bool.eqb negb meant]; f_equal; rewrite ?bind_body; unfold require_wallet.

Lemma unlike_understood w n : word w = true -> word n = true ->
  handler API_KEY (delivered (request_of (OpUnlike w n))) = (res ← meant API_KEY (OpUnlike w n); mret (Some res)).
Proof. intros Hw Hn. understood handleUnlike "unlike". unfold handleUnlike, handle_like. checks. read_word. by read_word. Qed.

Lemma event_understood w kind props : word w = true -> word kind = true ->
  handler API_KEY (delivered (request_of (OpEvent w kind props))) = (res ← meant API_KEY (OpEvent w kind props); mret (Some res)).
Proof. intros Hw Hk. understood handlePublishEvent "publish-event". unfold handlePublishEvent. checks. read_word. read_word. fields. reflexivity. Qed.

Lemma delete_understood id : word id = true ->
  handler API_KEY (delivered (request_of (OpDelete id))) = (res ← meant API_KEY (OpDelete id); mret (Some res)).
Proof. intros Hi. understood handleComment "comment". unfold handleComment. checks. by read_word. Qed.

Lemma optional_text key id : default "" (match json_field (JObj (optional_field key id)) key with Some (JStr s) => Some (trim s) | _ => None end) = default "" (trim <$> id).
Proof.
  rewrite <- (app_nil_r (optional_field key id)), field_optional. destruct id as [s|]; [|done].
  destruct (String.eqb_spec s ""); [by subst|done].
Qed.

Lemma comment_understood w cid text id : word w = true -> word cid = true -> word text = true ->
  handler API_KEY (delivered (request_of (OpComment w cid text id))) = (res ← meant API_KEY (OpComment w cid text id); mret (Some res)).
Proof.
  intros Hw Hc Ht. understood handleComment "comment". unfold handleComment. checks. cbn [app]. do 3 read_word.
  assert (body_word (JObj (("wallet", JStr (trim w)) :: ("contentId", JStr cid) :: ("text", JStr text) :: optional_field "commentId" id)) "commentId" = the_text id) as ->; [|done].
  fields. pose proof (optional_text "commentId" id) as E. unfold the_text. rewrite <- E.
  by destruct (json_field _ _) as [[]|].
Qed.

Lemma import_understood w : word w = true ->
  handler API_KEY (delivered (request_of (OpImport w))) = (res ← meant API_KEY (OpImport w); mret (Some res)).
Proof. intros Hw. understood handleProfileImport "profile-import". unfold handleProfileImport. checks. read_word. fields. reflexivity. Qed.

Lemma bind_wallet {A} w (k : string -> M A) :
  word w = true -> (x ← lift (parseWalletQuery (QText (trim w))); k x) = k (trim w).
Proof. intros Hw. unfold parseWalletQuery. by rewrite (word_trim _ Hw), trim_trim. Qed.

Lemma profile_understood w : word w = true ->
  handler API_KEY (delivered (request_of (OpProfile w))) = (res ← meant API_KEY (OpProfile w); mret (Some res)).
Proof.
  intros Hw. understood (handleProfile API_KEY) "profile". unfold handleProfile. checks.
  change (tr_wallet _) with (QText (trim w)). by rewrite (bind_wallet _ _ Hw).
Qed.

Lemma profiles_understood ws : existsb word ws = true ->
  handler API_KEY (delivered (request_of (OpProfiles ws))) = (res ← meant API_KEY (OpProfiles ws); mret (Some res)).
Proof.
  intros Hw. understood (handleProfile API_KEY) "profile". unfold handleProfile. checks.
  set (l := set_of_list _).
  assert (body_wallets (JObj [("wallets", JArr (JStr <$> l))]) = filter (fun w => w <> "") (trim <$> l)) as ->.
  { unfold body_wallets. rewrite field_here. f_equal. induction l as [|x l' IH]; [done|]. cbn. by f_equal. }
  assert (0 < length (filter (fun w => w <> "") (trim <$> l)))%nat as Hl.
  { apply existsb_exists in Hw as (w & Hin & Hw). apply list_elem_of_In in Hin.
    assert (trim w ∈ filter (fun w => w <> "") (trim <$> l)) as He.
    { apply list_elem_of_filter. split; [by apply String.eqb_neq, word_trim|]. apply list_elem_of_fmap. exists w. split; [done|].
      apply elem_of_set_of_list, list_elem_of_filter. split; [|done]. intros ->. done. }
    destruct (filter _ (trim <$> l)); [by apply elem_of_nil in He|cbn; lia]. }
  rewrite (proj2 (Nat.eqb_neq _ _)) by lia. done.
Qed.

Lemma feed_understood w limit : word w = true -> small (Some limit) = true ->
  handler API_KEY (delivered (request_of (OpFeed w limit))) = (res ← meant API_KEY (OpFeed w limit); mret (Some res)).
Proof.
  intros Hw [Hl1 Hl2]%andb_true_iff. understood (handleActivityFeed API_KEY) "activity-feed". unfold handleActivityFeed. checks.
  change (tr_wallet _) with (QText (trim w)). change (tr_limit _) with (QText (pretty limit)). change (tr_page _) with QNone.
  rewrite (bind_wallet _ _ Hw). unfold parseLimitQuery. rewrite number_query_pretty by lia. done.
Qed.

Lemma target_words w t extra :
  (forall k v, (k, v) ∈ extra -> k <> "targetWallet" /\ k <> "targetProfileId") ->
  let body := JObj (("wallet", JStr w) :: extra ++ target_fields t) in
  body_word body "targetWallet" = the_text (ft_wallet t) /\ body_word body "targetProfileId" = the_text (ft_profileId t).
Proof.
  intros Hx body. assert (forall key, key = "targetWallet" \/ key = "targetProfileId" ->
    json_field body key = json_field (JObj (target_fields t)) key) as E.
  { intros key Hk. subst body. rewrite field_next by (by destruct Hk as [-> | ->]).
    induction extra as [|[k v] extra IH]; [done|]. cbn [app]. rewrite field_next; [apply IH; intros; eapply Hx; by right|].
    destruct (Hx k v ltac:(by left)). by destruct Hk as [-> | ->]. }
  unfold body_word. rewrite !E by auto. unfold target_fields, the_text. split.
  - rewrite field_optional. destruct (ft_wallet t) as [s|].
    + destruct (String.eqb_spec s "") as [->|]; [|done]. rewrite <- (app_nil_r (optional_field _ _)), field_optional_next by done. done.
    + rewrite <- (app_nil_r (optional_field _ _)), field_optional_next by done. done.
  - rewrite field_optional_next by done. rewrite <- (app_nil_r (optional_field _ _)), field_optional.
    destruct (ft_profileId t) as [s|]; [|done]. by destruct (String.eqb_spec s "") as [->|].
Qed.

Lemma target_given t : some_word (ft_wallet t) || some_word (ft_profileId t) = true ->
  String.eqb (the_text (ft_wallet t)) "" && String.eqb (the_text (ft_profileId t)) "" = false.
Proof.
  unfold the_text, some_word. intros [Hs|Hs]%orb_true_iff; [destruct (ft_wallet t) as [s|]|destruct (ft_profileId t) as [s|]]; try done; cbn;
    rewrite (word_trim _ Hs); [done|apply andb_false_r].
Qed.

Lemma follow_understood w t : word w = true -> some_word (ft_wallet t) || some_word (ft_profileId t) = true ->
  handler API_KEY (delivered (request_of (OpFollow w t))) = (res ← meant API_KEY (OpFollow w t); mret (Some res)).
Proof.
  intros Hw Ht. understood (handleFollow API_KEY) "follow". unfold handleFollow. checks. read_word.
  pose proof (target_words (trim w) t [] ltac:(intros ? ? Hx; by apply elem_of_nil in Hx)) as Hb.
  cbn [app] in Hb. destruct Hb as [-> ->].
  assert (follow_action (JObj (("wallet", JStr (trim w)) :: target_fields t)) = "follow") as ->.
  { unfold follow_action. rewrite field_next by done. unfold target_fields. rewrite field_optional_next by done.
    rewrite <- (app_nil_r (optional_field _ _)), field_optional_next by done. done. }
  rewrite (target_given _ Ht). done.
Qed.

Lemma unfollow_understood w t : word w = true -> some_word (ft_wallet t) || some_word (ft_profileId t) = true ->
  handler API_KEY (delivered (request_of (OpUnfollow w t))) = (res ← meant API_KEY (OpUnfollow w t); mret (Some res)).
Proof.
  intros Hw Ht. understood (handleFollow API_KEY) "follow". unfold handleFollow. checks. read_word.
  pose proof (target_words (trim w) t [("action", JStr "unfollow")]
    ltac:(intros ? ? Hx; apply list_elem_of_singleton in Hx; by injection Hx as -> _)) as Hb.
  cbn [app] in Hb. destruct Hb as [-> ->].
  assert (follow_action (JObj (("wallet", JStr (trim w)) :: ("action", JStr "unfollow") :: target_fields t)) = "unfollow") as ->.
  { unfold follow_action. by rewrite field_next, field_here by done. }
  rewrite (target_given _ Ht). done.
Qed.

Lemma comments_understood cid rid : String.eqb cid "" = false ->
  handler API_KEY (delivered (request_of (OpComments cid rid))) = (res ← meant API_KEY (OpComments cid rid); mret (Some res)).
Proof.
  intros Hc. assert (tr_action (delivered (request_of (OpComments cid rid))) = QText "comments" /\
    tr_contentId (delivered (request_of (OpComments cid rid))) = QText cid /\
    tr_requestingProfileId (delivered (request_of (OpComments cid rid))) = (match truthy rid with Some s => QText s | None => QNone end) /\
    tr_page (delivered (request_of (OpComments cid rid))) = QNone /\ tr_limit (delivered (request_of (OpComments cid rid))) = QNone)
    as (Ea & Ei & Er & Ep & El).
  { destruct rid as [[|c s]|]; done. }
  rewrite (dispatched (handleComments API_KEY) "comments") by first [done|exact Ea]. f_equal.
  unfold handleComments. rewrite Ei, Er, Ep, El. cbn [tr_method delivered request_of comments_request get_request cr_method String.eqb Ascii.eqb Bool.eqb meant].
  destruct cid; [done|]. f_equal.
Qed.

Lemma search_understood q page size : word q = true -> small page = true -> small size = true ->
  handler API_KEY (delivered (request_of (OpSearch q page size))) = (res ← meant API_KEY (OpSearch q page size); mret (Some res)).
Proof.
  intros Hq Hp Hs. set (req := delivered _).
  assert (tr_action req = QText "search" /\ tr_q req = QText (trim q) /\
    tr_page req = match page with Some n => QText (pretty n) | None => QNone end /\
    tr_limit req = match size with Some n => QText (pretty n) | None => QNone end) as (Ea & Eq & Ep & El).
  { subst req. unfold delivered, request_of, search_request, get_request, number_param. cbn [cr_params tr_action tr_q tr_page tr_limit].
    unfold small in Hp, Hs. destruct page as [n|], size as [m|]; rewrite ?(proj2 (Z.eqb_neq _ _)) by lia; done. }
  rewrite (dispatched (handleSearch API_KEY) "search") by first [done|exact Ea]. f_equal.
  unfold handleSearch. rewrite Eq, Ep, El. change (tr_method req) with "GET". cbn [String.eqb Ascii.eqb Bool.eqb negb meant query_word]. f_equal.
  rewrite trim_trim, (word_trim _ Hq). unfold parsePageQuery, parseLimitQuery, small in *.
  destruct page as [n|], size as [m|]; rewrite ?number_query_pretty by lia; done.
Qed.

End server.

Module ClientWitness.
#[local] Existing Instance TapestryWitness.client.

Definition unfollow : SocialOp := OpUnfollow " alice " (mkTarget None (Some "id-B")).


(** The request of a like, and its answer. *)
Example like_answered :
  fst (handler (Some "key") (delivered (request_of (OpLike "alice" "c1"))) TapestryWitness.cold) = Ok (Some TOk).
Proof. vm_compute. reflexivity. Qed.
End ClientWitness.
