(* ===== verification/SocialHooks.v ===== *)
(** * SocialHooks: the hooks over the social API, and the chat

    src/src/hooks/useTapestryProfile.ts, useTapestryProfiles.ts, useTapestrySearch.ts,
    useTapestryActivityFeed.ts, useTapestryComments.ts and useChat.ts as state machines.

    A hook keeps what it shows and the requests under way; an answer may come at any time and
    in any order.  The first run of an effect marks its request with a flag, [cancelled] in the
    code, which the next run clears ([cancel]): such a request is [true] in the list of those
    under way until then.  The client's reading functions never reject
    ([SocialClient.reads_never_throw]), so that an answer is a value. *)

From stdpp Require Import base list sets gmap strings pretty.
From Stdlib Require Import ZArith Lia Ascii SpecFloat.
From S2P Require Import Prelude JsRuntime Solana JsMap SocialClient.

Local Open Scope string_scope.
Local Open Scope list_scope.
Local Open Scope Z_scope.
Set Warnings "-clear-no-such-hyp".

(** ** Requests under way *)

Definition cancel {K} (inflight : list (K * bool)) : list (K * bool) := (fun r => (fst r, false)) <$> inflight.
#[global] Arguments cancel : simpl never.

(** The requests that were not cancelled. *)
Definition live {K} (inflight : list (K * bool)) : list K := omap (fun r : K * bool => if snd r then Some (fst r) else None) inflight.
#[global] Arguments live : simpl never.

Lemma live_cancel {K} (l : list (K * bool)) : live (cancel l) = [].
Proof. by induction l. Qed.

Lemma live_send {K} (l : list (K * bool)) k : live (cancel l ++ [(k, true)]) = [k].
Proof. unfold live. rewrite omap_app. fold (live (cancel l)). by rewrite live_cancel. Qed.

Lemma live_delete {K} (l : list (K * bool)) (i : nat) (k : K) (b : bool) :
  l !! i = Some (k, b) ->
  exists before after : list K, live l = before ++ (if b then [k] else []) ++ after /\ live (delete i l) = before ++ after.
Proof.
  intros Hi. exists (live (take i l)), (live (drop (S i) l)). split.
  - rewrite <- (take_drop_middle l i (k, b) Hi) at 1. unfold live. rewrite omap_app. cbn. by destruct b.
  - rewrite delete_take_drop. apply omap_app.
Qed.

(** The answer to the live request, of which there is at most one. *)
Lemma live_answered {K} (l : list (K * bool)) i k (k0 : option K) :
  live l = option_list k0 -> l !! i = Some (k, true) -> k0 = Some k /\ live (delete i l) = [].
Proof.
  intros Hl Hi. destruct (live_delete _ _ _ _ Hi) as (before & after & E & ->). rewrite Hl in E.
  destruct k0 as [k0|]; [|by destruct before]. destruct before as [|? before]; [|by destruct before]. by injection E as -> <-.
Qed.

Lemma live_dropped {K} (l : list (K * bool)) i k : l !! i = Some (k, false) -> live (delete i l) = live l.
Proof. intros Hi. by destruct (live_delete _ _ _ _ Hi) as (before & after & -> & ->). Qed.

(** [typeof x === "string" ? x.trim() : ""] *)
Definition clean_text (x : option string) : string := default "" (trim <$> x).

(** ** useTapestryProfile.ts *)

Definition PROFILE_CACHE_TTL_MS : Z := 60000.

Record ProfileHook := mkProfileHook {
  pf_cache : list (string * (Z * Json)); (* of the module *)
  pf_wallet : option string;             (* of the last run of the effect *)
  pf_profile : Json;
  pf_loading : bool;
  pf_inflight : list (string * bool)
}.

Definition initial_profile : ProfileHook := mkProfileHook [] None JNull false [].

Definition getCached (cache : list (string * (Z * Json))) (now : Z) (wallet : string) : option Json :=
  match map_get wallet cache with
  | Some (ts, profile) => if PROFILE_CACHE_TTL_MS <? now - ts then None else Some profile
  | None => None
  end.

Inductive ProfileEvent :=
| ProfileRender (wallet : option string) (now : Z)
| ProfileAnswer (i : nat) (profile : Json) (now : Z).

Section profile.
Context (social : bool).

Definition profile_effect (clean : string) (now : Z) (h : ProfileHook) : ProfileHook :=
  let inflight := cancel (pf_inflight h) in
  if negb social || String.eqb clean "" then mkProfileHook (pf_cache h) (Some clean) JNull false inflight
  else match getCached (pf_cache h) now clean with
       | Some profile => mkProfileHook (pf_cache h) (Some clean) profile false inflight
       | None => mkProfileHook (pf_cache h) (Some clean) (pf_profile h) true (inflight ++ [(clean, true)])
       end.

Definition profile_step (h : ProfileHook) (ev : ProfileEvent) : ProfileHook :=
  match ev with
  | ProfileRender wallet now =>
      if bool_decide (pf_wallet h = Some (clean_text wallet)) then h else profile_effect (clean_text wallet) now h
  | ProfileAnswer i profile now =>
      match pf_inflight h !! i with
      | Some (wallet, true) =>
          mkProfileHook (map_set wallet (now, profile) (pf_cache h)) (pf_wallet h) profile false (delete i (pf_inflight h))
      | Some (_, false) =>
          mkProfileHook (pf_cache h) (pf_wallet h) (pf_profile h) (pf_loading h) (delete i (pf_inflight h))
      | None => h
      end
  end.

(** What was answered for a wallet. *)
Fixpoint profile_answers (h : ProfileHook) (evs : list ProfileEvent) : list (string * Json) :=
  match evs with
  | [] => []
  | ev :: evs =>
      match ev with
      | ProfileAnswer i profile _ =>
          match pf_inflight h !! i with Some (wallet, _) => [(wallet, profile)] | None => [] end
      | ProfileRender _ _ => []
      end ++ profile_answers (profile_step h ev) evs
  end.

(** With the answers so far: a request is live exactly while the hook loads, for its wallet. *)
Record profile_ok (log : list (string * Json)) (h : ProfileHook) : Prop := {
  po_cache : forall w t x, map_get w (pf_cache h) = Some (t, x) -> (w, x) ∈ log;
  po_live : live (pf_inflight h) = option_list (if pf_loading h then pf_wallet h else None);
  po_mounted : pf_loading h = true -> is_Some (pf_wallet h);
  po_shown : forall w, pf_wallet h = Some w -> pf_loading h = false ->
    pf_profile h = JNull /\ (social = false \/ w = "") \/ (w, pf_profile h) ∈ log
}.

Lemma getCached_hit cache now w x : getCached cache now w = Some x -> exists t, map_get w cache = Some (t, x).
Proof.
  unfold getCached. destruct (map_get w cache) as [[t y]|] eqn:E; [|done]. destruct (_ <? _); [done|].
  intros [= <-]. by exists t.
Qed.

Lemma effect_profile_ok log clean now h : profile_ok log h -> profile_ok log (profile_effect clean now h).
Proof.
  intros [H1 H2 H3 H4]. unfold profile_effect. destruct (negb social || String.eqb clean "") eqn:E.
  - split; cbn; [done|apply live_cancel|done|]. intros w [= <-] _. left. split; [done|].
    apply orb_true_iff in E as [E%negb_true_iff|E%String.eqb_eq]; auto.
  - destruct (getCached (pf_cache h) now clean) as [x|] eqn:Ec.
    + split; cbn; [done|apply live_cancel|done|]. intros w [= <-] _. right.
      destruct (getCached_hit _ _ _ _ Ec) as [t Ht]. eauto.
    + split; cbn; [done|apply live_send|done|done].
Qed.

Lemma answer_profile_ok log h i x now :
  profile_ok log h ->
  profile_ok (log ++ match pf_inflight h !! i with Some (w, _) => [(w, x)] | None => [] end)
    (profile_step h (ProfileAnswer i x now)).
Proof.
  intros [H1 H2 H3 H4]. cbn [profile_step]. destruct (pf_inflight h !! i) as [[w []]|] eqn:Ei; [| |by rewrite app_nil_r].
  - destruct (live_answered _ _ _ _ H2 Ei) as [Hw Hl]. split; cbn; [|by rewrite Hl|done|].
    + intros w' t y. destruct (decide (w' = w)) as [->|Hne]; [rewrite map_get_set; intros [= <- <-]; set_solver|].
      rewrite map_get_set_ne by done. intros Hy%H1. set_solver.
    + intros w' Hw' _. right. destruct (pf_loading h); [|done]. rewrite Hw in Hw'. injection Hw' as ->. set_solver.
  - split; cbn; [|by rewrite (live_dropped _ _ _ Ei)|done|].
    + intros w' t y Hy%H1. set_solver.
    + intros w' Hw' Hl. destruct (H4 w' Hw' Hl) as [?|Hin]; [by left|right; set_solver].
Qed.

Lemma profile_run_ok evs : forall log h,
  profile_ok log h -> profile_ok (log ++ profile_answers h evs) (fold_left profile_step evs h).
Proof.
  induction evs as [|ev evs IH]; intros log h Hh; cbn [profile_answers fold_left]; [by rewrite app_nil_r|].
  rewrite app_assoc. apply IH. destruct ev as [wallet now|i x now]; [|by apply answer_profile_ok].
  rewrite app_nil_r. cbn [profile_step]. case_bool_decide; [done|by apply effect_profile_ok].
Qed.

(** The profile that is shown belongs to the wallet of the last render: in whatever order the
    answers come, once nothing is loading it is [null], for an empty wallet or with the social
    layer off, or an answer for this very wallet; and the hook loads only while a request for
    this wallet is under way. *)
Theorem profile_shown_current evs :
  let h := fold_left profile_step evs initial_profile in
  (pf_loading h = true -> exists w, pf_wallet h = Some w /\ (w, true) ∈ pf_inflight h) /\
  (forall w, pf_wallet h = Some w -> pf_loading h = false ->
     pf_profile h = JNull /\ (social = false \/ w = "") \/ (w, pf_profile h) ∈ profile_answers initial_profile evs).
Proof.
  intros h. destruct (profile_run_ok evs [] initial_profile) as [H1 H2 H3 H4]; [by split|]. fold h in H1, H2, H3, H4. split; [|exact H4].
  intros Hl. destruct (H3 Hl) as [w Hw]. exists w. split; [done|]. rewrite Hl, Hw in H2.
  assert (w ∈ live (pf_inflight h)) as Hin by (rewrite H2; by left).
  apply list_elem_of_omap in Hin as ([k b] & Hk & E). destruct b; [|done]. by injection E as ->.
Qed.
End profile.

(** ** useTapestrySearch.ts *)

Record SearchHook := mkSearchHook {
  sh_query : option string;              (* of the last run of the effect *)
  sh_results : Json;
  sh_loading : bool;
  sh_timer : option string;              (* the debounce *)
  sh_inflight : list (string * bool)
}.

Definition initial_search : SearchHook := mkSearchHook None (JArr []) false None [].

Inductive SearchEvent :=
| SearchRender (query : string)
| SearchTimer
| SearchAnswer (i : nat) (results : Json).

Section search.
Context (social : bool).

Definition search_effect (clean : string) (h : SearchHook) : SearchHook :=
  if negb social || String.eqb clean ""
  then mkSearchHook (Some clean) (JArr []) false None (cancel (sh_inflight h))
  else mkSearchHook (Some clean) (sh_results h) true (Some clean) (cancel (sh_inflight h)).

Definition search_step (h : SearchHook) (ev : SearchEvent) : SearchHook :=
  match ev with
  | SearchRender query =>
      if bool_decide (sh_query h = Some (trim query)) then h else search_effect (trim query) h
  | SearchTimer =>
      match sh_timer h with
      | Some clean => mkSearchHook (sh_query h) (sh_results h) (sh_loading h) None (sh_inflight h ++ [(clean, true)])
      | None => h
      end
  | SearchAnswer i results =>
      match sh_inflight h !! i with
      | Some (_, true) => mkSearchHook (sh_query h) results false (sh_timer h) (delete i (sh_inflight h))
      | Some (_, false) => mkSearchHook (sh_query h) (sh_results h) (sh_loading h) (sh_timer h) (delete i (sh_inflight h))
      | None => h
      end
  end.

Fixpoint search_answers (h : SearchHook) (evs : list SearchEvent) : list (string * Json) :=
  match evs with
  | [] => []
  | ev :: evs =>
      match ev with
      | SearchAnswer i results => match sh_inflight h !! i with Some (q, _) => [(q, results)] | None => [] end
      | _ => []
      end ++ search_answers (search_step h ev) evs
  end.

(** While the hook loads, its query waits in the timer or is under way, not both. *)
Record search_ok (log : list (string * Json)) (h : SearchHook) : Prop := {
  so_pending : option_list (sh_timer h) ++ live (sh_inflight h) = option_list (if sh_loading h then sh_query h else None);
  so_mounted : sh_loading h = true -> is_Some (sh_query h);
  so_shown : forall q, sh_query h = Some q -> sh_loading h = false ->
    sh_results h = JArr [] /\ (social = false \/ q = "") \/ (q, sh_results h) ∈ log
}.

Lemma live_app {K} (l l' : list (K * bool)) : live (l ++ l') = live l ++ live l'.
Proof. apply omap_app. Qed.

Lemma search_step_ok log h ev :
  search_ok log h ->
  search_ok (log ++ match ev with
                    | SearchAnswer i results => match sh_inflight h !! i with Some (q, _) => [(q, results)] | None => [] end
                    | _ => []
                    end) (search_step h ev).
Proof.
  intros [H1 H2 H3]. destruct ev as [query| |i results]; cbn [search_step].
  - rewrite app_nil_r. case_bool_decide; [done|]. unfold search_effect.
    destruct (negb social || String.eqb (trim query) "") eqn:E; split; cbn; rewrite ?live_cancel; try done.
    intros q [= <-] _. left. split; [done|]. apply orb_true_iff in E as [E%negb_true_iff|E%String.eqb_eq]; auto.
  - rewrite app_nil_r. destruct (sh_timer h) as [clean|] eqn:Et; [|by split; rewrite ?Et]. split; cbn; [|done|done].
    rewrite live_app. destruct (live (sh_inflight h)); [exact H1|]. by destruct (if sh_loading h then _ else _).
  - destruct (sh_inflight h !! i) as [[k []]|] eqn:Ei; [| |by rewrite app_nil_r].
    + destruct (live_delete _ _ _ _ Ei) as (before & after & E & E'). rewrite E in H1.
      destruct (sh_loading h) eqn:El; [|by destruct (sh_timer h), before]. destruct (H2 eq_refl) as [q Hq]. rewrite Hq in H1.
      destruct (sh_timer h); [by destruct before|]. destruct before; [|by destruct before]. injection H1 as -> ->.
      split; cbn; [by rewrite E'|done|]. intros q' Hq' _. rewrite Hq in Hq'. injection Hq' as <-. right. set_solver.
    + split; cbn; [by rewrite (live_dropped _ _ _ Ei)|done|].
      intros q Hq Hl. destruct (H3 q Hq Hl) as [?|?]; [by left|right; set_solver].
Qed.

Lemma search_run_ok evs : forall log h,
  search_ok log h -> search_ok (log ++ search_answers h evs) (fold_left search_step evs h).
Proof.
  induction evs as [|ev evs IH]; intros log h Hh; cbn [search_answers fold_left]; [by rewrite app_nil_r|].
  rewrite app_assoc. apply IH. by apply search_step_ok.
Qed.

(** The results that are shown are those of the text in the field, whatever was typed before
    and in whatever order the answers come. *)
Theorem search_shown_current evs q :
  let h := fold_left search_step evs initial_search in
  sh_query h = Some q -> sh_loading h = false ->
  sh_results h = JArr [] /\ (social = false \/ q = "") \/ (q, sh_results h) ∈ search_answers initial_search evs.
Proof. intros h. apply (search_run_ok evs [] initial_search). by split. Qed.
End search.

(** ** useTapestryActivityFeed.ts and useTapestryComments.ts

    Both load on a change of their key and can be refreshed: the answer to a refresh is shown
    whenever it comes, without a look at the flag. *)

Record RefreshHook (K A : Type) := mkRefreshHook {
  rf_key : option K;                     (* of the last run of the effect *)
  rf_run : nat;                          (* its number *)
  rf_shown : list A;
  rf_loading : bool;
  rf_inflight : list (K * bool);
  rf_refreshing : list K;
  rf_delayed : list nat                  (* runs whose delayed refresh is pending *)
}.
Arguments mkRefreshHook {K A}.
Arguments rf_key {K A}.
Arguments rf_run {K A}.
Arguments rf_shown {K A}.
Arguments rf_loading {K A}.
Arguments rf_inflight {K A}.
Arguments rf_refreshing {K A}.
Arguments rf_delayed {K A}.

Inductive RefreshEvent (K A : Type) :=
| RfRender (key : K)
| RfRefresh                              (* the interval, or [refresh] *)
| RfEmitted                              (* [emitFeedRefresh]: after two seconds *)
| RfDelayed (i : nat)
| RfAnswer (i : nat) (items : list A)
| RfRefreshed (i : nat) (items : list A).
Arguments RfRender {K A}.
Arguments RfRefresh {K A}.
Arguments RfEmitted {K A}.
Arguments RfDelayed {K A}.
Arguments RfAnswer {K A}.
Arguments RfRefreshed {K A}.

Section refresh.
Context {K A : Type} `{EqDecision K} (enabled : K -> bool).
Implicit Types h : RefreshHook K A.

Definition initial_refresh : RefreshHook K A := mkRefreshHook None 0 [] false [] [] [].

Definition key_enabled h : bool := match rf_key h with Some k => enabled k | None => false end.

Definition refresh_effect (key : K) h : RefreshHook K A :=
  if enabled key
  then mkRefreshHook (Some key) (S (rf_run h)) (rf_shown h) true (cancel (rf_inflight h) ++ [(key, true)]) (rf_refreshing h) (rf_delayed h)
  else mkRefreshHook (Some key) (S (rf_run h)) [] false (cancel (rf_inflight h)) (rf_refreshing h) (rf_delayed h).

Definition doFetch h : RefreshHook K A :=
  match rf_key h with
  | Some key =>
      if enabled key
      then mkRefreshHook (rf_key h) (rf_run h) (rf_shown h) (rf_loading h) (rf_inflight h) (rf_refreshing h ++ [key]) (rf_delayed h)
      else h
  | None => h
  end.

Definition refresh_step h (ev : RefreshEvent K A) : RefreshHook K A :=
  match ev with
  | RfRender key => if bool_decide (rf_key h = Some key) then h else refresh_effect key h
  | RfRefresh => doFetch h
  | RfEmitted =>
      if key_enabled h
      then mkRefreshHook (rf_key h) (rf_run h) (rf_shown h) (rf_loading h) (rf_inflight h) (rf_refreshing h) (rf_delayed h ++ [rf_run h])
      else h
  | RfDelayed i =>
      match rf_delayed h !! i with
      | Some run =>
          let h' := mkRefreshHook (rf_key h) (rf_run h) (rf_shown h) (rf_loading h) (rf_inflight h) (rf_refreshing h) (delete i (rf_delayed h)) in
          if (run =? rf_run h)%nat then doFetch h' else h'
      | None => h
      end
  | RfAnswer i items =>
      match rf_inflight h !! i with
      | Some (_, true) => mkRefreshHook (rf_key h) (rf_run h) items false (delete i (rf_inflight h)) (rf_refreshing h) (rf_delayed h)
      | Some (_, false) => mkRefreshHook (rf_key h) (rf_run h) (rf_shown h) (rf_loading h) (delete i (rf_inflight h)) (rf_refreshing h) (rf_delayed h)
      | None => h
      end
  | RfRefreshed i items =>
      match rf_refreshing h !! i with
      | Some _ => mkRefreshHook (rf_key h) (rf_run h) items (rf_loading h) (rf_inflight h) (delete i (rf_refreshing h)) (rf_delayed h)
      | None => h
      end
  end.

(** What an event answers, and for which key. *)
Definition refresh_answer h (ev : RefreshEvent K A) : list (K * list A) :=
  match ev with
  | RfAnswer i items => match rf_inflight h !! i with Some (k, _) => [(k, items)] | None => [] end
  | RfRefreshed i items => match rf_refreshing h !! i with Some k => [(k, items)] | None => [] end
  | _ => []
  end.

(** A refresh that is answered after the key has changed. *)
Definition stale h (ev : RefreshEvent K A) : bool :=
  match ev with
  | RfRefreshed i _ => match rf_refreshing h !! i with Some k => bool_decide (rf_key h <> Some k) | None => false end
  | _ => false
  end.

Fixpoint fresh_run h (evs : list (RefreshEvent K A)) : Prop :=
  match evs with [] => True | ev :: evs => stale h ev = false /\ fresh_run (refresh_step h ev) evs end.

Fixpoint refresh_answers h (evs : list (RefreshEvent K A)) : list (K * list A) :=
  match evs with [] => [] | ev :: evs => refresh_answer h ev ++ refresh_answers (refresh_step h ev) evs end.

Record refresh_ok (log : list (K * list A)) h : Prop := {
  ro_live : live (rf_inflight h) = option_list (if rf_loading h then rf_key h else None);
  ro_shown : forall k, rf_key h = Some k -> rf_loading h = false ->
    rf_shown h = [] /\ enabled k = false \/ (k, rf_shown h) ∈ log
}.

Lemma doFetch_ok log h : refresh_ok log h -> refresh_ok log (doFetch h).
Proof. intros [H1 H2]. unfold doFetch. destruct (rf_key h) eqn:E; [|by split; rewrite ?E]. destruct (enabled k); split; rewrite ?E; done. Qed.

Lemma refresh_step_ok log h ev :
  refresh_ok log h -> stale h ev = false -> refresh_ok (log ++ refresh_answer h ev) (refresh_step h ev).
Proof.
  intros Hok Hs. pose proof Hok as [H1 H2].
  destruct ev as [key| | |i|i items|i items]; cbn [refresh_step refresh_answer]; rewrite ?app_nil_r.
  - case_bool_decide; [done|]. unfold refresh_effect. destruct (enabled key) eqn:E; split; cbn;
      [apply live_send|done|apply live_cancel|]. intros k [= <-] _. by left.
  - by apply doFetch_ok.
  - destruct (key_enabled h); [|done]. by split.
  - destruct (rf_delayed h !! i); [|done]. assert (refresh_ok log (mkRefreshHook (rf_key h) (rf_run h) (rf_shown h) (rf_loading h)
      (rf_inflight h) (rf_refreshing h) (delete i (rf_delayed h)))) as H by (by split). destruct (_ =? _)%nat; [by apply doFetch_ok|done].
  - destruct (rf_inflight h !! i) as [[k []]|] eqn:Ei; [| |by rewrite app_nil_r].
    + destruct (live_answered _ _ _ _ H1 Ei) as [Hk Hl]. split; cbn; [by rewrite Hl|]. intros k' Hk' _. right.
      destruct (rf_loading h); [|done]. rewrite Hk in Hk'. injection Hk' as ->. set_solver.
    + split; cbn; [by rewrite (live_dropped _ _ _ Ei)|]. intros k' Hk' Hl. destruct (H2 k' Hk' Hl) as [?|?]; [by left|right; set_solver].
  - destruct (rf_refreshing h !! i) as [k|] eqn:Ei; [|by rewrite app_nil_r]. split; cbn; [exact H1|].
    intros k' Hk' _. right. cbn in Hs. rewrite Ei in Hs. apply bool_decide_eq_false in Hs. apply dec_stable in Hs.
    rewrite Hs in Hk'. injection Hk' as ->. set_solver.
Qed.

Lemma refresh_run_ok evs : forall log h,
  refresh_ok log h -> fresh_run h evs -> refresh_ok (log ++ refresh_answers h evs) (fold_left refresh_step evs h).
Proof.
  induction evs as [|ev evs IH]; intros log h Hh Hf; cbn [refresh_answers fold_left]; [by rewrite app_nil_r|].
  destruct Hf as [Hs Hf]. rewrite app_assoc. apply IH; [by apply refresh_step_ok|done].
Qed.

(** As long as no refresh is answered after the key has changed, what is shown once nothing
    loads is an answer for the key of the last render. *)
Theorem refresh_shown_current evs k :
  fresh_run initial_refresh evs ->
  let h := fold_left refresh_step evs initial_refresh in
  rf_key h = Some k -> rf_loading h = false ->
  rf_shown h = [] /\ enabled k = false \/ (k, rf_shown h) ∈ refresh_answers initial_refresh evs.
Proof. intros Hf h. apply (refresh_run_ok evs [] initial_refresh); [by split|done]. Qed.
End refresh.

(** The feed, by wallet and limit. *)
Definition feed_enabled (social : bool) (key : string * Z) : bool := social && negb (String.eqb (fst key) "").

Definition feed_step (social : bool) : RefreshHook (string * Z) Json -> RefreshEvent (string * Z) Json -> RefreshHook (string * Z) Json :=
  refresh_step (feed_enabled social).

Definition feed_render (wallet : option string) (limit : Z) : RefreshEvent (string * Z) Json := RfRender (clean_text wallet, limit).

(** The comments, by content and requesting profile; what follows an added or removed one. *)
Definition comments_enabled (social : bool) (key : string * option string) : bool := social && negb (String.eqb (fst key) "").

Inductive CommentsEvent :=
| CommentsRender (contentId requestingProfileId : option string)
| CommentsRefresh
| CommentCreated (r : Res Json)
| CommentDeleted (r : Res unit)
| CommentsAnswer (i : nat) (items : list Json)
| CommentsRefreshed (i : nat) (items : list Json).

Definition comments_step (social : bool) (h : RefreshHook (string * option string) Json) (ev : CommentsEvent)
    : RefreshHook (string * option string) Json :=
  let step := refresh_step (comments_enabled social) in
  match ev with
  | CommentsRender contentId rid => step h (RfRender (clean_text contentId, rid))
  | CommentsRefresh => step h RfRefresh
  | CommentCreated (Ok _) | CommentDeleted (Ok _) => step h RfRefresh
  | CommentCreated (Throw _) | CommentDeleted (Throw _) => h
  | CommentsAnswer i items => step h (RfAnswer i items)
  | CommentsRefreshed i items => step h (RfRefreshed i items)
  end.

(** ** useTapestryProfiles.ts *)

Record ProfilesHook := mkProfilesHook {
  pm_cache : list (string * (Z * Json)); (* of the module *)
  pm_key : option string;                (* [walletsKey] of the last run of the effect *)
  pm_shown : list (string * Json);
  pm_loading : bool;
  pm_inflight : list ((list (string * Json) * list string) * bool) (* [seeded] and [missing] *)
}.

Definition initial_profiles : ProfilesHook := mkProfilesHook [] None [] false [].

Definition uniqueWallets (wallets : list string) : list string := set_of_list (filter (fun w => w <> "") wallets).

(** The cached profiles of the wallets, and the wallets without one. *)
Definition seed (cache : list (string * (Z * Json))) (now : Z) (wallets : list string) : list (string * Json) * list string :=
  fold_left (fun acc wallet =>
    match getCached cache now wallet with
    | Some profile => (map_set wallet profile (fst acc), snd acc)
    | None => (fst acc, snd acc ++ [wallet])
    end) wallets ([], []).

(** [{ ...seeded, ...fetched }] *)
Definition spread (seeded fetched : list (string * Json)) : list (string * Json) :=
  fold_left (fun m kv => map_set (fst kv) (snd kv) m) fetched seeded.

Definition cache_all (now : Z) (fetched : list (string * Json)) (cache : list (string * (Z * Json))) : list (string * (Z * Json)) :=
  fold_left (fun m kv => map_set (fst kv) (now, snd kv) m) fetched cache.

Inductive ProfilesEvent :=
| ProfilesRender (wallets : list string) (now : Z)
| ProfilesAnswer (i : nat) (fetched : list (string * Json)) (now : Z).

Section profiles.
Context (social : bool).

Definition profiles_effect (unique : list string) (now : Z) (h : ProfilesHook) : ProfilesHook :=
  let key := Some (String.concat "|" unique) in
  let inflight := cancel (pm_inflight h) in
  if negb social || (length unique =? 0)%nat then mkProfilesHook (pm_cache h) key [] false inflight
  else
    let '(seeded, missing) := seed (pm_cache h) now unique in
    if (length missing =? 0)%nat then mkProfilesHook (pm_cache h) key seeded false inflight
    else mkProfilesHook (pm_cache h) key seeded true (inflight ++ [((seeded, missing), true)]).

Definition profiles_step (h : ProfilesHook) (ev : ProfilesEvent) : ProfilesHook :=
  match ev with
  | ProfilesRender wallets now =>
      let unique := uniqueWallets wallets in
      if bool_decide (pm_key h = Some (String.concat "|" unique)) then h else profiles_effect unique now h
  | ProfilesAnswer i fetched now =>
      match pm_inflight h !! i with
      | Some ((seeded, _), true) =>
          mkProfilesHook (cache_all now fetched (pm_cache h)) (pm_key h) (spread seeded fetched) false (delete i (pm_inflight h))
      | Some (_, false) => mkProfilesHook (pm_cache h) (pm_key h) (pm_shown h) (pm_loading h) (delete i (pm_inflight h))
      | None => h
      end
  end.

(** Everything the answers so far said. *)
Definition answered (ev : ProfilesEvent) : list (string * Json) :=
  match ev with ProfilesAnswer _ fetched _ => fetched | ProfilesRender _ _ => [] end.

(** [m] says of a wallet only what was answered for it. *)
Definition says (log m : list (string * Json)) : Prop := forall w x, map_get w m = Some x -> (w, x) ∈ log.

Record profiles_ok (log : list (string * Json)) (h : ProfilesHook) : Prop := {
  pmo_cache : forall w t x, map_get w (pm_cache h) = Some (t, x) -> (w, x) ∈ log;
  pmo_shown : says log (pm_shown h);
  pmo_seeded : forall r, r ∈ pm_inflight h -> says log (fst (fst r))
}.

Lemma says_set log w x m : says log m -> (w, x) ∈ log -> says log (map_set w x m).
Proof.
  intros Hm Hx w' x'. destruct (decide (w' = w)) as [->|Hne]; [rewrite map_get_set; by intros [= <-]|].
  rewrite map_get_set_ne by done. apply Hm.
Qed.

Lemma says_mono log log' m : log ⊆ log' -> says log m -> says log' m.
Proof. intros Hsub Hm w x Hx. by apply Hsub, Hm. Qed.

Lemma spread_says log fetched : forall seeded, says log seeded -> fetched ⊆ log -> says log (spread seeded fetched).
Proof.
  induction fetched as [|[w x] fetched IH]; intros seeded Hs Hf; [done|]. apply IH; [apply says_set; [done|]|]; set_solver.
Qed.

Lemma cache_all_says log now fetched : forall cache,
  (forall w t x, map_get w cache = Some (t, x) -> (w, x) ∈ log) -> fetched ⊆ log ->
  forall w t x, map_get w (cache_all now fetched cache) = Some (t, x) -> (w, x) ∈ log.
Proof.
  induction fetched as [|[w0 x0] fetched IH]; intros cache Hc Hf; [exact Hc|]. apply IH; [|set_solver].
  intros w t x. cbn. destruct (decide (w = w0)) as [->|Hne]; [rewrite map_get_set; intros [= <- <-]; set_solver|].
  rewrite map_get_set_ne by done. apply Hc.
Qed.

Lemma seed_says log cache now wallets : forall acc,
  (forall w t x, map_get w cache = Some (t, x) -> (w, x) ∈ log) -> says log (fst acc) ->
  says log (fst (fold_left (fun acc wallet =>
    match getCached cache now wallet with
    | Some profile => (map_set wallet profile (fst acc), snd acc)
    | None => (fst acc, snd acc ++ [wallet])
    end) wallets acc)).
Proof.
  induction wallets as [|w wallets IH]; intros acc Hc Ha; [done|]. apply IH; [done|].
  destruct (getCached cache now w) as [x|] eqn:E; [|done]. cbn. apply says_set; [done|].
  destruct (getCached_hit _ _ _ _ E) as [t Ht]. eauto.
Qed.

Lemma profiles_step_ok log h ev : profiles_ok log h -> profiles_ok (log ++ answered ev) (profiles_step h ev).
Proof.
  intros [H1 H2 H3]. destruct ev as [wallets now|i fetched now]; cbn [profiles_step answered].
  - rewrite app_nil_r. case_bool_decide; [done|]. unfold profiles_effect.
    assert (forall r, r ∈ cancel (pm_inflight h) -> says log (fst (fst r))) as Hc.
    { intros r (r' & -> & Hr)%list_elem_of_fmap. exact (H3 r' Hr). }
    destruct (negb social || _); [by split|].
    pose proof (seed_says log (pm_cache h) now (uniqueWallets wallets) ([], []) H1 ltac:(done)) as Hs. unfold seed.
    destruct (fold_left _ (uniqueWallets wallets) ([], [])) as [seeded missing]. destruct (_ =? _)%nat; split; try done.
    cbn. intros r [Hr|Hr]%elem_of_app; [by apply Hc|]. by apply list_elem_of_singleton in Hr as ->.
  - assert (profiles_ok (log ++ fetched) h) as [G1 G2 G3].
    { assert (log ⊆ log ++ fetched) as Hsub by set_solver.
      split; [intros w t x Hx; apply Hsub; eauto|by eapply says_mono|]. intros r Hr. eapply says_mono; [done|by apply H3]. }
    destruct (pm_inflight h !! i) as [[[seeded missing] []]|] eqn:Ei; [| |done].
    + assert (forall r, r ∈ delete i (pm_inflight h) -> says (log ++ fetched) (fst (fst r))) as Hd.
      { intros r Hr. apply G3. rewrite delete_take_drop in Hr. rewrite <- (take_drop_middle _ _ _ Ei). set_solver. }
      split; cbn; [apply cache_all_says; [done|set_solver]| |done].
      apply spread_says; [|set_solver]. apply (G3 ((seeded, missing), true)). by apply list_elem_of_lookup_2 in Ei.
    + split; try done. cbn. intros r Hr. apply G3. rewrite delete_take_drop in Hr. rewrite <- (take_drop_middle _ _ _ Ei). set_solver.
Qed.

(** A profile that is shown for a wallet was answered for it. *)
Lemma profiles_shown_answered evs w x :
  map_get w (pm_shown (fold_left profiles_step evs initial_profiles)) = Some x -> (w, x) ∈ evs ≫= answered.
Proof.
  assert (forall evs log h, profiles_ok log h -> profiles_ok (log ++ (evs ≫= answered)) (fold_left profiles_step evs h)) as Hrun.
  { clear. induction evs as [|ev evs IH]; intros log h Hh; [by rewrite app_nil_r|]. cbn. rewrite app_assoc. by apply IH, profiles_step_ok. }
  apply (Hrun evs [] initial_profiles). split; [done|done|]. intros r Hr. by apply elem_of_nil in Hr.
Qed.
End profiles.

(** ** useSoarLeaderboard.ts *)

Record LeaderHook (E : Type) := mkLeader { ld_entries : list E; ld_loading : bool }.
Arguments mkLeader {E}.
Arguments ld_entries {E}.
Arguments ld_loading {E}.

(** [refresh] with what [fetchLeaderboard] gave: a failure keeps the entries. *)
Definition leader_refresh {E} (enabled : bool) (r : Res (list E)) (h : LeaderHook E) : LeaderHook E :=
  if negb enabled then mkLeader (ld_entries h) false
  else mkLeader (match r with Ok data => data | Throw _ => ld_entries h end) false.

(** ** useChat.ts *)

Record ChatMessage := mkMessage {
  cm_id : string;
  cm_address : string;
  cm_displayName : string;
  cm_text : string;
  cm_timestamp : Z;
  cm_color : string
}.

(** A message as it is stored; a field that is missing or empty is [None]. *)
Record RawMessage := mkRaw {
  rm_address : option string;
  rm_displayName : option string;
  rm_text : option string;
  rm_timestamp : option Z;
  rm_color : option string
}.

Definition MAX_MESSAGES : nat := 100.

Definition message_of (id : string) (otherwise : Z) (msg : RawMessage) : ChatMessage :=
  mkMessage id (default "" (rm_address msg)) (default "" (rm_displayName msg)) (default "" (rm_text msg))
    (default otherwise (rm_timestamp msg)) (default "#8b5cf6" (rm_color msg)).

(** [loaded.sort((a, b) => a.timestamp - b.timestamp)], which is stable *)
Fixpoint insert_message (m : ChatMessage) (l : list ChatMessage) : list ChatMessage :=
  match l with
  | [] => [m]
  | x :: l => if cm_timestamp m <=? cm_timestamp x then m :: x :: l else x :: insert_message m l
  end.
Definition sort_messages (l : list ChatMessage) : list ChatMessage := foldr insert_message [] l.

Record ChatHook := mkChat {
  ch_messages : list ChatMessage;
  ch_connected : bool;
  ch_initialLoadDone : bool
}.

Definition initial_chat : ChatHook := mkChat [] false false.

Inductive ChatEvent :=
| ChatLoaded (data : option (list (string * RawMessage)))     (* [onValue], once *)
| ChatAdded (key : string) (msg : option RawMessage) (now : Z). (* [onChildAdded] *)

Definition chat_step (h : ChatHook) (ev : ChatEvent) : ChatHook :=
  match ev with
  | ChatLoaded data =>
      if ch_initialLoadDone h then h
      else mkChat (match data with
                   | Some entries => sort_messages ((fun kv => message_of (fst kv) 0 (snd kv)) <$> entries)
                   | None => ch_messages h
                   end) true true
  | ChatAdded key msg now =>
      if negb (ch_initialLoadDone h) then h
      else match msg with
           | None => h
           | Some msg =>
               if existsb (fun m => String.eqb (cm_id m) key) (ch_messages h) then h
               else
                 let next := ch_messages h ++ [message_of key now msg] in
                 mkChat (if (MAX_MESSAGES <? length next)%nat then drop (length next - MAX_MESSAGES) next else next)
                   (ch_connected h) (ch_initialLoadDone h)
           end
  end.

(** [sendMessage]: what is pushed to the database. *)
Definition sendMessage (db : bool) (wallet : option string) (displayName color text : string) (now : Z) : option RawMessage :=
  match wallet with
  | Some w =>
      if negb db || String.eqb w "" || String.eqb (trim text) "" then None
      else Some (mkRaw (Some w) (Some displayName) (Some (String.substring 0 200 (trim text))) (Some now) (Some color))
  | None => None
  end.

Definition chat_ok (h : ChatHook) : Prop :=
  (length (ch_messages h) <= MAX_MESSAGES)%nat /\ NoDup (cm_id <$> ch_messages h).

Lemma insert_message_perm m l : insert_message m l ≡ₚ m :: l.
Proof.
  induction l as [|x l IH]; [done|]. cbn. destruct (_ <=? _); [done|]. rewrite IH. constructor.
Qed.

Lemma sort_messages_perm l : sort_messages l ≡ₚ l.
Proof. induction l as [|m l IH]; [done|]. cbn. by rewrite insert_message_perm, IH. Qed.

(** The query asks for the last hundred messages, whose keys are distinct. *)
Definition chat_event_ok (ev : ChatEvent) : Prop :=
  match ev with ChatLoaded (Some entries) => (length entries <= MAX_MESSAGES)%nat /\ NoDup (fst <$> entries) | _ => True end.

(** The chat shows at most a hundred messages, each once. *)
Theorem chat_messages_ok evs : Forall chat_event_ok evs -> chat_ok (fold_left chat_step evs initial_chat).
Proof.
  assert (chat_ok initial_chat) as H0 by (split; [cbn; lia|constructor]). revert H0.
  generalize initial_chat as h. induction evs as [|ev evs IH]; intros h Hh Hf; [done|]. inversion Hf as [|? ? He Hf']; subst.
  apply IH; [|done]. clear IH Hf Hf'. destruct Hh as [Hl Hd], ev as [[entries|]|key [msg|] now]; cbn [chat_step].
  - destruct (ch_initialLoadDone h); [done|]. destruct He as [He Hk]. split; cbn.
    + by rewrite sort_messages_perm, length_fmap.
    + rewrite sort_messages_perm, <- list_fmap_compose. exact Hk.
  - by destruct (ch_initialLoadDone h).
  - destruct (negb _); [done|]. destruct (existsb _ _) eqn:Ex; [done|].
    assert (NoDup (cm_id <$> ch_messages h ++ [message_of key now msg])) as Hn.
    { rewrite fmap_app. apply NoDup_app. split; [done|]. split; [|apply NoDup_singleton].
      intros id Hid Hk. cbn in Hk. apply list_elem_of_singleton in Hk as ->. apply list_elem_of_fmap in Hid as (m & Em & Hm).
      apply not_true_iff_false in Ex. apply Ex, existsb_exists. exists m. split; [by apply list_elem_of_In|]. by apply String.eqb_eq. }
    set (next := ch_messages h ++ _) in *. destruct (Nat.ltb_spec MAX_MESSAGES (length next)) as [Hlt|Hle]; (split; cbn; [|]); try done.
    + rewrite length_drop. lia.
    + rewrite <- (take_drop (length next - MAX_MESSAGES) next), fmap_app in Hn. by apply NoDup_app in Hn as (_ & _ & ?).
  - by destruct (negb _).
Qed.

(** ** Runs *)

Module SocialHooksWitness.
(** Alice's profile is asked for, then Bob's; the answer for Alice comes last. *)
Definition switched : ProfileHook :=
  fold_left (profile_step true)
    [ProfileRender (Some "alice") 0; ProfileRender (Some "bob") 10; ProfileAnswer 1 (JStr "Bob") 20; ProfileAnswer 0 (JStr "Alice") 30]
    initial_profile.
Example switched_shows_bob : pf_profile switched = JStr "Bob" /\ map_get "alice" (pf_cache switched) = None.
Proof. vm_compute. auto. Qed.

(** A refresh of Alice's feed that is answered after the page has moved on to Bob replaces
    his feed. *)
Definition feed_events : list (RefreshEvent (string * Z) Json) :=
  [feed_render (Some "alice") 5; RfAnswer 0 [JStr "a"]; RfRefresh; feed_render (Some "bob") 5; RfAnswer 0 [JStr "b"];
   RfRefreshed 0 [JStr "a2"]].
Lemma stale_feed_shown :
  let h := fold_left (feed_step true) feed_events initial_refresh in
  rf_key h = Some ("bob", 5) /\ rf_loading h = false /\ rf_shown h = [JStr "a2"].
Proof. vm_compute. auto. Qed.

(** The comments under one item, after a comment was added to another. *)
Lemma stale_comments_shown :
  let h := fold_left (comments_step true)
    [CommentsRender (Some "c1") None; CommentsAnswer 0 []; CommentCreated (Ok JNull); CommentsRender (Some "c2") None;
     CommentsAnswer 0 [JStr "second"]; CommentsRefreshed 0 [JStr "first"]] initial_refresh in
  rf_key h = Some ("c2", None) /\ rf_loading h = false /\ rf_shown h = [JStr "first"].
Proof. vm_compute. auto. Qed.
End SocialHooksWitness.
