(* ===== verification/RoundHistory.v ===== *)
(** * RoundHistory: src/hooks/useRoundHistory.ts

    The search for the greatest round id, the rounds of a page from the chain and from the
    archive, and the hook's state: the rounds shown, the page, and the timer that reloads
    it. *)

From stdpp Require Import base list gmap strings pretty sorting.
From Stdlib Require Import ZArith Lia Ascii Strings.Byte SpecFloat.
From S2P Require Import Prelude Buffers Accounts JsRuntime Effects Solana Instructions Firebase DegenExecutor Frames Browser History NumFacts.

Local Open Scope string_scope.
Local Open Scope list_scope.
Local Open Scope Z_scope.
Set Warnings "-clear-no-such-hyp".

Definition PROBE_BATCH : Z := 20.
Definition PAGE_SIZE : Z := 10.

(** ** The greatest round *)

(** A round id, or [NaN]. *)
Abbreviation RoundNum := (option Z).

(** The index of the last account that exists. *)
Fixpoint last_existing {X} (infos : list (option X)) : option Z :=
  match infos with
  | [] => None
  | info :: infos =>
      match last_existing infos with
      | Some i => Some (i + 1)
      | None => match info with Some _ => Some 0 | None => None end
      end
  end.

(** [low] and [high] before the first probe. *)
Definition search_start (archivedMax : num) : Res Z :=
  if positive_num archivedMax then
    match num_Z archivedMax with
    | Some z => Ok z
    | None => Throw (mkError "Error" "Assertion failed")
    end
  else Ok 1.

(** [Math.max(low, archivedMax)]: [low] is positive, and [start] the archived id if that
    is. *)
Definition search_result (archivedMax : num) (start low : Z) : RoundNum :=
  match archivedMax with
  | S754_nan => None
  | _ => Some (if positive_num archivedMax then Z.max low start else low)
  end.

Section search.
Context `{FrontServices} {St : Type} (A : Addresses) (db : bool).
Local Abbreviation M := (M St FWorld FEvent).

(** The first loop: [None] when [fuel] batches were not enough. *)
Fixpoint probe (fuel : nat) (low high : Z) : M (option (Z * Z)) :=
  match fuel with
  | O => mret None
  | S fuel =>
      pdas ← lift (res_mapM (getRoundPda A) (seqZ high PROBE_BATCH));
      infos ← f_accounts pdas;
      match last_existing infos with
      | None => mret (Some (low, high))
      | Some i => probe fuel (high + i) (high + PROBE_BATCH)
      end
  end.

(** The second loop. *)
Fixpoint bisect (fuel : nat) (low high : Z) : M (option Z) :=
  match fuel with
  | O => mret None
  | S fuel =>
      if low <? high then
        let mid := (low + high + 1) / 2 in
        pda ← lift (getRoundPda A mid);
        info ← f_account pda;
        match info with
        | Some _ => bisect fuel mid high
        | None => bisect fuel low (mid - 1)
        end
      else mret (Some low)
  end.

Definition findMaxRoundId (fuel : nat) : M (option RoundNum) :=
  archivedMax ← getMaxArchivedRoundId db;
  start ← lift (search_start archivedMax);
  r ← probe fuel start start;
  match r with
  | None => mret None
  | Some (low, high) =>
      r ← bisect fuel low high;
      mret (search_result archivedMax start <$> r)
  end.

(** ** The rounds of a page *)

(** The entry of an account, or the id for the archive. *)
Definition batch_entry (acc : list Hist.HistoryRound * list Z) (entry : Z * option AccountInfo)
    : list Hist.HistoryRound * list Z :=
  match snd entry with
  | None => (fst acc, snd acc ++ [fst entry])
  | Some info =>
      match Front.parseRound (ai_data info) with
      | Ok rd => (fst acc ++ [toHistoryRound rd None], snd acc)
      | Throw _ => acc
      end
  end.

Definition fetchRoundBatch (ids : list Z) : M (list Hist.HistoryRound) :=
  if (length ids =? 0)%nat then mret []
  else
    pdas ← lift (res_mapM (getRoundPda A) ids);
    infos ← f_accounts pdas;
    let '(results, missingIds) := fold_left batch_entry (zip ids infos) ([], []) in
    if (0 <? length missingIds)%nat then
      or_else (archived ← fetchRoundsFromFirebase db missingIds; mret (results ++ archived)) results
    else mret results.
End search.

(** [for (let id = endId; id >= startId; id--) ids.push(id)] *)
Definition countdown (endId startId : Z) : list Z := reverse (seqZ startId (endId - startId + 1)).

(** The first and the last id of a page, newest first. *)
Definition page_end (maxId page : Z) : Z := maxId - page * PAGE_SIZE.
Definition page_start (maxId page : Z) : Z := Z.max 1 (page_end maxId page - PAGE_SIZE + 1).
Definition page_ids (maxId page : Z) : list Z :=
  countdown (page_end maxId page) (page_start maxId page).

(** The same with the arithmetic of [NaN]: no id satisfies a comparison with it. *)
Definition ids_of (maxId : RoundNum) (page : Z) : list Z :=
  match maxId with Some m => page_ids m page | None => [] end.

(** [Math.ceil(maxId / PAGE_SIZE)] *)
Definition pages_of (maxId : RoundNum) : RoundNum :=
  (fun m => (m + PAGE_SIZE - 1) / PAGE_SIZE) <$> maxId.

(** [maxId <= 0], [a > b], [Math.max(a, b)] and [endId < 1] *)
Definition not_positive (maxId : RoundNum) : bool :=
  match maxId with Some m => m <=? 0 | None => false end.
Definition greater (a b : RoundNum) : bool :=
  match a, b with Some x, Some y => y <? x | _, _ => false end.
Definition num_max (a b : RoundNum) : RoundNum :=
  match a, b with Some x, Some y => Some (Z.max x y) | _, _ => None end.
Definition page_empty (maxId : RoundNum) (page : Z) : bool :=
  match maxId with Some m => page_end m page <? 1 | None => false end.

(** ** The hook *)

(** The state, and the two references. *)
Record HistoryView := mkHistoryView {
  hv_rounds : list Hist.HistoryRound;
  hv_loading : bool;
  hv_page : Z;
  hv_totalPages : RoundNum;
  hv_maxRoundId : RoundNum;
  hv_pollPage : Z
}.

Definition initial_history : HistoryView := mkHistoryView [] true 0 (Some 0) (Some 0) 0.

Section hook.
Context `{FrontServices} (A : Addresses) (db : bool).
Local Abbreviation M := (M HistoryView FWorld FEvent).

Definition hv_setRounds (x : list Hist.HistoryRound) : M unit := modify (fun v =>
  mkHistoryView x (hv_loading v) (hv_page v) (hv_totalPages v) (hv_maxRoundId v) (hv_pollPage v)).
Definition hv_setLoading (x : bool) : M unit := modify (fun v =>
  mkHistoryView (hv_rounds v) x (hv_page v) (hv_totalPages v) (hv_maxRoundId v) (hv_pollPage v)).
Definition hv_setPage (x : Z) : M unit := modify (fun v =>
  mkHistoryView (hv_rounds v) (hv_loading v) x (hv_totalPages v) (hv_maxRoundId v) (hv_pollPage v)).
Definition hv_setTotalPages (x : RoundNum) : M unit := modify (fun v =>
  mkHistoryView (hv_rounds v) (hv_loading v) (hv_page v) x (hv_maxRoundId v) (hv_pollPage v)).
Definition hv_setMax (x : RoundNum) : M unit := modify (fun v =>
  mkHistoryView (hv_rounds v) (hv_loading v) (hv_page v) (hv_totalPages v) x (hv_pollPage v)).

(** The rounds of the ids, newest first, become the rounds shown. *)
Definition show_page (ids : list Z) : M unit :=
  batch ← fetchRoundBatch A db ids;
  hv_setRounds (newest_first batch).

(** A search that has not ended leaves its caller where it is. *)
Definition fetchInitial (fuel : nat) : M unit :=
  hv_setLoading true ;;
  ended ← or_else
    (r ← findMaxRoundId A db fuel;
     match r with
     | None => mret false
     | Some maxId =>
         hv_setMax maxId ;;
         (if not_positive maxId then hv_setRounds [] ;; hv_setTotalPages (Some 0)
          else
            hv_setTotalPages (pages_of maxId) ;;
            show_page (ids_of maxId 0) ;;
            hv_setPage 0) ;;
         mret true
     end) true;
  if ended : bool then hv_setLoading false else mret tt.

Definition goToPage (targetPage : Z) : M unit :=
  maxId ← gets hv_maxRoundId;
  if not_positive maxId then mret tt
  else
    hv_setLoading true ;;
    or_else
      (if page_empty maxId targetPage then hv_setRounds []
       else show_page (ids_of maxId targetPage) ;; hv_setPage targetPage) tt ;;
    hv_setLoading false.

Definition refresh (fuel : nat) : M unit :=
  hv_setMax (Some 0) ;;
  hv_setPage 0 ;;
  fetchInitial fuel.

(** The timer, with the page that is shown. *)
Definition tick (fuel : nat) : M unit :=
  maxId ← gets hv_maxRoundId;
  if not_positive maxId then mret tt
  else
    or_else
      (r ← findMaxRoundId A db fuel;
       match r with
       | None => mret tt
       | Some newMax =>
           (if greater newMax maxId
            then hv_setMax newMax ;; hv_setTotalPages (pages_of newMax) else mret tt) ;;
           currentPage ← gets hv_pollPage;
           let effectiveMax := num_max maxId newMax in
           if page_empty effectiveMax currentPage then mret tt
           else show_page (ids_of effectiveMax currentPage)
       end) tt.

(** The effect that copies the page into its reference. *)
Definition sync_page : M unit := modify (fun v =>
  mkHistoryView (hv_rounds v) (hv_loading v) (hv_page v) (hv_totalPages v) (hv_maxRoundId v)
    (hv_page v)).
End hook.

(** ** The search finds the greatest round *)

Lemma last_existing_spec {X} (infos : list (option X)) :
  match last_existing infos with
  | None => Forall (fun info => info = None) infos
  | Some i => 0 <= i < Z.of_nat (length infos) /\
              (exists x, infos !! Z.to_nat i = Some (Some x)) /\
              forall j, (Z.to_nat i < j)%nat -> (j < length infos)%nat -> infos !! j = Some None
  end.
Proof.
  induction infos as [|info infos IH]; simpl; [constructor|].
  destruct (last_existing infos) as [i|].
  - destruct IH as (Hi & (x & Hx) & Hlater). split; [lia|].
    replace (Z.to_nat (i + 1)) with (S (Z.to_nat i)) by lia. split; [by exists x|].
    intros [|j] Hj Hl; [lia|]. simpl. apply Hlater; lia.
  - destruct info as [x|]; [|by constructor]. split; [lia|]. split; [by exists x|].
    intros [|j] Hj Hl; [simpl in Hj; lia|]. simpl.
    destruct (lookup_lt_is_Some_2 infos j) as [o Ho]; [lia|]. rewrite Ho.
    by rewrite (Forall_lookup_1 _ _ _ _ IH Ho).
Qed.

Section stable.
Context `{FrontServices} {St : Type} (A : Addresses) (db : bool) (acct : PublicKey -> option AccountInfo).
Local Abbreviation M := (M St FWorld FEvent).
Local Abbreviation Proc := (Proc St FWorld FEvent).

(** In a calm world the accounts are known, and reading them or the archive changes
    nothing; every round id has an address. *)
Class StableChain := {
  calm : FWorld -> Prop;
  account_stable : forall k w, calm w ->
    fst (fxAccountInfo k w) = Ok (acct k) /\ calm (snd (fxAccountInfo k w));
  accounts_stable : forall ks w, calm w ->
    fst (fxAccountsInfo ks w) = Ok (acct <$> ks) /\ calm (snd (fxAccountsInfo ks w));
  archive_calm : forall w, calm w -> calm (snd (fxArchiveMax w));
  round_address : forall id, 1 <= id < 2 ^ 53 -> exists pda, getRoundPda A id = Ok pda
}.

(** The round's account exists. *)
Definition present (id : Z) : bool :=
  match getRoundPda A id with
  | Ok pda => match acct pda with Some _ => true | None => false end
  | Throw _ => false
  end.

Context `{!StableChain}.

Lemma probe_batch {X} high (k : list (option AccountInfo) -> M X) (Q : Res X -> Proc -> Prop) (p : Proc) :
  1 <= high -> high + 20 < 2 ^ 53 -> calm (world p) ->
  (forall infos p', calm (world p') -> length infos = 20%nat ->
     (forall i, 0 <= i < 20 -> exists info, infos !! Z.to_nat i = Some info /\
        present (high + i) = match info with Some _ => true | None => false end) ->
     wp (k infos) Q p') ->
  wp (pdas ← lift (res_mapM (getRoundPda A) (seqZ high PROBE_BATCH));
      infos ← f_accounts pdas; k infos) Q p.
Proof.
  intros Hh Hb Hc HQ. apply wp_bind, wp_lift.
  destruct (res_mapM_exists (getRoundPda A) (seqZ high PROBE_BATCH)) as [pdas Hp].
  { apply Forall_forall. intros id Hid%elem_of_seqZ. apply round_address. unfold PROBE_BATCH in *. lia. }
  rewrite Hp. apply wp_bind. unfold f_accounts. apply wp_invoke_at.
  destruct (accounts_stable pdas (world p) Hc) as [-> Hc']. apply HQ; [done|..].
  - rewrite length_fmap, (res_mapM_length _ _ _ Hp), length_seqZ. done.
  - intros i Hi. destruct (res_mapM_lookup _ _ _ (Z.to_nat i) (high + i) Hp) as (pda & E & El).
    { apply lookup_seqZ. unfold PROBE_BATCH. lia. }
    exists (acct pda). rewrite list_lookup_fmap, El. split; [done|]. unfold present. by rewrite E.
Qed.

Section bounds.
Context (start N : Z).
Hypothesis start_low : 1 <= start.
Hypothesis start_high : start <= N.
Hypothesis N_bound : N + 40 < 2 ^ 53.
Hypothesis all_below : forall id, present id = true -> id <= N.

(** Between probes: the last round found, with none between it and the next batch. *)
Definition probing (low high : Z) : Prop :=
  start <= low <= high /\ high <= N + 20 /\ high - low <= 20 /\ (low = start \/ present low = true) /\
  forall id, low < id < high -> present id = false.

Lemma probe_ends fuel low high (p : Proc) :
  calm (world p) ->
  probing low high -> N + 20 - high < 20 * Z.of_nat fuel -> (1 <= fuel)%nat ->
  wp (probe A fuel low high) (fun r p' => exists low' high', r = Ok (Some (low', high')) /\
    calm (world p') /\ probing low' high' /\ forall id, high' <= id < high' + 20 -> present id = false) p.
Proof.
  revert low high p. induction fuel as [|fuel IH]; intros low high p Hc Hp Hf Hf1; [lia|]. cbn [probe].
  pose proof Hp as (Hs & Hh & Hd & Hl & Hn). apply probe_batch; [lia..|done|].
  intros infos p1 Hc1 Hlen Hinfos. pose proof (last_existing_spec infos) as Hlast.
  destruct (last_existing infos) as [i|].
  - destruct Hlast as (Hi & (x & Hx) & Hlater). rewrite Hlen in Hi, Hlater.
    destruct (Hinfos i) as (info & Ei & Hpi); [lia|]. rewrite Hx in Ei. injection Ei as <-.
    pose proof (all_below _ Hpi). unfold PROBE_BATCH. apply IH; [done| |lia..]. split_and!; [lia..|by right|].
    intros id Hid. destruct (Hinfos (id - high)) as (info & Ej & Hpj); [lia|].
    rewrite Hlater in Ej by lia. injection Ej as <-.
    by replace (high + (id - high)) with id in Hpj by lia.
  - apply wp_ret. exists low, high. do 3 (split; [done|]). intros id Hid.
    destruct (Hinfos (id - high)) as (info & Ej & Hpj); [lia|].
    replace (high + (id - high)) with id in Hpj by lia. rewrite Hpj.
    by rewrite (Forall_lookup_1 _ _ _ _ Hlast Ej).
Qed.

(** The binary search has nothing left to find. *)
Lemma bisect_ends fuel low high (p : Proc) :
  calm (world p) -> 1 <= low <= high -> high < 2 ^ 53 -> high - low < Z.of_nat fuel ->
  (forall id, low < id <= high -> present id = false) ->
  wp (bisect A fuel low high) (fun r _ => r = Ok (Some low)) p.
Proof.
  revert high p. induction fuel as [|fuel IH]; intros high p Hc Hl Hb Hf Hn; [lia|]. cbn [bisect].
  destruct (Z.ltb_spec low high); [|apply wp_ret; done].
  assert (low < (low + high + 1) / 2 <= high) as Hm.
  { pose proof (Z.div_mod (low + high + 1) 2). pose proof (Z.mod_pos_bound (low + high + 1) 2). lia. }
  set (mid := (low + high + 1) / 2) in *. clearbody mid.
  destruct (round_address mid) as [pda E]; [lia|]. apply wp_bind, wp_lift. rewrite E.
  apply wp_bind. unfold f_account. apply wp_invoke_at.
  destruct (account_stable pda (world p) Hc) as [-> Hc'].
  specialize (Hn mid) as Hmid. unfold present in Hmid. rewrite E in Hmid.
  destruct (acct pda); [by specialize (Hmid ltac:(lia))|]. apply IH; [done|lia..|].
  intros id Hid. apply Hn. lia.
Qed.
End bounds.

Lemma archived_calm (p : Proc) : calm (world p) -> calm (world (snd (getMaxArchivedRoundId db p))).
Proof.
  intros Hc. enough (wp (getMaxArchivedRoundId db) (fun _ p' => calm (world p')) p) by done.
  unfold getMaxArchivedRoundId. destruct db; [|done]. apply wp_try, wp_bind. unfold f_archiveMax.
  apply wp_invoke_at. pose proof (archive_calm (world p) Hc). by destruct (fst (fxArchiveMax (world p))).
Qed.

(** While the chain does not change, the search for the greatest round ends with a
    number, within a batch per twenty rounds and twenty-one steps of the second loop.  It
    is the archived id it started from (1 if there is none) or a round that exists, and
    none of the nineteen ids after it exists; so it is the greatest existing round as soon
    as no nineteen ids in a row below that one are missing. *)
Theorem findMaxRoundId_greatest fuel a start N (p : Proc) :
  calm (world p) -> fst (getMaxArchivedRoundId db p) = Ok a -> a ≠ S754_nan -> search_start a = Ok start ->
  1 <= start <= N -> N + 40 < 2 ^ 53 -> (forall id, present id = true -> id <= N) ->
  (N - start) / 20 + 22 <= Z.of_nat fuel ->
  exists r, fst (findMaxRoundId A db fuel p) = Ok (Some (Some r)) /\
    start <= r <= N /\ (r = start \/ present r = true) /\
    (forall id, r < id < r + 20 -> present id = false) /\
    ((forall id, start < id -> present id = true ->
        exists id', start <= id' /\ id - 20 < id' < id /\ (id' = start \/ present id' = true)) ->
     forall id, start <= id -> present id = true -> id <= r).
Proof.
  intros Hcalm Ha Hnan Hs Hstart HN Hall Hfuel.
  pose proof (archived_calm p Hcalm) as Hcalm'.
  assert (wp (findMaxRoundId A db fuel) (fun r _ => exists low, r = Ok (Some (Some low)) /\
    start <= low <= N /\ (low = start \/ present low = true) /\
    forall id, low < id < low + 20 -> present id = false) p) as (r & Hr & Hb & Hp & Hn).
  - unfold findMaxRoundId. apply wp_bind. unfold wp at 1. rewrite Ha. apply wp_bind, wp_lift. rewrite Hs.
    pose proof (Z.mod_pos_bound (N - start) 20). pose proof (Z.div_mod (N - start) 20).
    assert (probing start N start start) as Hprobing.
    { split_and!; [lia..|by left|lia]. }
    apply wp_bind. eapply wp_mono; [apply (probe_ends start N); (done || lia)|].
    + intros r q (low & high & -> & Hcq & (Hl & Hh & Hd & Hpl & Hn) & Hn').
      assert (forall id, low < id < high + 20 -> present id = false) as Hnone.
      { intros id Hid. destruct (Z.lt_ge_cases id high); [apply Hn|apply Hn']; lia. }
      apply wp_bind. eapply wp_mono; [apply bisect_ends; [done|lia..|]|].
      * intros id Hid. apply Hnone. lia.
      * intros r' q' ->. apply wp_ret. exists low. unfold search_result.
        assert (low <= N) by (destruct Hpl as [->|Hpl]; [lia|by apply Hall]).
        split_and!; [|lia|done|done|].
        -- destruct a; try done; cbn -[Z.max]; repeat case_match; do 3 f_equal; lia.
        -- intros id Hid. apply Hnone. lia.
  - exists r. do 4 (split; [done|]). intros Hgap id Hid Hpid. apply Z.nlt_ge. intros Hlt.
    (* the least existing round above [r] *)
    revert Hid Hpid Hlt. induction (Z.lt_wf r id) as [id _ IH]. intros Hid Hpid Hlt.
    destruct (Hgap id) as (id' & Hs' & Hd & Hpr); [lia|done|].
    destruct (Z.le_gt_cases id' r) as [Hle|Hgt].
    + rewrite Hn in Hpid by lia. done.
    + destruct Hpr as [->|Hpr]; [lia|]. eapply (IH id'); [lia|lia|done|lia].
Qed.
End stable.

(** ** Pages *)

Lemma countdown_app a b c : a <= b + 1 -> c <= a -> countdown b a ++ countdown (a - 1) c = countdown b c.
Proof.
  intros. unfold countdown. rewrite <- reverse_app.
  replace (b - c + 1) with (a - 1 - c + 1 + (b - a + 1)) by lia.
  rewrite (seqZ_app c (a - 1 - c + 1)) by lia. do 3 f_equal; lia.
Qed.

Lemma pages_concat m k :
  0 <= m -> (k = 0%nat \/ 1 <= page_end m (Z.of_nat k - 1)) ->
  concat (page_ids m <$> seqZ 0 (Z.of_nat k)) = countdown m (Z.max 1 (m - Z.of_nat k * PAGE_SIZE + 1)).
Proof.
  unfold page_end, PAGE_SIZE. intros Hm. induction k as [|k IH]; intros Hk.
  { unfold countdown. rewrite Z.max_r by lia. simpl. by rewrite seqZ_nil by lia. }
  rewrite seqZ_S, fmap_app, concat_app. simpl. rewrite app_nil_r, IH by lia.
  unfold page_ids, page_start, page_end, PAGE_SIZE.
  replace (Z.max 1 (m - Z.of_nat k * 10 + 1)) with (m - Z.of_nat k * 10 + 1) by lia.
  replace (m - (0 + Z.of_nat k) * 10) with (m - Z.of_nat k * 10 + 1 - 1) by lia.
  rewrite countdown_app by lia. f_equal. lia.
Qed.

(** ** Newest first *)

Lemma insert_by_id_perm h l : insert_by_id h l ≡ₚ h :: l.
Proof.
  induction l as [|g l IH]; simpl; [done|]. case_match; [done|]. rewrite IH. apply Permutation_swap.
Qed.

Lemma newest_first_perm l : newest_first l ≡ₚ l.
Proof. induction l as [|h l IH]; simpl; [done|]. by rewrite insert_by_id_perm, IH. Qed.

Lemma newest_first_sorted l : Sorted newer (newest_first l).
Proof.
  unfold newest_first. induction l as [|h l IH]; simpl; [constructor|].
  revert IH. generalize (fold_right insert_by_id [] l). clear l. intros l.
  induction 1 as [|g l Hl IH Hg]; simpl; [by repeat constructor|].
  case_match; [by repeat constructor|]. constructor; [done|].
  assert (newer g h) as Hgh.
  { unfold newer in *. apply SFltb_asym. by apply not_false_is_true. }
  destruct l as [|g' l]; simpl in *; [by constructor|]. inversion Hg; subst.
  case_match; by constructor.
Qed.

(** ** Where the rounds of a page come from *)

Section provenance.
Context `{FrontServices} {St : Type} (A : Addresses) (db : bool).
Local Abbreviation M := (M St FWorld FEvent).
Local Abbreviation Proc := (Proc St FWorld FEvent).

(** The round [h] was read, among the events, in the archive under [id]; or in the account
    of the round [id]. *)
Definition from_archive (evs : list FEvent) (id : Z) (h : Hist.HistoryRound) : Prop :=
  exists snap, FArchiveGet id (Ok (Some snap)) ∈ evs /\ entry_of_snapshot snap = Ok h.

Definition from_chain (evs : list FEvent) (id : Z) (h : Hist.HistoryRound) : Prop :=
  exists pda pdas infos i info rd, getRoundPda A id = Ok pda /\
    FAccounts pdas (Ok infos) ∈ evs /\ pdas !! i = Some pda /\ infos !! i = Some (Some info) /\
    Front.parseRound (ai_data info) = Ok rd /\ h = toHistoryRound rd None.

(** What was read since [p], without touching the state. *)
Definition reads (p p' : Proc) (P : list FEvent -> Prop) : Prop :=
  local p' = local p /\ exists evs, history p' = evs ++ history p /\ P evs.

Lemma archived_round id (p : Proc) :
  wp (fetchRoundFromFirebase db id) (fun r p' => reads p p' (fun evs =>
    exists o, r = Ok o /\ forall h, o = Some h -> from_archive evs id h)) p.
Proof.
  unfold fetchRoundFromFirebase. destruct db; simpl.
  - unfold or_else, f_archiveGet. apply wp_try, wp_bind, wp_invoke. intros [[snap|]|e] w.
    + apply wp_bind, wp_lift. destruct (entry_of_snapshot snap) as [h|e] eqn:E; apply wp_ret;
        (split; [done|]); eexists [_]; (split; [done|]); eexists; (split; [done|]); [|done].
      intros h' [= <-]. exists snap. split; [by left|done].
    + apply wp_ret. split; [done|]. eexists [_]. split; [done|]. by exists None.
    + apply wp_ret. split; [done|]. eexists [_]. split; [done|]. by exists None.
  - split; [done|]. exists []. split; [done|]. by exists None.
Qed.

Lemma from_archive_mono evs evs' id h : evs ⊆ evs' -> from_archive evs id h -> from_archive evs' id h.
Proof. intros Hs (snap & Hin & E). exists snap. split; [by apply Hs|done]. Qed.

Lemma archived_all ids (p : Proc) :
  wp (all_settled (fetchRoundFromFirebase db <$> ids)) (fun r p' => reads p p' (fun evs =>
    exists rs, r = Ok rs /\ forall h, Ok (Some h) ∈ rs -> exists id, id ∈ ids /\ from_archive evs id h)) p.
Proof.
  revert p. induction ids as [|id ids IH]; intros p; cbn [fmap list_fmap all_settled].
  { apply wp_ret. split; [done|]. exists []. split; [done|]. exists []. split; [done|]. by intros h ?%not_elem_of_nil. }
  apply wp_bind. unfold settled. apply wp_try, wp_bind. eapply wp_mono; [apply archived_round|].
  intros r p1 (E1 & evs1 & H1' & o & -> & Ho). apply wp_ret. apply wp_bind. eapply wp_mono; [apply IH|].
  intros r p2 (E2 & evs2 & H2' & rs & -> & Hrs). apply wp_ret. split; [by rewrite E2|].
  exists (evs2 ++ evs1). rewrite H2', H1', app_assoc. split; [done|]. eexists. split; [done|].
  intros h [E|Hin]%elem_of_cons.
  - injection E as <-. exists id. split; [by left|]. eapply from_archive_mono; [|by apply Ho].
    intros x. rewrite elem_of_app. auto.
  - destruct (Hrs h Hin) as (id' & Hid & Hf). exists id'. split; [by right|].
    eapply from_archive_mono; [|exact Hf]. intros x. rewrite elem_of_app. auto.
Qed.

Lemma batch_fold entries acc :
  let out := fold_left batch_entry entries acc in
  (forall h, h ∈ fst out -> h ∈ fst acc \/ exists id info rd,
     (id, Some info) ∈ entries /\ Front.parseRound (ai_data info) = Ok rd /\ h = toHistoryRound rd None) /\
  (forall id, id ∈ snd out -> id ∈ snd acc \/ (id, None) ∈ entries).
Proof.
  revert acc. induction entries as [|[id info] entries IH]; intros acc; simpl; [by auto|].
  destruct (IH (batch_entry acc (id, info))) as [Hr Hm].
  split.
  - intros h Hh. destruct (Hr h Hh) as [Hin|(id' & info' & rd & Hin & E & ->)];
      [|right; exists id', info', rd; split; [by right|done]].
    unfold batch_entry in Hin. simpl in Hin. destruct info as [info|]; [|by left].
    destruct (Front.parseRound _) as [rd|e] eqn:E; [|by left]. simpl in Hin. apply elem_of_app in Hin as [Hin| ->%list_elem_of_singleton]; [by left|].
    right. exists id, info, rd. split; [by left|done].
  - intros id' Hid. destruct (Hm id' Hid) as [Hin|Hin]; [|right; by right].
    unfold batch_entry in Hin. simpl in Hin.
    destruct info as [info|]; [destruct (Front.parseRound _); by left|]. simpl in Hin. apply elem_of_app in Hin as [Hin| ->%list_elem_of_singleton]; [by left|right; by left].
Qed.

(** The ids of an entry of the batch, with its place in both lists. *)
Lemma zip_entry {X} (ids : list Z) (infos : list X) id info :
  (id, info) ∈ zip ids infos -> id ∈ ids /\ exists i, ids !! i = Some id /\ infos !! i = Some info.
Proof.
  intros (i & Hi)%list_elem_of_lookup. apply lookup_zip_with_Some in Hi as (x & y & [= -> ->] & Hx & Hy).
  split; [by eapply list_elem_of_lookup_2|]. by exists i.
Qed.

Definition round_of (evs : list FEvent) (ids : list Z) (h : Hist.HistoryRound) : Prop :=
  exists id, id ∈ ids /\ (from_chain evs id h \/ from_archive evs id h).

Lemma batch_reads ids (p : Proc) :
  wp (fetchRoundBatch A db ids) (fun r p' => reads p p' (fun evs =>
    forall batch, r = Ok batch -> Forall (round_of evs ids) batch)) p.
Proof.
  unfold fetchRoundBatch. case_match.
  { apply wp_ret. split; [done|]. exists []. split; [done|]. by intros batch [= <-]. }
  apply wp_bind, wp_lift. destruct (res_mapM _ ids) as [pdas|e] eqn:Ep;
    [|split; [done|]; exists []; split; [done|]; done].
  apply wp_bind. unfold f_accounts. apply wp_invoke. intros [infos|e] w;
    [|split; [done|]; eexists [_]; split; [done|]; done].
  pose proof (batch_fold (zip ids infos) ([], [])) as [Hr Hm].
  destruct (fold_left _ _ _) as [results missing]. simpl in Hr, Hm.
  assert (Forall (round_of [FAccounts pdas (Ok infos)] ids) results) as Hchain.
  { apply Forall_forall. intros h Hh. destruct (Hr h Hh) as [?%not_elem_of_nil|(id & info & rd & Hin & E & ->)]; [done|].
    apply zip_entry in Hin as (Hid & i & Ei & Einfo).
    destruct (res_mapM_lookup _ _ _ i id Ep Ei) as (pda & Epda & Elk).
    exists id. split; [done|]. left. exists pda, pdas, infos, i, info, rd. split_and!; try done. by left. }
  assert (forall evs, Forall (round_of (evs ++ [FAccounts pdas (Ok infos)]) ids) results) as Hchain'.
  { intros evs. eapply Forall_impl; [exact Hchain|]. intros h (id & Hid & Hc). exists id. split; [done|].
    destruct Hc as [(pda & pdas' & infos' & i & info & rd & E1 & Hin & Hrest)|(snap & Hin & E)].
    - left. exists pda, pdas', infos', i, info, rd. split; [done|]. split; [|done].
      apply elem_of_app. by right.
    - right. exists snap. split; [|done]. apply elem_of_app. by right. }
  case_match; [|apply wp_ret; split; [done|]; eexists [_]; split; [done|]; by intros batch [= <-]].
  unfold or_else, fetchRoundsFromFirebase. apply wp_try, wp_bind. case_match.
  { apply wp_ret, wp_ret. split; [done|]. eexists [_]. split; [done|]. intros batch [= <-]. by rewrite app_nil_r. }
  apply wp_bind. eapply wp_mono; [apply archived_all|]. intros r p' (El & evs & Eh & rs & -> & Hrs).
  apply wp_ret, wp_ret. split; [done|]. exists (evs ++ [FAccounts pdas (Ok infos)]). rewrite Eh, <- app_assoc.
  split; [done|]. intros batch [= <-]. apply Forall_app. split; [apply Hchain'|].
  apply Forall_forall. intros h Hh. apply list_elem_of_omap in Hh as (x & Hx & E).
  destruct x as [[h'|]|]; try done. injection E as <-.
  destruct (Hrs h' Hx) as (id & Hid & Hf). exists id. split.
  - destruct (Hm id Hid) as [?%not_elem_of_nil|Hin]; [done|]. by apply zip_entry in Hin as [? _].
  - right. eapply from_archive_mono; [|exact Hf]. intros y. rewrite elem_of_app. auto.
Qed.
End provenance.

Section paging.
Context `{FrontServices} (A : Addresses) (db : bool).
Local Abbreviation Proc := (Proc HistoryView FWorld FEvent).

(** The ids of the page are read, and their rounds shown, newest first; or the list stays. *)
Lemma show_page_reads ids (p : Proc) :
  wp (show_page A db ids) (fun r p' => exists evs, history p' = evs ++ history p /\
    match r with
    | Ok _ => exists rounds, local p' = mkHistoryView rounds (hv_loading (local p)) (hv_page (local p))
                (hv_totalPages (local p)) (hv_maxRoundId (local p)) (hv_pollPage (local p)) /\
              Sorted newer rounds /\ Forall (round_of A evs ids) rounds
    | Throw _ => local p' = local p
    end) p.
Proof.
  unfold show_page. apply wp_bind. eapply wp_mono; [apply batch_reads|].
  intros [batch|e] p' (El & evs & Eh & Hb); [|by exists evs].
  apply wp_modify. exists evs. split; [done|]. exists (newest_first batch). simpl. rewrite El.
  split; [done|]. split; [apply newest_first_sorted|]. rewrite newest_first_perm. by apply Hb.
Qed.

(** What the list shows after a change to the page [t]: nothing beyond the last page;
    otherwise the rounds of its ids, or, after a failure, what it showed before. *)
Definition page_shown (m t : Z) (p p' : Proc) : Prop :=
  let v := local p in let v' := local p' in
  if page_end m t <? 1 then hv_rounds v' = [] /\ hv_page v' = hv_page v
  else exists evs, history p' = evs ++ history p /\
    ((hv_rounds v' = hv_rounds v /\ hv_page v' = hv_page v) \/
     (hv_page v' = t /\ Sorted newer (hv_rounds v') /\
      Forall (round_of A evs (page_ids m t)) (hv_rounds v'))).

Lemma goToPage_shows m t (p : Proc) :
  1 <= m -> hv_maxRoundId (local p) = Some m ->
  wp (goToPage A db t) (fun r p' => r = Ok tt /\ hv_loading (local p') = false /\
    hv_maxRoundId (local p') = Some m /\ page_shown m t p p') p.
Proof.
  intros Hm Hmax. unfold goToPage. apply wp_bind, wp_gets. rewrite Hmax. simpl.
  destruct (Z.leb_spec m 0); [lia|]. apply wp_bind, wp_modify, wp_bind, wp_try.
  unfold page_shown. destruct (page_end m t <? 1) eqn:E.
  { by repeat apply wp_modify. }
  apply wp_bind. eapply wp_mono; [apply show_page_reads|].
  intros [u|e] p' (evs & Eh & Hr); simpl in Eh, Hr.
  - destruct Hr as (rounds & El & Hs & Hf). repeat apply wp_modify. simpl. rewrite El. simpl.
    split_and!; [done..|]. exists evs. split; [done|]. by right.
  - apply wp_ret, wp_modify. simpl. rewrite Hr. simpl. split_and!; [done..|]. exists evs.
    split; [done|]. by left.
Qed.

End paging.

(** ** Concrete inputs *)

Module HistoryWitness.
#[local] Existing Instance ToyKeys.keys.
#[local] Existing Instance ToySolana.libs.
#[local] Existing Instance ToyBrowser.xlibs.
#[local] Existing Instance ToyBrowser.services.
Local Abbreviation k := ToyBrowser.k.
Local Abbreviation A := ToyBrowser.addresses.
Local Abbreviation Proc := (Proc HistoryView FWorld FEvent).

Definition address (id : Z) : PublicKey :=
  fst (findProgramAddressSync [SEED_ROUND; le_encode 8 (Z.abs id)] (PROGRAM_ID A)).

Definition round_bytes (id : Z) : bytes :=
  encode_round (mkRoundImage (replicate 8 x00) id RoundStatus.Settled 254 (replicate 6 x00) 0 0 0
    (k 20) 5000000 500 0 (replicate 6 x00) (replicate 32 x00) 0 (k 21) (replicate 200 defaultKey)
    (replicate (Z.to_nat 1608) x00) defaultKey 0 0 (replicate 30 x00)).

(** Rounds 2, 3, 14 and 30 exist. *)
Definition ids : list Z := [2; 3; 14; 30].
Definition accounts : list (bytes * bytes) := (fun id => (toBuffer (address id), round_bytes id)) <$> ids.
Definition w0 : ToyBrowser.script := ToyBrowser.mkScript 0 accounts [] [] 9 [] 0.
Definition acct : PublicKey -> option AccountInfo := ToyBrowser.account_of w0.

Lemma address_ok id : 1 <= id < 2 ^ 53 -> getRoundPda A id = Ok (address id).
Proof.
  intros Hid. unfold getRoundPda. cbn [newBN ToySolana.libs].
  by rewrite (proj2 (Z.ltb_lt (Z.abs id) (2 ^ 53))) by lia.
Qed.

#[local] Instance stable : StableChain A acct.
Proof.
  refine {| calm := (fun w => ToyBrowser.bs_accounts w = accounts) : FWorld -> Prop |}.
  - intros key w Hw. simpl. split; [|done]. unfold acct, ToyBrowser.account_of. by rewrite Hw.
  - intros ks w Hw. simpl. split; [|done]. f_equal. apply list_fmap_ext. intros i key _.
    unfold acct, ToyBrowser.account_of. by rewrite Hw.
  - done.
  - intros id Hid. exists (address id). by apply address_ok.
Defined.

Lemma address_decode id : 1 <= id < 2 ^ 53 -> le_decode (take 8 (drop 5 (toBuffer (address id)))) = id.
Proof.
  intros Hid. change (take 8 (drop 5 (toBuffer (address id)))) with (le_encode 8 (Z.abs id)).
  rewrite le_decode_encode_small; lia.
Qed.

Lemma found_id key x : acct key = Some x -> le_decode (take 8 (drop 5 (toBuffer key))) ∈ ids.
Proof.
  unfold acct, ToyBrowser.account_of, ToyBrowser.assoc. intros Hx.
  destruct (list_find _ _) as [[i kv]|] eqn:E; [|done].
  apply list_find_Some in E as (Hi & E & _). simpl in Hi. unfold accounts in Hi.
  rewrite list_lookup_fmap in Hi. destruct (ids !! i) as [id|] eqn:Eid; [|done].
  injection Hi as <-. change (toBuffer (address id) = toBuffer key) in E. rewrite <- E.
  assert (id ∈ ids) as Hin by by eapply list_elem_of_lookup_2.
  rewrite address_decode; [done|]. unfold ids in Hin. set_unfold in Hin. lia.
Qed.

Lemma no_round_above id : present A acct id = true -> id <= 30.
Proof.
  unfold present. intros Hp. destruct (Z.le_gt_cases id 30); [done|].
  unfold getRoundPda in Hp. cbn [newBN ToySolana.libs] in Hp.
  destruct (Z.ltb_spec (Z.abs id) (2 ^ 53)); [|discriminate Hp]. cbn [mbind Res_bind toArrayLikeLE8 ToySolana.libs] in Hp. fold (address id) in Hp.
  destruct (acct (address id)) as [x|] eqn:E; [|done]. apply found_id in E.
  rewrite address_decode in E by lia. unfold ids in E. set_unfold in E. lia.
Qed.

Definition p0 : Proc := mkProc initial_history w0 [].

(** The search from 1 finds round 30 although most ids are missing. *)
Lemma findMaxRoundId_greatest_witness :
  fst (findMaxRoundId A true 30 p0) = Ok (Some (Some 30)) /\
  forall id, 1 <= id -> present A acct id = true -> id <= 30.
Proof.
  destruct (findMaxRoundId_greatest A true acct 30 (S754_zero false) 1 30 p0) as (r & Hr & _ & _ & _ & Hg);
    [reflexivity|vm_compute; reflexivity|discriminate|reflexivity|lia|lia|exact no_round_above|vm_compute; discriminate|].
  assert (fst (findMaxRoundId A true 30 p0) = Ok (Some (Some 30))) as E by (vm_compute; reflexivity).
  rewrite E in Hr. injection Hr as <-. split; [exact E|]. intros id Hid Hp. apply Hg; [|exact Hid|exact Hp].
  intros j Hj Hpj. pose proof (no_round_above j Hpj).
  destruct (Z.le_gt_cases j 19); [exists 1; lia|]. exists 14. split; [lia|]. split; [lia|].
  right. vm_compute. reflexivity.
Defined.

(** The first page after the search. *)
Definition p1 : Proc := snd (fetchInitial A true 30 p0).

Example first_page :
  (Hist.roundId <$> hv_rounds (local p1)) = [num_of_Z 30] /\ hv_totalPages (local p1) = Some 3.
Proof. vm_compute. done. Qed.

End HistoryWitness.
