(* ===== verification/PlayerPnL.v ===== *)
(** * PlayerPnL: src/hooks/usePlayerPnL.ts and src/hooks/useUserPnL.ts

    The profit of a player over all rounds: the two hooks differ only in where the address
    comes from.  The scan runs over the rounds of [RoundHistory]. *)

From stdpp Require Import base list gmap strings pretty sorting.
From Stdlib Require Import ZArith Lia Ascii Strings.Byte SpecFloat.
From S2P Require Import Prelude Buffers Accounts JsRuntime Effects Solana Instructions Firebase DegenExecutor Frames Browser History NumFacts RoundHistory.

Local Open Scope string_scope.
Local Open Scope list_scope.
Local Open Scope Z_scope.
Set Warnings "-clear-no-such-hyp".

Inductive PnLType := DepositTx | WinTx.

Record PnLTransaction := mkPnLTx {
  pt_roundId : num;
  pt_type : PnLType;
  pt_amount : num;
  pt_timestamp : num
}.

Record PlayerPnLData := mkPnL {
  transactions : list PnLTransaction;
  totalDeposited : num;
  totalWon : num;
  totalPnL : num;
  roundCount : Z;
  winCount : Z
}.

Definition no_pnl : PlayerPnLData := mkPnL [] (num_of_Z 0) (num_of_Z 0) (num_of_Z 0) 0 0.

Record PnLView := mkPnLView { pv_data : PlayerPnLData; pv_loading : bool }.
Definition initial_pnl : PnLView := mkPnLView no_pnl false.

(** The variables of the scan. *)
Record PnLScan := mkScan {
  ps_transactions : list PnLTransaction;
  ps_deposited : num;
  ps_won : num;
  ps_rounds : Z;
  ps_wins : Z
}.

Definition ROUND_BATCH_SIZE : Z := 100.

(** The deposit of the player in a round, if the round lists deposits. *)
Definition user_deposit (player : string) (round : Hist.HistoryRound) : option ParticipantDeposit :=
  match Hist.participantDeposits round with
  | Some deposits => snd <$> list_find (fun d => d_address d = player) deposits
  | None => None
  end.

Definition add_round (player : string) (s : PnLScan) (round : Hist.HistoryRound) : PnLScan :=
  match user_deposit player round with
  | None => s
  | Some d =>
      let deposit := mkPnLTx (Hist.roundId round) DepositTx (d_usdc d) (Hist.endTs round) in
      if String.eqb (Hist.winner round) player then
        mkScan (ps_transactions s ++ [deposit; mkPnLTx (Hist.roundId round) WinTx (Hist.totalUsdc round) (Hist.endTs round)])
          (num_plus (ps_deposited s) (d_usdc d)) (num_plus (ps_won s) (Hist.totalUsdc round))
          (ps_rounds s + 1) (ps_wins s + 1)
      else
        mkScan (ps_transactions s ++ [deposit]) (num_plus (ps_deposited s) (d_usdc d)) (ps_won s)
          (ps_rounds s + 1) (ps_wins s)
  end.

(** [transactions.sort((a, b) => b.timestamp - a.timestamp)] *)
Fixpoint insert_tx (x : PnLTransaction) (l : list PnLTransaction) : list PnLTransaction :=
  match l with
  | [] => [x]
  | y :: l => if SFltb (pt_timestamp y) (pt_timestamp x) then x :: y :: l else y :: insert_tx x l
  end.
Definition newest_txs (l : list PnLTransaction) : list PnLTransaction :=
  fold_left (fun acc x => insert_tx x acc) l [].

Definition pnl_of_scan (s : PnLScan) : PlayerPnLData :=
  mkPnL (newest_txs (ps_transactions s)) (ps_deposited s) (ps_won s)
    (num_minus (ps_won s) (ps_deposited s)) (ps_rounds s) (ps_wins s).

Section scan.
Context `{FrontServices} (A : Addresses) (db : bool).
Local Abbreviation M := (M PnLView FWorld FEvent).

(** The ids of the batch that ends with [endId]. *)
Definition pnl_batch (endId : Z) : list Z := countdown endId (Z.max 1 (endId - ROUND_BATCH_SIZE + 1)).

(** [for (let endId = maxId; endId >= 1; endId -= roundBatchSize) ...] *)
Fixpoint pnl_loop (n : nat) (player : string) (endId : Z) (s : PnLScan) : M PnLScan :=
  match n with
  | O => mret s
  | S n =>
      if 1 <=? endId then
        rounds ← fetchRoundBatch A db (pnl_batch endId);
        pnl_loop n player (endId - ROUND_BATCH_SIZE) (fold_left (add_round player) rounds s)
      else mret s
  end.

Definition empty_scan : PnLScan := mkScan [] (num_of_Z 0) (num_of_Z 0) 0 0.

(** The number of iterations is that of the batches; there is none for [NaN]. *)
Definition scan_rounds (player : string) (maxId : RoundNum) : M PnLScan :=
  match maxId with
  | Some m => pnl_loop (Z.to_nat ((m + ROUND_BATCH_SIZE - 1) / ROUND_BATCH_SIZE)) player m empty_scan
  | None => mret empty_scan
  end.

Definition setPnL (d : PlayerPnLData) : M unit := modify (fun v => mkPnLView d (pv_loading v)).
Definition setPnLLoading (b : bool) : M unit := modify (fun v => mkPnLView (pv_data v) b).

(** [None]: [fuel] was not enough for the search of the greatest round. *)
Definition fetchPlayerPnL (fuel : nat) (player : string) : M (option unit) :=
  setPnLLoading true ;;
  r ← try_catch
    (max ← findMaxRoundId A db fuel;
     match max with
     | None => mret None
     | Some maxId =>
         if not_positive maxId then setPnLLoading false ;; mret (Some tt)
         else s ← scan_rounds player maxId; setPnL (pnl_of_scan s) ;; mret (Some tt)
     end)
    (fun _ => mret (Some tt));
  setPnLLoading false ;;
  mret r.

(** The effect of [usePlayerPnL], which is given the address. *)
Definition pnl_effect (fuel : nat) (player : option string) : M (option unit) :=
  match player with
  | None | Some "" => setPnL no_pnl ;; mret (Some tt)
  | Some player => fetchPlayerPnL fuel player
  end.

(** [useUserPnL] does the same for the address of the wallet. *)
Definition fetchUserPnL (fuel : nat) (publicKey : PublicKey) : M (option unit) :=
  fetchPlayerPnL fuel (toBase58 publicKey).
Definition user_pnl_effect (fuel : nat) (publicKey : option PublicKey) : M (option unit) :=
  match publicKey with
  | None => setPnL no_pnl ;; mret (Some tt)
  | Some publicKey => fetchUserPnL fuel publicKey
  end.
End scan.

(** ** What is shown *)

(** The transactions of a player in a round. *)
Definition round_txs (player : string) (round : Hist.HistoryRound) : list PnLTransaction :=
  match user_deposit player round with
  | None => []
  | Some d =>
      mkPnLTx (Hist.roundId round) DepositTx (d_usdc d) (Hist.endTs round) ::
      (if String.eqb (Hist.winner round) player
       then [mkPnLTx (Hist.roundId round) WinTx (Hist.totalUsdc round) (Hist.endTs round)] else [])
  end.

Definition is_deposit (t : PnLTransaction) : bool := match pt_type t with DepositTx => true | WinTx => false end.
Definition sum_of (f : PnLTransaction -> bool) (l : list PnLTransaction) : num :=
  fold_left num_plus (pt_amount <$> filter (fun t => f t = true) l) (num_of_Z 0).
Definition count_of (f : PnLTransaction -> bool) (l : list PnLTransaction) : Z :=
  Z.of_nat (length (filter (fun t => f t = true) l)).

(** The variables of the scan summarise the transactions found so far. *)
Definition summarises (s : PnLScan) (l : list PnLTransaction) : Prop :=
  ps_transactions s = l /\ ps_deposited s = sum_of is_deposit l /\
  ps_won s = sum_of (fun t => negb (is_deposit t)) l /\
  ps_rounds s = count_of is_deposit l /\ ps_wins s = count_of (fun t => negb (is_deposit t)) l.

Lemma sum_of_snoc f l t : sum_of f (l ++ [t]) = if f t then num_plus (sum_of f l) (pt_amount t) else sum_of f l.
Proof.
  unfold sum_of. rewrite filter_app, fmap_app, fold_left_app, filter_cons.
  destruct (f t) eqn:E; [by rewrite decide_True|by rewrite decide_False].
Qed.

Lemma count_of_snoc f l t : count_of f (l ++ [t]) = if f t then count_of f l + 1 else count_of f l.
Proof.
  unfold count_of. rewrite filter_app, length_app, filter_cons.
  destruct (f t) eqn:E; [rewrite decide_True by done|rewrite decide_False by done]; simpl; lia.
Qed.

Lemma add_round_summarises player s l round :
  summarises s l -> summarises (add_round player s round) (l ++ round_txs player round).
Proof.
  intros (Ht & Hd & Hw & Hr & Hn). unfold add_round, round_txs.
  destruct (user_deposit player round) as [d|]; [|rewrite app_nil_r; by repeat split].
  destruct (String.eqb _ _).
  - change (?a ++ [?b; ?c]) with (a ++ [b] ++ [c]). rewrite (app_assoc l [_] [_]).
    unfold summarises. rewrite !sum_of_snoc, !count_of_snoc. simpl.
    rewrite Ht, Hd, Hw, Hr, Hn. by rewrite <- app_assoc.
  - unfold summarises. rewrite !sum_of_snoc, !count_of_snoc. simpl. by rewrite Ht, Hd, Hw, Hr, Hn.
Qed.

Lemma add_rounds_summarise player rounds s l :
  summarises s l ->
  summarises (fold_left (add_round player) rounds s) (l ++ (rounds ≫= round_txs player)).
Proof.
  revert s l. induction rounds as [|round rounds IH]; intros s l Hs; simpl; [by rewrite app_nil_r|].
  rewrite app_assoc. by apply IH, add_round_summarises.
Qed.

Lemma insert_tx_perm x l : insert_tx x l ≡ₚ x :: l.
Proof.
  induction l as [|y l IH]; simpl; [done|]. destruct (SFltb _ _); [done|]. rewrite IH. apply perm_swap.
Qed.

Lemma newest_txs_perm l : newest_txs l ≡ₚ l.
Proof.
  unfold newest_txs. rewrite <- (app_nil_l l) at 2. generalize (@nil PnLTransaction) as acc.
  induction l as [|x l IH]; intros acc; simpl; [by rewrite app_nil_r|].
  rewrite IH, insert_tx_perm. by rewrite <- Permutation_middle.
Qed.

(** A round whose account is still on the chain lists no deposits. *)
Lemma chain_round_txs `{Web3Keys} player rd : round_txs player (toHistoryRound rd None) = [].
Proof. done. Qed.

Section spec.
Context `{FrontServices} (A : Addresses) (db : bool).
Local Abbreviation M := (M PnLView FWorld FEvent).
Local Abbreviation Proc := (Proc PnLView FWorld FEvent).

(** The state is untouched, and the events were added. *)
Definition adds_events (p q : Proc) : Prop := local q = local p /\ exists evs, history q = evs ++ history p.

Lemma adds_trans p q r : adds_events p q -> adds_events q r -> adds_events p r.
Proof.
  intros [E1 (l1 & Hl1)] [E2 (l2 & Hl2)]. split; [congruence|]. exists (l2 ++ l1). by rewrite Hl2, Hl1, app_assoc.
Qed.

Lemma adds_refl p : adds_events p p.
Proof. split; [done|]. by exists []. Qed.

Lemma adds_bind {X Y} (m : M X) (f : X -> M Y) p :
  wp m (fun _ q => adds_events p q) p -> (forall x q, wp (f x) (fun _ r => adds_events q r) q) ->
  wp (mbind f m) (fun _ q => adds_events p q) p.
Proof.
  intros Hm Hf. apply wp_bind. eapply wp_mono; [exact Hm|]. intros [x|e] q Hq; [|done].
  eapply wp_mono; [apply Hf|]. intros r q' Hq'. by eapply adds_trans.
Qed.

Lemma adds_lift {X} (r : Res X) p : wp (lift r) (fun _ q => adds_events p q) p.
Proof. apply wp_lift, adds_refl. Qed.

Lemma adds_invoke {X} (call : FWorld -> Res X * FWorld) ev p : wp (invoke call ev) (fun _ q => adds_events p q) p.
Proof. apply wp_invoke. intros r w. split; [done|]. by exists [ev r]. Qed.

Lemma probe_adds fuel low high p : wp (probe A fuel low high) (fun _ q => adds_events p q) p.
Proof.
  revert low high p. induction fuel as [|fuel IH]; intros low high p; [apply adds_refl|]. cbn [probe].
  apply adds_bind; [apply adds_lift|]. intros pdas q. apply adds_bind; [apply adds_invoke|]. intros infos q'.
  destruct (last_existing infos); [apply IH|apply adds_refl].
Qed.

Lemma bisect_adds fuel low high p : wp (bisect A fuel low high) (fun _ q => adds_events p q) p.
Proof.
  revert low high p. induction fuel as [|fuel IH]; intros low high p; [apply adds_refl|]. cbn [bisect].
  destruct (low <? high); [|apply adds_refl]. apply adds_bind; [apply adds_lift|]. intros pda q.
  apply adds_bind; [apply adds_invoke|]. intros [info|] q'; apply IH.
Qed.

Lemma find_max_adds fuel p : wp (findMaxRoundId A db fuel) (fun _ q => adds_events p q) p.
Proof.
  unfold findMaxRoundId. apply adds_bind.
  { unfold getMaxArchivedRoundId. destruct db; [|apply adds_refl]. apply wp_try, wp_bind, wp_invoke.
    intros [a|e] w; simpl; (split; [done|]); by eexists [_]. }
  intros a q. apply adds_bind; [apply adds_lift|]. intros start q1. apply adds_bind; [apply probe_adds|].
  intros [[low high]|] q2; [|apply adds_refl]. apply adds_bind; [apply bisect_adds|]. intros r q3. apply adds_refl.
Qed.

(** The batches of the scan, each with the rounds that were read for it. *)
Definition batches_read (evs : list FEvent) (batches : list (list Z * list Hist.HistoryRound)) : Prop :=
  Forall (fun b => Forall (round_of A evs (fst b)) (snd b)) batches.

Lemma round_of_app evs evs' ids h : round_of A evs ids h -> round_of A (evs' ++ evs) ids h.
Proof.
  intros (id & Hid & [Hc|Ha]); exists id; (split; [done|]).
  - left. destruct Hc as (pda & pdas & infos & i & info & rd & C1 & C2 & C3 & C4 & C5 & C6).
    exists pda, pdas, infos, i, info, rd. rewrite elem_of_app. auto 10.
  - right. destruct Ha as (snap & Hin & He). exists snap. rewrite elem_of_app. auto.
Qed.

Lemma round_of_app_l evs evs' ids h : round_of A evs' ids h -> round_of A (evs' ++ evs) ids h.
Proof.
  intros (id & Hid & [Hc|Ha]); exists id; (split; [done|]).
  - left. destruct Hc as (pda & pdas & infos & i & info & rd & C1 & C2 & C3 & C4 & C5 & C6).
    exists pda, pdas, infos, i, info, rd. rewrite elem_of_app. auto 10.
  - right. destruct Ha as (snap & Hin & He). exists snap. rewrite elem_of_app. auto.
Qed.

(** The ids of the remaining batches are the ids that remain. *)
Lemma pnl_loop_spec n player endId s l (p : Proc) :
  0 <= endId -> Z.of_nat n = (endId + ROUND_BATCH_SIZE - 1) / ROUND_BATCH_SIZE -> summarises s l ->
  wp (pnl_loop A db n player endId s) (fun r q => reads p q (fun evs =>
    forall s', r = Ok s' -> exists batches, batches_read evs batches /\
      concat (fst <$> batches) = countdown endId 1 /\
      summarises s' (l ++ (concat (snd <$> batches) ≫= round_txs player)))) p.
Proof.
  unfold ROUND_BATCH_SIZE. revert endId s l p.
  induction n as [|n IH]; intros endId s l p He Hn Hs; cbn [pnl_loop];
    pose proof (Z.div_mod (endId + 100 - 1) 100); pose proof (Z.mod_pos_bound (endId + 100 - 1) 100).
  { assert (endId = 0) as -> by lia. apply wp_ret. split; [done|]. exists []. split; [done|].
    intros s' [= <-]. exists []. split_and!; [constructor|done|by rewrite app_nil_r]. }
  destruct (Z.leb_spec 1 endId); [|lia]. apply wp_bind. eapply wp_mono; [apply batch_reads|].
  intros [rounds|e] q (El & evs & Hh & Hb); [|split; [done|]; exists evs; split; [done|]; done].
  unfold pnl_batch, ROUND_BATCH_SIZE in *.
  destruct (Z.le_gt_cases 0 (endId - 100)) as [Hmore|Hlast].
  - eapply wp_mono; [apply (IH _ _ (l ++ (rounds ≫= round_txs player))); [done|apply Z.div_unique with ((endId + 100 - 1) mod 100); lia|by apply add_rounds_summarise]|].
    intros r q' (El' & evs' & Hh' & Hr'). split; [congruence|]. exists (evs' ++ evs). rewrite Hh', Hh.
    split; [by rewrite app_assoc|]. intros s' Hs'. destruct (Hr' s' Hs') as (batches & Hbs & Hc & Hsum).
    exists ((countdown endId (Z.max 1 (endId - 100 + 1)), rounds) :: batches). split_and!.
    + constructor; [simpl; eapply Forall_impl; [by apply Hb|]; intros; by apply round_of_app|].
      eapply Forall_impl; [exact Hbs|]. intros b Hf. eapply Forall_impl; [exact Hf|]. intros. by apply round_of_app_l.
    + csimpl. rewrite Hc. rewrite Z.max_r by lia. replace (endId - 100) with (endId - 100 + 1 - 1) at 2 by lia.
      apply countdown_app; lia.
    + csimpl. rewrite bind_app, app_assoc. exact Hsum.
  - assert (n = 0%nat) as -> by lia. apply wp_ret. split; [done|]. exists evs. split; [done|]. intros s' [= <-].
    exists [(countdown endId (Z.max 1 (endId - 100 + 1)), rounds)]. split_and!.
    + constructor; [by apply Hb|constructor].
    + csimpl. rewrite app_nil_r. f_equal. lia.
    + csimpl. rewrite app_nil_r. by apply add_rounds_summarise.
Qed.

(** What a scan of the rounds up to [maxId] shows. *)
Record pnl_shown (player : string) (maxId : RoundNum) (evs : list FEvent)
    (shown_batches : list (list Z * list Hist.HistoryRound)) (d : PlayerPnLData) : Prop := {
  shown_read : batches_read evs shown_batches;
  shown_ids : concat (fst <$> shown_batches) = match maxId with Some m => countdown m 1 | None => [] end;
  shown_txs : transactions d ≡ₚ concat (snd <$> shown_batches) ≫= round_txs player;
  shown_sums : let l := concat (snd <$> shown_batches) ≫= round_txs player in
    totalDeposited d = sum_of is_deposit l /\ totalWon d = sum_of (fun t => negb (is_deposit t)) l /\
    totalPnL d = num_minus (totalWon d) (totalDeposited d) /\
    roundCount d = count_of is_deposit l /\ winCount d = count_of (fun t => negb (is_deposit t)) l;
  shown_archived : forall t, t ∈ transactions d ->
    exists id h, t ∈ round_txs player h /\ from_archive evs id h
}.

(** Only archived rounds have transactions. *)
Lemma tx_archived player evs batches t :
  batches_read evs batches -> t ∈ (concat (snd <$> batches) ≫= round_txs player) ->
  exists id h, t ∈ round_txs player h /\ from_archive evs id h.
Proof.
  intros Hb Ht. apply list_elem_of_bind in Ht as (h & Ht & Hh).
  apply list_elem_of_In, in_concat in Hh as (rounds & Hr%list_elem_of_In & Hh%list_elem_of_In). apply list_elem_of_fmap in Hr as (b & -> & Hin).
  pose proof (proj1 (Forall_forall _ _) (proj1 (Forall_forall _ _) Hb b Hin) h Hh) as (id & _ & [Hc|Ha]).
  - destruct Hc as (pda & pdas & infos & i & info & rd & _ & _ & _ & _ & _ & ->).
    rewrite chain_round_txs in Ht. by apply elem_of_nil in Ht.
  - by exists id, h.
Qed.

Lemma empty_summary : summarises empty_scan [].
Proof. done. Qed.

Lemma scan_shows player maxId (p : Proc) : not_positive maxId = false ->
  wp (scan_rounds A db player maxId) (fun r q => reads p q (fun evs =>
    forall s, r = Ok s -> exists batches, pnl_shown player maxId evs batches (pnl_of_scan s))) p.
Proof.
  intros Hpos. assert (forall evs batches s, batches_read evs batches ->
    concat (fst <$> batches) = match maxId with Some m => countdown m 1 | None => [] end ->
    summarises s ([] ++ (concat (snd <$> batches) ≫= round_txs player)) ->
    exists batches, pnl_shown player maxId evs batches (pnl_of_scan s)) as Hshown.
  { intros evs batches s Hb Hi (Ht & Hd & Hw & Hr & Hn). simpl in Ht.
    assert (newest_txs (ps_transactions s) ≡ₚ concat (snd <$> batches) ≫= round_txs player) as Hperm
      by (rewrite newest_txs_perm, Ht; done).
    exists batches. split; try done. intros t Hin. simpl in Hin. rewrite Hperm in Hin.
    by eapply tx_archived. }
  destruct maxId as [m|]; simpl.
  - simpl in Hpos. apply Z.leb_gt in Hpos.
    eapply wp_mono; [apply (pnl_loop_spec _ _ _ _ []); [lia| |apply empty_summary]|].
    + rewrite Z2Nat.id; [done|]. apply Z.div_pos; unfold ROUND_BATCH_SIZE; lia.
    + intros r q (El & evs & Hh & Hr). split; [done|]. exists evs. split; [done|]. intros s Hs.
      destruct (Hr s Hs) as (batches & Hb & Hi & Hsum). by eapply Hshown.
  - apply wp_ret. split; [done|]. exists []. split; [done|]. intros s [= <-].
    apply (Hshown [] []); [constructor|done|apply empty_summary].
Qed.

(** The profit of a player.  The hook always ends with loading switched off, and throws
    nothing.  It leaves the data as they were (after an error, or if there is no round) or
    shows a summary of all rounds from the greatest to the first, each looked up in exactly
    one batch: a deposit for every round that lists one of the player and a win of the whole
    pot for those of them the player has won, the sums and numbers of both and the
    difference of the sums.  Every transaction stems from a round of the archive: rounds
    that still have their account do not count. *)
Theorem pnl_summary fuel player (p : Proc) :
  let run := fetchPlayerPnL A db fuel player p in
  let q := snd run in
  fst run = match fst (findMaxRoundId A db fuel (snd (setPnLLoading true p))) with
            | Ok None => Ok None | _ => Ok (Some tt) end /\
  pv_loading (local q) = false /\
  (pv_data (local q) = pv_data (local p) \/
   exists maxId evs batches,
     fst (findMaxRoundId A db fuel (snd (setPnLLoading true p))) = Ok (Some maxId) /\
     (exists evs', history q = (evs ++ evs') ++ history p) /\
     pnl_shown player maxId evs batches (pv_data (local q))).
Proof.
  set (p1 := snd (setPnLLoading true p)).
  enough (wp (fetchPlayerPnL A db fuel player) (fun r q =>
    r = match fst (findMaxRoundId A db fuel p1) with Ok None => Ok None | _ => Ok (Some tt) end /\
    pv_loading (local q) = false /\
    (pv_data (local q) = pv_data (local p) \/
     exists maxId evs batches, fst (findMaxRoundId A db fuel p1) = Ok (Some maxId) /\
       (exists evs', history q = (evs ++ evs') ++ history p) /\
       pnl_shown player maxId evs batches (pv_data (local q)))) p) by done.
  apply wp_bind, wp_modify. fold p1. apply wp_bind, wp_try, wp_bind.
  eapply wp_mono; [apply (wp_and _ _ (fun r _ => r = fst (findMaxRoundId A db fuel p1)) _ (find_max_adds fuel p1)); done|].
  intros r p2 [[El (evs2 & Eh)] Er]. rewrite <- Er. clear Er.
  destruct r as [[maxId|]|e].
  - destruct (not_positive maxId) eqn:Hpos.
    { apply wp_bind, wp_modify, wp_ret, wp_bind, wp_modify, wp_ret. cbn [local set_local pv_loading pv_data].
      split_and!; [done|done|]. left. by rewrite El. }
    apply wp_bind. eapply wp_mono; [by apply scan_shows|].
    intros [s|e] q (El' & evs & Eh' & Hs).
    + apply wp_bind, wp_modify, wp_ret, wp_bind, wp_modify, wp_ret. cbn [local history set_local pv_loading pv_data].
      split_and!; [done|done|]. right. destruct (Hs s eq_refl) as [batches Hb]. exists maxId, evs, batches.
      split_and!; [done| |done]. exists evs2. rewrite Eh', Eh. by rewrite app_assoc.
    + apply wp_ret, wp_bind, wp_modify, wp_ret. cbn [local set_local pv_loading pv_data].
      split_and!; [done|done|]. left. by rewrite El', El.
  - apply wp_ret, wp_bind, wp_modify, wp_ret. cbn [local set_local pv_loading pv_data].
    split_and!; [done|done|]. left. by rewrite El.
  - apply wp_ret, wp_bind, wp_modify, wp_ret. cbn [local set_local pv_loading pv_data].
    split_and!; [done|done|]. left. by rewrite El.
Qed.
End spec.

(** ** Concrete rounds *)

Module PnLWitness.

Definition round (id status pot : Z) (winner : string) : Hist.HistoryRound :=
  Hist.mkHistoryRound (num_of_Z id) status (num_of_Z pot) (num_of_Z pot) 2 winner 0 "" (num_of_Z 0) (num_of_Z (id * 60))
    None "" ["me"; "you"] (Some [mkDeposit "me" (num_of_Z 10) (num_of_Z 10); mkDeposit "you" (num_of_Z (pot - 10)) (num_of_Z (pot - 10))]).

Definition rounds : list Hist.HistoryRound :=
  [round 1 RoundStatus.Claimed 40 "me"; round 2 RoundStatus.Cancelled 15 ""; round 3 RoundStatus.Claimed 20 "you"].

Definition pnl : PlayerPnLData := pnl_of_scan (fold_left (add_round "me") rounds empty_scan).

(** The win counts with the fee that is not paid out, and the deposit of the cancelled round,
    which is refunded, as lost. *)
Example gross_win_and_refund :
  (totalDeposited pnl, totalWon pnl, totalPnL pnl, roundCount pnl, winCount pnl) =
  (num_of_Z 30, num_of_Z 40, num_of_Z 10, 3, 1) /\
  map (fun t => (pt_roundId t, is_deposit t)) (transactions pnl) =
  [(num_of_Z 3, true); (num_of_Z 2, true); (num_of_Z 1, true); (num_of_Z 1, false)].
Proof. vm_compute. done. Qed.
End PnLWitness.
