(* ===== verification/Subscriptions.v ===== *)
(** * Subscriptions: the timers and listeners of the hook

    Two state machines driven by the browser: the loop of src/hooks/useJackpot.ts that
    polls the round and pauses while the tab is hidden, and the account subscription of
    src/hooks/useAccountSubscription.ts.  React runs an effect again when one of its
    dependencies changes, after the clean-up of its previous run. *)

From stdpp Require Import base list.
From Stdlib Require Import Lia.

(** ** The polling loop *)

(** [stopped] and [timer] of the effect; the timers that are set; the polls started by a
    timer that have not ended; whether the effect is mounted and the tab hidden. *)
Record PollLoop := mkLoop {
  lp_stopped : bool;
  lp_timer : option nat;
  lp_pending : list nat;
  lp_inflight : nat;
  lp_mounted : bool;
  lp_hidden : bool;
  lp_next : nat;
  lp_polls : nat
}.

Inductive LoopEvent :=
| Fire (id : nat)
| Polled
| Visibility
| Cleanup.

(** [schedule()] *)
Definition schedule (s : PollLoop) : PollLoop :=
  if lp_stopped s then s
  else mkLoop (lp_stopped s) (Some (lp_next s)) (lp_pending s ++ [lp_next s]) (lp_inflight s)
         (lp_mounted s) (lp_hidden s) (S (lp_next s)) (lp_polls s).

(** [pollRound()], called outside of the timer. *)
Definition poll_once (s : PollLoop) : PollLoop :=
  mkLoop (lp_stopped s) (lp_timer s) (lp_pending s) (lp_inflight s) (lp_mounted s) (lp_hidden s)
    (lp_next s) (S (lp_polls s)).

(** [clearTimeout(timer); stopped = true] *)
Definition stop (s : PollLoop) : PollLoop :=
  mkLoop true (lp_timer s) (filter (fun id => Some id ≠ lp_timer s) (lp_pending s)) (lp_inflight s)
    (lp_mounted s) (lp_hidden s) (lp_next s) (lp_polls s).

(** The effect, when the tab is [hidden] or not. *)
Definition mount_loop (hidden : bool) : PollLoop :=
  schedule (poll_once (mkLoop false None [] 0 true hidden 0 0)).

Definition onVisibility (s : PollLoop) : PollLoop :=
  if lp_hidden s then stop s
  else schedule (poll_once (mkLoop false (lp_timer s) (lp_pending s) (lp_inflight s) (lp_mounted s)
                              (lp_hidden s) (lp_next s) (lp_polls s))).

(** [None]: the browser does not deliver the event in this state. *)
Definition loop_step (s : PollLoop) (ev : LoopEvent) : option PollLoop :=
  match ev with
  | Fire id =>
      if decide (id ∈ lp_pending s) then
        Some (mkLoop (lp_stopped s) (lp_timer s) (filter (fun i => i ≠ id) (lp_pending s))
                (S (lp_inflight s)) (lp_mounted s) (lp_hidden s) (lp_next s) (S (lp_polls s)))
      else None
  | Polled =>
      match lp_inflight s with
      | O => None
      | S n => Some (schedule (mkLoop (lp_stopped s) (lp_timer s) (lp_pending s) n (lp_mounted s)
                                 (lp_hidden s) (lp_next s) (lp_polls s)))
      end
  | Visibility =>
      let s := mkLoop (lp_stopped s) (lp_timer s) (lp_pending s) (lp_inflight s) (lp_mounted s)
                 (negb (lp_hidden s)) (lp_next s) (lp_polls s) in
      Some (if lp_mounted s then onVisibility s else s)
  | Cleanup =>
      if lp_mounted s then
        let s := stop s in
        Some (mkLoop (lp_stopped s) (lp_timer s) (lp_pending s) (lp_inflight s) false (lp_hidden s)
                (lp_next s) (lp_polls s))
      else None
  end.

Fixpoint loop_run (s : PollLoop) (evs : list LoopEvent) : option PollLoop :=
  match evs with
  | [] => Some s
  | ev :: evs => s' ← loop_step s ev; loop_run s' evs
  end.

Inductive loop_reaches (hidden : bool) : PollLoop -> Prop :=
| loop_starts : loop_reaches hidden (mount_loop hidden)
| loop_steps s ev s' : loop_reaches hidden s -> loop_step s ev = Some s' -> loop_reaches hidden s'.

(** The chains of timer, poll, timer, ... that are alive. *)
Definition chains (s : PollLoop) : nat := length (lp_pending s) + lp_inflight s.

(** Timers are set once, and before the next one; an unmounted loop is stopped; a loop
    that is not stopped is alive. *)
Record loop_ok (s : PollLoop) : Prop := {
  ok_nodup : NoDup (lp_pending s);
  ok_fresh : Forall (fun id => (id < lp_next s)%nat) (lp_pending s);
  ok_unmounted : lp_mounted s = false -> lp_stopped s = true;
  ok_alive : lp_stopped s = false -> (1 <= chains s)%nat
}.

Lemma filter_fresh n (P : nat -> Prop) `{!forall x, Decision (P x)} l :
  Forall (fun id => (id < n)%nat) l -> Forall (fun id => (id < n)%nat) (filter P l).
Proof. rewrite !Forall_forall. intros Hl x [_ Hx]%list_elem_of_filter. auto. Qed.

Lemma schedule_ok s :
  NoDup (lp_pending s) -> Forall (fun id => (id < lp_next s)%nat) (lp_pending s) ->
  (lp_mounted s = false -> lp_stopped s = true) -> loop_ok (schedule s).
Proof.
  intros Hn Hf Hm. unfold schedule. destruct (lp_stopped s) eqn:E; [by split; [..|congruence]|]. split; simpl.
  - apply NoDup_app. split; [done|]. split; [|apply NoDup_singleton].
    intros x Hx ->%list_elem_of_singleton. rewrite Forall_forall in Hf. specialize (Hf _ Hx). lia.
  - apply Forall_app. split; [|by repeat constructor]. eapply Forall_impl; [exact Hf|]. simpl. lia.
  - intros Hm'. specialize (Hm Hm'). congruence.
  - intros _. unfold chains. simpl. rewrite length_app. simpl. lia.
Qed.

Lemma loop_step_ok s ev s' : loop_ok s -> loop_step s ev = Some s' -> loop_ok s'.
Proof.
  intros [Hn Hf Hm Ha]. destruct ev as [id| | |]; simpl.
  - case_decide; [|done]. intros [= <-]. split; simpl; [by apply NoDup_filter|by apply filter_fresh|done|].
    intros _. unfold chains. simpl. lia.
  - destruct (lp_inflight s) as [|n]; [done|]. intros [= <-]. by apply schedule_ok.
  - intros [= <-]. destruct (lp_mounted s) eqn:E; [|by split]. unfold onVisibility. simpl.
    destruct (negb (lp_hidden s)).
    + split; simpl; [by apply NoDup_filter|by apply filter_fresh|done|done].
    + apply schedule_ok; simpl; congruence.
  - destruct (lp_mounted s); [|done]. intros [= <-].
    split; simpl; [by apply NoDup_filter|by apply filter_fresh|done|done].
Qed.

Lemma loop_reaches_ok hidden s : loop_reaches hidden s -> loop_ok s.
Proof.
  induction 1 as [|s ev s' _ IH Hs]; [|by eapply loop_step_ok].
  apply schedule_ok; [constructor|constructor|done].
Qed.

(** A loop that is unmounted starts nothing new: every timer that is still set polls once
    more, and that is all. *)
Lemma unmounted_step s ev s' :
  loop_ok s -> lp_mounted s = false -> loop_step s ev = Some s' ->
  lp_mounted s' = false /\ (chains s' <= chains s)%nat /\
  (lp_polls s' + length (lp_pending s') <= lp_polls s + length (lp_pending s))%nat.
Proof.
  intros [Hn _ Hm _] Hu. specialize (Hm Hu). unfold chains. destruct ev as [id| | |]; simpl.
  - case_decide as Hin; [|done]. intros [= <-]. simpl.
    assert (length (filter (fun i => i ≠ id) (lp_pending s)) < length (lp_pending s))%nat as Hlt.
    { apply length_filter_lt with id; [done|]. intros ?. congruence. }
    split; [done|]. lia.
  - destruct (lp_inflight s) as [|n] eqn:E; [done|]. intros [= <-]. unfold schedule. simpl. rewrite Hm. simpl.
    split; [done|]. lia.
  - rewrite Hu. intros [= <-]. simpl. auto.
  - by rewrite Hu.
Qed.

Lemma unmounted_run s evs s' :
  loop_ok s -> lp_mounted s = false -> loop_run s evs = Some s' ->
  (chains s' <= chains s)%nat /\ (lp_polls s' <= lp_polls s + length (lp_pending s))%nat.
Proof.
  revert s. induction evs as [|ev evs IH]; intros s Hok Hu; simpl; [intros [= <-]; lia|].
  destruct (loop_step s ev) as [s1|] eqn:E; [|done]. simpl. intros Hr.
  destruct (unmounted_step s ev s1 Hok Hu E) as (Hu1 & Hc1 & Hp1).
  destruct (IH s1 (loop_step_ok _ _ _ Hok E) Hu1 Hr). lia.
Qed.

(** Without a change of visibility there is one chain. *)
Definition one_chain (s : PollLoop) : Prop := lp_stopped s = false /\ chains s = 1%nat.

Lemma one_chain_step s ev s' :
  ev ≠ Visibility -> ev ≠ Cleanup -> one_chain s -> loop_step s ev = Some s' -> one_chain s'.
Proof.
  unfold one_chain, chains. intros Hv Hc [Hs H1] E. destruct ev as [id| | |]; try done; simpl in E.
  - case_decide as Hin; [|done]. injection E as <-. simpl. split; [done|].
    destruct (lp_pending s) as [|x [|y l]] eqn:Ep; simpl in *; [by apply not_elem_of_nil in Hin| |lia].
    apply list_elem_of_singleton in Hin as ->. rewrite filter_cons, decide_False by auto. simpl. lia.
  - destruct (lp_inflight s) as [|n] eqn:Ei; [done|]. injection E as <-. unfold schedule. simpl. rewrite Hs. simpl.
    rewrite length_app. simpl. split; [done|lia].
Qed.

Lemma one_chain_run s evs s' :
  Forall (fun ev => ev ≠ Visibility /\ ev ≠ Cleanup) evs -> one_chain s -> loop_run s evs = Some s' ->
  one_chain s'.
Proof.
  revert s. induction evs as [|ev evs IH]; intros s Hf Hs; simpl; [by intros [= <-]|].
  destruct (loop_step s ev) as [s1|] eqn:E; [|done]. simpl. inversion Hf as [|? ? [Hv Hc] Hf']; subst.
  apply IH; [done|]. by eapply one_chain_step.
Qed.

(** The polling loop.  Whenever it is not stopped it is alive: a timer is set or a
    poll is under way that will set one.  While the tab stays visible there is exactly
    one such chain.  After the clean-up no chain is added, whatever happens, and at most
    the timers that were not cleared poll once more. *)
Theorem polling_loop hidden :
  (forall s, loop_reaches hidden s -> lp_stopped s = false -> (1 <= chains s)%nat) /\
  (forall evs s, Forall (fun ev => ev ≠ Visibility /\ ev ≠ Cleanup) evs ->
     loop_run (mount_loop hidden) evs = Some s -> chains s = 1%nat) /\
  (forall s evs s', loop_reaches hidden s -> lp_mounted s = false -> loop_run s evs = Some s' ->
     (chains s' <= chains s)%nat /\ (lp_polls s' <= lp_polls s + length (lp_pending s))%nat).
Proof.
  split_and!.
  - intros s Hs. by apply ok_alive, (loop_reaches_ok hidden).
  - intros evs s Hf Hr. by apply (one_chain_run _ _ _ Hf) in Hr as [_ ?].
  - intros s evs s' Hs. apply unmounted_run, (loop_reaches_ok hidden _ Hs).
Qed.

(** *** Chains multiply *)

Lemma filter_all {X} (P : X -> Prop) `{!forall x, Decision (P x)} l : Forall P l -> filter P l = l.
Proof. induction 1 as [|x l Hx _ IH]; [done|]. by rewrite filter_cons_True, IH. Qed.

Lemma length_without (t : nat) l :
  NoDup l -> t ∈ l -> S (length (filter (fun i => i ≠ t) l)) = length l.
Proof.
  induction 1 as [|x l Hx Hl IH]; [by intros ?%not_elem_of_nil|]. intros Hin.
  destruct (decide (x = t)) as [->|Hne].
  - rewrite filter_cons_False, filter_all; [done| |auto].
    apply Forall_forall. intros y Hy ->. done.
  - rewrite filter_cons_True by done. simpl. rewrite IH; [done|]. apply elem_of_cons in Hin as [->|?]; done.
Qed.

(** The tab is hidden and shown again while a poll is under way: the poll ends in a loop
    that is not stopped, beside the chain the listener has started. *)
Lemma chains_grow s t :
  loop_ok s -> lp_stopped s = false -> lp_hidden s = false -> lp_mounted s = true ->
  lp_timer s = Some t -> t ∈ lp_pending s ->
  exists s' t', loop_run s [Fire t; Visibility; Visibility; Polled] = Some s' /\
    chains s' = S (chains s) /\ lp_stopped s' = false /\ lp_hidden s' = false /\
    lp_mounted s' = true /\ lp_timer s' = Some t' /\ t' ∈ lp_pending s'.
Proof.
  intros [Hn _ _ _] Hs Hh Hm Ht Hin. pose proof (length_without t _ Hn Hin) as Hlen.
  destruct s as [stopped timer pending inflight mounted hidden next polls].
  simpl in Hn, Hs, Hh, Hm, Ht, Hin, Hlen; subst. cbn [loop_run].
  set (rest := filter (fun i => i ≠ t) pending) in *.
  set (s1 := mkLoop false (Some t) rest (S inflight) true false next (S polls)).
  assert (loop_step (mkLoop false (Some t) pending inflight true false next polls) (Fire t) = Some s1) as ->.
  { unfold loop_step. simpl. by rewrite decide_True. }
  unfold s1. clear s1. simpl.
  eexists _, _. split; [reflexivity|]. simpl. split_and!; [|done..|apply elem_of_app; right; by left].
  unfold chains. simpl. rewrite !length_app. simpl.
  unfold rest. rewrite list_filter_filter_r by congruence. fold rest. lia.
Qed.

Lemma loop_run_app s evs1 evs2 s1 :
  loop_run s evs1 = Some s1 -> loop_run s (evs1 ++ evs2) = loop_run s1 evs2.
Proof.
  revert s. induction evs1 as [|ev evs1 IH]; intros s; simpl; [by intros [= ->]|].
  destruct (loop_step s ev); [|done]. simpl. apply IH.
Qed.

Lemma loop_run_reaches hidden s evs s' :
  loop_reaches hidden s -> loop_run s evs = Some s' -> loop_reaches hidden s'.
Proof.
  revert s. induction evs as [|ev evs IH]; intros s Hs; simpl; [by intros [= <-]|].
  destruct (loop_step s ev) as [s1|] eqn:E; [|done]. simpl. apply IH. by eapply loop_steps.
Qed.

Lemma polling_chains_multiply n :
  exists evs s, loop_run (mount_loop false) evs = Some s /\ chains s = S n.
Proof.
  enough (exists evs s t, loop_run (mount_loop false) evs = Some s /\ chains s = S n /\
    lp_stopped s = false /\ lp_hidden s = false /\ lp_mounted s = true /\ lp_timer s = Some t /\
    t ∈ lp_pending s) as (evs & s & _ & ? & ? & _) by by exists evs, s.
  induction n as [|n (evs & s & t & Hr & Hc & Hs & Hh & Hm & Ht & Hin)].
  { exists [], (mount_loop false), 0%nat. split_and!; try done. by left. }
  assert (loop_ok s) as Hok.
  { eapply loop_reaches_ok, loop_run_reaches; [constructor|exact Hr]. }
  destruct (chains_grow s t Hok Hs Hh Hm Ht Hin) as (s' & t' & Hr' & Hc' & Hrest).
  exists (evs ++ [Fire t; Visibility; Visibility; Polled]), s', t'.
  rewrite (loop_run_app _ _ _ s Hr), Hc', Hc. split_and!; try done; apply Hrest.
Qed.

(** ** Account subscriptions *)

Section subscription.
Context {K : Type}.

(** The account of the last render, [visibleRef], [subId] of the running effect and whether
    its [visibilitychange] listener is registered, [wsConnected]; the listeners the
    connection knows; whether the tab is hidden and the component mounted. *)
Record Sub := mkSub {
  sb_account : option K;
  sb_visibleRef : bool;
  sb_subId : option nat;
  sb_listening : bool;
  sb_wsConnected : bool;
  sb_listeners : list (nat * K);
  sb_next : nat;
  sb_hidden : bool;
  sb_mounted : bool
}.

Inductive SubEvent :=
| Render (account : option K)
| TabChange
| Update (id : nat)
| Unmount.

(** [subscribe()]: [connection.onAccountChange] adds a listener. *)
Definition subscribe (s : Sub) : Sub :=
  match sb_account s with
  | None => mkSub (sb_account s) (sb_visibleRef s) None (sb_listening s) (sb_wsConnected s)
              (sb_listeners s) (sb_next s) (sb_hidden s) (sb_mounted s)
  | Some k => mkSub (sb_account s) (sb_visibleRef s) (Some (sb_next s)) (sb_listening s)
                (sb_wsConnected s) (sb_listeners s ++ [(sb_next s, k)]) (S (sb_next s))
                (sb_hidden s) (sb_mounted s)
  end.

(** [if (subId !== undefined) { removeAccountChangeListener(subId); subId = undefined }] *)
Definition unsubscribe (s : Sub) : Sub :=
  mkSub (sb_account s) (sb_visibleRef s) None (sb_listening s) (sb_wsConnected s)
    (match sb_subId s with
     | Some id => filter (fun l => fst l ≠ id) (sb_listeners s)
     | None => sb_listeners s
     end) (sb_next s) (sb_hidden s) (sb_mounted s).

Definition set_listening (b : bool) (s : Sub) : Sub :=
  mkSub (sb_account s) (sb_visibleRef s) (sb_subId s) b (sb_wsConnected s) (sb_listeners s)
    (sb_next s) (sb_hidden s) (sb_mounted s).

(** The effect, with a new [subId]. *)
Definition run_effect (s : Sub) : Sub :=
  match sb_account s with
  | None => mkSub None (sb_visibleRef s) None false false (sb_listeners s) (sb_next s)
              (sb_hidden s) (sb_mounted s)
  | Some _ =>
      let s := mkSub (sb_account s) (sb_visibleRef s) None (sb_listening s) (sb_wsConnected s)
                 (sb_listeners s) (sb_next s) (sb_hidden s) (sb_mounted s) in
      set_listening true (if sb_visibleRef s then subscribe s else s)
  end.

Definition cleanup_effect (s : Sub) : Sub :=
  if sb_listening s then set_listening false (unsubscribe s) else s.

Definition mount_sub (hidden : bool) (account : option K) : Sub :=
  run_effect (mkSub account (negb hidden) None false false [] 0 hidden true).

Definition tab_change (s : Sub) : Sub :=
  let s := mkSub (sb_account s) (sb_visibleRef s) (sb_subId s) (sb_listening s) (sb_wsConnected s)
             (sb_listeners s) (sb_next s) (negb (sb_hidden s)) (sb_mounted s) in
  if sb_listening s then
    let s := mkSub (sb_account s) (negb (sb_hidden s)) (sb_subId s) (sb_listening s)
               (sb_wsConnected s) (sb_listeners s) (sb_next s) (sb_hidden s) (sb_mounted s) in
    if sb_hidden s then unsubscribe s
    else match sb_subId s with None => subscribe s | Some _ => s end
  else s.

Definition sub_step (s : Sub) (ev : SubEvent) : option Sub :=
  match ev with
  | Render account =>
      if sb_mounted s then
        let s := cleanup_effect s in
        Some (run_effect (mkSub account (sb_visibleRef s) (sb_subId s) (sb_listening s)
                            (sb_wsConnected s) (sb_listeners s) (sb_next s) (sb_hidden s) true))
      else None
  | TabChange => Some (tab_change s)
  | Update id =>
      if decide (id ∈ (sb_listeners s).*1) then
        Some (mkSub (sb_account s) (sb_visibleRef s) (sb_subId s) (sb_listening s) true
                (sb_listeners s) (sb_next s) (sb_hidden s) (sb_mounted s))
      else None
  | Unmount =>
      if sb_mounted s then
        let s := cleanup_effect s in
        Some (mkSub (sb_account s) (sb_visibleRef s) (sb_subId s) (sb_listening s)
                (sb_wsConnected s) (sb_listeners s) (sb_next s) (sb_hidden s) false)
      else None
  end.

Inductive sub_reaches : Sub -> Prop :=
| sub_mounts hidden account : sub_reaches (mount_sub hidden account)
| sub_steps s ev s' : sub_reaches s -> sub_step s ev = Some s' -> sub_reaches s'.

(** The listener of the running effect, and no other: there is one when the effect saw
    the tab visible. *)
Record sub_ok (s : Sub) : Prop := {
  sub_listeners_ok : sb_listeners s =
    match sb_subId s, sb_account s with Some id, Some k => [(id, k)] | _, _ => [] end;
  sub_listening_ok : sb_listening s = sb_mounted s && bool_decide (is_Some (sb_account s));
  sub_subId_ok : is_Some (sb_subId s) <-> sb_listening s = true /\ sb_visibleRef s = true
}.

Lemma cleanup_none s :
  sub_ok s -> sb_listeners (cleanup_effect s) = [] /\ sb_subId (cleanup_effect s) = None /\
    sb_listening (cleanup_effect s) = false.
Proof.
  intros [Hl Hi Hs]. unfold cleanup_effect. destruct (sb_listening s) eqn:E.
  - simpl. split; [|done]. rewrite Hl. destruct (sb_subId s) as [id|]; [|done].
    destruct (sb_account s); [|done]. by rewrite filter_cons_False by auto.
  - destruct (sb_subId s) as [id|] eqn:Ei; [by destruct (proj1 Hs (mk_is_Some _ _ eq_refl))|].
    rewrite Hl. done.
Qed.

Lemma run_effect_ok s :
  sb_mounted s = true -> sb_listeners s = [] -> sb_subId s = None -> sb_listening s = false ->
  sub_ok (run_effect s).
Proof.
  intros Hm Hl Hi Hs. unfold run_effect. destruct (sb_account s) as [k|] eqn:Ea.
  - unfold subscribe. simpl. destruct (sb_visibleRef s) eqn:Ev; split; simpl; rewrite ?Hl, ?Hi, ?Ea, ?Hm, ?Ev;
      try done; try (split; [done|]); try (by intros [? [=]]); try by intros [_ [=]].
  - split; simpl; [by rewrite Hl|by rewrite Hm|]. split; [by intros []|by intros []].
Qed.

Lemma sub_step_ok s ev s' : sub_ok s -> sub_step s ev = Some s' -> sub_ok s'.
Proof.
  intros Hok. pose proof (cleanup_none s Hok) as (Hcl & Hci & Hcs). destruct Hok as [Hl Hi Hs].
  destruct ev as [account| |id|]; simpl.
  - destruct (sb_mounted s); [|done]. intros [= <-]. by apply run_effect_ok.
  - intros [= <-]. unfold tab_change. simpl. destruct (sb_listening s) eqn:El; [|by split; simpl; rewrite ?El].
    symmetry in Hi. apply andb_true_iff in Hi as [Hm Ha%bool_decide_eq_true]. destruct Ha as [k Ha].
    destruct (sb_hidden s); simpl; [|split; simpl; rewrite ?Hl, ?El, ?Hm, ?Ha; simpl].
    + unfold subscribe. simpl. rewrite Ha. destruct (sb_subId s) as [id|] eqn:Ei;
        split; simpl; rewrite ?Hl, ?El, ?Hm, ?Ha, ?Ei; try done; split; done.
    + destruct (sb_subId s) as [id|]; [|done]. by rewrite filter_cons_False by auto.
    + done.
    + split; [by intros []|by intros [_ ?]].
  - case_decide; [|done]. intros [= <-]. by split.
  - destruct (sb_mounted s); [|done]. intros [= <-]. split; simpl; [by rewrite Hcl, Hci|by rewrite Hcs|].
    rewrite Hci, Hcs. split; [by intros []|by intros []].
Qed.

Lemma sub_reaches_ok s : sub_reaches s -> sub_ok s.
Proof.
  induction 1 as [hidden account|s ev s' _ IH Hs]; [by apply run_effect_ok|by eapply sub_step_ok].
Qed.

(** C35: Subscriptions do not leak.  In every reachable state the connection has at most
    one listener of the component, for the account of its last render; none when there is
    no account or the component is gone.  If [visibleRef] agrees with the tab, the account
    is listened to exactly while the component is mounted and the tab visible, and it
    agrees ever after while there is an account. *)
Theorem subscription_exact s :
  sub_reaches s ->
  (length (sb_listeners s) <= 1)%nat /\
  (forall id k, (id, k) ∈ sb_listeners s -> sb_mounted s = true /\ sb_account s = Some k) /\
  (sb_visibleRef s = negb (sb_hidden s) ->
     (sb_listeners s ≠ [] <-> sb_mounted s = true /\ is_Some (sb_account s) /\ sb_hidden s = false) /\
     (sb_mounted s = true -> is_Some (sb_account s) -> forall ev s', sub_step s ev = Some s' ->
        sb_visibleRef s' = negb (sb_hidden s'))).
Proof.
  intros Hr. apply sub_reaches_ok in Hr as [Hl Hi Hs]. split_and!.
  - rewrite Hl. repeat case_match; simpl; lia.
  - intros id k. rewrite Hl. destruct (sb_subId s) as [id'|] eqn:Ei, (sb_account s) as [k'|];
      try by intros ?%not_elem_of_nil. intros [= -> ->]%list_elem_of_singleton.
    destruct (proj1 Hs (mk_is_Some _ _ eq_refl)) as [El _]. rewrite El in Hi. by destruct (sb_mounted s).
  - intros Hv. split.
    + rewrite Hl. destruct (sb_subId s) as [id|] eqn:Ei.
      * destruct (proj1 Hs (mk_is_Some _ _ eq_refl)) as [El Ev]. rewrite El in Hi. rewrite Ev in Hv.
        destruct (sb_mounted s), (sb_account s) as [k|]; try done. destruct (sb_hidden s); done.
      * split; [done|]. intros (Hm & [k Ha] & Hh). rewrite Hm, Ha in Hi. rewrite Hh in Hv.
        destruct (proj2 Hs (conj Hi Hv)). done.
    + intros Hm [k Ha] ev s' E. rewrite Hm, Ha in Hi. simpl in Hi.
      destruct ev as [account| |id|]; simpl in E; rewrite ?Hm in E.
      * injection E as <-. unfold run_effect, cleanup_effect. simpl. rewrite Hi.
        destruct account; simpl; [|done]. by destruct (sb_visibleRef s).
      * injection E as <-. unfold tab_change. simpl. rewrite Hi. simpl.
        destruct (sb_hidden s); simpl; [|done]. unfold subscribe. simpl. rewrite Ha. by destruct (sb_subId s).
      * case_decide; [|done]. by injection E as <-.
      * injection E as <-. unfold cleanup_effect. by destruct (sb_listening s).
Qed.
End subscription.

(** *** A subscription that is missing

    [visibleRef] follows the tab only while there is an account: when the tab was opened
    in the background and is shown before the account is known, the subscription is not
    made until the tab is hidden and shown again. *)
Definition sub_run {K} (s : Sub (K:=K)) (evs : list SubEvent) : option Sub :=
  foldl (fun o ev => s ← o; sub_step s ev) (Some s) evs.

Lemma subscription_missed {K} (k : K) :
  exists s, sub_run (mount_sub true None) [TabChange; Render (Some k)] = Some s /\
    sb_mounted s = true /\ sb_account s = Some k /\ sb_hidden s = false /\ sb_listeners s = [].
Proof. by eexists. Qed.

Example subscription_exact_witness :
  let s := mount_sub false (Some 7%nat) in
  sb_listeners s = [(0%nat, 7%nat)] /\ (length (sb_listeners s) <= 1)%nat.
Proof. split; [reflexivity|]. exact (proj1 (subscription_exact _ (sub_mounts false (Some 7%nat)))). Defined.
