(* ===== verification/JackpotState.v ===== *)
(** * JackpotState: the state of src/hooks/useJackpot.ts

    The hook's React state ([View]), its refs and the counter [sentChunkCount] of the
    deposit under way ([Refs]), the entry of local storage that
    keeps unclaimed prizes, and the caches of the metadata module.  A setter is a change
    of the record; [depositTokensCacheRef] points into [r_heap], because the code keeps
    references to the object it held before.  Then the small helpers of the file and the
    storage of unclaimed prizes. *)

From stdpp Require Import base list gmap strings pretty.
From Stdlib Require Import ZArith Lia Ascii Strings.Byte SpecFloat.
From S2P Require Import Prelude Buffers Accounts JsRuntime Effects Solana Instructions Firebase DegenExecutor Browser TokenMetadata History.

Local Open Scope string_scope.
Local Open Scope list_scope.
Local Open Scope Z_scope.
Set Warnings "-clear-no-such-hyp".

(** ** Data *)

Module Phase.
Inductive GamePhase := waiting | open | countdown | spinning | settled | claimed | cancelled.
End Phase.
Abbreviation GamePhase := Phase.GamePhase.

#[export] Instance GamePhase_eq_dec : EqDecision GamePhase.
Proof. solve_decision. Defined.

Record TokenTag := mkTag { tg_symbol : string; tg_icon : string }.
Record DisplayToken := mkDisplay { ds_symbol : string; ds_amount : num; ds_icon : string }.

Record Participant := mkParticipant {
  pt_address : string;
  pt_displayName : string;
  pt_color : string;
  pt_usdcAmount : num;
  pt_tickets : num;
  pt_tokens : list DisplayToken
}.

Record UnclaimedPrize := mkPrize {
  up_roundId : Z;
  up_winnerAddress : string;
  up_payout : num;
  up_totalUsdc : num;
  up_timestamp : Z
}.

(** An element of [pendingSettledRef]. *)
Record PendingSettled := mkPending { pe_roundId : Z; pe_winner : string; pe_totalUsdc : num }.

(** The object [depositTokensCacheRef.current] points to. *)
Record DepositCache := mkDepositCache {
  dc_roundId : Z;
  dc_map : gmap string (list TokenTag);
  dc_processedSigs : list string;
  dc_resolving : bool;
  dc_lastResolveTs : Z
}.

Definition fresh_cache (roundId : Z) : DepositCache := mkDepositCache roundId ∅ [] false 0.

Section state.
Context `{Web3Keys}.

Record View := mkView {
  v_roundId : Z;
  v_roundData : option Front.RoundData;
  v_participants : list Participant;
  v_phase : GamePhase;
  v_timeLeft : Z;
  v_myUsdcBalance : num;
  v_loading : bool;
  v_error : option string;
  v_autoStatus : option string;
  v_unclaimedPrizes : list Json;
  v_initialized : bool
}.

Record Refs := mkRefs {
  r_pendingSettled : list PendingSettled;
  r_heap : list DepositCache;
  r_cacheRef : nat;
  r_lastWs : Z;
  r_pauseAutoAdvance : bool;
  r_sentChunkCount : Z
}.

(** [None]: no entry, or an empty one; else what [JSON.parse] makes of it. *)
Record Jackpot := mkJackpot {
  view : View;
  refs : Refs;
  storage : option (Res Json);
  metadata : MetaCaches
}.

Definition v_set_roundId (x : Z) (v : View) : View :=
  mkView x (v_roundData v) (v_participants v) (v_phase v) (v_timeLeft v) (v_myUsdcBalance v)
    (v_loading v) (v_error v) (v_autoStatus v) (v_unclaimedPrizes v) (v_initialized v).
Definition v_set_roundData (x : option Front.RoundData) (v : View) : View :=
  mkView (v_roundId v) x (v_participants v) (v_phase v) (v_timeLeft v) (v_myUsdcBalance v)
    (v_loading v) (v_error v) (v_autoStatus v) (v_unclaimedPrizes v) (v_initialized v).
Definition v_set_participants (x : list Participant) (v : View) : View :=
  mkView (v_roundId v) (v_roundData v) x (v_phase v) (v_timeLeft v) (v_myUsdcBalance v)
    (v_loading v) (v_error v) (v_autoStatus v) (v_unclaimedPrizes v) (v_initialized v).
Definition v_set_phase (x : GamePhase) (v : View) : View :=
  mkView (v_roundId v) (v_roundData v) (v_participants v) x (v_timeLeft v) (v_myUsdcBalance v)
    (v_loading v) (v_error v) (v_autoStatus v) (v_unclaimedPrizes v) (v_initialized v).
Definition v_set_timeLeft (x : Z) (v : View) : View :=
  mkView (v_roundId v) (v_roundData v) (v_participants v) (v_phase v) x (v_myUsdcBalance v)
    (v_loading v) (v_error v) (v_autoStatus v) (v_unclaimedPrizes v) (v_initialized v).
Definition v_set_myUsdcBalance (x : num) (v : View) : View :=
  mkView (v_roundId v) (v_roundData v) (v_participants v) (v_phase v) (v_timeLeft v) x
    (v_loading v) (v_error v) (v_autoStatus v) (v_unclaimedPrizes v) (v_initialized v).
Definition v_set_loading (x : bool) (v : View) : View :=
  mkView (v_roundId v) (v_roundData v) (v_participants v) (v_phase v) (v_timeLeft v)
    (v_myUsdcBalance v) x (v_error v) (v_autoStatus v) (v_unclaimedPrizes v) (v_initialized v).
Definition v_set_error (x : option string) (v : View) : View :=
  mkView (v_roundId v) (v_roundData v) (v_participants v) (v_phase v) (v_timeLeft v)
    (v_myUsdcBalance v) (v_loading v) x (v_autoStatus v) (v_unclaimedPrizes v)
    (v_initialized v).
Definition v_set_autoStatus (x : option string) (v : View) : View :=
  mkView (v_roundId v) (v_roundData v) (v_participants v) (v_phase v) (v_timeLeft v)
    (v_myUsdcBalance v) (v_loading v) (v_error v) x (v_unclaimedPrizes v) (v_initialized v).
Definition v_set_unclaimedPrizes (x : list Json) (v : View) : View :=
  mkView (v_roundId v) (v_roundData v) (v_participants v) (v_phase v) (v_timeLeft v)
    (v_myUsdcBalance v) (v_loading v) (v_error v) (v_autoStatus v) x (v_initialized v).
Definition v_set_initialized (x : bool) (v : View) : View :=
  mkView (v_roundId v) (v_roundData v) (v_participants v) (v_phase v) (v_timeLeft v)
    (v_myUsdcBalance v) (v_loading v) (v_error v) (v_autoStatus v) (v_unclaimedPrizes v) x.

Definition r_set_pendingSettled (x : list PendingSettled) (v : Refs) : Refs :=
  mkRefs x (r_heap v) (r_cacheRef v) (r_lastWs v) (r_pauseAutoAdvance v) (r_sentChunkCount v).
Definition r_set_heap (x : list DepositCache) (v : Refs) : Refs :=
  mkRefs (r_pendingSettled v) x (r_cacheRef v) (r_lastWs v) (r_pauseAutoAdvance v) (r_sentChunkCount v).
Definition r_set_cacheRef (x : nat) (v : Refs) : Refs :=
  mkRefs (r_pendingSettled v) (r_heap v) x (r_lastWs v) (r_pauseAutoAdvance v) (r_sentChunkCount v).
Definition r_set_lastWs (x : Z) (v : Refs) : Refs :=
  mkRefs (r_pendingSettled v) (r_heap v) (r_cacheRef v) x (r_pauseAutoAdvance v) (r_sentChunkCount v).
Definition r_set_pauseAutoAdvance (x : bool) (v : Refs) : Refs :=
  mkRefs (r_pendingSettled v) (r_heap v) (r_cacheRef v) (r_lastWs v) x (r_sentChunkCount v).
Definition r_set_sentChunkCount (x : Z) (v : Refs) : Refs :=
  mkRefs (r_pendingSettled v) (r_heap v) (r_cacheRef v) (r_lastWs v) (r_pauseAutoAdvance v) x.

Definition set_view (f : View -> View) (j : Jackpot) : Jackpot :=
  mkJackpot (f (view j)) (refs j) (storage j) (metadata j).
Definition set_refs (f : Refs -> Refs) (j : Jackpot) : Jackpot :=
  mkJackpot (view j) (f (refs j)) (storage j) (metadata j).
Definition set_storage (s : option (Res Json)) (j : Jackpot) : Jackpot :=
  mkJackpot (view j) (refs j) s (metadata j).

#[export] Instance jackpot_meta : HasMeta Jackpot := {|
  meta_of := metadata;
  with_meta := fun m j => mkJackpot (view j) (refs j) (storage j) m
|}.

(** The state of a mounted component. *)
Definition initial_view : View :=
  mkView 1 None [] Phase.waiting 0 (S754_zero false) false None None [] false.
Definition initial_refs : Refs := mkRefs [] [fresh_cache 0] 0 0 false 0.
End state.

(** ** Helpers of useJackpot.ts *)

Definition WSOL_MINT_STR : string := "So11111111111111111111111111111111111111112".
Definition USDC_DECIMALS : Z := 6.
Definition TICKET_UNIT : Z := 10000.
Definition MAX_MULTI_DEPOSIT_LEGS : nat := 3.
Definition VRF_REIMBURSEMENT_USDC_RAW : Z := 200000.
Definition WHEEL_RESULT_REVEAL_DELAY_MS : Z := 5500.

Definition PARTICIPANT_COLORS : list string :=
  ["#8b5cf6"; "#06b6d4"; "#f59e0b"; "#ef4444"; "#22c55e"; "#ec4899"; "#3b82f6"; "#f97316"].

(** The little-endian value of the first eight bytes, a missing one read as 0. *)
Definition decodeU64ToBigInt (b : bytes) : Z :=
  fold_left (fun out i => Z.lor out (Z.shiftl (default 0 (byte_at b i)) (8 * i))) (seqZ 0 8) 0.

Definition isTxTooLargeEncodingError (error : JsError) : bool :=
  let msg := err_message error in
  includes msg "encoding overruns Uint8Array" ||
  includes msg "Transaction too large" ||
  includes msg "VersionedTransaction too large".

(** [s.slice(0, 4)] and [s.slice(-4)]. *)
Definition slice_start (s : string) : string := String.substring 0 4 s.
Definition slice_end (s : string) : string :=
  String.substring (String.length s - 4) 4 s.
Definition short_address (s : string) : string := slice_start s +:+ "..." +:+ slice_end s.

(** src/lib/roundPhase.ts *)
Definition phaseFromStatus (status endTs nowSec : Z) : GamePhase :=
  if status =? RoundStatus.Cancelled then Phase.cancelled
  else if status =? RoundStatus.Claimed then Phase.claimed
  else if status =? RoundStatus.Settled then Phase.settled
  else if (status =? RoundStatus.VrfRequested) || (status =? RoundStatus.Locked) then Phase.spinning
  else if status =? RoundStatus.Open then
    let e := round53 endTs in
    if (0 <? e) && (e <=? nowSec) then Phase.countdown
    else if (0 <? e) && (e - nowSec <=? 6) then Phase.countdown
    else Phase.open
  else Phase.waiting.

(** [timeLeft] of a round that ends at [endTs]. *)
Definition time_left (endTs nowSec : Z) : Z :=
  let e := round53 endTs in if 0 <? e then Z.max 0 (e - nowSec) else 0.

Section payout.
Context `{Web3Keys}.

(** The numbers stay below [2^53] for every pot of the token; [feeBps] comes from the
    configuration. *)
Definition computeClaimPayoutRaw (round : Front.RoundData) (feeBps : Z) : Z :=
  let totalUsdcRaw := round53 (Front.totalUsdc round) in
  let vrfReimburseRaw :=
    if negb (bool_decide (Front.vrfPayer round = defaultKey)) &&
       bool_decide (Front.vrfReimbursed round = Some 0)
    then Z.min VRF_REIMBURSEMENT_USDC_RAW totalUsdcRaw else 0 in
  let potAfterReimburse := Z.max 0 (totalUsdcRaw - vrfReimburseRaw) in
  let feeRaw := default 0 (num_floor (num_over (num_times (num_of_Z potAfterReimburse) (num_of_Z feeBps))
                                        (num_of_Z 10000))) in
  Z.max 0 (potAfterReimburse - feeRaw).
End payout.

(** ** Unclaimed prizes in local storage *)

Definition prize_json (p : UnclaimedPrize) : Json :=
  JObj [("roundId", JNum (num_of_Z (up_roundId p)));
        ("winnerAddress", JStr (up_winnerAddress p));
        ("payout", JNum (up_payout p));
        ("totalUsdc", JNum (up_totalUsdc p));
        ("timestamp", JNum (num_of_Z (up_timestamp p)))].

(** [JSON.parse(JSON.stringify(j))]: numbers without a JSON form become [null], and -0
    becomes 0. *)
Fixpoint stored_form (j : Json) : Json :=
  match j with
  | JNum S754_nan | JNum (S754_infinity _) => JNull
  | JNum (S754_zero _) => JNum (S754_zero false)
  | JArr l => JArr (map stored_form l)
  | JObj fields => JObj (map (fun kv => (fst kv, stored_form (snd kv))) fields)
  | _ => j
  end.

(** [p.roundId === roundId] *)
Definition prize_is (roundId : Z) (p : Json) : bool :=
  match json_field p "roundId" with
  | Some (JNum n) => SFeqb n (num_of_Z roundId)
  | _ => false
  end.

(** [p.winnerAddress === addr] *)
Definition prize_for (addr : string) (p : Json) : bool :=
  match json_field p "winnerAddress" with
  | Some (JStr s) => String.eqb s addr
  | _ => false
  end.

(** Applies a test to the elements of a stored array; a property of [null] throws. *)
Definition checked (test : Json -> bool) (p : Json) : Res bool :=
  match p with
  | JNull => Throw (mkError "TypeError" "Cannot read properties of null")
  | _ => Ok (test p)
  end.

(** [l.findIndex(test)] and [l.filter(test)] over stored elements. *)
Fixpoint find_index (test : Json -> bool) (l : list Json) : Res (option nat) :=
  match l with
  | [] => Ok None
  | p :: l => b ← checked test p;
              if b : bool then Ok (Some 0%nat)
              else i ← find_index test l; Ok (option_map S i)
  end.

Fixpoint checked_filter (test : Json -> bool) (l : list Json) : Res (list Json) :=
  match l with
  | [] => Ok []
  | p :: l => b ← checked test p; rest ← checked_filter test l;
              Ok (if b : bool then p :: rest else rest)
  end.

Section prizes.
Context `{FrontServices}.
Local Abbreviation M := (M Jackpot FWorld FEvent).

(** [localStorage.getItem(UNCLAIMED_KEY)], [setItem(..., JSON.stringify(...))] and
    [removeItem]; the browser may refuse each. *)
Definition getItem : M (option (Res Json)) := _ ← f_storage; gets storage.
Definition setItem (l : list Json) : M unit :=
  _ ← f_storage; modify (set_storage (Some (Ok (stored_form (JArr l))))).
Definition removeItem : M unit := _ ← f_storage; modify (set_storage None).

Definition loadUnclaimedPrizes : M (list Json) :=
  or_else
    (raw ← getItem;
     match raw with
     | None => mret []
     | Some stored =>
         parsed ← lift stored;
         match parsed with
         | JArr l => mret l
         | JObj fields =>
             match json_field parsed "roundId" with
             | Some _ => setItem [parsed] ;; mret [parsed]
             | None => mret []
             end
         | _ => mret []
         end
     end) [].

(** The elements with [prize] put in the place of the one of its round, or at the end. *)
Definition upsert (prize : UnclaimedPrize) (existing : list Json) : Res (list Json) :=
  idx ← find_index (prize_is (up_roundId prize)) existing;
  Ok (match idx with
      | Some i => <[i := prize_json prize]> existing
      | None => existing ++ [prize_json prize]
      end).

Definition saveUnclaimedPrize (prize : UnclaimedPrize) : M unit :=
  or_else
    (existing ← loadUnclaimedPrizes;
     updated ← lift (upsert prize existing);
     setItem updated) tt.

Definition clearUnclaimedPrize (roundId : Z) : M unit :=
  or_else
    (loaded ← loadUnclaimedPrizes;
     existing ← lift (checked_filter (fun p => negb (prize_is roundId p)) loaded);
     if (length existing =? 0)%nat then removeItem else setItem existing) tt.

(** ** Setters *)

Definition setView (f : View -> View) : M unit := modify (set_view f).
Definition setRoundId (x : Z) : M unit := setView (v_set_roundId x).
Definition setRoundData (x : option Front.RoundData) : M unit := setView (v_set_roundData x).
Definition setParticipants (x : list Participant) : M unit := setView (v_set_participants x).
Definition setPhase (x : GamePhase) : M unit := setView (v_set_phase x).
Definition setTimeLeft (x : Z) : M unit := setView (v_set_timeLeft x).
Definition setMyUsdcBalance (x : num) : M unit := setView (v_set_myUsdcBalance x).
Definition setLoading (x : bool) : M unit := setView (v_set_loading x).
Definition setError (x : option string) : M unit := setView (v_set_error x).
Definition setAutoStatus (x : option string) : M unit := setView (v_set_autoStatus x).
Definition setInitialized (x : bool) : M unit := setView (v_set_initialized x).
Definition setUnclaimedPrizes (f : list Json -> list Json) : M unit :=
  setView (fun v => v_set_unclaimedPrizes (f (v_unclaimedPrizes v)) v).

(** [setUnclaimedPrizes(prev => prev.filter(p => p.roundId !== roundId))] *)
Definition dropUnclaimed (roundId : Z) : M unit :=
  setUnclaimedPrizes (filter (fun p => negb (prize_is roundId p) = true)).

(** [depositTokensCacheRef.current] and its replacement by a new object. *)
Definition currentCache : M nat := gets (fun j => r_cacheRef (refs j)).
Definition readCache (ref : nat) : M DepositCache :=
  gets (fun j => default (fresh_cache 0) (r_heap (refs j) !! ref)).
Definition updateCache (ref : nat) (f : DepositCache -> DepositCache) : M unit :=
  modify (set_refs (fun r => r_set_heap (alter f ref (r_heap r)) r)).
Definition newCache (roundId : Z) : M unit :=
  modify (set_refs (fun r =>
    r_set_cacheRef (length (r_heap r)) (r_set_heap (r_heap r ++ [fresh_cache roundId]) r))).
End prizes.
