(* ===== verification/JackpotPrizes.v ===== *)
(** * JackpotPrizes: the list of unclaimed prizes

    Prizes live in local storage and in the hook's state.  [prizes_ok] says that every
    entry is an object with a round number and that no two entries are of one round; the
    lemmas below say what saving, clearing and loading do to such a list. *)

From stdpp Require Import base list gmap strings pretty.
From Stdlib Require Import ZArith Lia Ascii Strings.Byte SpecFloat.
From S2P Require Import Prelude Buffers Accounts JsRuntime Effects Solana Instructions Firebase DegenExecutor Frames Browser TokenMetadata History NumFacts JackpotState.

Local Open Scope string_scope.
Local Open Scope list_scope.
Local Open Scope Z_scope.
Set Warnings "-clear-no-such-hyp".

(** The round of an entry. *)
Definition prize_round (p : Json) : option Z :=
  match json_field p "roundId" with Some (JNum n) => num_Z n | _ => None end.

Definition has_round (p : Json) : Prop := exists z, prize_round p = Some z /\ safe_id z.

Definition prizes_ok (l : list Json) : Prop := Forall has_round l /\ NoDup (prize_round <$> l).

(** ** Single entries *)

Lemma prize_is_round rid p : safe_id rid -> prize_is rid p = true <-> prize_round p = Some rid.
Proof.
  intros Hr. unfold prize_is, prize_round. destruct (json_field p "roundId") as [[]|]; try done.
  by apply num_eq_Z.
Qed.

Lemma prize_is_not rid p : safe_id rid -> prize_is rid p = false <-> prize_round p ≠ Some rid.
Proof. intros Hr. by rewrite <- not_true_iff_false, prize_is_round. Qed.

Lemma has_round_not_null p : has_round p -> p ≠ JNull.
Proof. by intros (z & ? & _) ->. Qed.

Lemma prize_round_json prize :
  safe_id (up_roundId prize) -> prize_round (prize_json prize) = Some (up_roundId prize).
Proof. intros. unfold prize_round. simpl. by apply num_Z_of_Z. Qed.

(** Storing an entry keeps its round. *)
Lemma stored_field p key :
  json_field (stored_form p) key = stored_form <$> json_field p key.
Proof.
  destruct p as [|b|n|s|l|fields]; try done; [by destruct n|]. unfold json_field. simpl.
  induction fields as [|[k v] fields IH]; [done|]. simpl. case_decide; simpl; [done|].
  destruct (list_find _ (map _ fields)) as [[? []]|], (list_find _ fields) as [[? []]|]; simpl in *; done.
Qed.

Lemma num_Z_finite n z : num_Z n = Some z -> isFinite n = true.
Proof. by destruct n. Qed.

Lemma stored_round_same p z : prize_round p = Some z -> prize_round (stored_form p) = Some z.
Proof.
  unfold prize_round. rewrite stored_field. destruct (json_field p "roundId") as [[| |n| | |]|]; try done.
  simpl. intros Hn. pose proof (num_Z_finite _ _ Hn). by destruct n.
Qed.

Lemma prizes_ok_stored l : prizes_ok l -> prizes_ok (map stored_form l).
Proof.
  intros [Hr Hn]. assert (prize_round <$> map stored_form l = prize_round <$> l) as E.
  { clear Hn. induction Hr as [|p l (z & Hz & _) _ IH]; [done|]. simpl. f_equal; [|done].
    rewrite Hz. by apply stored_round_same. }
  split; [|by rewrite E]. clear E Hn. induction Hr as [|p l (z & Hz & Hs) _ IH]; [done|].
  constructor; [|done]. exists z. split; [by apply stored_round_same|done].
Qed.

(** ** Lists *)

Lemma prizes_ok_nil : prizes_ok [].
Proof. split; constructor. Qed.

Lemma prizes_ok_sublist l1 l2 : l1 `sublist_of` l2 -> prizes_ok l2 -> prizes_ok l1.
Proof.
  intros Hs [Hr Hn]. split.
  - rewrite Forall_forall in Hr |- *. intros p Hp. apply Hr. by eapply elem_of_sublist.
  - eapply sublist_NoDup; [done|]. by apply fmap_sublist.
Qed.

Lemma prizes_ok_filter (Q : Json -> Prop) `{!forall p, Decision (Q p)} l :
  prizes_ok l -> prizes_ok (filter Q l).
Proof. apply prizes_ok_sublist, sublist_filter. Qed.

Lemma prizes_ok_snoc l p z :
  prizes_ok l -> prize_round p = Some z -> safe_id z -> Some z ∉ prize_round <$> l ->
  prizes_ok (l ++ [p]).
Proof.
  intros [Hr Hn] Hp Hz Hf. split.
  - apply Forall_app. split; [done|]. repeat constructor. by exists z.
  - rewrite fmap_app. apply NoDup_app. split_and!; [done| |apply NoDup_singleton].
    intros r Hin ->%list_elem_of_singleton. by rewrite Hp in Hin.
Qed.

Lemma existsb_prize_is rid l :
  safe_id rid -> existsb (prize_is rid) l = true <-> Some rid ∈ prize_round <$> l.
Proof.
  intros Hr. rewrite existsb_exists, list_elem_of_fmap. split.
  - intros (p & Hin & Hp%prize_is_round); [|done]. exists p. by rewrite list_elem_of_In.
  - intros (p & Hp & Hin). exists p. rewrite <- list_elem_of_In. split; [done|]. by apply prize_is_round.
Qed.

(** ** [upsert] and the filter *)

Lemma find_index_ok test l :
  Forall (fun p => p ≠ JNull) l ->
  find_index test l = Ok (fst <$> list_find (fun p => test p = true) l).
Proof.
  induction 1 as [|p l Hp _ IH]; [done|]. simpl. replace (checked test p) with (Ok (test p)) by by destruct p.
  simpl. destruct (test p) eqn:E; simpl; [done|]. rewrite IH. simpl.
  by destruct (list_find _ l) as [[]|].
Qed.

Lemma checked_filter_ok test l :
  Forall (fun p => p ≠ JNull) l -> checked_filter test l = Ok (filter (fun p => test p = true) l).
Proof.
  induction 1 as [|p l Hp _ IH]; [done|]. simpl. replace (checked test p) with (Ok (test p)) by by destruct p.
  simpl. rewrite IH. simpl. rewrite filter_cons. by destruct (test p).
Qed.

Lemma prizes_ok_not_null l : prizes_ok l -> Forall (fun p => p ≠ JNull) l.
Proof. intros [Hr _]. eapply Forall_impl; [done|]. apply has_round_not_null. Qed.

(** The other entries of a list. *)
Definition others (rid : Z) (l : list Json) : list Json :=
  filter (fun p => negb (prize_is rid p) = true) l.

Lemma others_app rid l1 l2 : others rid (l1 ++ l2) = others rid l1 ++ others rid l2.
Proof. apply filter_app. Qed.

Lemma others_middle rid l1 x l2 :
  others rid (l1 ++ x :: l2) = others rid l1 ++ others rid [x] ++ others rid l2.
Proof. by rewrite <- !others_app. Qed.

(** Saving puts the prize into the list, at the place its round had or at the end, and
    leaves the entries of other rounds as they were. *)
Lemma upsert_spec prize l :
  prizes_ok l -> safe_id (up_roundId prize) ->
  exists l', upsert prize l = Ok l' /\ prizes_ok l' /\ prize_json prize ∈ l' /\
    others (up_roundId prize) l' = others (up_roundId prize) l.
Proof.
  intros Hok Hs. pose proof (prize_round_json prize Hs) as Hr.
  unfold upsert. rewrite find_index_ok by by apply prizes_ok_not_null. cbn [mbind Res_bind].
  set (rid := up_roundId prize) in *.
  assert (others rid [prize_json prize] = []) as Ho.
  { unfold others. rewrite filter_cons, (proj2 (prize_is_round rid _ Hs) Hr). done. }
  eexists. split; [done|].
  destruct (list_find (fun p => prize_is rid p = true) l) as [[i p]|] eqn:Ef; simpl.
  - apply list_find_Some in Ef as (Hl & Hp & Hbefore).
    assert (prize_round p = Some rid) as Hpr by by apply prize_is_round.
    pose proof (lookup_lt_Some _ _ _ Hl) as Hlt.
    rewrite insert_take_drop by done. rewrite <- (take_drop_middle l i p Hl) in Hok.
    split_and!.
    + destruct Hok as [Hf Hn]. rewrite fmap_app, fmap_cons in Hn. split.
      * apply Forall_app in Hf as [Hf1 Hf2]. apply Forall_app. split; [done|].
        inversion Hf2; subst. constructor; [by exists rid|done].
      * rewrite fmap_app, fmap_cons, Hr, <- Hpr. done.
    + set_solver.
    + rewrite <- (take_drop_middle l i p Hl) at 3. rewrite !others_middle, Ho. do 2 f_equal.
      unfold others. rewrite filter_cons, Hp. done.
  - apply list_find_None in Ef. rewrite Forall_forall in Ef. split_and!.
    + eapply prizes_ok_snoc; [done..|]. intros (p & Hp & Hin)%list_elem_of_fmap.
      apply (Ef p); [done|]. by apply prize_is_round.
    + set_solver.
    + by rewrite others_app, Ho, app_nil_r.
Qed.

(** Clearing removes the entry of the round and nothing else. *)
Lemma clear_spec rid l :
  prizes_ok l -> safe_id rid ->
  exists l', checked_filter (fun p => negb (prize_is rid p)) l = Ok l' /\ l' = others rid l /\
    prizes_ok l' /\ Some rid ∉ prize_round <$> l'.
Proof.
  intros Hok Hs. rewrite checked_filter_ok by by apply prizes_ok_not_null.
  eexists. split_and!; [done|done|by apply prizes_ok_filter|].
  intros (p & Hp & [Ht _]%list_elem_of_filter)%list_elem_of_fmap.
  apply negb_true_iff, prize_is_not in Ht; done.
Qed.

(** ** Storage *)

(** What the entry of local storage may hold: an array of prizes, or the single object
    of an earlier version. *)
Definition storage_ok (s : option (Res Json)) : Prop :=
  match s with
  | None => True
  | Some (Ok (JArr l)) => prizes_ok l
  | Some (Ok (JObj fields)) => prizes_ok [JObj fields]
  | _ => False
  end.

(** The entries it holds. *)
Definition stored (s : option (Res Json)) : list Json :=
  match s with
  | Some (Ok (JArr l)) => l
  | Some (Ok (JObj fields)) => [JObj fields]
  | _ => []
  end.

Section storage.
Context `{FrontServices}.
Local Abbreviation M := (M Jackpot FWorld FEvent).

(** Two states that differ only in the storage. *)
Definition storage_only (s s' : Jackpot) : Prop :=
  view s' = view s /\ refs s' = refs s /\ metadata s' = metadata s.

Lemma getItem_spec p :
  wp getItem (fun r p' => local p' = local p /\ (r = Ok (storage (local p)) \/ exists e, r = Throw e)) p.
Proof.
  unfold getItem. repeat front_step. destruct r as [[]|e]; [|by eauto]. repeat front_step. by eauto.
Qed.

Lemma setItem_spec l p :
  wp (setItem l) (fun r p' =>
    (r = Ok tt /\ local p' = set_storage (Some (Ok (JArr (map stored_form l)))) (local p)) \/
    (exists e, r = Throw e) /\ local p' = local p) p.
Proof.
  unfold setItem. repeat front_step. destruct r as [[]|e]; [|by eauto]. repeat front_step. by left.
Qed.

Lemma removeItem_spec p :
  wp removeItem (fun r p' =>
    (r = Ok tt /\ local p' = set_storage None (local p)) \/ local p' = local p) p.
Proof.
  unfold removeItem. repeat front_step. destruct r as [[]|e]; [|by eauto]. repeat front_step. by left.
Qed.

(** Loading never throws; it gives the entries, or none when storage is refused. *)
Lemma load_spec p :
  storage_ok (storage (local p)) ->
  wp loadUnclaimedPrizes (fun r p' => exists l, r = Ok l /\ prizes_ok l /\
    (l = [] \/ l = stored (storage (local p))) /\
    storage_only (local p) (local p') /\ storage_ok (storage (local p'))) p.
Proof.
  intros Hok. unfold loadUnclaimedPrizes, or_else. apply wp_try, wp_bind.
  eapply wp_mono; [apply getItem_spec|]. intros r p' [Hl [-> | [e ->]]]; cycle 1.
  { apply wp_ret. exists []. rewrite Hl. unfold storage_only. split_and!; auto using prizes_ok_nil. }
  destruct (storage (local p)) as [[j|e]|] eqn:Es; [|done|]; cycle 1.
  { apply wp_ret. exists []. rewrite Hl, Es. unfold storage_only. split_and!; auto using prizes_ok_nil. }
  apply wp_bind, wp_lift. destruct j as [| | | |l|fields]; try done.
  { apply wp_ret. exists l. rewrite Hl, Es. unfold storage_only. split_and!; auto. }
  simpl in Hok. destruct (json_field (JObj fields) "roundId") as [v|] eqn:Ef; cycle 1.
  { destruct Hok as [(z & Hz & _)%Forall_inv _]. unfold prize_round in Hz. by rewrite Ef in Hz. }
  apply wp_bind. eapply wp_mono; [apply setItem_spec|].
  intros r p'' [[-> Hl']|[[e ->] Hl']]; apply wp_ret; rewrite Hl', Hl; simpl.
  - exists [JObj fields]. unfold storage_only. simpl. split_and!; auto.
    by apply (prizes_ok_stored [JObj fields]).
  - exists []. rewrite Es. unfold storage_only. split_and!; auto using prizes_ok_nil.
Qed.

(** Saving and clearing never throw and keep the storage well formed. *)
Lemma save_keeps prize p :
  safe_id (up_roundId prize) -> storage_ok (storage (local p)) ->
  wp (saveUnclaimedPrize prize) (fun r p' => r = Ok tt /\
    storage_only (local p) (local p') /\ storage_ok (storage (local p'))) p.
Proof.
  intros Hs Hok. unfold saveUnclaimedPrize, or_else. apply wp_try, wp_bind.
  eapply wp_mono; [by apply load_spec|]. intros r p' (l & -> & Hl & _ & Ho & Hok').
  destruct (upsert_spec prize l Hl Hs) as (l' & Hu & Hl' & _). apply wp_bind, wp_lift. rewrite Hu.
  eapply wp_mono; [apply setItem_spec|]. intros r p'' [[-> E]|[[e ->] E]].
  - rewrite E. split_and!; [done|done|]. by apply prizes_ok_stored.
  - apply wp_ret. by rewrite E.
Qed.

Lemma clear_keeps rid p :
  safe_id rid -> storage_ok (storage (local p)) ->
  wp (clearUnclaimedPrize rid) (fun r p' => r = Ok tt /\
    storage_only (local p) (local p') /\ storage_ok (storage (local p'))) p.
Proof.
  intros Hs Hok. unfold clearUnclaimedPrize, or_else. apply wp_try, wp_bind.
  eapply wp_mono; [by apply load_spec|]. intros r p' (l & -> & Hl & _ & Ho & Hok').
  destruct (clear_spec rid l Hl Hs) as (l' & Hc & _ & Hl' & _). apply wp_bind, wp_lift. rewrite Hc.
  destruct (length l' =? 0)%nat.
  - eapply wp_mono; [apply removeItem_spec|]. intros [[]|e] p'' [[? E]|E]; simplify_eq;
      try apply wp_ret; by rewrite E.
  - eapply wp_mono; [apply setItem_spec|]. intros r p'' [[-> E]|[[e ->] E]].
    + rewrite E. split_and!; [done|done|]. by apply prizes_ok_stored.
    + apply wp_ret. by rewrite E.
Qed.
End storage.
