(* ===== verification/JackpotPolling.v ===== *)
(** * JackpotPolling: how src/hooks/useJackpot.ts follows the chain

    The start-up scan, the polling of the round and of the balance, the callbacks of the
    subscriptions, the timers and the effects that keep the list of unclaimed prizes.
    Values a callback captured when it was created ([publicKey], [roundId], [phase], ...)
    are arguments.  Requests that the code starts without waiting for them run to their
    end here. *)

From stdpp Require Import base list gmap strings pretty.
From Stdlib Require Import ZArith Lia Ascii Strings.Byte SpecFloat.
From S2P Require Import Prelude Buffers Accounts JsRuntime Effects Solana Instructions Firebase DegenExecutor Browser TokenMetadata History JackpotState.

Local Open Scope string_scope.
Local Open Scope list_scope.
Local Open Scope Z_scope.
Set Warnings "-clear-no-such-hyp".

Definition POLL_FAST : Z := 3000.
Definition POLL_SLOW : Z := 10000.
Definition POLL_WS_FALLBACK : Z := 30000.
Definition WS_FRESH_THRESHOLD : Z := 15000.
Definition AUTO_ADVANCE_DELAY : Z := 2000.
Definition SETTLED_ADVANCE_DELAY : Z := 10000.
Definition RESOLVE_COOLDOWN_MS : Z := 30000.

(** What [new BN(x)] throws for a number it cannot hold. *)
Definition bn_error : JsError := mkError "Error" "Assertion failed".

(** ** Deposit tokens *)

(** [mintsByUser]: a [Map] of [Set]s in insertion order. *)
Abbreviation MintsByUser := (list (string * list string)).

Definition add_mint (m : MintsByUser) (user mint : string) : MintsByUser :=
  if bool_decide (user ∈ m.*1)
  then (fun e => if String.eqb (fst e) user then (fst e, set_add (snd e) mint) else e) <$> m
  else m ++ [(user, [mint])].

Definition find_balance (l : list TokenBalance) (mint owner : string) : option TokenBalance :=
  snd <$> list_find (fun p => tb_mint p = mint /\ tb_owner p = owner) l.

(** The signer of a parsed transaction: a signing key that is not from a lookup table. *)
Definition tx_signer (tx : ParsedTx) : option string :=
  (fun p : nat * ParsedKey => pk_key (snd p)) <$>
    list_find (fun key => pk_signer key = true /\ pk_source key ≠ "lookupTable") (px_keys tx).

(** The token went down between the two balances. *)
Definition sold (usdcMint signer : string) (post : list TokenBalance) (preB : TokenBalance) : bool :=
  String.eqb (tb_owner preB) signer && negb (String.eqb (tb_mint preB) usdcMint) &&
  SFltb (match find_balance post (tb_mint preB) signer with
         | Some b => tb_ui b | None => S754_zero false end) (tb_ui preB).

(** One transaction of a batch; every one is marked processed by the caller. *)
Definition process_tx (usdcMint : string) (participantAddresses : list string)
    (m : MintsByUser) (result : Res (option ParsedTx)) : MintsByUser :=
  match result with
  | Throw _ | Ok None => m
  | Ok (Some tx) =>
      if negb (px_meta tx) then m
      else match tx_signer tx with
           | None => m
           | Some signer =>
               if bool_decide (signer ∈ participantAddresses) then
                 fold_left (fun m preB => add_mint m signer (tb_mint preB))
                   (filter (fun preB => sold usdcMint signer (px_post tx) preB = true) (px_pre tx)) m
               else m
           end
  end.

(** [WSOL] shows as [SOL]; a token without metadata by its first four characters. *)
Definition tag_of (metaMap : gmap string TokenMetadataResult) (mint : string) : TokenTag :=
  let meta := metaMap !! mint in
  mkTag
    (if String.eqb mint WSOL_MINT_STR then "SOL"
     else text_or (tm_symbol <$> meta) (slice_start mint))
    (text_or (tm_image <$> meta) "").

Definition merge_tags (existing tokens : list TokenTag) : list TokenTag :=
  fold_left (fun merged t =>
               if bool_decide (tg_symbol t ∈ tg_symbol <$> merged) then merged else merged ++ [t])
    tokens existing.

Definition cache_set_map (m : gmap string (list TokenTag)) (c : DepositCache) : DepositCache :=
  mkDepositCache (dc_roundId c) m (dc_processedSigs c) (dc_resolving c) (dc_lastResolveTs c).
Definition cache_add_tags (addr : string) (tokens : list TokenTag) (c : DepositCache)
    : DepositCache :=
  cache_set_map (<[addr := merge_tags (default [] (dc_map c !! addr)) tokens]> (dc_map c)) c.
Definition cache_mark (sig : string) (c : DepositCache) : DepositCache :=
  mkDepositCache (dc_roundId c) (dc_map c) (set_add (dc_processedSigs c) sig) (dc_resolving c)
    (dc_lastResolveTs c).
Definition cache_resolving (b : bool) (c : DepositCache) : DepositCache :=
  mkDepositCache (dc_roundId c) (dc_map c) (dc_processedSigs c) b (dc_lastResolveTs c).
Definition cache_resolved_at (ts : Z) (c : DepositCache) : DepositCache :=
  mkDepositCache (dc_roundId c) (dc_map c) (dc_processedSigs c) (dc_resolving c) ts.

(** [l.slice(0, n)], [l.slice(n, 2n)], ... *)
Fixpoint chunks {X} (fuel n : nat) (l : list X) : list (list X) :=
  match fuel, l with
  | S fuel, _ :: _ => take n l :: chunks fuel n (drop n l)
  | _, _ => []
  end.

Section polling.
Context `{FrontServices} (A : Addresses).
Context (db : bool) (TOKEN_METADATA_PROGRAM_ID : PublicKey) (API_KEY : string).
Local Abbreviation M := (M Jackpot FWorld FEvent).

Definition USDC_STR : string := toBase58 (USDC_MINT A).

(** src/lib/program.ts *)
Definition fetchRound (roundId : Z) : M (option Front.RoundData) :=
  pda ← lift (getRoundPda A roundId);
  info ← f_account pda;
  match info with
  | None => mret None
  | Some acc => rd ← lift (Front.parseRound (ai_data acc)); mret (Some rd)
  end.

Definition fetchConfig : M ParsedConfigLike := f_config (getConfigPda A).

Definition fetchDegenClaim (roundId : Z) (winner : PublicKey) : M (option DegenClaimData) :=
  pda ← lift (getDegenClaimPda A roundId winner);
  or_else (raw ← f_degenClaim pda; mret (Some raw)) None.

(** One group of at most three transactions. *)
Definition resolve_batch (ref : nat) (participantAddresses : list string) (m : MintsByUser)
    (batch : list SignatureInfo) : M MintsByUser :=
  txResults ← all_settled ((fun s => f_parsedTx (sg_signature s)) <$> batch);
  for_acc (zip batch txResults) (fun m entry =>
    updateCache ref (cache_mark (sg_signature (fst entry))) ;;
    mret (process_tx USDC_STR participantAddresses m (snd entry))) m.

(** The body of the [try]. *)
Definition resolve_body (ref : nat) (roundPda : PublicKey) (participantAddresses : list string)
    : M unit :=
  sigs ← f_signatures roundPda;
  cache ← readCache ref;
  let newSigs := filter (fun s => (sg_signature s ∉ dc_processedSigs cache) /\ sg_err s = false) sigs in
  if (length newSigs =? 0)%nat then mret tt
  else
    mintsByUser ← for_acc (chunks (length newSigs) 3 newSigs)
                    (resolve_batch ref participantAddresses) [];
    let allMints := set_of_list (mintsByUser ≫= snd) in
    if (length allMints =? 0)%nat then mret tt
    else
      ks ← lift (res_mapM keyOfString allMints);
      metaMap ← fetchTokenMetadataBatch TOKEN_METADATA_PROGRAM_ID API_KEY ks;
      for_each mintsByUser (fun e => updateCache ref (cache_add_tags (fst e) (tag_of metaMap <$> snd e))).

Definition resolveDepositTokens (roundPda : PublicKey) (participantAddresses : list string)
    : M unit :=
  ref ← currentCache;
  cache ← readCache ref;
  if dc_resolving cache then mret tt
  else
    now ← f_now;
    if now - dc_lastResolveTs cache <? RESOLVE_COOLDOWN_MS then mret tt
    else if (length (filter (fun a => dc_map cache !! a = None) participantAddresses) =? 0)%nat
    then mret tt
    else
      updateCache ref (cache_resolving true) ;;
      ts ← f_now;
      updateCache ref (cache_resolved_at ts) ;;
      or_else (resolve_body ref roundPda participantAddresses) tt ;;
      updateCache ref (cache_resolving false).

(** ** The round *)

(** The share of a participant whose account cannot be read. *)
Definition equal_share (data : Front.RoundData) : num * num :=
  let usdcAmt := num_over (usdc_of_raw (Front.totalUsdc data))
                   (num_of_Z (Front.participantsCount data)) in
  (usdcAmt, num_of_Z (default 0 (num_floor
     (num_over (num_times usdcAmt (num_of_Z 1000000)) (num_of_Z TICKET_UNIT))))).

Definition participant_amounts (data : Front.RoundData) (info : option AccountInfo) : num * num :=
  match info with
  | None => equal_share data
  | Some acc =>
      match Front.parseParticipant (ai_data acc) with
      | Ok p => (usdc_of_raw (Crank.p_usdcTotal p), num_of_Z (Crank.p_ticketsTotal p))
      | Throw _ => equal_share data
      end
  end.

(** One iteration of the loop over the participants. *)
Definition participant_entry (publicKey : option PublicKey) (data : Front.RoundData)
    (infos : list (option AccountInfo)) (usdcIcon : string) (parts : list Participant) (i : nat)
    : M (list Participant) :=
  match Front.participants data !! i with
  | None => throw type_error
  | Some addr =>
      let addrStr := toBase58 addr in
      let '(usdcAmt, tickets) := participant_amounts data (default None (infos !! i)) in
      ref ← currentCache;
      cache ← readCache ref;
      let displayTokens :=
        match default [] (dc_map cache !! addrStr) with
        | [] => [mkDisplay "USDC" usdcAmt usdcIcon]
        | tags => (fun t => mkDisplay (tg_symbol t) usdcAmt (tg_icon t)) <$> tags
        end in
      mret (parts ++
        [mkParticipant addrStr
           (if bool_decide (publicKey = Some addr) then "You" else short_address addrStr)
           (default "" (PARTICIPANT_COLORS !! (i mod 8)%nat)) usdcAmt tickets displayTokens])
  end.

Definition usdc_icon : M string :=
  or_else
    (meta ← fetchTokenMetadata TOKEN_METADATA_PROGRAM_ID API_KEY (USDC_MINT A);
     mret (text_or (tm_image <$> meta) "")) "".

Definition processRoundData (publicKey : option PublicKey) (roundId : Z) (data : Front.RoundData)
    : M unit :=
  if negb (round53 (Front.roundId data) =? roundId) then mret tt
  else
    setRoundData (Some data) ;;
    ms ← f_now;
    let now := ms / 1000 in
    setPhase (phaseFromStatus (Front.status data) (Front.endTs data) now) ;;
    setTimeLeft (time_left (Front.endTs data) now) ;;
    roundPda ← lift (getRoundPda A roundId);
    let count := Z.to_nat (Front.participantsCount data) in
    ref ← currentCache;
    cache ← readCache ref;
    (if negb (dc_roundId cache =? roundId) then newCache roundId else mret tt) ;;
    usdcIcon ← usdc_icon;
    if (0 <? count)%nat then
      let pdas := getParticipantPda A roundPda <$> take count (Front.participants data) in
      infos ← f_accounts pdas;
      parts ← for_acc (seq 0 count) (participant_entry publicKey data infos usdcIcon) [];
      setParticipants parts ;;
      resolveDepositTokens roundPda (pt_address <$> parts)
    else setParticipants [].

Definition pollRound (publicKey : option PublicKey) (roundId : Z) : M unit :=
  or_else
    (data ← fetchRound roundId;
     match data with
     | None => setRoundData None ;; setPhase Phase.waiting ;; setParticipants []
     | Some data => processRoundData publicKey roundId data
     end) tt.

Definition pollBalance (publicKey : option PublicKey) : M unit :=
  match publicKey with
  | None => setMyUsdcBalance (S754_zero false)
  | Some user =>
      try_catch
        (ata ← lift (getAssociatedTokenAddress (USDC_MINT A) user false);
         resp ← or_else (b ← f_balance ata; mret (Some b)) None;
         setMyUsdcBalance (match resp with
           | Some b => num_over (Number (ta_amount b)) (num_of_Z 1000000)
           | None => S754_zero false
           end))
        (fun _ => setMyUsdcBalance (S754_zero false))
  end.

(** ** Subscriptions and timers *)

Definition handleRoundWs (publicKey : option PublicKey) (roundId : Z) (data : bytes) : M unit :=
  now ← f_now;
  modify (set_refs (r_set_lastWs now)) ;;
  match Front.parseRound data with
  | Ok rd => or_else (processRoundData publicKey roundId rd) tt
  | Throw _ => mret tt
  end.

Definition handleBalanceWs (data : bytes) : M unit :=
  match tokenAccountDecode data with
  | Ok (_, amount) => setMyUsdcBalance (usdc_of_raw amount)
  | Throw _ => mret tt
  end.

(** The delay until the next poll. *)
Definition poll_interval (wsConnected : bool) : M Z :=
  p ← gets (fun j => v_phase (view j));
  let fast := bool_decide (p = Phase.open \/ p = Phase.countdown \/ p = Phase.spinning) in
  now ← f_now;
  last ← gets (fun j => r_lastWs (refs j));
  let wsFresh := wsConnected && (now - last <? WS_FRESH_THRESHOLD) in
  mret (if wsFresh then POLL_WS_FALLBACK else if fast then POLL_FAST else POLL_SLOW).

(** A tick of the countdown, with the phase and the round it captured. *)
Definition countdown_tick (phase : GamePhase) (roundData : option Front.RoundData) : M unit :=
  if bool_decide (phase = Phase.open \/ phase = Phase.countdown) then
    match roundData with
    | None => mret tt
    | Some rd =>
        ms ← f_now;
        let timeLeft := time_left (Front.endTs rd) (ms / 1000) in
        setTimeLeft timeLeft ;;
        if (timeLeft <=? 6) && (0 <? timeLeft) && bool_decide (phase = Phase.open)
        then setPhase Phase.countdown else mret tt
    end
  else mret tt.

Definition auto_status_effect (roundData : option Front.RoundData) : M unit :=
  match roundData with
  | None => mret tt
  | Some rd =>
      if (Front.status rd =? RoundStatus.Locked) || (Front.status rd =? RoundStatus.VrfRequested)
      then setAutoStatus (Some "Waiting for randomness...")
      else setAutoStatus None
  end.

(** The timer that moves on from a finished round. *)
Definition advance_delay (phase : GamePhase) : option Z :=
  match phase with
  | Phase.claimed | Phase.cancelled => Some AUTO_ADVANCE_DELAY
  | Phase.settled => Some SETTLED_ADVANCE_DELAY
  | _ => None
  end.

Definition nextRound : M unit :=
  setView (fun v => v_set_roundId (v_roundId v + 1) v) ;;
  setRoundData None ;;
  setParticipants [] ;;
  setPhase Phase.waiting ;;
  setTimeLeft 0.

Definition auto_advance : M unit :=
  paused ← gets (fun j => r_pauseAutoAdvance (refs j));
  if paused : bool then mret tt else nextRound.

Definition setPauseAutoAdvance (paused : bool) : M unit :=
  modify (set_refs (r_set_pauseAutoAdvance paused)).

(** ** The start-up scan *)

Record StartScan := mkStart {
  sc_activeRound : Z;
  sc_maxExisting : Z;
  sc_nullStreak : Z;
  sc_settled : list PendingSettled
}.

(** What a round found at [id] changes. *)
Definition start_found (st : StartScan) (id : Z) (data : Front.RoundData) : StartScan :=
  let status := Front.status data in
  let active := (status =? RoundStatus.Open) || (status =? RoundStatus.Locked) ||
                (status =? RoundStatus.VrfRequested) || (status =? RoundStatus.Settled) in
  mkStart (if active then id else sc_activeRound st) id 0
    (if (status =? RoundStatus.Settled) && negb (bool_decide (Front.winner data = defaultKey))
     then sc_settled st ++ [mkPending id (toBase58 (Front.winner data))
                              (usdc_of_raw (Front.totalUsdc data))]
     else sc_settled st).

Definition start_missing (st : StartScan) : StartScan :=
  mkStart (sc_activeRound st) (sc_maxExisting st) (sc_nullStreak st + 1) (sc_settled st).

Fixpoint start_loop (ids : list Z) (st : StartScan) : M StartScan :=
  match ids with
  | [] => mret st
  | id :: ids =>
      data ← fetchRound id;
      match data with
      | None =>
          let st := start_missing st in
          if (0 <? sc_maxExisting st) && (5 <=? sc_nullStreak st) then mret st
          else start_loop ids st
      | Some data => start_loop ids (start_found st id data)
      end
  end.

(** The first id to look at: two below the greatest archived one.  The keys of the archive
    are round ids; a positive number that is no integer is an error here. *)
Definition scan_start : M Z :=
  archivedMax ← or_else (getMaxArchivedRoundId db) (S754_zero false);
  if positive_num archivedMax then
    match num_Z archivedMax with
    | Some z => mret (Z.max 1 (z - 2))
    | None => throw bn_error
    end
  else mret 1.

Definition startup_scan : M unit :=
  or_else
    (scanStart ← scan_start;
     st ← start_loop (seqZ scanStart 51) (mkStart 0 0 0 []);
     (if (0 <? length (sc_settled st))%nat
      then modify (set_refs (r_set_pendingSettled (sc_settled st))) else mret tt) ;;
     setRoundId (if 0 <? sc_activeRound st then sc_activeRound st else sc_maxExisting st + 1)) tt ;;
  setInitialized true.

(** ** Unclaimed prizes *)

(** [total - total * 0.0025] *)
Definition FEE_RATE : num := num_over (num_of_Z 25) (num_of_Z 10000).
Definition after_fee (totalUsdc : num) : num := num_minus totalUsdc (num_times totalUsdc FEE_RATE).

(** A stored prize is kept while its round is settled, or cannot be read; an entry without
    a round number has no account to read. *)
Definition stored_round (p : Json) : Res Z :=
  match json_field p "roundId" with
  | Some (JNum n) => match num_Z n with Some z => Ok z | None => Throw bn_error end
  | _ => Throw bn_error
  end.

Definition validate_prize (result : list Json) (p : Json) : M (list Json) :=
  try_catch
    (rid ← lift (stored_round p);
     data ← fetchRound rid;
     match data with
     | Some d => if Front.status d =? RoundStatus.Settled then mret (result ++ [p])
                 else clearUnclaimedPrize rid ;; mret result
     | None => clearUnclaimedPrize rid ;; mret result
     end)
    (fun _ => mret (result ++ [p])).

Definition pending_prize (walletAddr : string) (result : list Json) (pending : PendingSettled)
    : M (list Json) :=
  if negb (String.eqb (pe_winner pending) walletAddr) then mret result
  else if existsb (prize_is (pe_roundId pending)) result then mret result
  else
    now ← f_now;
    let prize := mkPrize (pe_roundId pending) (pe_winner pending)
                   (after_fee (pe_totalUsdc pending)) (pe_totalUsdc pending) now in
    saveUnclaimedPrize prize ;;
    mret (result ++ [prize_json prize]).

(** The effect that fills the list when the wallet or [initialized] changes. *)
Definition load_prizes_effect (publicKey : option PublicKey) (initialized : bool) : M unit :=
  match publicKey, initialized with
  | Some user, true =>
      let walletAddr := toBase58 user in
      loaded ← loadUnclaimedPrizes;
      saved ← lift (checked_filter (prize_for walletAddr) loaded);
      result ← for_acc saved validate_prize [];
      pendings ← gets (fun j => r_pendingSettled (refs j));
      result ← for_acc pendings (pending_prize walletAddr) result;
      modify (set_refs (r_set_pendingSettled [])) ;;
      setUnclaimedPrizes (fun _ => result)
  | _, _ => setUnclaimedPrizes (fun _ => [])
  end.

(** The prize the effect saves once the wheel has stopped, if the user won. *)
Definition won_prize (phase : GamePhase) (roundData : option Front.RoundData)
    (publicKey : option PublicKey) (roundId : Z) : M (option UnclaimedPrize) :=
  match bool_decide (phase = Phase.settled), roundData, publicKey with
  | true, Some rd, Some user =>
      if negb (round53 (Front.roundId rd) =? roundId) then mret None
      else if bool_decide (Front.winner rd = defaultKey) then mret None
      else if negb (String.eqb (toBase58 (Front.winner rd)) (toBase58 user)) then mret None
      else
        now ← f_now;
        let totalUsdc := usdc_of_raw (Front.totalUsdc rd) in
        mret (Some (mkPrize roundId (toBase58 (Front.winner rd)) (after_fee totalUsdc) totalUsdc now))
  | _, _, _ => mret None
  end.

Definition reveal_prize (prize : UnclaimedPrize) : M unit :=
  saveUnclaimedPrize prize ;;
  setUnclaimedPrizes (fun prev =>
    if existsb (prize_is (up_roundId prize)) prev then prev else prev ++ [prize_json prize]).

Definition save_won_effect (phase : GamePhase) (roundData : option Front.RoundData)
    (publicKey : option PublicKey) (roundId : Z) : M unit :=
  prize ← won_prize phase roundData publicKey roundId;
  match prize with
  | Some prize => f_sleep WHEEL_RESULT_REVEAL_DELAY_MS ;; reveal_prize prize
  | None => mret tt
  end.

Definition claimed_effect (phase : GamePhase) (roundId : Z) (unclaimedPrizes : list Json) : M unit :=
  if bool_decide (phase = Phase.claimed) && existsb (prize_is roundId) unclaimedPrizes then
    clearUnclaimedPrize roundId ;; dropUnclaimed roundId
  else mret tt.

(** The rounds among [unclaimedPrizes] that are no longer settled. *)
Definition stale_rounds (toRemove : list Z) (p : Json) : M (list Z) :=
  or_else
    (rid ← lift (stored_round p);
     data ← fetchRound rid;
     mret (match data with
           | Some d => if Front.status d =? RoundStatus.Settled then toRemove else toRemove ++ [rid]
           | None => toRemove ++ [rid]
           end)) toRemove.

Definition revalidate (unclaimedPrizes : list Json) : M unit :=
  toRemove ← for_acc unclaimedPrizes stale_rounds [];
  if (length toRemove =? 0)%nat then mret tt
  else
    for_each toRemove clearUnclaimedPrize ;;
    setUnclaimedPrizes (filter (fun p => existsb (fun rid => prize_is rid p) toRemove = false)).

(** ** What the component sees *)

(** The accounts the two subscriptions listen to. *)
Definition round_account (initialized : bool) (roundId : Z) : Res (option PublicKey) :=
  if initialized then pda ← getRoundPda A roundId; Ok (Some pda) else Ok None.

Definition userAta (publicKey : option PublicKey) : option PublicKey :=
  (fun user => fst (findProgramAddressSync
     [toBuffer user; toBuffer TOKEN_PROGRAM_ID; toBuffer (USDC_MINT A)]
     ASSOCIATED_TOKEN_PROGRAM_ID)) <$> publicKey.

Definition winner (roundData : option Front.RoundData) (participants : list Participant)
    : option Participant :=
  match roundData with
  | None => None
  | Some rd =>
      if Front.status rd <? RoundStatus.Settled then None
      else if bool_decide (Front.winner rd = defaultKey) then None
      else
        let addr := toBase58 (Front.winner rd) in
        match list_find (fun p => pt_address p = addr) participants with
        | Some (_, p) => Some p
        | None => Some (mkParticipant addr (short_address addr)
                          (default "" (PARTICIPANT_COLORS !! 0%nat))
                          (usdc_of_raw (Front.totalUsdc rd)) (num_of_Z (Front.totalTickets rd)) [])
        end
  end.

(** The values of the returned object that are computed from the state. *)
Record JackpotState := mkState {
  js_totalUsdc : num;
  js_totalTickets : num;
  js_roundRandomnessHex : option string;
  js_winner : option Participant;
  js_isAdmin : bool;
  js_countdownStarted : bool
}.

Definition jackpot_state (ADMIN_PUBKEY : PublicKey) (publicKey : option PublicKey) (v : View)
    : JackpotState :=
  mkState
    (match v_roundData v with Some rd => usdc_of_raw (Front.totalUsdc rd) | None => S754_zero false end)
    (match v_roundData v with Some rd => num_of_Z (Front.totalTickets rd) | None => S754_zero false end)
    ((fun rd => hex (Front.randomness rd)) <$> v_roundData v)
    (winner (v_roundData v) (v_participants v))
    (bool_decide (publicKey = Some ADMIN_PUBKEY))
    (match v_roundData v with Some rd => 0 <? round53 (Front.endTs rd) | None => false end).
End polling.
