(* ===== verification/JackpotDeposit.v ===== *)
(** * JackpotDeposit: depositMany of src/hooks/useJackpot.ts

    A deposit of one to three tokens into the current round: validation, the search for
    an open round, the USDC that is deposited as it is with the transfers that bring it
    into one account, the swaps of the other tokens, and the transactions, split in
    halves as long as the wallet finds one too large. *)

From stdpp Require Import base list gmap strings pretty.
From Stdlib Require Import ZArith Lia Ascii Strings.Byte SpecFloat.
From S2P Require Import Prelude Buffers Accounts JsRuntime Effects Solana Instructions Firebase DegenExecutor Browser JupiterClient TokenMetadata History JackpotState JackpotPolling.

Local Open Scope string_scope.
Local Open Scope list_scope.
Local Open Scope Z_scope.
Set Warnings "-clear-no-such-hyp".

(** ** Data *)

Record DepositLegInput := mkLeg {
  leg_amount : num;
  leg_mint : option string;
  leg_quote : option Jup.JupiterQuote
}.

(** A leg with its mint filled in. *)
Record NormalizedLeg := mkNormalized {
  nl_amount : num;
  nl_mint : string;
  nl_quote : option Jup.JupiterQuote
}.

(** A token account of the user, with its amount. *)
Record UsdcSource `{Web3Keys} := mkSource { us_pubkey : PublicKey; us_raw : Z }.
Arguments mkSource {_}.

Record PreparedSwap := mkPrepared {
  ps_quote : Jup.JupiterQuote;
  ps_minOut : Z;
  ps_swapIxs : JupiterSwapInstructions
}.

(** [prefixInstructions] and [usdcBalanceBefore]. *)
Record DirectPart `{Web3Keys} := mkDirect {
  dp_prefix : list TransactionInstruction;
  dp_balanceBefore : Z
}.
Arguments mkDirect {_}.

(** ** Validation *)

Definition deposit_error (msg : string) : JsError := mkError "Error" msg.

Definition normalize_leg (usdc : string) (leg : DepositLegInput) : NormalizedLeg :=
  mkNormalized (leg_amount leg) (trim (text_or (leg_mint leg) usdc)) (leg_quote leg).

(** The loop over the legs, with [seenMints] and [wsolLegCount]. *)
Fixpoint check_legs (legs : list NormalizedLeg) (seenMints : list string) (wsolLegCount : Z)
    : Res Z :=
  match legs with
  | [] => Ok wsolLegCount
  | leg :: legs =>
      if negb (isFinite (nl_amount leg)) || negb (positive_num (nl_amount leg)) then
        Throw (deposit_error "Deposit amount must be greater than 0.")
      else if set_has seenMints (nl_mint leg) then
        Throw (deposit_error ("Duplicate token in batch: " +:+ nl_mint leg +:+
                              ". Merge amounts and retry."))
      else check_legs legs (set_add seenMints (nl_mint leg))
             (if String.eqb (nl_mint leg) WSOL_MINT_STR then wsolLegCount + 1 else wsolLegCount)
  end.

Definition validate_legs (usdc : string) (legs : list DepositLegInput) : Res (list NormalizedLeg) :=
  if (length legs =? 0)%nat then Throw (deposit_error "No deposit legs provided.")
  else
    let normalized := normalize_leg usdc <$> legs in
    if (MAX_MULTI_DEPOSIT_LEGS <? length normalized)%nat then
      Throw (deposit_error "Too many tokens in one deposit (max 3).")
    else
      wsolLegCount ← check_legs normalized [] 0;
      if 1 <? wsolLegCount then
        Throw (deposit_error "Only one SOL/WSOL leg is supported per batch deposit.")
      else Ok normalized.

(** ** Amounts *)

(** [new BN(Math.floor(x))] *)
Definition bn_floor `{SolanaLibs} (x : num) : Res Z :=
  match num_floor x with Some z => newBN z | None => Throw bn_error end.

(** [Math.floor(x).toString()], for values below [10^21]. *)
Definition floor_text (x : num) : string :=
  match num_floor x with Some z => pretty z | None => "Infinity" end.

(** The sum of the USDC legs in base units. *)
Fixpoint direct_usdc `{SolanaLibs} (legs : list NormalizedLeg) (directUsdcRaw : Z) : Res Z :=
  match legs with
  | [] => Ok directUsdcRaw
  | leg :: legs =>
      raw ← bn_floor (num_times (nl_amount leg) (num_of_Z (10 ^ USDC_DECIMALS)));
      if raw <=? 0 then Throw (deposit_error "USDC deposit amount is too small.")
      else direct_usdc legs (directUsdcRaw + raw)
  end.

Section sources.
Context `{Web3Keys}.

(** [sources.sort((x, y) => y.raw.cmp(x.raw))]: largest first, stable. *)
Fixpoint insert_source (s : UsdcSource) (l : list UsdcSource) : list UsdcSource :=
  match l with
  | [] => [s]
  | t :: l => if us_raw t <=? us_raw s then s :: t :: l else t :: insert_source s l
  end.
Definition sort_sources (l : list UsdcSource) : list UsdcSource := fold_right insert_source [] l.

(** The loop over the sources: who gives how much until nothing remains. *)
Fixpoint topup (sources : list UsdcSource) (remaining : Z) : list (PublicKey * Z) :=
  match sources with
  | [] => []
  | src :: sources =>
      if remaining <=? 0 then []
      else
        let move := if remaining <=? us_raw src then remaining else us_raw src in
        if move <=? 0 then topup sources remaining
        else (us_pubkey src, move) :: topup sources (remaining - move)
  end.

(** [ataRaw] (the last account at the address counts) and [sources]. *)
Definition split_sources (usdcAta : PublicKey) (accounts : list UsdcSource)
    : Z * list UsdcSource :=
  fold_left (fun acc a =>
    if bool_decide (us_pubkey a = usdcAta) then (us_raw a, snd acc)
    else if 0 <? us_raw a then (fst acc, snd acc ++ [a]) else acc) accounts (0, []).

Definition total (moves : list (PublicKey * Z)) : Z := fold_right Z.add 0 (snd <$> moves).

(** The transfers and the balance that [deposit_any] is told. *)
Definition plan_topup (usdcAta : PublicKey) (accounts : list UsdcSource) (directUsdcRaw : Z)
    : Res (list (PublicKey * Z) * Z) :=
  let '(ataRaw, sources) := split_sources usdcAta accounts in
  let moves := if ataRaw <? directUsdcRaw
               then topup (sort_sources sources) (directUsdcRaw - ataRaw) else [] in
  let ataAfterTopup := ataRaw + total moves in
  if ataAfterTopup <? directUsdcRaw then Throw (deposit_error "Insufficient USDC balance.")
  else Ok (moves, ataAfterTopup - directUsdcRaw).
End sources.

Section deposit.
Context `{FrontServices} (A : Addresses).
Context (db : bool) (TOKEN_METADATA_PROGRAM_ID COMPUTE_BUDGET_PROGRAM : PublicKey).
Context (API_KEY : string).
Local Abbreviation M := (M Jackpot FWorld FEvent).

(** ** Finding the round *)

Definition RETRY_DELAY_MS : Z := 2000.

(** [for (attempt = 0; attempt < n && !roundInfo; attempt++)] *)
Fixpoint wait_for_round (n : nat) (roundPda : PublicKey) : M bool :=
  match n with
  | O => mret false
  | S n =>
      f_sleep RETRY_DELAY_MS ;;
      info ← f_account roundPda;
      match info with Some _ => mret true | None => wait_for_round n roundPda end
  end.

(** The first open round among the candidates. *)
Fixpoint find_open (candidates : list Z) : M (option Z) :=
  match candidates with
  | [] => mret None
  | id :: candidates =>
      if id <? 1 then find_open candidates
      else
        data ← fetchRound A id;
        match data with
        | Some d => if Front.status d =? RoundStatus.Open then mret (Some id)
                    else find_open candidates
        | None => find_open candidates
        end
  end.

(** [effectiveRoundId] *)
Definition effective_round (roundId : Z) : M Z :=
  roundPda ← lift (getRoundPda A roundId);
  info ← f_account roundPda;
  match info with
  | Some _ => mret roundId
  | None =>
      setAutoStatus (Some "Waiting for round to be created...") ;;
      exists_now ← wait_for_round 6 roundPda;
      if exists_now : bool then mret roundId
      else
        setAutoStatus (Some "Searching for open round...") ;;
        found ← find_open [roundId - 1; roundId + 1; roundId - 2; roundId + 2; roundId + 3];
        match found with
        | Some foundId =>
            setRoundId foundId ;;
            foundPda ← lift (getRoundPda A foundId);
            _ ← f_account foundPda;
            mret foundId
        | None => throw (deposit_error "Round not created yet. Please wait a moment and try again.")
        end
  end.

Definition require_open (effectiveRoundId : Z) : M unit :=
  freshRound ← fetchRound A effectiveRoundId;
  match freshRound with
  | Some d => if Front.status d =? RoundStatus.Open then mret tt
              else throw (deposit_error "Round is no longer accepting deposits.")
  | None => throw (deposit_error "Round is no longer accepting deposits.")
  end.

(** ** Direct USDC *)

(** An account of the owner that holds USDC. *)
Definition usdc_account (entry : PublicKey * option bytes) : Res (option UsdcSource) :=
  match snd entry with
  | None => Ok None
  | Some data =>
      if blen data <? tokenAccountSpan then Ok None
      else
        '(mint, amount) ← tokenAccountDecode data;
        Ok (if bool_decide (mint = USDC_MINT A) then Some (mkSource (fst entry) amount) else None)
  end.

Definition direct_part (user usdcAta : PublicKey) (directUsdcRaw rawUsdcBalance : Z)
    : M DirectPart :=
  if 0 <? directUsdcRaw then
    let createAta :=
      createAssociatedTokenAccountIdempotent user usdcAta user (USDC_MINT A) TOKEN_PROGRAM_ID in
    v1 ← f_tokenAccounts user;
    accounts ← lift (res_mapM usdc_account v1);
    '(moves, usdcBalanceBefore) ←
      lift (plan_topup usdcAta (omap id accounts) directUsdcRaw);
    mret (mkDirect
      (createAta :: ((fun m => createTransfer (fst m) usdcAta user (snd m)) <$> moves))
      usdcBalanceBefore)
  else mret (mkDirect [] rawUsdcBalance).

(** ** Swaps *)

Definition token_decimals (user : PublicKey) (mint : string) : M Z :=
  if String.eqb mint WSOL_MINT_STR then mret 9
  else
    or_else
      (k ← lift (keyOfString mint);
       tokenAta ← lift (getAssociatedTokenAddress k user false);
       b ← f_balance tokenAta;
       mret (ta_decimals b)) 6.

(** The quote a leg brings along, checked, or a new one. *)
Definition leg_quote_for (user : PublicKey) (leg : NormalizedLeg) : M Jup.JupiterQuote :=
  match nl_quote leg with
  | Some quote =>
      if negb (String.eqb (Jup.inputMint quote) (nl_mint leg)) ||
         negb (String.eqb (Jup.outputMint quote) (USDC_STR A))
      then throw (deposit_error ("Prefetched quote mint mismatch for " +:+ nl_mint leg))
      else mret quote
  | None =>
      tokenDecimals ← token_decimals user (nl_mint leg);
      let rawTokenAmount := floor_text (num_times (nl_amount leg) (num_of_Z (10 ^ tokenDecimals))) in
      if String.eqb rawTokenAmount "0"
      then throw (deposit_error ("Deposit amount is too small for token " +:+ nl_mint leg +:+ "."))
      else getJupiterQuote API_KEY (nl_mint leg) (USDC_STR A) rawTokenAmount 100 "ExactIn"
  end.

Definition prepare_swap (user : PublicKey) (leg : NormalizedLeg) : M PreparedSwap :=
  quote ← leg_quote_for user leg;
  minOut ← lift (newBNText (text_or (Some (Jup.otherAmountThreshold quote)) (Jup.outAmount quote)));
  if minOut <=? 0
  then throw (deposit_error ("Invalid Jupiter quote minOut for " +:+ nl_mint leg))
  else
    swapIxs ← getJupiterSwapInstructions API_KEY (toBase58 user) quote;
    mret (mkPrepared quote minOut swapIxs).

(** ** Transactions *)

Definition getCurrentUsdcAtaRaw (usdcAta : PublicKey) : M Z :=
  currentBal ← or_else (b ← f_balance usdcAta; mret (ta_amount b)) "0";
  lift (newBNText currentBal).

Definition min_swap_out (swapChunk : list PreparedSwap) : Z :=
  fold_left (fun sum s => sum + ps_minOut s) swapChunk 0.

(** The captured values of [sendDepositChunk]. *)
Record DepositPlan := mkPlan {
  pl_user : PublicKey;
  pl_usdcAta : PublicKey;
  pl_round : Z;
  pl_directUsdcRaw : Z;
  pl_direct : DirectPart
}.

Definition next_part : M unit :=
  modify (set_refs (fun r => r_set_sentChunkCount (r_sentChunkCount r + 1) r)) ;;
  n ← gets (fun j => r_sentChunkCount (refs j));
  setAutoStatus (Some ("Sending batch part " +:+ pretty n +:+ "...")).

(** The three ways to send a chunk. *)
Definition send_chunk (P : DepositPlan) (swapChunk : list PreparedSwap)
    (prefix : list TransactionInstruction) (depositIx : TransactionInstruction) : M string :=
  next_part ;;
  match swapChunk, prefix with
  | [], _ => sendTransaction (LegacyTx (prefix ++ [depositIx]))
  | [s], [] =>
      tx ← buildSwapAndDepositTx COMPUTE_BUDGET_PROGRAM (pl_user P) (ps_swapIxs s) depositIx [];
      sendTransaction (V0Tx tx)
  | _, _ =>
      tx ← buildMultiSwapAndDepositTx COMPUTE_BUDGET_PROGRAM (pl_user P)
             (ps_swapIxs <$> swapChunk) depositIx prefix;
      sendTransaction (V0Tx tx)
  end.

(** [Math.ceil(n / 2)] *)
Definition half (n : nat) : nat := ((n + 1) / 2)%nat.

(** The deposit instruction of a chunk. *)
Definition chunk_deposit (P : DepositPlan) (swapChunk : list PreparedSwap)
    (includeDirectUsdc : bool) : M TransactionInstruction :=
  let chunkDirectUsdcRaw := if includeDirectUsdc then pl_directUsdcRaw P else 0 in
  let chunkMinOutTotal := chunkDirectUsdcRaw + min_swap_out swapChunk in
  if chunkMinOutTotal <=? 0 then throw (deposit_error "Total deposit amount is too small.")
  else
    chunkUsdcBalanceBefore ←
      (if includeDirectUsdc then mret (dp_balanceBefore (pl_direct P))
       else getCurrentUsdcAtaRaw (pl_usdcAta P));
    lift (FrontIx.buildDepositAny A (pl_user P) (pl_round P) chunkUsdcBalanceBefore
            chunkMinOutTotal (USDC_MINT A)).

(** [fuel] bounds the depth of the recursion; see [sendDepositChunk_fuel]. *)
Fixpoint sendDepositChunk (fuel : nat) (P : DepositPlan) (swapChunk : list PreparedSwap)
    (includeDirectUsdc : bool) : M (list string) :=
  match fuel with
  | O => throw (mkError "RangeError" "Maximum call stack size exceeded")
  | S fuel =>
      let chunkDirectUsdcRaw := if includeDirectUsdc then pl_directUsdcRaw P else 0 in
      let chunkPrefix := if includeDirectUsdc then dp_prefix (pl_direct P) else [] in
      chunkDepositIx ← chunk_deposit P swapChunk includeDirectUsdc;
      try_catch
        (sig ← send_chunk P swapChunk chunkPrefix chunkDepositIx; mret [sig])
        (fun e =>
           if negb (isTxTooLargeEncodingError e) then throw e
           else if includeDirectUsdc && (length swapChunk =? 1)%nat &&
                   ((0 <? chunkDirectUsdcRaw) || (0 <? length chunkPrefix)%nat) then
             a ← sendDepositChunk fuel P [] true;
             b ← sendDepositChunk fuel P swapChunk false;
             mret (a ++ b)
           else if (length swapChunk <=? 1)%nat then
             throw (deposit_error "Batch is too large for one transaction. Split into smaller deposits.")
           else
             let mid := half (length swapChunk) in
             first ← sendDepositChunk fuel P (take mid swapChunk) includeDirectUsdc;
             second ← sendDepositChunk fuel P (drop mid swapChunk) false;
             mret (first ++ second))
  end.

(** Enough for every recursion on [n] swaps. *)
Definition chunk_fuel (n : nat) : nat := (2 * n + 2)%nat.

(** ** The operation *)

(** [setLoading(true); setError(null); try { body } catch (e) { setError(e.message); throw e }
    finally { setLoading(false) }] *)
Definition with_ui {X} (body : M X) : M X :=
  setLoading true ;;
  setError None ;;
  r ← settled body;
  (match r with Ok _ => mret tt | Throw e => setError (Some (err_message e)) end) ;;
  setLoading false ;;
  lift r.

(** The deposited tokens are noted for the participants' list.  [cache] is the object
    that was current before a new one is made for the round. *)
Definition track_tokens (user : PublicKey) (roundId : Z) (normalized : list NormalizedLeg)
    : M unit :=
  cache ← currentCache;
  c ← readCache cache;
  (if negb (dc_roundId c =? roundId) then newCache roundId else mret tt) ;;
  let nonUsdcMints := filter (fun m => m ≠ USDC_STR A) (nl_mint <$> normalized) in
  if (0 <? length nonUsdcMints)%nat then
    or_else
      (ks ← lift (res_mapM keyOfString nonUsdcMints);
       metaMap ← fetchTokenMetadataBatch TOKEN_METADATA_PROGRAM_ID API_KEY ks;
       updateCache cache (cache_add_tags (toBase58 user) (tag_of metaMap <$> nonUsdcMints))) tt
  else mret tt.

(** What is known before the first transaction. *)
Definition prepare_deposit (user : PublicKey) (roundId : Z) (normalized : list NormalizedLeg)
    : M (DepositPlan * list PreparedSwap) :=
  setAutoStatus (if (1 <? length normalized)%nat then Some "Preparing batch deposit..." else None) ;;
  usdcAta ← lift (getAssociatedTokenAddress (USDC_MINT A) user false);
  balInfo ← or_else (b ← f_balance usdcAta; mret (Some b)) None;
  rawUsdcBalance ← (match balInfo with Some b => lift (newBNText (ta_amount b)) | None => mret 0 end);
  effectiveRoundId ← effective_round roundId;
  require_open effectiveRoundId ;;
  let usdcLegs := filter (fun leg => nl_mint leg = USDC_STR A) normalized in
  let swapLegs := filter (fun leg => nl_mint leg ≠ USDC_STR A) normalized in
  directUsdcRaw ← lift (direct_usdc usdcLegs 0);
  direct ← direct_part user usdcAta directUsdcRaw rawUsdcBalance;
  preparedSwaps ← promise_all (prepare_swap user <$> swapLegs);
  mret (mkPlan user usdcAta effectiveRoundId directUsdcRaw direct, preparedSwaps).

(** The transactions, then the texts and polls that follow; the last signature. *)
Definition send_deposit (user : PublicKey) (roundId : Z) (normalized : list NormalizedLeg)
    (P : DepositPlan) (preparedSwaps : list PreparedSwap) : M string :=
  modify (set_refs (r_set_sentChunkCount 0)) ;;
  chunkSigs ← sendDepositChunk (chunk_fuel (length preparedSwaps)) P preparedSwaps true;
  setAutoStatus (if (1 <? length chunkSigs)%nat
                 then Some ("Batch deposit complete (" +:+ pretty (length chunkSigs) +:+ " tx)")
                 else None) ;;
  track_tokens user roundId normalized ;;
  pollRound A TOKEN_METADATA_PROGRAM_ID API_KEY (Some user) roundId ;;
  pollBalance A (Some user) ;;
  mret (default "" (last chunkSigs)).

Definition depositMany (publicKey : option PublicKey) (roundId : Z) (legs : list DepositLegInput)
    : M string :=
  match publicKey with
  | None => throw (deposit_error "Wallet not connected")
  | Some user =>
      normalized ← lift (validate_legs (USDC_STR A) legs);
      with_ui
        ('(P, preparedSwaps) ← prepare_deposit user roundId normalized;
         send_deposit user roundId normalized P preparedSwaps)
  end.

Definition deposit (publicKey : option PublicKey) (roundId : Z) (amount : num)
    (mint : option string) (quote : option Jup.JupiterQuote) : M string :=
  depositMany publicKey roundId [mkLeg amount mint quote].

(** The timer the deposit leaves behind clears its progress texts. *)
Definition clear_deposit_status : M unit :=
  setView (fun v =>
    match v_autoStatus v with
    | Some prev =>
        if String.prefix "Preparing batch deposit" prev || String.prefix "Sending batch part" prev ||
           String.prefix "Batch deposit complete" prev
        then v_set_autoStatus None v else v
    | None => v
    end).
End deposit.
