(* ===== verification/JackpotClaims.v ===== *)
(** * JackpotClaims: the other user actions of src/hooks/useJackpot.ts

    Claiming the prize of the current round or of an earlier one, in USDC or in degen
    mode, cancelling a round and claiming a refund. *)

From stdpp Require Import base list gmap strings pretty.
From Stdlib Require Import ZArith Lia Ascii Strings.Byte SpecFloat.
From S2P Require Import Prelude Buffers Accounts JsRuntime Effects Solana Instructions Firebase DegenExecutor Browser JupiterClient TokenMetadata History JackpotState JackpotPolling JackpotDeposit.

Local Open Scope string_scope.
Local Open Scope list_scope.
Local Open Scope Z_scope.
Set Warnings "-clear-no-such-hyp".

Module DegenModeStatus.
Definition None_ : Z := 0.
Definition VrfRequested : Z := 1.
Definition VrfReady : Z := 2.
Definition Executing : Z := 3.
Definition ClaimedSwapped : Z := 4.
Definition ClaimedFallback : Z := 5.
End DegenModeStatus.

(** What [claimDegen] resolves to. *)
Record DegenResult := mkDegenResult {
  dr_claimSig : string;
  dr_tokenMint : option string;
  dr_tokenIndex : option Z;
  dr_tokenSymbol : option string;
  dr_fallback : bool
}.

Section claims.
Context `{FrontServices} (A : Addresses).
Context (db : bool) (TOKEN_METADATA_PROGRAM_ID : PublicKey) (API_KEY : string).
Local Abbreviation M := (M Jackpot FWorld FEvent).
Local Abbreviation pollRound := (pollRound A TOKEN_METADATA_PROGRAM_ID API_KEY).
Local Abbreviation pollBalance := (pollBalance A).

Definition poll (publicKey : option PublicKey) (roundId : Z) : M unit :=
  pollRound publicKey roundId ;; pollBalance publicKey.

Definition not_connected : JsError := mkError "Error" "Wallet not connected".

Definition forget_prize (roundId : Z) : M unit :=
  clearUnclaimedPrize roundId ;; dropUnclaimed roundId.

(** The error for a round whose account is gone. *)
Definition gone_error (archived : option Hist.HistoryRound) : JsError :=
  match archived with
  | Some h => match nonempty (Hist.claimTx h) with
              | Some _ => mkError "Error" "Prize was already auto-claimed to your wallet"
              | None => mkError "Error" "Round no longer exists on-chain (likely already claimed)"
              end
  | None => mkError "Error" "Round no longer exists on-chain (likely already claimed)"
  end.

Definition already_claimed : JsError := mkError "Error" "Prize already claimed".
Definition not_claimable : JsError := mkError "Error" "Round is not in a claimable state".

(** The claim transaction of the round. *)
Definition send_claim (user : PublicKey) (roundId : Z) : M string :=
  cfg ← fetchConfig A;
  ix ← lift (FrontIx.buildClaim A user roundId (USDC_MINT A) (treasuryUsdcAta cfg) None);
  sendTransaction (LegacyTx [ix]).

(** The claimed round is archived; a failure is only logged. *)
Definition archive_claim (roundId : Z) (sig : string) : M unit :=
  or_else
    (claimedData ← fetchRound A roundId;
     match claimedData with
     | None => mret tt
     | Some rd =>
         h ← toHistoryRoundWithDeposits A rd roundId;
         saveRoundToFirebase db
           (Hist.mkHistoryRound (Hist.roundId h) RoundStatus.Claimed (Hist.totalUsdc h)
              (Hist.totalTickets h) (Hist.participantsCount h) (Hist.winner h)
              (Hist.winningTicket h) (Hist.randomness h) (Hist.startTs h) (Hist.endTs h)
              (Some sig) (Hist.vaultUsdcAta h) (Hist.participants h) (Hist.participantDeposits h))
     end) tt.

Definition claim (publicKey : option PublicKey) (roundId : Z) (unclaimedPrizes : list Json)
    : M string :=
  match publicKey with
  | None => throw not_connected
  | Some user =>
      with_ui
        (freshRound ← fetchRound A roundId;
         match freshRound with
         | None =>
             archived ← or_else (fetchRoundFromFirebase db roundId) None;
             forget_prize roundId ;;
             poll publicKey roundId ;;
             throw (gone_error archived)
         | Some rd =>
             if Front.status rd =? RoundStatus.Claimed then
               forget_prize roundId ;;
               poll publicKey roundId ;;
               throw already_claimed
             else if negb (Front.status rd =? RoundStatus.Settled) then throw not_claimable
             else
               sig ← send_claim user roundId;
               (if existsb (prize_is roundId) unclaimedPrizes then forget_prize roundId
                else mret tt) ;;
               archive_claim roundId sig ;;
               poll publicKey roundId ;;
               mret sig
         end)
  end.

(** [roundId] is the round shown, [unclaimedRoundId] the one that is claimed. *)
Definition claimUnclaimed (publicKey : option PublicKey) (roundId unclaimedRoundId : Z) : M string :=
  match publicKey with
  | None => throw not_connected
  | Some user =>
      with_ui
        (oldRoundData ← fetchRound A unclaimedRoundId;
         match oldRoundData with
         | None =>
             archived ← or_else (fetchRoundFromFirebase db unclaimedRoundId) None;
             forget_prize unclaimedRoundId ;;
             throw (gone_error archived)
         | Some rd =>
             if Front.status rd =? RoundStatus.Claimed then
               forget_prize unclaimedRoundId ;;
               throw already_claimed
             else if negb (Front.status rd =? RoundStatus.Settled) then throw not_claimable
             else
               sig ← send_claim user unclaimedRoundId;
               forget_prize unclaimedRoundId ;;
               archive_claim unclaimedRoundId sig ;;
               poll publicKey roundId ;;
               mret sig
         end)
  end.

(** ** Degen mode *)

(** The request for randomness, unless one was made; its signature, or the empty text. *)
Definition request_degen (user : PublicKey) (roundId : Z) (current : option DegenClaimData)
    (delay : Z) : M string :=
  let needed := match current with
                | None => true
                | Some c => (dcl_status c =? 0) || (dcl_status c =? DegenModeStatus.None_)
                end in
  if needed then
    reqIx ← lift (FrontIx.buildRequestDegenVrf A user roundId);
    sig ← sendTransaction (LegacyTx [reqIx]);
    (if 0 <? delay then f_sleep delay else mret tt) ;;
    mret sig
  else mret "".

Definition POLL_INTERVAL : Z := 3000.
Definition MAX_POLL_TIME : Z := 90000.

(** The claim in a terminal state, or [None] after [MAX_POLL_TIME]; the outer [None] is the
    end of the fuel. *)
Fixpoint await_degen (fuel : nat) (user : PublicKey) (roundId startTime : Z)
    : M (option (option DegenClaimData)) :=
  match fuel with
  | O => mret None
  | S fuel =>
      now ← f_now;
      if now - startTime <? MAX_POLL_TIME then
        f_sleep POLL_INTERVAL ;;
        degen ← fetchDegenClaim A roundId user;
        match degen with
        | None => await_degen fuel user roundId startTime
        | Some d =>
            if (dcl_status d =? DegenModeStatus.ClaimedFallback) ||
               (dcl_status d =? DegenModeStatus.ClaimedSwapped)
            then mret (Some (Some d)) else await_degen fuel user roundId startTime
        end
      else mret (Some None)
  end.

Definition pending_result (requestSig : string) : DegenResult :=
  mkDegenResult requestSig None None None false.
Definition fallback_result (requestSig : string) : DegenResult :=
  mkDegenResult requestSig None None None true.

(** The token that was paid out, with its symbol. *)
Definition swapped_result (requestSig : string) (degen : DegenClaimData) : M DegenResult :=
  let tokenMint := if bool_decide (dcl_tokenMint degen = defaultKey) then None
                   else Some (toBase58 (dcl_tokenMint degen)) in
  tokenSymbol ← (match tokenMint with
                 | Some mint => t ← fetchDegenTokenMeta API_KEY mint; mret (Some (dt_symbol t))
                 | None => mret None
                 end);
  mret (mkDegenResult requestSig tokenMint (Some (dcl_tokenIndex degen)) tokenSymbol false).

Definition claimDegen (fuel : nat) (publicKey : option PublicKey) (roundId : Z)
    : M (option DegenResult) :=
  match publicKey with
  | None => throw not_connected
  | Some user =>
      with_ui
        (freshRound ← fetchRound A roundId;
         match freshRound with
         | None => throw (mkError "Error" "Round no longer exists on-chain")
         | Some rd =>
             if Front.status rd =? RoundStatus.Claimed then throw already_claimed
             else if negb (Front.status rd =? RoundStatus.Settled) then throw not_claimable
             else
               current ← fetchDegenClaim A roundId user;
               requestSig ← request_degen user roundId current 0;
               startTime ← f_now;
               r ← await_degen fuel user roundId startTime;
               match r with
               | None => mret None
               | Some None => poll publicKey roundId ;; mret (Some (pending_result requestSig))
               | Some (Some d) =>
                   if dcl_status d =? DegenModeStatus.ClaimedFallback then
                     poll publicKey roundId ;; mret (Some (fallback_result requestSig))
                   else
                     res ← swapped_result requestSig d;
                     poll publicKey roundId ;;
                     mret (Some res)
               end
         end)
  end.

Definition claimUnclaimedDegen (publicKey : option PublicKey) (roundId unclaimedRoundId : Z)
    : M DegenResult :=
  match publicKey with
  | None => throw not_connected
  | Some user =>
      with_ui
        (oldRoundData ← fetchRound A unclaimedRoundId;
         match oldRoundData with
         | None => throw (mkError "Error" "Round no longer exists on-chain")
         | Some rd =>
             if Front.status rd =? RoundStatus.Claimed then
               forget_prize unclaimedRoundId ;;
               throw already_claimed
             else if negb (Front.status rd =? RoundStatus.Settled) then throw not_claimable
             else
               current ← fetchDegenClaim A unclaimedRoundId user;
               requestSig ← request_degen user unclaimedRoundId current 2000;
               degen ← fetchDegenClaim A unclaimedRoundId user;
               match degen with
               | None => throw (mkError "Error" "Degen VRF request was sent, but claim state is not available yet.")
               | Some d =>
                   poll publicKey roundId ;;
                   if dcl_status d =? DegenModeStatus.ClaimedFallback then
                     forget_prize unclaimedRoundId ;; mret (fallback_result requestSig)
                   else if dcl_status d =? DegenModeStatus.ClaimedSwapped then
                     forget_prize unclaimedRoundId ;; swapped_result requestSig d
                   else if (dcl_status d =? DegenModeStatus.VrfRequested) ||
                           (dcl_status d =? DegenModeStatus.VrfReady) ||
                           (dcl_status d =? DegenModeStatus.Executing)
                   then mret (pending_result requestSig)
                   else throw (mkError "Error" "Unexpected degen claim state")
               end
         end)
  end.

(** ** Cancelling and refunds *)

Definition send_and_poll (publicKey : option PublicKey) (roundId : Z)
    (build : PublicKey -> Res TransactionInstruction) : M string :=
  match publicKey with
  | None => throw not_connected
  | Some user =>
      with_ui
        (ix ← lift (build user);
         sig ← sendTransaction (LegacyTx [ix]);
         poll publicKey roundId ;;
         mret sig)
  end.

Definition cancelRound (publicKey : option PublicKey) (roundId : Z) : M string :=
  send_and_poll publicKey roundId (fun user => FrontIx.buildCancelRound A user roundId (USDC_MINT A)).

Definition claimRefund (publicKey : option PublicKey) (roundId : Z) : M string :=
  send_and_poll publicKey roundId (fun user => FrontIx.buildClaimRefund A user roundId (USDC_MINT A)).
End claims.
