(* ===== verification/JackpotFrames.v ===== *)
(** * JackpotFrames: what the operations of the jackpot hook leave alone

    [poll_frame] relates states that differ only in what polling may change; [ui_frame]
    those that agree on [loading] and [error].  Every helper of the hook has one of these
    frames, and only the user actions hand transactions to the wallet. *)

From stdpp Require Import base list gmap strings pretty.
From Stdlib Require Import ZArith Lia Ascii Strings.Byte SpecFloat.
From S2P Require Import Prelude Buffers Accounts JsRuntime Effects Solana Instructions Firebase DegenExecutor Frames Browser JupiterClient TokenMetadata History JackpotState JackpotPolling JackpotDeposit JackpotClaims.

Local Open Scope string_scope.
Local Open Scope list_scope.
Local Open Scope Z_scope.
Set Warnings "-clear-no-such-hyp".

(** ** Relations *)

Section relations.
Context `{Web3Keys}.

Definition heap_ok (s : Jackpot) : Prop := (r_cacheRef (refs s) < length (r_heap (refs s)))%nat.

Record poll_frame (s s' : Jackpot) : Prop := {
  pf_loading : v_loading (view s') = v_loading (view s);
  pf_error : v_error (view s') = v_error (view s);
  pf_unclaimed : v_unclaimedPrizes (view s') = v_unclaimedPrizes (view s);
  pf_pending : r_pendingSettled (refs s') = r_pendingSettled (refs s);
  pf_storage : storage s' = storage s;
  pf_heap : heap_ok s -> heap_ok s'
}.

Definition ui_frame (s s' : Jackpot) : Prop :=
  v_loading (view s') = v_loading (view s) /\ v_error (view s') = v_error (view s).

#[export] Instance poll_frame_preorder : PreOrder poll_frame.
Proof.
  split; [intros s; by split|]. intros s1 s2 s3 [] [].
  split; solve [congruence|auto].
Qed.

#[export] Instance ui_frame_preorder : PreOrder ui_frame.
Proof. split; [by intros s|]. intros s1 s2 s3 [] []. split; congruence. Qed.

Lemma poll_frame_ui s s' : poll_frame s s' -> ui_frame s s'.
Proof. by intros []. Qed.
End relations.

(** ** Frames *)

(** The events that do not ask the wallet. *)
Definition no_wallet `{ExecutorLibs} (ev : FEvent) : Prop := ~ is_wallet ev.
Definition any_event `{ExecutorLibs} (ev : FEvent) : Prop := True.

Ltac unfold_service :=
  lazymatch goal with
  | |- framed _ _ ?m =>
      lazymatch m with
      | f_now => unfold f_now
      | f_random => unfold f_random
      | f_sleep _ => unfold f_sleep
      | f_account _ => unfold f_account
      | f_accounts _ => unfold f_accounts
      | f_balance _ => unfold f_balance
      | f_tokenAccounts _ => unfold f_tokenAccounts
      | f_blockhash => unfold f_blockhash
      | f_config _ => unfold f_config
      | f_degenClaim _ => unfold f_degenClaim
      | f_participant _ => unfold f_participant
      | f_uri _ => unfold f_uri
      | f_archiveGet _ => unfold f_archiveGet
      | f_archiveSet _ _ => unfold f_archiveSet
      | f_archiveRecent _ => unfold f_archiveRecent
      | f_archiveMax => unfold f_archiveMax
      | f_signatures _ => unfold f_signatures
      | f_parsedTx _ => unfold f_parsedTx
      | f_storage => unfold f_storage
      | or_else _ _ => unfold or_else
      | settled _ => unfold settled
      | promise_all _ => unfold promise_all
      end
  end.

Ltac front_framed :=
  repeat first [solve [auto with framed nocore] | framed_step | unfold_service].

Section generic.
Context `{FrontServices} {St : Type} (R : St -> St -> Prop) `{!PreOrder R}.
Context (P : FEvent -> Prop) (HP : forall ev, no_wallet ev -> P ev).

Lemma framed_call {A} (call : FWorld -> Res A * FWorld) ev :
  (forall r, no_wallet (ev r)) -> framed R P (invoke call ev).
Proof. intros Hev. apply framed_invoke; [done|]. auto. Qed.

Lemma framed_all_settled {A} (l : list (M St FWorld FEvent A)) :
  Forall (framed R P) l -> framed R P (all_settled l).
Proof.
  induction 1 as [|m l Hm _ IH]; cbn [all_settled]; [apply framed_ret, _|].
  apply framed_bind; [done| |intros r; apply framed_bind; [done|done|intros rs; by apply framed_ret]].
  unfold settled. apply framed_try; [done| |intros e; by apply framed_ret].
  apply framed_bind; [done..|]. intros a. by apply framed_ret.
Qed.

Local Ltac go := repeat first
  [ solve [auto with framed nocore] | framed_step | unfold_service ].

Lemma framed_backoff attempt : framed R P (computeBackoffMs attempt).
Proof. unfold computeBackoffMs. go; intros; apply HP; by intros []. Qed.
#[local] Hint Resolve framed_backoff : framed.

Lemma framed_jupiter {T} key (call : M St FWorld FEvent (TypedResponse T)) ms retries :
  framed R P call -> framed R P (jupiterFetchJson key call ms retries).
Proof.
  intros Hc. unfold jupiterFetchJson. apply framed_bind; [done|by apply framed_lift|intros _].
  generalize (Z.to_nat (Z.max 0 (Z.min (default MAX_RETRIES retries) 5))) as n.
  generalize 0%Z as attempt. intros attempt n. revert attempt. induction n as [|n IH]; intros attempt; cbn [jupiter_attempts];
    unfold jupiter_request, jupiter_catch; go; intros; apply HP; by intros [].
Qed.

Section metadata.
Context `{!HasMeta St} (HM : forall m s, R s (with_meta m s)).
Context (TOKEN_METADATA_PROGRAM_ID : PublicKey) (API_KEY : string).

Lemma framed_update_meta f : framed R P (update_meta f).
Proof. apply framed_modify. intros s. apply HM. Qed.

Lemma framed_search mint ms retries : framed R P (token_search API_KEY mint ms retries).
Proof. apply framed_jupiter, framed_call. by intros r []. Qed.
#[local] Hint Resolve framed_update_meta framed_search : framed.

Lemma framed_logo mint : framed R P (fetchTokenLogoViaJupiter API_KEY mint).
Proof. unfold fetchTokenLogoViaJupiter, put_logo. go. Qed.
#[local] Hint Resolve framed_logo : framed.

Lemma framed_resolve mint parsed : framed R P (resolve_metadata API_KEY mint parsed).
Proof.
  unfold resolve_metadata, token_image, metaplex_image, put_metadata.
  go; intros; apply HP; by intros [].
Qed.
#[local] Hint Resolve framed_resolve : framed.

Lemma framed_metadata mint : framed R P (fetchTokenMetadata TOKEN_METADATA_PROGRAM_ID API_KEY mint).
Proof. unfold fetchTokenMetadata. go; intros; apply HP; by intros []. Qed.

Lemma framed_metadata_batch mints :
  framed R P (fetchTokenMetadataBatch TOKEN_METADATA_PROGRAM_ID API_KEY mints).
Proof. unfold fetchTokenMetadataBatch, batch_entry. go; intros; apply HP; by intros []. Qed.

Lemma framed_degen_meta mint : framed R P (fetchDegenTokenMeta API_KEY mint).
Proof. unfold fetchDegenTokenMeta, put_degen. go. Qed.
End metadata.
End generic.

Section polls.
Context `{FrontServices} (A : Addresses) (db : bool).
Context (TOKEN_METADATA_PROGRAM_ID : PublicKey) (API_KEY : string).
Local Abbreviation quiet := (framed (W:=FWorld) poll_frame no_wallet).

Lemma quiet_invoke {X} (call : FWorld -> Res X * FWorld) ev :
  (forall r, no_wallet (ev r)) -> quiet (invoke call ev).
Proof. intros. by apply framed_invoke; [apply _|]. Qed.

Lemma quiet_setView f :
  (forall v, v_loading (f v) = v_loading v /\ v_error (f v) = v_error v /\
             v_unclaimedPrizes (f v) = v_unclaimedPrizes v) -> quiet (setView f).
Proof.
  intros Hf. apply framed_modify. intros s. destruct (Hf (view s)) as (? & ? & ?). by split.
Qed.

Lemma quiet_setRoundId x : quiet (setRoundId x).
Proof. by apply quiet_setView. Qed.
Lemma quiet_setRoundData x : quiet (setRoundData x).
Proof. by apply quiet_setView. Qed.
Lemma quiet_setParticipants x : quiet (setParticipants x).
Proof. by apply quiet_setView. Qed.
Lemma quiet_setPhase x : quiet (setPhase x).
Proof. by apply quiet_setView. Qed.
Lemma quiet_setTimeLeft x : quiet (setTimeLeft x).
Proof. by apply quiet_setView. Qed.
Lemma quiet_setMyUsdcBalance x : quiet (setMyUsdcBalance x).
Proof. by apply quiet_setView. Qed.
Lemma quiet_setAutoStatus x : quiet (setAutoStatus x).
Proof. by apply quiet_setView. Qed.
Lemma quiet_setInitialized x : quiet (setInitialized x).
Proof. by apply quiet_setView. Qed.

Lemma quiet_updateCache ref f : quiet (updateCache ref f).
Proof.
  apply framed_modify. intros s. split; try done. unfold heap_ok. simpl.
  by rewrite length_alter.
Qed.
Lemma quiet_newCache rid : quiet (newCache rid).
Proof.
  apply framed_modify. intros s. split; try done. unfold heap_ok. simpl.
  rewrite length_app. simpl. lia.
Qed.
Lemma poll_frame_meta m s : poll_frame s (with_meta m s).
Proof. by split. Qed.
#[local] Hint Resolve poll_frame_meta : core.
Lemma quiet_metadata mint :
  quiet (fetchTokenMetadata TOKEN_METADATA_PROGRAM_ID API_KEY mint).
Proof. apply framed_metadata; auto; apply _. Qed.
Lemma quiet_metadata_batch mints :
  quiet (fetchTokenMetadataBatch TOKEN_METADATA_PROGRAM_ID API_KEY mints).
Proof. apply framed_metadata_batch; auto; apply _. Qed.
Lemma quiet_degen_meta mint : quiet (fetchDegenTokenMeta API_KEY mint).
Proof. apply framed_degen_meta; auto; apply _. Qed.

#[local] Hint Resolve quiet_setRoundId quiet_setRoundData quiet_setParticipants quiet_setPhase
  quiet_setTimeLeft quiet_setMyUsdcBalance quiet_setAutoStatus quiet_setInitialized
  quiet_updateCache quiet_newCache quiet_metadata quiet_metadata_batch quiet_degen_meta : framed.

Local Ltac go :=
  repeat first
    [ solve [auto with framed nocore] | framed_step | unfold_service
    | apply framed_all_settled; [apply _|apply Forall_fmap, Forall_forall; intros ? _; simpl]
    | progress unfold currentCache, readCache ]; try by intros [].

Lemma quiet_fetchRound rid : quiet (fetchRound A rid).
Proof. unfold fetchRound. go. Qed.
Lemma quiet_fetchConfig : quiet (fetchConfig A).
Proof. unfold fetchConfig. go. Qed.
Lemma quiet_fetchDegenClaim rid user : quiet (fetchDegenClaim A rid user).
Proof. unfold fetchDegenClaim. go. Qed.
#[local] Hint Resolve quiet_fetchRound quiet_fetchConfig quiet_fetchDegenClaim : framed.

Lemma quiet_resolve pda addrs :
  quiet (resolveDepositTokens A TOKEN_METADATA_PROGRAM_ID API_KEY pda addrs).
Proof. unfold resolveDepositTokens, resolve_body, resolve_batch. go. Qed.
#[local] Hint Resolve quiet_resolve : framed.

Lemma quiet_process user rid data :
  quiet (processRoundData A TOKEN_METADATA_PROGRAM_ID API_KEY user rid data).
Proof. unfold processRoundData, usdc_icon, participant_entry. go. Qed.
#[local] Hint Resolve quiet_process : framed.

Lemma quiet_pollRound user rid : quiet (pollRound A TOKEN_METADATA_PROGRAM_ID API_KEY user rid).
Proof. unfold pollRound. go. Qed.
Lemma quiet_pollBalance user : quiet (pollBalance A user).
Proof. unfold pollBalance. go. Qed.
End polls.
