(* ===== verification/WalletTokens.v ===== *)
(** * WalletTokens: the tokens of the wallet and their prices

    src/src/hooks/useWalletTokens.ts and src/src/lib/jupiterPrice.ts: the balances of the
    connected wallet summed by mint, with the metadata of Jupiter's token lists and its
    prices, sorted by value; the cache of prices.  The RPC provider, Jupiter's endpoints and
    the layouts of spl-token are services; the retries of the price call are those of
    [jupiterFetchJson]. *)

From stdpp Require Import base list gmap strings pretty.
From Stdlib Require Import ZArith Lia Ascii Strings.Byte SpecFloat Sorted.
From S2P Require Import Prelude Buffers JsRuntime Effects Solana DegenExecutor Frames Browser TokenMetadata NumFacts JsMap JackpotFrames.

Local Open Scope string_scope.
Local Open Scope list_scope.
Local Open Scope Z_scope.
Set Warnings "-clear-no-such-hyp".

(** ** Data *)

Record WalletToken := mkWalletToken {
  wt_mint : string;
  wt_symbol : string;
  wt_name : string;
  wt_image : string;
  wt_balance : num;
  wt_decimals : Z;
  wt_usdValue : num
}.

Record TokenInfo := mkTokenInfo { ti_symbol : string; ti_name : string; ti_logoURI : string }.

(** The module variables of both files and the state of the hook. *)
Record WalletState := mkWalletState {
  jupiterTokensCache : option (list (string * TokenInfo));
  fetchingJupiterTokens : bool;
  priceCache : list (string * (num * Z));
  lastPriceErrorLogTs : Z;
  tokens : list WalletToken;
  loading : bool
}.

Definition set_jupiterTokens (c : option (list (string * TokenInfo))) (s : WalletState) : WalletState :=
  mkWalletState c (fetchingJupiterTokens s) (priceCache s) (lastPriceErrorLogTs s) (tokens s) (loading s).
Definition set_fetching (b : bool) (s : WalletState) : WalletState :=
  mkWalletState (jupiterTokensCache s) b (priceCache s) (lastPriceErrorLogTs s) (tokens s) (loading s).
Definition set_priceCache (c : list (string * (num * Z))) (s : WalletState) : WalletState :=
  mkWalletState (jupiterTokensCache s) (fetchingJupiterTokens s) c (lastPriceErrorLogTs s) (tokens s) (loading s).
Definition set_lastPriceError (t : Z) (s : WalletState) : WalletState :=
  mkWalletState (jupiterTokensCache s) (fetchingJupiterTokens s) (priceCache s) t (tokens s) (loading s).
Definition set_tokens (l : list WalletToken) (s : WalletState) : WalletState :=
  mkWalletState (jupiterTokensCache s) (fetchingJupiterTokens s) (priceCache s) (lastPriceErrorLogTs s) l (loading s).
Definition set_loading (b : bool) (s : WalletState) : WalletState :=
  mkWalletState (jupiterTokensCache s) (fetchingJupiterTokens s) (priceCache s) (lastPriceErrorLogTs s) (tokens s) b.

(** ** Pure helpers *)

Definition decodeU64ToBigInt (v : Z + bytes) : Z :=
  match v with
  | inl z => z
  | inr b => fold_left (fun out i => Z.lor out (Z.shiftl (Z.of_N (Byte.to_N (default x00 (b !! i)))) (8 * Z.of_nat i)))
               (seq 0 8) 0
  end.

(** [s.padStart(n, "0")] *)
Definition padStart0 (n : nat) (s : string) : string :=
  Nat.iter (n - String.length s) (String "0") s.

Definition toUiAmount (raw decimals : Z) : num :=
  if decimals <=? 0 then num_of_Z raw
  else
    let base := 10 ^ decimals in
    let whole := raw / base in
    let frac := raw mod base in
    let fracStr := String.substring 0 6 (padStart0 (Z.to_nat decimals) (pretty frac)) in
    num_plus (Number (pretty whole)) (Number ("0." +:+ (if String.eqb fracStr "" then "0" else fracStr))).

(** [chunk(items, size)]; [fuel] bounds the iterations by the number of items. *)
Fixpoint chunk_from {T} (fuel : nat) (items : list T) (size : nat) : list (list T) :=
  match fuel, items with
  | S fuel, _ :: _ => take size items :: chunk_from fuel (drop size items) size
  | _, _ => []
  end.
Definition chunk {T} (items : list T) (size : nat) : list (list T) := chunk_from (length items) items size.

Section rows.
Context `{FrontServices}.

Definition normalizeAccountData (data : AccountData) : option bytes :=
  match data with
  | DataBytes b => Some b
  | DataPair b64 => Some (base64Bytes b64)
  | DataText b64 => if String.eqb b64 "" then None else Some (base64Bytes b64)
  | DataOther => None
  end.

(** [t.symbol || ""], [t.icon || t.logoURI || ""] *)
Definition info_of_row (t : Json) : TokenInfo :=
  mkTokenInfo (default "" (text_field (Some t) ["symbol"])) (default "" (text_field (Some t) ["name"]))
    (default "" (text_field (Some t) ["icon"; "logoURI"])).

(** The loop over the rows: what it has entered, and whether it reached the end; a [null]
    row throws. *)
Fixpoint index_rows (rows : list Json) (cache : list (string * TokenInfo)) : list (string * TokenInfo) * bool :=
  match rows with
  | [] => (cache, true)
  | JNull :: _ => (cache, false)
  | t :: rows =>
      match text_field (Some t) ["id"; "address"] with
      | Some addr => index_rows rows (map_set addr (info_of_row t) cache)
      | None => index_rows rows cache
      end
  end.

(** [for (const t of data)] of a value that is no array throws. *)
Definition index_json (data : Json) (cache : list (string * TokenInfo)) : list (string * TokenInfo) * bool :=
  match data with JArr rows => index_rows rows cache | _ => (cache, false) end.

(** [Object.entries(x)] *)
Definition object_entries (x : Json) : Res (list (string * Json)) :=
  match x with
  | JNull => Throw (mkError "TypeError" "Cannot convert undefined or null to object")
  | JObj fields => Ok fields
  | JArr l => Ok (imap (fun i j => (pretty (Z.of_nat i), j)) l)
  | JStr s => Ok (imap (fun i c => (pretty (Z.of_nat i), JStr (String c EmptyString))) (String.list_ascii_of_string s))
  | JBool _ | JNum _ => Ok []
  end.

(** [info?.usdPrice ?? info?.price], when it is a finite number, else 0. *)
Definition price_of (info : Json) : num :=
  let raw := match json_field info "usdPrice" with
             | Some JNull | None => json_field info "price"
             | Some v => Some v
             end in
  match raw with Some (JNum n) => if isFinite n then n else S754_zero false | _ => S754_zero false end.
End rows.

Section wallet.
Context `{FrontServices}.
Context (WSOL_MINT API_KEY : string).
Local Abbreviation M := (M WalletState FWorld FEvent).

(** ** jupiterPrice.ts *)

Definition CACHE_TTL_MS : Z := 15000.
Definition PRICE_IDS_LIMIT : nat := 50.

(** The first loop: the prices still in the cache, and the mints to ask for. *)
Fixpoint split_cached (cache : list (string * (num * Z))) (now : Z) (mints : list string)
    (result : list (string * num)) (toFetch : list string) : list (string * num) * list string :=
  match mints with
  | [] => (result, toFetch)
  | m :: mints =>
      if String.eqb m "" then split_cached cache now mints result toFetch
      else match map_get m cache with
           | Some (price, ts) =>
               if now - ts <? CACHE_TTL_MS then split_cached cache now mints (map_set m price result) toFetch
               else split_cached cache now mints result (set_add toFetch m)
           | None => split_cached cache now mints result (set_add toFetch m)
           end
  end.

(** The entries of an answer, into the cache and the result. *)
Definition store_price (now : Z) (result : list (string * num)) (entry : string * Json) : M (list (string * num)) :=
  let price := price_of (snd entry) in
  if positive_num price then
    modify (fun s => set_priceCache (map_set (fst entry) (price, now) (priceCache s)) s) ;;
    mret (map_set (fst entry) price result)
  else mret result.

Definition price_call (ids : string) : M Json :=
  jupiterFetchJson API_KEY (invoke (fxPrices ids) (FPrices ids)) 5000 None.

Fixpoint comma_join (l : list string) : string :=
  match l with [] => "" | [s] => s | s :: l => s +:+ "," +:+ comma_join l end.

(** The batches, until one fails: the result so far. *)
Fixpoint fetch_batches (now : Z) (batches : list (list string)) (result : list (string * num))
    : M (list (string * num)) :=
  match batches with
  | [] => mret result
  | mintsBatch :: batches =>
      r ← settled (priceByMint ← price_call (comma_join mintsBatch);
                   entries ← lift (object_entries priceByMint);
                   for_acc entries (store_price now) result);
      match r with
      | Ok result => fetch_batches now batches result
      | Throw _ =>
          nowTs ← f_now;
          last ← gets lastPriceErrorLogTs;
          (if 30000 <=? nowTs - last then modify (set_lastPriceError nowTs) else mret tt) ;;
          mret result
      end
  end.

Definition getJupiterPrices (mints : list string) : M (list (string * num)) :=
  now ← f_now;
  cache ← gets priceCache;
  let '(result, toFetch) := split_cached cache now mints [] [] in
  match toFetch with
  | [] => mret result
  | _ => fetch_batches now (chunk toFetch PRICE_IDS_LIMIT) result
  end.

Definition getTokenPriceUsd (mint : string) : M num :=
  prices ← getJupiterPrices [mint];
  mret (default (S754_zero false) (map_get mint prices)).

(** ** useWalletTokens.ts *)

Definition ok_status {T} (r : TypedResponse T) : bool := (200 <=? tr_status r) && (tr_status r <=? 299).

Definition fetch_verified : M unit :=
  or_else
    (res ← f_tokenTag;
     (if ok_status res then mret tt else throw (mkError "Error" ("HTTP " +:+ pretty (tr_status res)))) ;;
     data ← lift (tr_json res);
     match index_json data [] with
     | (cache, true) => modify (set_jupiterTokens (Some cache))
     | (_, false) => throw (mkError "TypeError" "data is not iterable")
     end) tt.

(** [fetchingJupiterTokens] is set by the first call and never reset. *)
Definition getJupiterTokens : M (list (string * TokenInfo)) :=
  cache ← gets jupiterTokensCache;
  match cache with
  | Some c => mret c
  | None =>
      fetching ← gets fetchingJupiterTokens;
      (if fetching : bool then mret tt else modify (set_fetching true) ;; fetch_verified) ;;
      gets (fun s => default [] (jupiterTokensCache s))
  end.

Definition lookup_chunk (result : list (string * TokenInfo)) (mints : list string) : M (list (string * TokenInfo)) :=
  or_else
    (res ← invoke (fxTokenSearch (comma_join mints)) (FSearch (comma_join mints));
     if ok_status res then data ← lift (tr_json res); mret (fst (index_json data result))
     else mret result) result.

Definition lookupJupiterMints (mints : list string) : M (list (string * TokenInfo)) :=
  for_acc (chunk mints 100) lookup_chunk [].

Definition getMultipleAccountsInfoChunked (pubkeys : list PublicKey) (chunkSize : nat) : M (list (option AccountInfo)) :=
  for_acc (chunk pubkeys chunkSize) (fun out c => part ← f_accounts c; mret (out ++ part)) [].

(** The loop over the token accounts: one that is too short or empty is skipped. *)
Fixpoint sum_accounts (accounts : list AccountData) (byMintRaw : list (string * Z)) : Res (list (string * Z)) :=
  match accounts with
  | [] => Ok byMintRaw
  | acc :: accounts =>
      match normalizeAccountData acc with
      | None => sum_accounts accounts byMintRaw
      | Some data =>
          if Z.of_nat (length data) <? tokenAccountSpan then sum_accounts accounts byMintRaw
          else
            let '(mintBytes, amount) := accountLayoutDecode data in
            key ← keyOfBytes mintBytes;
            let mint := toBase58 key in
            let raw := decodeU64ToBigInt amount in
            if raw <=? 0 then sum_accounts accounts byMintRaw
            else sum_accounts accounts (map_set mint (default 0 (map_get mint byMintRaw) + raw) byMintRaw)
      end
  end.

(** [decimalsByMint] *)
Fixpoint decimals_loop (keys : list PublicKey) (infos : list (option AccountInfo)) (decs : list (string * Z))
    : list (string * Z) :=
  match keys with
  | [] => decs
  | key :: keys =>
      let decs := match infos with
                  | Some info :: _ =>
                      if Z.of_nat (length (ai_data info)) <? mintSpan then decs
                      else map_set (toBase58 key) (mintDecimals (ai_data info)) decs
                  | _ => decs
                  end in
      decimals_loop keys (tail infos) decs
  end.

Definition SOL_LOGO : string :=
  "https://raw.githubusercontent.com/solana-labs/token-list/main/assets/mainnet/So11111111111111111111111111111111111111112/logo.png".

Definition text_or_else (t : option string) (d : string) : string :=
  match t with Some s => if String.eqb s "" then d else s | None => d end.

Definition wallet_token (meta : string -> option TokenInfo) (decs : list (string * Z)) (entry : string * Z) : WalletToken :=
  let '(mint, raw) := entry in
  let decimals := default 0 (map_get mint decs) in
  if String.eqb mint "SOL" then
    mkWalletToken WSOL_MINT "SOL" "Solana" (text_or_else (ti_logoURI <$> meta WSOL_MINT) SOL_LOGO)
      (toUiAmount raw decimals) decimals (S754_zero false)
  else
    mkWalletToken mint (text_or_else (ti_symbol <$> meta mint) (String.substring 0 4 mint))
      (text_or_else (ti_name <$> meta mint) "Unknown Token") (default "" (ti_logoURI <$> meta mint))
      (toUiAmount raw decimals) decimals (S754_zero false).

(** Native SOL and the WSOL account end up as one entry. *)
Definition add_balance (t : WalletToken) (x : num) : WalletToken :=
  mkWalletToken (wt_mint t) (wt_symbol t) (wt_name t) (wt_image t) (num_plus (wt_balance t) x)
    (wt_decimals t) (wt_usdValue t).

Definition merge_token (m : list (string * WalletToken)) (t : WalletToken) : list (string * WalletToken) :=
  match map_get (wt_mint t) m with
  | Some e => map_set (wt_mint t) (add_balance e (wt_balance t)) m
  | None => map_set (wt_mint t) t m
  end.

Definition set_usdValue (prices : list (string * num)) (t : WalletToken) : WalletToken :=
  mkWalletToken (wt_mint t) (wt_symbol t) (wt_name t) (wt_image t) (wt_balance t) (wt_decimals t)
    (num_times (wt_balance t) (default (S754_zero false) (map_get (wt_mint t) prices))).

(** [sort((a, b) => b.usdValue - a.usdValue)]: greatest first, stable. *)
Fixpoint insert_by_value (t : WalletToken) (l : list WalletToken) : list WalletToken :=
  match l with
  | [] => [t]
  | u :: l => if SFltb (wt_usdValue t) (wt_usdValue u) then u :: insert_by_value t l else t :: u :: l
  end.
Definition sort_by_value (l : list WalletToken) : list WalletToken := fold_right insert_by_value [] l.

Definition mint_keys (byMintRaw : list (string * Z)) : Res (list PublicKey) :=
  mapM (fun e => keyOfString (fst e)) (filter (fun e => fst e <> "SOL") byMintRaw).

(** From the summed balances to the list. *)
Definition list_tokens (jupTokens : list (string * TokenInfo)) (byMintRaw : list (string * Z)) : M unit :=
  splMintKeys ← lift (mint_keys byMintRaw);
  mintInfos ← getMultipleAccountsInfoChunked splMintKeys 100;
  let decs := decimals_loop splMintKeys mintInfos [("SOL", 9)] in
  let unknownMints := filter (fun m => m <> "SOL" /\ map_get m jupTokens = None) (fst <$> byMintRaw) in
  extraMeta ← match unknownMints with [] => mret [] | _ => lookupJupiterMints unknownMints end;
  let meta m := match map_get m extraMeta with Some t => Some t | None => map_get m jupTokens end in
  let walletTokens := wallet_token meta decs <$> byMintRaw in
  let finalTokens := snd <$> fold_left merge_token walletTokens [] in
  prices ← settled (getJupiterPrices (wt_mint <$> finalTokens));
  let finalTokens := match prices with
                     | Ok prices => set_usdValue prices <$> finalTokens
                     | Throw _ => finalTokens
                     end in
  modify (set_tokens (sort_by_value finalTokens)).

Definition fetchTokens (publicKey : option PublicKey) : M unit :=
  match publicKey with
  | None => modify (set_tokens [])
  | Some owner =>
      or_else
        (modify (set_loading true) ;;
         jupTokens ← getJupiterTokens;
         v1 ← settled (f_owned owner false);
         v2022 ← settled (f_owned owner true);
         sol ← settled (f_lamports owner);
         let accounts := default [] (res_value v1) ++ default [] (res_value v2022) in
         let start := match sol with Ok v => if 0 <? v then [("SOL", v)] else [] | Throw _ => [] end in
         byMintRaw ← lift (sum_accounts accounts start);
         match byMintRaw with
         | [] => modify (set_tokens [])
         | _ => list_tokens jupTokens byMintRaw
         end) tt ;;
      modify (set_loading false)
  end.
End wallet.

(** ** Sums by mint *)

Section sums.
Context `{FrontServices}.

(** What one account adds to the balance of a mint. *)
Definition amount_in (m : string) (acc : AccountData) : Z :=
  match normalizeAccountData acc with
  | None => 0
  | Some data =>
      if Z.of_nat (length data) <? tokenAccountSpan then 0
      else match keyOfBytes (fst (accountLayoutDecode data)) with
           | Ok key => if String.eqb (toBase58 key) m
                       then Z.max 0 (decodeU64ToBigInt (snd (accountLayoutDecode data))) else 0
           | Throw _ => 0
           end
  end.

Definition total_in (m : string) (accounts : list AccountData) : Z :=
  foldr (fun acc t => amount_in m acc + t) 0 accounts.

Definition positive_entries (l : list (string * Z)) : Prop := forall m v, map_get m l = Some v -> 0 < v.

(** The entry of a mint is its balance, when there is any. *)
Definition entry_of (t : Z) : option Z := if 0 <? t then Some t else None.

Lemma entry_of_get (l : list (string * Z)) m :
  positive_entries l -> map_get m l = entry_of (default 0 (map_get m l)).
Proof.
  intros Hp. destruct (map_get m l) as [v|] eqn:E; [|done]. simpl. unfold entry_of.
  by rewrite (proj2 (Z.ltb_lt _ _)) by (by eapply Hp).
Qed.

Lemma total_nonneg m accounts : 0 <= total_in m accounts.
Proof.
  induction accounts as [|acc l IH]; simpl; [done|]. unfold amount_in at 1.
  destruct (normalizeAccountData acc); [|lia]. destruct (_ <? _); [lia|].
  destruct (keyOfBytes _); [|lia]. destruct (String.eqb _ _); lia.
Qed.

Lemma sum_accounts_spec accounts : forall start l,
  sum_accounts accounts start = Ok l -> map_wf start -> positive_entries start ->
  map_wf l /\ forall m, map_get m l = entry_of (default 0 (map_get m start) + total_in m accounts).
Proof.
  induction accounts as [|acc accounts IH]; intros start l E Hwf Hpos; cbn [sum_accounts] in E.
  { injection E as <-. split; [done|]. intros m. simpl. rewrite Z.add_0_r. by apply entry_of_get. }
  cbn [total_in foldr]. unfold amount_in at 1.
  destruct (normalizeAccountData acc) as [data|]; [|by apply IH].
  destruct (_ <? tokenAccountSpan); [by apply IH|].
  destruct (accountLayoutDecode data) as [mb am]. cbn [fst snd].
  destruct (keyOfBytes mb) as [key|]; [|done]. cbn in E.
  destruct (Z.leb_spec (decodeU64ToBigInt am) 0) as [Hle|Hgt].
  { destruct (IH _ _ E Hwf Hpos) as [Hl Hm]. split; [done|]. intros m. rewrite Hm.
    destruct (String.eqb _ _); f_equal; fold (total_in m accounts); lia. }
  destruct (IH _ _ E) as [Hl Hm].
  { by apply map_set_wf. }
  { intros m v. destruct (decide (m = toBase58 key)) as [->|Hne].
    - rewrite map_get_set. intros [= <-]. destruct (map_get (toBase58 key) start) as [v0|] eqn:E0; simpl; [|lia].
      specialize (Hpos _ _ E0). lia.
    - rewrite map_get_set_ne by done. apply Hpos. }
  split; [done|]. intros m. rewrite Hm. f_equal. fold (total_in m accounts).
  destruct (String.eqb_spec (toBase58 key) m) as [<-|Hne]; [rewrite map_get_set|rewrite map_get_set_ne by done]; simpl; lia.
Qed.
End sums.

(** ** The list *)

Section listing.
Context (WSOL_MINT : string).
Context (meta : string -> option TokenInfo) (decs : list (string * Z)).
Local Abbreviation wallet_token := (wallet_token WSOL_MINT meta decs).

Lemma wallet_token_mint m raw : m <> "SOL" -> wt_mint (wallet_token (m, raw)) = m.
Proof. intros Hm. unfold WalletTokens.wallet_token. by rewrite (proj2 (String.eqb_neq _ _) Hm). Qed.

Lemma wallet_token_balance m raw :
  wt_balance (wallet_token (m, raw)) = toUiAmount raw (wt_decimals (wallet_token (m, raw))).
Proof. unfold WalletTokens.wallet_token. by destruct (String.eqb m "SOL"). Qed.

(** The entries of the map are under their mints, once each. *)
Definition keyed (l : list (string * WalletToken)) : Prop :=
  map_wf l /\ forall m t, map_get m l = Some t -> wt_mint t = m.

Lemma merge_keyed l t : keyed l -> keyed (merge_token l t).
Proof.
  intros [Hwf Hk]. unfold merge_token. destruct (map_get (wt_mint t) l) as [e|] eqn:E;
    (split; [by apply map_set_wf|]); intros m u;
    (destruct (decide (m = wt_mint t)) as [->|Hne]; [rewrite map_get_set|rewrite map_get_set_ne by done; apply Hk]);
    intros [= <-]; [exact (Hk _ _ E)|done].
Qed.

Lemma merge_all_keyed ts l : keyed l -> keyed (fold_left merge_token ts l).
Proof. revert l. induction ts as [|t ts IH]; intros l Hl; [done|]. simpl. by apply IH, merge_keyed. Qed.

Lemma merge_other l t m : wt_mint t <> m -> map_get m (merge_token l t) = map_get m l.
Proof. intros Hne. unfold merge_token. destruct (map_get (wt_mint t) l); by apply map_get_set_ne. Qed.

(** Every mint but that of wrapped SOL, which also takes the native balance, has its entry
    as it was computed. *)
Lemma merged_get m by_mint : forall acc,
  m <> WSOL_MINT -> m <> "SOL" -> map_wf by_mint -> map_get m acc = None ->
  map_get m (fold_left merge_token (wallet_token <$> by_mint) acc) =
  (fun raw => wallet_token (m, raw)) <$> map_get m by_mint.
Proof.
  induction by_mint as [|[k raw] l IH]; intros acc HW HS Hwf Ha; [done|].
  apply NoDup_cons in Hwf as [Hk Hwf]. cbn [fmap list_fmap fold_left map_get].
  assert (forall acc t, map_get m acc = Some t -> m ∉ map fst l ->
    map_get m (fold_left merge_token (wallet_token <$> l) acc) = Some t) as Hkeep.
  { clear -HW HS. induction l as [|[k raw] l IHl]; intros acc t Ha Hn; [done|].
    cbn [fmap list_fmap fold_left map fst] in *.
    rewrite not_elem_of_cons in Hn. destruct Hn as [Hne Hn]. apply IHl; [|done].
    rewrite merge_other; [done|]. destruct (decide (k = "SOL")) as [->|Hs]; [by simpl|].
    rewrite wallet_token_mint; congruence. }
  destruct (String.eqb_spec m k) as [<-|Hne].
  - cbn [fmap option_fmap option_map]. apply Hkeep; [|done]. unfold merge_token. rewrite !wallet_token_mint, Ha by done. apply map_get_set.
  - apply IH; try done. rewrite merge_other; [done|].
    destruct (decide (k = "SOL")) as [->|Hs]; [by simpl|]. rewrite wallet_token_mint; congruence.
Qed.

(** *** Sorting *)

Definition not_less (t u : WalletToken) : Prop := SFltb (wt_usdValue t) (wt_usdValue u) = false.

Lemma insert_by_value_perm t l : insert_by_value t l ≡ₚ t :: l.
Proof.
  induction l as [|u l IH]; simpl; [done|]. destruct (SFltb _ _); [|done]. rewrite IH. apply Permutation_swap.
Qed.

Lemma sort_by_value_perm l : sort_by_value l ≡ₚ l.
Proof. induction l as [|t l IH]; simpl; [done|]. unfold sort_by_value in *. by rewrite insert_by_value_perm, IH. Qed.

Lemma insert_by_value_sorted t l : Sorted not_less l -> Sorted not_less (insert_by_value t l).
Proof.
  induction 1 as [|u l Hs IH Hhd]; simpl; [by repeat constructor|].
  destruct (SFltb (wt_usdValue t) (wt_usdValue u)) eqn:E.
  - constructor; [done|]. destruct l as [|v l]; simpl.
    + constructor. by apply SFltb_asym.
    + inversion Hhd; subst. destruct (SFltb (wt_usdValue t) (wt_usdValue v)); constructor; [done|by apply SFltb_asym].
  - constructor; [by constructor|]. by constructor.
Qed.

Lemma sort_by_value_sorted l : Sorted not_less (sort_by_value l).
Proof. induction l as [|t l IH]; simpl; [constructor|]. by apply insert_by_value_sorted. Qed.
End listing.

(** ** The hook *)

Section hook.
Context `{FrontServices} (WSOL_MINT API_KEY : string).
Local Abbreviation M := (M WalletState FWorld FEvent).

(** Everything but the end of [fetchTokens] leaves the shown list alone. *)
Definition same_list (s s' : WalletState) : Prop := tokens s' = tokens s.

#[local] Instance same_list_preorder : PreOrder same_list.
Proof. split; [done|]. unfold same_list. intros s1 s2 s3. congruence. Qed.

Local Abbreviation quiet := (framed same_list any_event).

Ltac quiet_step :=
  first [ apply framed_modify; by intros | framed_step | unfold_service | unfold f_tokenTag, f_owned, f_lamports ].
Ltac quiet := repeat first [ solve [auto with framed nocore] | quiet_step ].

Lemma quiet_price_call ids : quiet (price_call API_KEY ids).
Proof. apply framed_jupiter; [apply _|done|]. by apply framed_invoke; [apply _|]. Qed.
#[local] Hint Resolve quiet_price_call : framed.

Lemma quiet_prices mints : quiet (getJupiterPrices API_KEY mints).
Proof.
  unfold getJupiterPrices. quiet. generalize (chunk (s :: l0) PRICE_IDS_LIMIT). intros batches.
  revert l. induction batches as [|b batches IH]; intros l; cbn [fetch_batches]; unfold store_price; quiet.
Qed.

Lemma quiet_jupiterTokens : quiet getJupiterTokens.
Proof. unfold getJupiterTokens, fetch_verified. quiet. Qed.

Lemma quiet_lookup mints : quiet (lookupJupiterMints mints).
Proof. unfold lookupJupiterMints, lookup_chunk. quiet. Qed.

Lemma quiet_accounts keys n : quiet (getMultipleAccountsInfoChunked keys n).
Proof. unfold getMultipleAccountsInfoChunked. quiet. Qed.

(** What is shown, for the token accounts [accounts]. *)
Definition shows (accounts : list AccountData) (l : list WalletToken) : Prop :=
  NoDup (wt_mint <$> l) /\ Sorted not_less l /\
  forall m, m <> WSOL_MINT -> m <> "SOL" ->
    match entry_of (total_in m accounts) with
    | Some raw => exists t, t ∈ l /\ wt_mint t = m /\ wt_balance t = toUiAmount raw (wt_decimals t)
    | None => m ∉ wt_mint <$> l
    end.

Lemma keyed_mints l : keyed l -> wt_mint <$> (snd <$> l) = map fst l.
Proof.
  intros [Hwf Hk]. rewrite <- list_fmap_compose. apply list_fmap_ext. intros i [m t] Hi. simpl.
  apply Hk. apply map_get_elem; [done|]. by eapply list_elem_of_lookup_2.
Qed.

Lemma shows_merged meta decs accounts sol raw (f : WalletToken -> WalletToken) :
  (forall t, wt_mint (f t) = wt_mint t /\ wt_balance (f t) = wt_balance t /\ wt_decimals (f t) = wt_decimals t) ->
  sum_accounts accounts (match sol with Some v => [("SOL", v)] | None => [] end) = Ok raw ->
  (forall v, sol = Some v -> 0 < v) ->
  shows accounts (sort_by_value (f <$> (snd <$> fold_left merge_token (wallet_token WSOL_MINT meta decs <$> raw) []))).
Proof.
  intros Hf Er Hsol. set (start := match sol with Some v => _ | None => _ end) in Er.
  assert (map_wf start) as Hwf0.
  { subst start. unfold map_wf. destruct sol; simpl; [apply NoDup_singleton|constructor]. }
  assert (positive_entries start) as Hp0.
  { subst start. intros m v. destruct sol as [x|]; simpl; [|done]. destruct (String.eqb m "SOL"); [|done].
    intros [= <-]. by apply Hsol. }
  destruct (sum_accounts_spec accounts start raw Er Hwf0 Hp0) as [Hwf Hget].
  set (merged := fold_left merge_token _ _).
  assert (keyed merged) as Hk. { apply merge_all_keyed. split; [constructor|done]. }
  set (l := f <$> (snd <$> merged)).
  assert (wt_mint <$> l = map fst merged) as Em.
  { unfold l. rewrite <- (keyed_mints merged Hk), <- !list_fmap_compose. apply list_fmap_ext. intros i t _. simpl. apply Hf. }
  assert (wt_mint <$> sort_by_value l ≡ₚ map fst merged) as Ep by (rewrite sort_by_value_perm, Em; done).
  split; [rewrite Ep; apply Hk|]. split; [apply sort_by_value_sorted|].
  intros m HW HS.
  assert (map_get m start = None) as Hs0.
  { subst start. destruct sol; simpl; [by rewrite (proj2 (String.eqb_neq _ _) HS)|done]. }
  specialize (Hget m). rewrite Hs0 in Hget. cbn [default] in Hget. rewrite Z.add_0_l in Hget.
  pose proof (merged_get WSOL_MINT meta decs m raw [] HW HS Hwf eq_refl) as Hm. fold merged in Hm.
  rewrite Hget in Hm. destruct (entry_of (total_in m accounts)) as [x|]; cbn [fmap option_fmap option_map] in Hm.
  - exists (f (wallet_token WSOL_MINT meta decs (m, x))). destruct (Hf (wallet_token WSOL_MINT meta decs (m, x))) as (-> & -> & ->).
    split; [|split; [by apply wallet_token_mint|apply wallet_token_balance]].
    rewrite sort_by_value_perm. unfold l. apply list_elem_of_fmap_2, list_elem_of_fmap. exists (m, wallet_token WSOL_MINT meta decs (m, x)).
    split; [done|]. by apply map_get_elem, Hm; apply Hk.
  - rewrite Ep. intros Hin. apply list_elem_of_In, in_map_iff in Hin as ([m' t] & Ee & Hin). simpl in Ee. subst m'.
    apply list_elem_of_In, (map_get_elem _ _ _ (proj1 Hk)) in Hin. congruence.
Qed.

Lemma in_extends ev (P : FEvent -> Prop) (p q : Proc WalletState FWorld FEvent) :
  ev ∈ history p -> extends P p q -> ev ∈ history q.
Proof. intros Hin (evs & -> & _). apply elem_of_app. by right. Qed.

Lemma list_tokens_spec jup accounts sol raw (p : Proc WalletState FWorld FEvent) :
  sum_accounts accounts (match sol with Some v => [("SOL", v)] | None => [] end) = Ok raw ->
  (forall v, sol = Some v -> 0 < v) ->
  wp (list_tokens WSOL_MINT API_KEY jup raw) (fun _ q => extends any_event p q /\
    (tokens (local q) = tokens (local p) \/ shows accounts (tokens (local q)))) p.
Proof.
  intros Er Hsol. unfold list_tokens. do 2 wp_step. destruct (mint_keys raw) as [keys|e]; [|by split; [apply extends_refl|left]].
  wp_step. eapply (wp_framed same_list any_event); [apply quiet_accounts|].
  intros [infos|e] p1 E1 X1; [|by split; [|left]]. wp_step.
  match goal with |- wp ?m _ _ => assert (framed same_list any_event m) as Hx end.
  { destruct (filter _ _); [apply framed_ret, _|apply quiet_lookup]. }
  eapply (wp_framed same_list any_event); [exact Hx|].
  intros [extra|e] p2 E2 X2; [|split; [by eapply extends_trans|left; unfold same_list in *; congruence]].
  wp_step.
  match goal with |- wp (settled ?m) _ _ => assert (framed same_list any_event (settled m)) as Hx' end.
  { unfold settled. apply framed_try; [apply _| |intros; apply framed_ret, _].
    apply framed_bind; [apply _|apply quiet_prices|intros; apply framed_ret, _]. }
  eapply (wp_framed same_list any_event); [exact Hx'|].
  intros [prices|e] p3 E3 X3.
  - wp_step. split; [by eapply extends_trans; [|eapply extends_trans]|]. right. simpl.
    destruct prices as [prices|e].
    + apply (shows_merged _ _ accounts sol raw (set_usdValue prices)); [|done..]. intros t. by repeat split.
    + rewrite <- (list_fmap_id (snd <$> _)). by apply (shows_merged _ _ accounts sol raw id).
  - split; [by eapply extends_trans; [|eapply extends_trans]|]. left. unfold same_list in *. congruence.
Qed.

Lemma wp_settled {A} (call : FWorld -> Res A * FWorld) ev Q (p : Proc WalletState FWorld FEvent) :
  (forall r w, Q (Ok r) (mkProc (local p) w (ev r :: history p))) -> wp (settled (invoke call ev)) Q p.
Proof. intros HQ. unfold settled. do 2 wp_step. apply wp_invoke. intros [a|e] w; wp_step; apply HQ. Qed.

End hook.

(** ** Prices *)

Section prices.
Context `{FrontServices} (API_KEY : string).

Lemma chunk_from_spec {T} n : (0 < n)%nat -> forall fuel (l : list T), (length l <= fuel)%nat ->
  concat (chunk_from fuel l n) = l /\ Forall (fun c => (0 < length c <= n)%nat) (chunk_from fuel l n).
Proof.
  intros Hn. induction fuel as [|fuel IH]; intros l Hl; [destruct l; simpl in *; [by split|lia]|].
  destruct l as [|x l]; [by split|]. cbn [chunk_from concat].
  destruct (IH (drop n (x :: l))) as [Ec Hf]; [rewrite length_drop; simpl in *; lia|].
  split; [by rewrite Ec, take_drop|]. constructor; [|done]. rewrite length_take. simpl. lia.
Qed.

(** The batches hold every mint once, in order, at most [n] each. *)
Lemma chunk_spec {T} (l : list T) n : (0 < n)%nat ->
  concat (chunk l n) = l /\ Forall (fun c => (0 < length c <= n)%nat) (chunk l n).
Proof. intros Hn. by apply chunk_from_spec. Qed.

(** The price in the cache, while it is fresh. *)
Definition fresh_price (cache : list (string * (num * Z))) (now : Z) (m : string) : option num :=
  match map_get m cache with
  | Some (x, ts) => if now - ts <? CACHE_TTL_MS then Some x else None
  | None => None
  end.

Definition needed (cache : list (string * (num * Z))) (now : Z) (m : string) : Prop :=
  m <> "" /\ fresh_price cache now m = None.

#[local] Instance needed_dec cache now m : Decision (needed cache now m).
Proof. unfold needed. apply _. Defined.

(** The loop over the mints: those without a fresh price are collected, each once. *)
Lemma split_cached_toFetch cache now mints : forall result toFetch,
  snd (split_cached cache now mints result toFetch) = fold_left set_add (filter (needed cache now) mints) toFetch.
Proof.
  induction mints as [|m mints IH]; intros result toFetch; [done|]. cbn [split_cached].
  destruct (String.eqb_spec m "") as [->|Hne]; [rewrite filter_cons_False; [apply IH|by intros []]|].
  destruct (map_get m cache) as [[x ts]|] eqn:E; [destruct (now - ts <? CACHE_TTL_MS) eqn:Ef|]; rewrite IH.
  - rewrite filter_cons_False; [done|]. intros [_ Hf]. unfold fresh_price in Hf. by rewrite E, Ef in Hf.
  - rewrite filter_cons_True; [done|]. split; [done|]. unfold fresh_price. by rewrite E, Ef.
  - rewrite filter_cons_True; [done|]. split; [done|]. unfold fresh_price. by rewrite E.
Qed.

(** The others come from the cache. *)
Lemma split_cached_result cache now mints m : forall result toFetch,
  map_get m (fst (split_cached cache now mints result toFetch)) =
  if bool_decide (m ∈ mints /\ m <> "" /\ fresh_price cache now m <> None) then fresh_price cache now m else map_get m result.
Proof.
  induction mints as [|k mints IH]; intros result toFetch.
  { rewrite bool_decide_eq_false_2; [done|]. intros [Hin _]. by apply elem_of_nil in Hin. }
  cbn [split_cached].
  assert (m <> k \/ k = "" \/ fresh_price cache now k = None ->
    bool_decide (m ∈ k :: mints /\ m <> "" /\ fresh_price cache now m <> None) =
    bool_decide (m ∈ mints /\ m <> "" /\ fresh_price cache now m <> None)) as Hskip.
  { intros Hk. apply bool_decide_ext. rewrite elem_of_cons. naive_solver. }
  destruct (String.eqb_spec k "") as [->|Hne]; [by rewrite IH, Hskip by auto|].
  destruct (map_get k cache) as [[x ts]|] eqn:E; [destruct (now - ts <? CACHE_TTL_MS) eqn:Ef|]; rewrite IH.
  - assert (fresh_price cache now k = Some x) as Ek by (unfold fresh_price; by rewrite E, Ef).
    destruct (decide (m = k)) as [->|Hm]; [|rewrite Hskip by (by left); by rewrite map_get_set_ne by done].
    rewrite map_get_set, (bool_decide_eq_true_2 (k ∈ k :: mints /\ _)).
    + rewrite <- Ek. by destruct (bool_decide _).
    + rewrite Ek. split; [left|done].
  - rewrite Hskip; [done|]. right; right. unfold fresh_price. by rewrite E, Ef.
  - rewrite Hskip; [done|]. right; right. unfold fresh_price. by rewrite E.
Qed.

(** A request is for a batch of mints without a fresh price. *)
Definition asks (mints : list string) (cache : list (string * (num * Z))) (now : Z) (ev : FEvent) : Prop :=
  match ev with
  | FPrices ids _ => exists batch, ids = comma_join batch /\ (0 < length batch <= PRICE_IDS_LIMIT)%nat /\
      NoDup batch /\ Forall (fun m => m ∈ mints /\ needed cache now m) batch
  | FNow _ | FRandom _ | FSleep _ => True
  | _ => False
  end.

Definition positive_prices (l : list (string * num)) : Prop := forall m x, map_get m l = Some x -> positive_num x = true.

Definition cache_ok (s : WalletState) : Prop :=
  forall m x ts, map_get m (priceCache s) = Some (x, ts) -> positive_num x = true.

(** The retries of a request leave the state alone and repeat that request. *)
Lemma framed_price_call (P : FEvent -> Prop) ids :
  (forall ms, P (FSleep ms)) -> (forall x, P (FRandom x)) -> (forall r, P (FPrices ids r)) ->
  framed (@eq WalletState) P (price_call API_KEY ids).
Proof.
  intros Hs Hr Hp. unfold price_call, jupiterFetchJson. apply framed_bind; [apply _|by apply framed_lift, _|intros _].
  generalize (Z.to_nat (Z.max 0 (Z.min (default MAX_RETRIES None) 5))) as n.
  generalize 0%Z as attempt. intros attempt n. revert attempt.
  induction n as [|n IH]; intros attempt; cbn [jupiter_attempts];
    unfold jupiter_request, jupiter_catch, computeBackoffMs; repeat first [solve [auto] | framed_step | unfold_service].
Qed.

Lemma store_all now entries : forall result (q : Proc WalletState FWorld FEvent),
  positive_prices result -> cache_ok (local q) ->
  wp (for_acc entries (store_price now) result) (fun r q' => exists res, r = Ok res /\ positive_prices res /\
    cache_ok (local q') /\ history q' = history q /\ forall m x, map_get m result = Some x -> exists y, map_get m res = Some y) q.
Proof.
  induction entries as [|[k info] entries IH]; intros result q Hres Hc; cbn [for_acc].
  { wp_step. exists result. split_and!; eauto. }
  wp_step. unfold store_price. cbn [fst snd]. destruct (positive_num (price_of info)) eqn:Ep.
  - do 3 wp_step. eapply wp_mono; [apply IH|].
    + intros m x. destruct (decide (m = k)) as [->|Hm]; [rewrite map_get_set; by intros [= <-]|].
      rewrite map_get_set_ne by done. apply Hres.
    + intros m x ts. simpl. destruct (decide (m = k)) as [->|Hm]; [rewrite map_get_set; by intros [= <- _]|].
      rewrite map_get_set_ne by done. apply Hc.
    + intros r q' (res & -> & H1' & H2' & H3 & H4). exists res. split_and!; try done. intros m x Hx.
      destruct (decide (m = k)) as [->|Hm]; [eapply H4, map_get_set|]. eapply (H4 m x). by rewrite map_get_set_ne.
  - wp_step. by apply IH.
Qed.

(** A batch as the loop expects it. *)
Definition good_batch (mints : list string) (cache : list (string * (num * Z))) (now : Z) (b : list string) : Prop :=
  (0 < length b <= PRICE_IDS_LIMIT)%nat /\ NoDup b /\ Forall (fun m => m ∈ mints /\ needed cache now m) b.

Lemma batch_spec mints cache now b result (p : Proc WalletState FWorld FEvent) :
  good_batch mints cache now b -> positive_prices result -> cache_ok (local p) ->
  wp (settled (priceByMint ← price_call API_KEY (comma_join b);
               entries ← lift (object_entries priceByMint);
               for_acc entries (store_price now) result))
    (fun r q => exists r', r = Ok r' /\ extends (asks mints cache now) p q /\ cache_ok (local q) /\
       match r' with
       | Ok res => positive_prices res /\ forall m x, map_get m result = Some x -> exists y, map_get m res = Some y
       | Throw _ => True
       end) p.
Proof.
  intros Hb Hres Hc. unfold settled. do 3 wp_step.
  eapply (wp_framed eq (asks mints cache now)); [apply framed_price_call; try done; intros r; by exists b|].
  intros [j|e] q Eq X; [|wp_step; eexists; by rewrite <- Eq]. do 2 wp_step.
  destruct (object_entries j) as [entries|e]; [|wp_step; eexists; by rewrite <- Eq].
  eapply wp_mono; [apply store_all; [done|by rewrite <- Eq]|].
  intros r q' (res & -> & Hp & Hc' & Eh & Hk). wp_step. eexists. split; [done|]. split_and!; try done.
  destruct X as (evs & E & Hf). exists evs. by rewrite Eh.
Qed.

Lemma fetch_batches_spec mints cache now batches : forall result (p : Proc WalletState FWorld FEvent),
  Forall (good_batch mints cache now) batches -> positive_prices result -> cache_ok (local p) ->
  wp (fetch_batches API_KEY now batches result) (fun r q => exists res, r = Ok res /\ positive_prices res /\
    cache_ok (local q) /\ extends (asks mints cache now) p q /\
    forall m x, map_get m result = Some x -> exists y, map_get m res = Some y) p.
Proof.
  induction batches as [|b batches IH]; intros result p Hb Hres Hc; cbn [fetch_batches].
  { wp_step. exists result. split_and!; eauto using extends_refl. }
  apply Forall_cons in Hb as [Hb Hbs]. wp_step. eapply wp_mono; [by apply (batch_spec mints cache now b)|].
  intros r q (r' & -> & X & Hc' & Hr). destruct r' as [res|e].
  - destruct Hr as [Hp Hk]. eapply wp_mono; [by apply (IH res q)|].
    intros r q' (res' & -> & Hp' & Hc'' & X' & Hk'). exists res'. split_and!; try done; [by eapply extends_trans|].
    intros m x Hx. destruct (Hk m x Hx) as [y Hy]. eauto.
  - unfold f_now. do 5 wp_step.
    eapply (wp_mono _ (fun r q' => r = Ok tt /\ priceCache (local q') = priceCache (local q) /\
      history q' = FNow a :: history q)); [match goal with |- wp (if ?b then _ else _) _ _ => by destruct b; wp_step end|].
    intros r q' (-> & Ec & Eh). wp_step. exists result. split_and!; eauto.
    + intros m x ts. rewrite Ec. apply Hc'.
    + eapply extends_trans; [exact X|]. exists [FNow a]. rewrite Eh. by repeat constructor.
Qed.

(** Prices come from the cache while they are fresh, and otherwise from a request.  As long
    as the cache holds positive prices only, [getJupiterPrices] never throws, gives
    positive prices only, and keeps the cache so.  A mint whose cached price is less than 15
    seconds old gets a price without being asked for; the requests are for at most 50 mints
    each, distinct mints of the argument without a fresh price; and when every mint has one,
    there is no request. *)
Theorem prices_sound mints (p : Proc WalletState FWorld FEvent) :
  cache_ok (local p) ->
  wp (getJupiterPrices API_KEY mints) (fun r q => exists now res, r = Ok res /\ positive_prices res /\
    cache_ok (local q) /\ (exists evs, history q = evs ++ FNow now :: history p /\
      Forall (asks mints (priceCache (local p)) now) evs) /\
    (forall m, m ∈ mints -> m <> "" -> fresh_price (priceCache (local p)) now m <> None -> exists x, map_get m res = Some x) /\
    (Forall (fun m => ~ needed (priceCache (local p)) now m) mints -> history q = FNow now :: history p)) p.
Proof.
  intros Hc. unfold getJupiterPrices, f_now. do 4 wp_step. rename a into now. cbn [local].
  set (cache := priceCache (local p)).
  pose proof (split_cached_toFetch cache now mints [] []) as Ht.
  pose proof (fun m => split_cached_result cache now mints m [] []) as Hg.
  destruct (split_cached cache now mints [] []) as [result toFetch]. cbn [fst snd] in Ht, Hg.
  assert (positive_prices result) as Hp.
  { intros m x. rewrite Hg. destruct (bool_decide _); [|done]. unfold fresh_price. unfold cache.
    destruct (map_get m (priceCache (local p))) as [[y ts]|] eqn:E; [|done]. destruct (_ <? _); [|done].
    intros [= <-]. by eapply Hc. }
  assert (forall m, m ∈ mints -> m <> "" -> fresh_price cache now m <> None -> exists x, map_get m result = Some x) as Hfr.
  { intros m Hm Hne Hf. rewrite Hg, bool_decide_eq_true_2 by done. destruct (fresh_price cache now m); [by eexists|done]. }
  destruct toFetch as [|t ts] eqn:Et.
  { wp_step. exists now, result. split_and!; try done. by exists []. }
  eapply wp_mono; [apply (fetch_batches_spec mints cache now)|]; try done.
  - fold (set_of_list (filter (needed cache now) mints)) in Ht.
    destruct (chunk_spec (t :: ts) PRICE_IDS_LIMIT ltac:(unfold PRICE_IDS_LIMIT; lia)) as [Ec Hf].
    assert (NoDup (t :: ts)) as Hnd by (rewrite Ht; apply NoDup_set_of_list).
    rewrite Forall_forall in Hf |- *. intros b Hb. split; [by apply Hf|].
    apply list_elem_of_split in Hb as (l1 & l2 & El). rewrite El, concat_app in Ec. simpl in Ec.
    rewrite <- Ec in Hnd. apply NoDup_app in Hnd as (_ & _ & Hnd). apply NoDup_app in Hnd as (Hnd & _ & _).
    split; [done|]. apply Forall_forall. intros m Hm.
    assert (m ∈ t :: ts) as Hin by (rewrite <- Ec; set_solver).
    rewrite Ht, elem_of_set_of_list, list_elem_of_filter in Hin. tauto.
  - intros r q (res & -> & Hp' & Hc' & X & Hk). exists now, res. split_and!; try done.
    + intros m Hm Hne Hf. destruct (Hfr m Hm Hne Hf) as [x Hx]. eauto.
    + intros Hall. exfalso. rewrite (filter_drops _ _ Hall) in Ht. done.
Qed.

(** The verified list is asked for once: when that request has failed, the page never asks
    again. *)
Lemma verified_never_retried (p : Proc WalletState FWorld FEvent) :
  jupiterTokensCache (local p) = None -> fetchingJupiterTokens (local p) = true ->
  getJupiterTokens p = (Ok [], p).
Proof. intros E1 E2. unfold getJupiterTokens, gets, mbind, M_bind. simpl. by rewrite E1, E2; simpl; rewrite E1. Qed.

Lemma verified_fails_once (p : Proc WalletState FWorld FEvent) e w :
  jupiterTokensCache (local p) = None -> fetchingJupiterTokens (local p) = false ->
  fxTokenTag (world p) = (Throw e, w) ->
  exists q, getJupiterTokens p = (Ok [], q) /\ getJupiterTokens q = (Ok [], q).
Proof.
  intros E1 E2 Et. eexists. unfold getJupiterTokens at 1, fetch_verified, or_else, try_catch, gets, modify, mbind, M_bind. simpl.
  rewrite E1, E2. simpl. unfold f_tokenTag, invoke. simpl. rewrite Et. simpl. rewrite E1. split; [done|].
  by apply verified_never_retried.
Qed.
End prices.

(** ** A wallet with a cached price *)

Module WalletWitness.
#[local] Existing Instance ToyKeys.keys.
#[local] Existing Instance ToySolana.libs.
#[local] Existing Instance ToyBrowser.xlibs.
#[local] Existing Instance ToyBrowser.services.

Definition start : Proc WalletState (@FWorld _ _ _ ToyBrowser.services) FEvent :=
  @mkProc _ (@FWorld _ _ _ ToyBrowser.services) _ (mkWalletState None false [("mintA", (num_of_Z 2, 100))] 0 [] false)
    (ToyBrowser.mkScript 9000 [] [] [] 0 [] 0) [].

Lemma start_ok : cache_ok (local start).
Proof.
  intros m x ts. cbn. destruct (String.eqb m "mintA"); [|done]. intros [= <- <-]. vm_compute. reflexivity.
Qed.

(** Nine seconds later the price is still fresh: the clock is all that is asked. *)
Lemma prices_sound_witness :
  exists now res, fst (getJupiterPrices "key" ["mintA"] start) = Ok res /\ positive_prices res /\
    history (snd (getJupiterPrices "key" ["mintA"] start)) = [FNow now].
Proof.
  destruct (@prices_sound _ _ _ ToyBrowser.services "key" ["mintA"] start start_ok) as (now & res & Er & Hp & _ & (evs & E & _) & _ & Hh).
  exists now, res. split; [exact Er|]. split; [exact Hp|].
  assert (now = 9000) as ->.
  { assert (history (snd (getJupiterPrices "key" ["mintA"] start)) = [FNow 9000]) as E0 by reflexivity.
    rewrite E0 in E. destruct evs as [|? [|? ?]]; simpl in E; [by injection E as <-|discriminate E..]. }
  apply Hh. repeat constructor. intros [_ Hf]. discriminate Hf.
Defined.
End WalletWitness.
