(* ===== verification/DepositPanel.v ===== *)
(** * DepositPanel: the deposit form

    The state machine of src/src/components/DepositPanel.tsx: the amount as it is typed, the
    debounced Jupiter quote and its preview, the batch of up to three tokens, and what is
    handed to the [deposit] and [depositMany] of the jackpot hook.

    A quote is asked for half a second after the last change of its inputs; the answers come
    in any order, later than anything the user does meanwhile, so that the state carries the
    pending timer and the requests in flight.  What is drawn is not modelled. *)

From stdpp Require Import base list gmap strings pretty.
From Stdlib Require Import ZArith Lia Ascii SpecFloat.
From S2P Require Import Prelude JsRuntime Effects Solana DegenExecutor Browser History JackpotState JackpotDeposit WalletTokens.

Local Open Scope string_scope.
Local Open Scope list_scope.
Local Open Scope Z_scope.
Set Warnings "-clear-no-such-hyp".

#[export] Instance num_eq_dec : EqDecision num.
Proof. solve_decision. Defined.

(** ** Text and numbers *)

(** [value.replace(/,/g, '.')] *)
Fixpoint normalizeDecimalInput (s : string) : string :=
  match s with
  | EmptyString => EmptyString
  | String c rest => String (if (c =? ",")%char then "."%char else c) (normalizeDecimalInput rest)
  end.

(** The exponent at the start of a text; 0 when it has none. *)
Definition exponent_prefix (s : string) : Z :=
  match s with
  | String c rest =>
      if (c =? "e")%char || (c =? "E")%char then
        let '(neg, rest) :=
          match rest with
          | String d r => if (d =? "-")%char then (true, r)
                          else if (d =? "+")%char then (false, r) else (false, rest)
          | EmptyString => (false, rest)
          end in
        match read_digits 0 0 rest with
        | (v, S _, _) => if neg : bool then - v else v
        | _ => 0
        end
      else 0
  | EmptyString => 0
  end.

(** The decimal literal at the start of a text, NaN when there is none. *)
Definition decimal_prefix (neg : bool) (s : string) : num :=
  if String.prefix "Infinity" s then S754_infinity neg
  else
    let '(ip, ni, rest) := read_digits 0 0 s in
    let '(m, nf, rest') :=
      match rest with
      | String c r => if (c =? ".")%char then read_digits ip 0 r else (ip, 0%nat, rest)
      | EmptyString => (ip, 0%nat, rest)
      end in
    match (ni + nf)%nat with
    | O => S754_nan
    | _ => num_of_decimal neg m (exponent_prefix rest' - Z.of_nat nf)
    end.

Definition parseFloat (text : string) : num :=
  match trim_start text with
  | EmptyString => S754_nan
  | String c rest =>
      if (c =? "-")%char then decimal_prefix true rest
      else if (c =? "+")%char then decimal_prefix false rest
      else decimal_prefix false (String c rest)
  end.

(** [x || 0] *)
Definition or_zero (x : num) : num :=
  match x with S754_nan | S754_zero _ => S754_zero false | _ => x end.

(** [x <= y] and [x > y] *)
Definition num_le (x y : num) : bool := SFleb x y.
Definition num_gt (x y : num) : bool := SFltb y x.

Definition zero : num := S754_zero false.

(** [x.toFixed(d)] below 10^21: the integer nearest to [x * 10^d], a half rounds up. *)
Definition toFixed (x : num) (d : Z) : string :=
  match mantissa x with
  | None => match x with S754_nan => "NaN" | S754_infinity true => "-Infinity" | _ => "Infinity" end
  | Some (m, e) =>
      let n := if 0 <=? e then m * 2 ^ e * 10 ^ d else (2 * m * 10 ^ d + 2 ^ (- e)) / (2 * 2 ^ (- e)) in
      pretty (n / 10 ^ d) +:+ (if d =? 0 then "" else "." +:+ padStart0 (Z.to_nat d) (pretty (n mod 10 ^ d)))
  end.

(** [String(x)]: the shortest digits [s] and the position [n] of the point such that
    [s * 10^(n-k)], [k] digits, reads back as the number. *)
Definition point_of (N D : Z) : Z :=
  if D <=? N then Z.of_nat (String.length (pretty (N / D))) else 1 - Z.of_nat (String.length (pretty ((D - 1) / N))).

Fixpoint shortest (fuel : nat) (x : num) (N D n k : Z) : Z * Z :=
  let scale_up := 10 ^ Z.max 0 (k - n) in
  let scale_down := 10 ^ Z.max 0 (n - k) in
  let below := N * scale_up / (D * scale_down) in
  let nearer := if 2 * (N * scale_up - below * (D * scale_down)) <=? D * scale_down then below else below + 1 in
  let other := if nearer =? below then below + 1 else below in
  let fits s := bool_decide (num_of_decimal false s (n - k) = x) in
  match fuel with
  | O => (nearer, k)
  | S fuel => if fits nearer then (nearer, k) else if fits other then (other, k) else shortest fuel x N D n (k + 1)
  end.

Definition zeros (n : Z) : string := padStart0 (Z.to_nat n) "".

Definition num_digits (s k n : Z) : string :=
  let t := pretty s in
  if (k <=? n) && (n <=? 21) then t +:+ zeros (n - k)
  else if (0 <? n) && (n <=? 21) then String.substring 0 (Z.to_nat n) t +:+ "." +:+ String.substring (Z.to_nat n) (Z.to_nat k) t
  else if (-6 <? n) && (n <=? 0) then "0." +:+ zeros (- n) +:+ t
  else String.substring 0 1 t +:+ (if k =? 1 then "" else "." +:+ String.substring 1 (Z.to_nat k) t) +:+
       "e" +:+ (if 0 <=? n - 1 then "+" else "-") +:+ pretty (Z.abs (n - 1)).

Definition num_text (x : num) : string :=
  match x with
  | S754_nan => "NaN"
  | S754_infinity s => if s then "-Infinity" else "Infinity"
  | S754_zero _ => "0"
  | S754_finite neg m e =>
      let N := Z.pos m * 2 ^ Z.max 0 e in
      let D := 2 ^ Z.max 0 (- e) in
      let n := point_of N D in
      let '(s, k) := shortest 17 (S754_finite false m e) N D n 1 in
      (if neg then "-" else "") +:+ (if s =? 10 ^ k then num_digits 1 1 (n + 1) else num_digits s k n)
  end.

Definition floorToDecimals (value : num) (decimals : Z) : num :=
  let factor := num_of_Z (10 ^ decimals) in
  match num_floor (num_times value factor) with
  | Some n => num_over (num_of_Z n) factor
  | None => num_times value factor
  end.

Fixpoint all_zeros (s : string) : bool :=
  match s with EmptyString => true | String c rest => (c =? "0")%char && all_zeros rest end.

(** Whether [/^\.?0+$/] matches. *)
Definition zero_tail (s : string) : bool :=
  let s := match s with String "."%char rest => rest | _ => s end in
  negb (String.eqb s "") && all_zeros s.

(** [s.replace(/\.?0+$/, '')]: the leftmost match. *)
Fixpoint strip_zeros (s : string) : string :=
  if zero_tail s then EmptyString
  else match s with EmptyString => EmptyString | String c rest => String c (strip_zeros rest) end.

Definition formatQuickFillAmount (value : num) (decimals : Z) : string :=
  strip_zeros (toFixed (floorToDecimals value decimals) decimals).

(** [v.replace(/[^0-9.]/g, '')] *)
Fixpoint keep_decimal (s : string) : string :=
  match s with
  | EmptyString => EmptyString
  | String c rest => if is_digit c || (c =? ".")%char then String c (keep_decimal rest) else keep_decimal rest
  end.

(** ** Data *)

Inductive InputMode := ModeToken | ModeUsdc.

#[export] Instance InputMode_eq_dec : EqDecision InputMode.
Proof. solve_decision. Defined.

(** Without the label of the route, which is only drawn. *)
Record QuotePreview := mkPreview {
  qp_outAmount : num;
  qp_minReceived : num;
  qp_tickets : option Z;
  qp_priceImpact : string;
  qp_inAmount : num;
  qp_inputDecimals : Z;
  qp_quote : Jup.JupiterQuote
}.

Record BatchLeg := mkBatchLeg {
  bl_amount : num;
  bl_mint : string;
  bl_quote : option Jup.JupiterQuote;
  bl_symbol : string;
  bl_estimatedUsdc : num
}.

Record PanelProps := mkPanelProps {
  pp_disabled : bool;
  pp_loading : bool;
  pp_usdcBalance : num;
  pp_tokens : list WalletToken;
  pp_batch : bool                     (* whether [onDepositMany] is given *)
}.

(** The arguments of [fetchQuote], with the slippage of its closure. *)
Record QuoteArgs := mkQuoteArgs {
  qa_amt : num;
  qa_mint : string;
  qa_mode : InputMode;
  qa_decimals : Z;
  qa_slippageBps : Z
}.

Record Panel := mkPanel {
  amount : string;
  selectedMint : string;
  quotePreview : option QuotePreview;
  quoteLoading : bool;
  inputMode : InputMode;
  slippageBps : Z;
  customSlippage : string;
  batchLegs : list BatchLeg;
  debounce : option QuoteArgs;
  inflight : list QuoteArgs
}.

Definition set_amount (p : Panel) (a : string) : Panel :=
  mkPanel a (selectedMint p) (quotePreview p) (quoteLoading p) (inputMode p) (slippageBps p) (customSlippage p) (batchLegs p) (debounce p) (inflight p).
Definition set_mint (p : Panel) (m : string) : Panel :=
  mkPanel (amount p) m (quotePreview p) (quoteLoading p) (inputMode p) (slippageBps p) (customSlippage p) (batchLegs p) (debounce p) (inflight p).
Definition set_preview (p : Panel) (q : option QuotePreview) : Panel :=
  mkPanel (amount p) (selectedMint p) q (quoteLoading p) (inputMode p) (slippageBps p) (customSlippage p) (batchLegs p) (debounce p) (inflight p).
Definition set_quoteLoading (p : Panel) (b : bool) : Panel :=
  mkPanel (amount p) (selectedMint p) (quotePreview p) b (inputMode p) (slippageBps p) (customSlippage p) (batchLegs p) (debounce p) (inflight p).
Definition set_mode (p : Panel) (m : InputMode) : Panel :=
  mkPanel (amount p) (selectedMint p) (quotePreview p) (quoteLoading p) m (slippageBps p) (customSlippage p) (batchLegs p) (debounce p) (inflight p).
Definition set_slippage (p : Panel) (bps : Z) (custom : string) : Panel :=
  mkPanel (amount p) (selectedMint p) (quotePreview p) (quoteLoading p) (inputMode p) bps custom (batchLegs p) (debounce p) (inflight p).
Definition set_legs (p : Panel) (l : list BatchLeg) : Panel :=
  mkPanel (amount p) (selectedMint p) (quotePreview p) (quoteLoading p) (inputMode p) (slippageBps p) (customSlippage p) l (debounce p) (inflight p).
Definition set_debounce (p : Panel) (d : option QuoteArgs) : Panel :=
  mkPanel (amount p) (selectedMint p) (quotePreview p) (quoteLoading p) (inputMode p) (slippageBps p) (customSlippage p) (batchLegs p) d (inflight p).
Definition set_inflight (p : Panel) (l : list QuoteArgs) : Panel :=
  mkPanel (amount p) (selectedMint p) (quotePreview p) (quoteLoading p) (inputMode p) (slippageBps p) (customSlippage p) (batchLegs p) (debounce p) l.

(** What leaves the panel. *)
Inductive PanelOutput :=
| OQuote (r : Jup.QuoteRequest)
| ODeposit (amount : num) (mint : string) (quote : option Jup.JupiterQuote)
| ODepositMany (legs : list DepositLegInput).

Inductive PanelEvent :=
| NewProps (pp : PanelProps)
| Typed (value : string)
| QuickFill (pct : num)
| SelectToken (mint : string)
| ToggleMode
| PresetSlippage (bps : Z)
| CustomSlippage (value : string)
| ClickDeposit
| ClickAdd
| ClickRemove (mint : string)
| ClickEdit (mint : string)
| ClickBatch
| TimerFires
| Answer (n : nat) (r : Res Jup.JupiterQuote).

Section panel.
(** The mint of USDC. *)
Context (USDC_MINT : string).

Definition initial_panel : Panel := mkPanel "" USDC_MINT None false ModeToken 100 "" [] None [].

Definition TICKET_UNIT : Z := 10000.
Definition MIN_DEPOSIT_USDC : num := num_of_Z 1.

(** ** Derived values *)

Definition selectedToken (pp : PanelProps) (p : Panel) : option WalletToken :=
  snd <$> list_find (fun t => wt_mint t = selectedMint p) (pp_tokens pp).

Definition isUsdc (p : Panel) : bool := String.eqb (selectedMint p) USDC_MINT.

Definition balance (pp : PanelProps) (p : Panel) : num :=
  match selectedToken pp p with
  | Some t => wt_balance t
  | None => if isUsdc p then pp_usdcBalance pp else zero
  end.

Definition tokenSymbol (t : WalletToken) : string :=
  if String.eqb (wt_mint t) USDC_MINT then "USDC" else wt_symbol t.

Definition symbol (pp : PanelProps) (p : Panel) : string :=
  match selectedToken pp p with Some t => tokenSymbol t | None => "USDC" end.

Definition tokenDecimals (pp : PanelProps) (p : Panel) : Z :=
  match selectedToken pp p with Some t => wt_decimals t | None => 9 end.

Definition numAmount (p : Panel) : num := or_zero (parseFloat (normalizeDecimalInput (amount p))).

Definition belowMinimum (p : Panel) : bool :=
  num_gt (numAmount p) zero &&
  (if isUsdc p then num_gt MIN_DEPOSIT_USDC (numAmount p)
   else match quotePreview p with Some q => num_gt MIN_DEPOSIT_USDC (qp_outAmount q) | None => false end).

(** [quotePreview ? quotePreview.inAmount > balance : false] *)
Definition cost_exceeds (pp : PanelProps) (p : Panel) : bool :=
  match quotePreview p with Some q => num_gt (qp_inAmount q) (balance pp p) | None => false end.

Definition exceedsBalance (pp : PanelProps) (p : Panel) : bool :=
  num_gt (numAmount p) zero &&
  (if isUsdc p then num_gt (numAmount p) (balance pp p)
   else match inputMode p with
        | ModeToken => num_gt (numAmount p) (balance pp p)
        | ModeUsdc => cost_exceeds pp p
        end).

Definition depositDisabled (pp : PanelProps) (p : Panel) : bool :=
  pp_disabled pp || pp_loading pp || num_le (numAmount p) zero || belowMinimum p ||
  (if isUsdc p then exceedsBalance pp p
   else match inputMode p with
        | ModeToken => exceedsBalance pp p
        | ModeUsdc => match quotePreview p with Some _ => exceedsBalance pp p | None => true end
        end).

Definition in_batch (p : Panel) : bool := bool_decide (selectedMint p ∈ bl_mint <$> batchLegs p).

Definition addToBatchDisabled (pp : PanelProps) (p : Panel) : bool :=
  negb (pp_batch pp) || depositDisabled pp p || quoteLoading p ||
  ((MAX_MULTI_DEPOSIT_LEGS <=? length (batchLegs p))%nat && negb (in_batch p)) ||
  (if isUsdc p then false else match quotePreview p with Some _ => false | None => true end).

Definition batchDepositDisabled (pp : PanelProps) (p : Panel) : bool :=
  negb (pp_batch pp) || pp_disabled pp || pp_loading pp || quoteLoading p ||
  match batchLegs p with [] => true | _ => false end.

Definition hasUnsavedBatchDraft (pp : PanelProps) (p : Panel) : bool :=
  pp_batch pp && match batchLegs p with [] => false | _ => true end && num_gt (numAmount p) zero.

Definition batchDepositDisabledSafe (pp : PanelProps) (p : Panel) : bool :=
  batchDepositDisabled pp p || hasUnsavedBatchDraft pp p.

Definition batchEstimatedUsdc (p : Panel) : num :=
  fold_left (fun sum leg => num_plus sum (bl_estimatedUsdc leg)) (batchLegs p) zero.

Definition batchEstimatedTickets (p : Panel) : option Z :=
  num_floor (num_over (num_times (batchEstimatedUsdc p) (num_of_Z 1000000)) (num_of_Z TICKET_UNIT)).

(** ** Quotes *)

(** [quote.routePlan.map(r => r.swapInfo.label)] does not throw. *)
Definition route_ok (route : Json) : bool :=
  match route with
  | JArr l => forallb (fun r => match json_field r "swapInfo" with Some JNull | None => false | Some _ => true end) l
  | _ => false
  end.

Definition quote_request (a : QuoteArgs) : Jup.QuoteRequest :=
  match qa_mode a with
  | ModeToken => Jup.mkQuoteRequest (qa_mint a) USDC_MINT
      (floor_text (num_times (qa_amt a) (num_of_Z (10 ^ qa_decimals a)))) (qa_slippageBps a) "ExactIn"
  | ModeUsdc => Jup.mkQuoteRequest (qa_mint a) USDC_MINT
      (floor_text (num_times (qa_amt a) (num_of_Z (10 ^ 6)))) (qa_slippageBps a) "ExactOut"
  end.

(** [fetchQuote] up to its [await]. *)
Definition fetchQuote (a : QuoteArgs) (p : Panel) : Panel * list PanelOutput :=
  if num_le (qa_amt a) zero || String.eqb (qa_mint a) USDC_MINT then (set_preview p None, [])
  else (set_inflight (set_quoteLoading p true) (inflight p ++ [a]), [OQuote (quote_request a)]).

Definition preview_of (a : QuoteArgs) (q : Jup.JupiterQuote) : QuotePreview :=
  let outUsdc := num_over (Number (Jup.outAmount q)) (num_of_Z (10 ^ 6)) in
  mkPreview outUsdc (num_over (Number (Jup.otherAmountThreshold q)) (num_of_Z (10 ^ 6)))
    (num_floor (num_over (num_times outUsdc (num_of_Z 1000000)) (num_of_Z TICKET_UNIT)))
    (Jup.priceImpactPct q) (num_over (Number (Jup.inAmount q)) (num_of_Z (10 ^ qa_decimals a)))
    (qa_decimals a) q.

(** [fetchQuote] after it. *)
Definition quote_answered (a : QuoteArgs) (r : Res Jup.JupiterQuote) (p : Panel) : Panel :=
  let p := set_preview p (match r with
                          | Ok q => if route_ok (Jup.routePlan q) then Some (preview_of a q) else None
                          | Throw _ => None
                          end) in
  set_quoteLoading p false.

(** ** Handlers *)

Definition handleDeposit (pp : PanelProps) (p : Panel) : Panel * list PanelOutput :=
  if num_le (numAmount p) zero || belowMinimum p then (p, [])
  else if bool_decide (inputMode p = ModeToken) && num_gt (numAmount p) (balance pp p) then (p, [])
  else if bool_decide (inputMode p = ModeUsdc) && cost_exceeds pp p then (p, [])
  else (set_preview (set_amount p "") None,
        [ODeposit (numAmount p) (selectedMint p) (qp_quote <$> quotePreview p)]).

Definition handleSelectToken (mint : string) (p : Panel) : Panel :=
  set_mode (set_preview (set_amount (set_mint p mint) "") None) ModeToken.

(** [upsertBatchLeg]: an entry of the same mint gets the sum of the amounts and the latest
    quote. *)
Fixpoint upsertBatchLeg (next : BatchLeg) (legs : list BatchLeg) : list BatchLeg :=
  match legs with
  | [] => [next]
  | current :: legs =>
      if String.eqb (bl_mint current) (bl_mint next)
      then mkBatchLeg (num_plus (bl_amount current) (bl_amount next)) (bl_mint current)
             (match bl_quote next with Some q => Some q | None => bl_quote current end)
             (bl_symbol current) (num_plus (bl_estimatedUsdc current) (bl_estimatedUsdc next)) :: legs
      else current :: upsertBatchLeg next legs
  end.

Definition handleAddToBatch (pp : PanelProps) (p : Panel) : Panel :=
  if negb (pp_batch pp) || num_le (numAmount p) zero then p
  else if bool_decide (inputMode p = ModeToken) && num_gt (numAmount p) (balance pp p) then p
  else if bool_decide (inputMode p = ModeUsdc) && cost_exceeds pp p then p
  else if negb (isUsdc p) && match quotePreview p with Some _ => false | None => true end then p
  else
    let amountForLeg :=
      if isUsdc p then numAmount p
      else match inputMode p, quotePreview p with
           | ModeUsdc, Some q => qp_inAmount q
           | _, _ => numAmount p
           end in
    let estimatedUsdc :=
      if isUsdc p then numAmount p
      else match quotePreview p with Some q => qp_outAmount q | None => zero end in
    if negb (in_batch p) && (MAX_MULTI_DEPOSIT_LEGS <=? length (batchLegs p))%nat then p
    else
      let leg := mkBatchLeg amountForLeg (selectedMint p) (qp_quote <$> quotePreview p) (symbol pp p) estimatedUsdc in
      set_mode (set_preview (set_amount (set_legs p (upsertBatchLeg leg (batchLegs p))) "") None) ModeToken.

Definition removeBatchLeg (mint : string) (p : Panel) : Panel :=
  set_legs p (filter (fun l => bl_mint l <> mint) (batchLegs p)).

Definition editBatchLeg (mint : string) (p : Panel) : Panel :=
  match snd <$> list_find (fun l => bl_mint l = mint) (batchLegs p) with
  | None => p
  | Some leg =>
      removeBatchLeg mint
        (set_preview (set_mode (set_amount (set_mint p (bl_mint leg)) (num_text (bl_amount leg))) ModeToken) None)
  end.

Definition handleDepositBatch (pp : PanelProps) (p : Panel) : Panel * list PanelOutput :=
  match pp_batch pp, batchLegs p with
  | false, _ | _, [] => (p, [])
  | true, legs =>
      (set_preview (set_amount (set_legs p []) "") None,
       [ODepositMany ((fun l => mkLeg (bl_amount l) (Some (bl_mint l)) (bl_quote l)) <$> legs)])
  end.

Definition toggleInputMode (p : Panel) : Panel :=
  set_preview (set_amount (set_mode p (match inputMode p with ModeToken => ModeUsdc | ModeUsdc => ModeToken end)) "") None.

Definition typeCustomSlippage (value : string) (p : Panel) : Panel :=
  let v := keep_decimal (normalizeDecimalInput value) in
  let n := parseFloat v in
  set_slippage p
    (if num_gt n zero && num_le n (num_of_Z 50)
     then default (slippageBps p) (num_round (num_times n (num_of_Z 100))) else slippageBps p) v.

(** ** Effects *)

(** The inputs of the quote. *)
Definition quote_args (pp : PanelProps) (p : Panel) : QuoteArgs :=
  mkQuoteArgs (numAmount p) (selectedMint p) (inputMode p) (tokenDecimals pp p) (slippageBps p).

#[export] Instance QuoteArgs_eq_dec : EqDecision QuoteArgs.
Proof. solve_decision. Defined.

(** After a render: switching to USDC resets the mode; when an input of the quote has
    changed, the timer is cleared and, if there is something to quote, set again. *)
Definition mode_effect (old new : Panel) : Panel :=
  if negb (Bool.eqb (isUsdc old) (isUsdc new)) && isUsdc new then set_mode new ModeToken else new.

Definition quote_effect (old_args : QuoteArgs) (pp : PanelProps) (p : Panel) : Panel :=
  if bool_decide (quote_args pp p = old_args) then p
  else
    let p := set_debounce p None in
    if isUsdc p || num_le (numAmount p) zero then set_preview p None
    else set_debounce p (Some (quote_args pp p)).

(** ** Steps *)

(** The panel with its props. *)
Record Mounted := mkMounted { panel : Panel; pprops : PanelProps }.

(** What the handler of an event does, its button enabled or not. *)
Definition react (pp : PanelProps) (ev : PanelEvent) (p : Panel) : Panel * list PanelOutput :=
  let inert := pp_disabled pp || pp_loading pp in
  match ev with
  | NewProps _ => (p, [])
  | Typed value => (if inert then p else set_amount p (normalizeDecimalInput value), [])
  | QuickFill pct =>
      (if inert || num_le (balance pp p) zero || bool_decide (inputMode p = ModeUsdc) then p
       else set_amount p (formatQuickFillAmount (num_times (balance pp p) pct)
              (if isUsdc p then 2 else Z.min 6 (tokenDecimals pp p))), [])
  | SelectToken mint => (handleSelectToken mint p, [])
  | ToggleMode => (if isUsdc p then p else toggleInputMode p, [])
  | PresetSlippage bps => (set_slippage p bps "", [])
  | CustomSlippage value => (typeCustomSlippage value p, [])
  | ClickDeposit => if depositDisabled pp p || quoteLoading p then (p, []) else handleDeposit pp p
  | ClickAdd => (if addToBatchDisabled pp p then p else handleAddToBatch pp p, [])
  | ClickRemove mint => (removeBatchLeg mint p, [])
  | ClickEdit mint => (editBatchLeg mint p, [])
  | ClickBatch => if batchDepositDisabledSafe pp p then (p, []) else handleDepositBatch pp p
  | TimerFires =>
      match debounce p with
      | Some a => fetchQuote a (set_debounce p None)
      | None => (p, [])
      end
  | Answer n r =>
      match inflight p !! n with
      | Some a => (quote_answered a r (set_inflight p (delete n (inflight p))), [])
      | None => (p, [])
      end
  end.

Definition panel_step (m : Mounted) (ev : PanelEvent) : Mounted * list PanelOutput :=
  let pp := match ev with NewProps pp => pp | _ => pprops m end in
  let '(p, out) := react (pprops m) ev (panel m) in
  (mkMounted (quote_effect (quote_args (pprops m) (panel m)) pp (mode_effect (panel m) p)) pp, out).

Fixpoint run_panel (m : Mounted) (evs : list PanelEvent) : Mounted * list PanelOutput :=
  match evs with
  | [] => (m, [])
  | ev :: evs =>
      let '(m, out) := panel_step m ev in
      let '(m, out') := run_panel m evs in
      (m, out ++ out')
  end.

(** ** The invariant *)

(** There is something to quote. *)
Definition quotable (p : Panel) : Prop := isUsdc p = false /\ num_le (numAmount p) zero = false.

Definition legs_ok (legs : list BatchLeg) : Prop :=
  NoDup (bl_mint <$> legs) /\ (length legs <= MAX_MULTI_DEPOSIT_LEGS)%nat /\
  Forall (fun l => bl_mint l = USDC_MINT \/ is_Some (bl_quote l)) legs.

(** A pending timer is for the inputs of the panel as they are. *)
Definition panel_ok (m : Mounted) : Prop :=
  (forall a, debounce (panel m) = Some a -> a = quote_args (pprops m) (panel m) /\ quotable (panel m)) /\
  legs_ok (batchLegs (panel m)).

Inductive reachable : Mounted -> Prop :=
| reach_mount pp : reachable (mkMounted initial_panel pp)
| reach_step m ev : reachable m -> reachable (fst (panel_step m ev)).

Lemma upsert_mints next legs :
  bl_mint <$> upsertBatchLeg next legs =
  if bool_decide (bl_mint next ∈ bl_mint <$> legs) then bl_mint <$> legs else (bl_mint <$> legs) ++ [bl_mint next].
Proof.
  induction legs as [|l legs IH]; [done|]. cbn [upsertBatchLeg].
  destruct (String.eqb_spec (bl_mint l) (bl_mint next)) as [E|Hne].
  - rewrite bool_decide_eq_true_2; [done|]. rewrite fmap_cons, E. left.
  - rewrite !fmap_cons, IH. destruct (bool_decide (bl_mint next ∈ bl_mint <$> legs)) eqn:Eb.
    + apply bool_decide_eq_true_1 in Eb. rewrite bool_decide_eq_true_2; [done|]. by right.
    + apply bool_decide_eq_false_1 in Eb. rewrite bool_decide_eq_false_2; [done|].
      rewrite elem_of_cons. naive_solver.
Qed.

Lemma empty_legs_ok : legs_ok [].
Proof. split; [constructor|split; [unfold MAX_MULTI_DEPOSIT_LEGS; simpl; lia|constructor]]. Qed.

Lemma upsert_ok next legs :
  legs_ok legs -> bl_mint next = USDC_MINT \/ is_Some (bl_quote next) ->
  bl_mint next ∈ bl_mint <$> legs \/ (length legs < MAX_MULTI_DEPOSIT_LEGS)%nat -> legs_ok (upsertBatchLeg next legs).
Proof.
  intros (Hnd & Hlen & Hq) Hn Hroom. assert (length (upsertBatchLeg next legs) = length (bl_mint <$> upsertBatchLeg next legs)) as El
    by (by rewrite length_fmap).
  split; [|split].
  - rewrite upsert_mints. case_bool_decide as Hin; [done|]. apply NoDup_app. split; [done|]. split; [|apply NoDup_singleton].
    intros x Hx Hx'. apply list_elem_of_singleton in Hx'. by subst.
  - rewrite El, upsert_mints. case_bool_decide as Hin; [by rewrite length_fmap|].
    rewrite length_app, length_fmap. simpl. destruct Hroom; [done|lia].
  - clear -Hq Hn. induction Hq as [|l legs Hl Hq IH]; cbn [upsertBatchLeg]; [by constructor|].
    destruct (String.eqb_spec (bl_mint l) (bl_mint next)) as [E|Hne]; constructor; try done. simpl.
    destruct (bl_quote next); [right; by eexists|]. by destruct Hl; [left|right].
Qed.

Lemma filter_legs_ok (P : BatchLeg -> Prop) `{forall l, Decision (P l)} legs : legs_ok legs -> legs_ok (filter P legs).
Proof.
  intros (Hnd & Hlen & Hq). split; [|split].
  - eapply sublist_NoDup; [exact Hnd|]. apply fmap_sublist, sublist_filter.
  - pose proof (length_filter P legs). lia.
  - rewrite Forall_forall in *. intros l Hin. apply list_elem_of_filter in Hin as [_ Hin]. by apply Hq.
Qed.

Lemma add_to_batch_ok pp p : legs_ok (batchLegs p) -> legs_ok (batchLegs (handleAddToBatch pp p)).
Proof.
  intros Hl. unfold handleAddToBatch. destruct (_ || _); [done|]. destruct (_ && num_gt _ _); [done|].
  destruct (_ && cost_exceeds _ _); [done|]. destruct (negb (isUsdc p) && _) eqn:Eq; [done|].
  destruct (negb (in_batch p) && _) eqn:Ef; [done|]. cbn [batchLegs set_mode set_preview set_amount set_legs].
  apply upsert_ok; [done| |]; cbn [bl_mint bl_quote].
  - apply andb_false_iff in Eq as [Eu|Eq].
    + left. apply negb_false_iff in Eu. by apply String.eqb_eq in Eu.
    + right. destruct (quotePreview p); [by eexists|done].
  - apply andb_false_iff in Ef as [Ei|Ef].
    + left. apply negb_false_iff in Ei. by apply bool_decide_eq_true_1 in Ei.
    + right. by apply Nat.leb_gt in Ef.
Qed.

Lemma edit_ok mint p : legs_ok (batchLegs p) -> legs_ok (batchLegs (editBatchLeg mint p)).
Proof.
  intros Hl. unfold editBatchLeg. destruct (snd <$> _); [|done].
  cbn [removeBatchLeg batchLegs set_legs set_preview set_mode set_amount set_mint]. by apply filter_legs_ok.
Qed.

(** A handler never sets the timer. *)
Lemma react_debounce pp ev p : debounce (fst (react pp ev p)) = debounce p \/ debounce (fst (react pp ev p)) = None.
Proof.
  destruct ev; cbn [react]; unfold handleDeposit, handleAddToBatch, editBatchLeg, handleDepositBatch, fetchQuote,
    quote_answered, handleSelectToken, toggleInputMode, typeCustomSlippage, removeBatchLeg;
    repeat case_match; cbn; auto.
Qed.

Lemma react_legs pp ev p : legs_ok (batchLegs p) -> legs_ok (batchLegs (fst (react pp ev p))).
Proof.
  intros Hl. destruct ev; cbn [react fst]; try by (repeat case_match; cbn).
  - unfold handleDeposit. by repeat case_match.
  - case_match; [done|]. by apply add_to_batch_ok.
  - by apply filter_legs_ok.
  - by apply edit_ok.
  - unfold handleDepositBatch. case_match; [done|]. destruct (pp_batch pp); [|done]. destruct (batchLegs p) eqn:E; [by rewrite <- E in Hl|].
    exact empty_legs_ok.
  - unfold fetchQuote. by repeat case_match.
Qed.

Lemma mode_effect_keeps old p :
  debounce (mode_effect old p) = debounce p /\ batchLegs (mode_effect old p) = batchLegs p.
Proof. unfold mode_effect. by case_match. Qed.

(** After its effect, the timer is for the inputs as they are. *)
Lemma quote_effect_timer args pp p :
  (forall a, debounce p = Some a -> a = args /\ (args = quote_args pp p -> quotable p)) ->
  forall a, debounce (quote_effect args pp p) = Some a ->
  a = quote_args pp (quote_effect args pp p) /\ quotable (quote_effect args pp p).
Proof.
  intros Hd a. unfold quote_effect. case_bool_decide as E.
  - intros Ha. apply Hd in Ha as [-> Hq]. rewrite E. split; [done|]. by apply Hq.
  - destruct (isUsdc (set_debounce p None) || _) eqn:Eq; [done|]. intros [= <-]. split; [done|].
    by apply orb_false_iff in Eq as [? ?].
Qed.

Lemma quotable_args pp pp' p p' : quote_args pp p = quote_args pp' p' -> quotable p -> quotable p'.
Proof.
  intros E [Hu Ha]. assert (numAmount p = numAmount p') as Ea by exact (f_equal qa_amt E).
  assert (selectedMint p = selectedMint p') as Em by exact (f_equal qa_mint E).
  split; [by unfold isUsdc in *; rewrite <- Em|by rewrite <- Ea].
Qed.

Lemma quote_effect_legs args pp p : batchLegs (quote_effect args pp p) = batchLegs p.
Proof. unfold quote_effect. by repeat case_match. Qed.

Lemma step_ok m ev : panel_ok m -> panel_ok (fst (panel_step m ev)).
Proof.
  intros [Hd Hl]. unfold panel_step.
  pose proof (react_debounce (pprops m) ev (panel m)) as Hr. pose proof (react_legs (pprops m) ev (panel m) Hl) as Hk.
  destruct (react (pprops m) ev (panel m)) as [p out]. cbn [fst] in *. split; cbn [panel pprops].
  - apply quote_effect_timer. intros a Ha. rewrite (proj1 (mode_effect_keeps _ _)) in Ha.
    destruct Hr as [Hr|Hr]; rewrite Hr in Ha; [|done]. destruct (Hd a Ha) as [-> Hq]. split; [done|].
    intros E. eapply quotable_args; [exact E|exact Hq].
  - by rewrite quote_effect_legs, (proj2 (mode_effect_keeps _ _)).
Qed.

Lemma reachable_ok m : reachable m -> panel_ok m.
Proof.
  induction 1 as [pp|m ev _ IH]; [|by apply step_ok].
  split; [done|]. exact empty_legs_ok.
Qed.

(** ** What the panel hands over *)

(** A deposit the form may make: there is an amount, no quote is awaited, USDC is between
    the minimum and the balance, an amount of tokens is within the balance, and an amount of
    USDC to be received has a quote whose cost is. *)
Definition deposit_allowed (m : Mounted) (amount : num) (mint : string) (quote : option Jup.JupiterQuote) : Prop :=
  let pp := pprops m in
  let p := panel m in
  pp_disabled pp = false /\ pp_loading pp = false /\ quoteLoading p = false /\
  amount = numAmount p /\ mint = selectedMint p /\ quote = qp_quote <$> quotePreview p /\
  num_le amount zero = false /\
  (if isUsdc p then num_gt MIN_DEPOSIT_USDC amount = false /\ num_gt amount (balance pp p) = false
   else match inputMode p with
        | ModeToken => num_gt amount (balance pp p) = false /\
            (forall q, quotePreview p = Some q -> num_gt MIN_DEPOSIT_USDC (qp_outAmount q) = false)
        | ModeUsdc => exists q, quotePreview p = Some q /\ num_gt (qp_inAmount q) (balance pp p) = false /\
            num_gt MIN_DEPOSIT_USDC (qp_outAmount q) = false
        end).

Definition batch_allowed (m : Mounted) (legs : list DepositLegInput) : Prop :=
  num_gt (numAmount (panel m)) zero = false /\ (1 <= length legs <= MAX_MULTI_DEPOSIT_LEGS)%nat /\ NoDup (leg_mint <$> legs) /\
  Forall (fun l => leg_mint l = Some USDC_MINT \/ is_Some (leg_mint l) /\ is_Some (leg_quote l)) legs.

Definition output_ok (m : Mounted) (o : PanelOutput) : Prop :=
  match o with
  | OQuote r => r = quote_request (quote_args (pprops m) (panel m)) /\ quotable (panel m)
  | ODeposit amount mint quote => deposit_allowed m amount mint quote
  | ODepositMany legs => batch_allowed m legs
  end.

Lemma step_outputs m ev : snd (panel_step m ev) = snd (react (pprops m) ev (panel m)).
Proof. unfold panel_step. by destruct (react _ _ _). Qed.

Lemma timer_output_ok m : panel_ok m -> Forall (output_ok m) (snd (panel_step m TimerFires)).
Proof.
  intros [Hd _]. unfold panel_step, react. destruct (debounce (panel m)) as [a|] eqn:Ea; [|by constructor].
  destruct (Hd a eq_refl) as [-> Hq]. unfold fetchQuote. destruct (_ || _); [by constructor|].
  constructor; [by split|constructor].
Qed.

(** Half of the ways a number compares with zero. *)
Lemma above_or_below x : x = S754_nan \/ num_le x zero = negb (num_gt x zero).
Proof. destruct x as [s|[]| |[] m e]; auto. Qed.

Lemma numAmount_compares p : num_le (numAmount p) zero = negb (num_gt (numAmount p) zero).
Proof.
  unfold numAmount. destruct (above_or_below (or_zero (parseFloat (normalizeDecimalInput (amount p))))) as [E|E]; [|done].
  by destruct (parseFloat _) as [| | |].
Qed.

Lemma deposit_output_ok m : Forall (output_ok m) (snd (panel_step m ClickDeposit)).
Proof.
  unfold panel_step, react. destruct (depositDisabled _ _ || _) eqn:Ed; [by constructor|].
  apply orb_false_iff in Ed as [Ed El]. unfold handleDeposit. destruct (num_le _ _ || _) eqn:Ea; [by constructor|].
  destruct (_ && num_gt _ _) eqn:Et; [by constructor|]. destruct (_ && cost_exceeds _ _) eqn:Eu; [by constructor|].
  cbn [snd]. constructor; [|constructor]. unfold depositDisabled in Ed.
  apply orb_false_iff in Ed as [[[[Hdis Hload]%orb_false_iff Hpos]%orb_false_iff Hmin]%orb_false_iff Hex].
  cbn [output_ok]. unfold deposit_allowed. do 7 (split; [done|]).
  unfold belowMinimum, exceedsBalance, cost_exceeds in *.
  rewrite numAmount_compares in Hpos. apply negb_false_iff in Hpos. rewrite Hpos in *. cbn [andb] in *.
  destruct (isUsdc (panel m)); [done|]. destruct (inputMode (panel m)).
  - split; [done|]. intros q Hq. by rewrite Hq in Hmin.
  - destruct (quotePreview (panel m)) as [q|]; [|done]. by exists q.
Qed.

Lemma batch_output_ok m : panel_ok m -> Forall (output_ok m) (snd (panel_step m ClickBatch)).
Proof.
  intros [_ (Hnd & Hlen & Hq)]. unfold panel_step, react. destruct (batchDepositDisabledSafe _ _) eqn:Ed; [by constructor|].
  unfold handleDepositBatch. destruct (pp_batch (pprops m)) eqn:Eb; [|by constructor].
  destruct (batchLegs (panel m)) as [|l legs] eqn:El; [by constructor|].
  cbn [snd]. constructor; [|constructor]. cbn [output_ok]. split.
  { apply orb_false_iff in Ed as [_ Ed]. unfold hasUnsavedBatchDraft in Ed. by rewrite Eb, El in Ed. }
  split; [rewrite length_fmap; cbn [length] in *; lia|]. split.
  - rewrite <- list_fmap_compose.
    replace (leg_mint ∘ _) with (@Some string ∘ bl_mint) by done. rewrite list_fmap_compose.
    apply NoDup_fmap_2; [apply _|done].
  - rewrite Forall_fmap. eapply Forall_impl; [exact Hq|]. intros x Hx. cbn. destruct Hx as [->|Hx]; [by left|right].
    split; [by eexists|done].
Qed.

Lemma step_outputs_ok m ev : panel_ok m -> Forall (output_ok m) (snd (panel_step m ev)).
Proof.
  intros Hm. destruct ev as [| | | | | | | | | | | | |n r];
    first [apply deposit_output_ok|by apply batch_output_ok|by apply timer_output_ok|rewrite step_outputs; cbn [react snd]; try by constructor].
  destruct (_ !! n); by constructor.
Qed.

(** C23: whatever the user does and in whatever order the quotes are answered, what leaves the
    deposit form is in order: a quote is asked for the amount, token, mode, decimals and
    slippage the form then shows; a deposit is of the amount shown, positive, with no quote
    outstanding and the form enabled, for USDC between the minimum and the balance, for
    another token within its balance or, when the amount to receive was typed, with a quote
    whose cost is within it; a batch has one to three legs of different tokens, each but USDC
    with a quote, and no unsaved amount in the form. *)
Theorem panel_outputs_sound (m : Mounted) (ev : PanelEvent) :
  reachable m -> Forall (output_ok m) (snd (panel_step m ev)).
Proof.
  intros Hm. by apply step_outputs_ok, reachable_ok.
Qed.

(** ** The batch and the hook *)

(** An amount [depositMany] takes. *)
Definition amount_ok (x : num) : bool := isFinite x && positive_num x.

Lemma check_legs_ok legs seen n :
  Forall (fun l => amount_ok (nl_amount l) = true) legs -> NoDup (nl_mint <$> legs) ->
  (forall l, l ∈ legs -> set_has seen (nl_mint l) = false) ->
  exists k, check_legs legs seen n = Ok k /\
    k <= n + (if bool_decide (WSOL_MINT_STR ∈ nl_mint <$> legs) then 1 else 0).
Proof.
  revert seen n. induction legs as [|l legs IH]; intros seen n Ha Hnd Hs; cbn [check_legs].
  { exists n. split; [done|]. case_bool_decide; lia. }
  apply Forall_cons in Ha as [Hl Ha]. rewrite fmap_cons in Hnd. apply NoDup_cons in Hnd as [Hni Hnd].
  apply andb_true_iff in Hl as [Hf Hp]. rewrite Hf, Hp. cbn [negb orb]. rewrite (Hs l ltac:(left)).
  destruct (IH (set_add seen (nl_mint l)) (if String.eqb (nl_mint l) WSOL_MINT_STR then n + 1 else n) Ha Hnd) as (k & Hk & Hle).
  { intros x Hx. assert (nl_mint x <> nl_mint l) as Hne.
    { intros E. apply Hni. rewrite <- E. apply list_elem_of_fmap. by exists x. }
    pose proof (Hs x ltac:(by right)) as Hx'. apply not_true_iff_false in Hx'. apply not_true_iff_false.
    rewrite set_has_true, elem_of_set_add in *. naive_solver. }
  exists k. split; [done|]. rewrite fmap_cons. destruct (String.eqb_spec (nl_mint l) WSOL_MINT_STR) as [E|Hne].
  - rewrite <- E in *. rewrite (bool_decide_eq_false_2 _ Hni) in Hle. rewrite bool_decide_eq_true_2 by left. lia.
  - etransitivity; [exact Hle|]. repeat case_bool_decide; try lia. exfalso. by rewrite elem_of_cons in *; auto.
Qed.

Lemma validate_ok (legs : list DepositLegInput) :
  (1 <= length legs <= MAX_MULTI_DEPOSIT_LEGS)%nat -> NoDup (nl_mint <$> (normalize_leg USDC_MINT <$> legs)) ->
  Forall (fun l => amount_ok (leg_amount l) = true) legs ->
  validate_legs USDC_MINT legs = Ok (normalize_leg USDC_MINT <$> legs).
Proof.
  intros Hlen Hnd Ha. unfold validate_legs. destruct (Nat.eqb_spec (length legs) 0); [lia|].
  rewrite length_fmap. destruct (Nat.ltb_spec MAX_MULTI_DEPOSIT_LEGS (length legs)); [lia|].
  destruct (check_legs_ok (normalize_leg USDC_MINT <$> legs) [] 0) as (k & -> & Hk); [by rewrite Forall_fmap|done|done|].
  cbn. destruct (Z.ltb_spec 1 k); [|done]. case_bool_decide; lia.
Qed.

(** Mints are texts without blanks around them. *)
Definition mint_text (s : string) : Prop := s <> "" /\ trim s = s.

Lemma leg_mints_kept (legs : list DepositLegInput) :
  Forall (fun l => exists s, leg_mint l = Some s /\ mint_text s) legs -> NoDup (leg_mint <$> legs) ->
  NoDup (nl_mint <$> (normalize_leg USDC_MINT <$> legs)).
Proof.
  intros Hm Hnd. apply (NoDup_fmap_1 (@Some string)). replace (Some <$> _) with (leg_mint <$> legs); [done|].
  clear Hnd. induction Hm as [|l legs (s & El & Hne & Ht) Hm IH]; [done|].
  rewrite !fmap_cons, <- IH. f_equal. unfold normalize_leg. cbn [nl_mint]. rewrite El. cbn [text_or].
  destruct (String.eqb_spec s "") as [E|_]; [done|by rewrite Ht].
Qed.

End panel.

(** ** Runs *)

Module PanelWitness.
Definition usdc : string := "USDC111".
Definition bonk : string := "BONK111".

Definition props : PanelProps :=
  mkPanelProps false false (num_of_Z 50)
    [mkWalletToken usdc "USDC" "" "" (num_of_Z 50) 6 zero; mkWalletToken bonk "BONK" "" "" (num_of_Z 1000) 5 zero] true.

Definition route : Json := JArr [JObj [("swapInfo", JObj [("label", JStr "Orca")])]].
Definition quote (inAmount outAmount : string) : Jup.JupiterQuote :=
  Jup.mkQuote bonk usdc inAmount outAmount outAmount "ExactIn" "0" route (num_of_Z 100).

Definition start : Mounted := mkMounted (initial_panel usdc) props.

Lemma runs_reachable evs m : reachable usdc m -> reachable usdc (fst (run_panel usdc m evs)).
Proof.
  revert m. induction evs as [|ev evs IH]; intros m Hm; [done|]. cbn [run_panel].
  pose proof (reach_step _ m ev Hm) as Hs. destruct (panel_step usdc m ev) as [m' out].
  pose proof (IH m' Hs) as Hi. by destruct (run_panel usdc m' evs).
Qed.

(** A hundred BONK are quoted and added to the batch, then ten USDC. *)
Definition fill : list PanelEvent :=
  [SelectToken bonk; Typed "100"; TimerFires; Answer 0 (Ok (quote "10000000" "2000000")); ClickAdd;
   SelectToken usdc; Typed "10,5"; ClickAdd].

Definition batch_legs : list DepositLegInput :=
  [mkLeg (num_of_Z 100) (Some bonk) (Some (quote "10000000" "2000000")); mkLeg (num_of_decimal false 105 (-1)) (Some usdc) None].

Lemma fill_hands_over : snd (panel_step usdc (fst (run_panel usdc start fill)) ClickBatch) = [ODepositMany batch_legs].
Proof. vm_compute. reflexivity. Qed.

Lemma fill_reachable : reachable usdc (fst (run_panel usdc start fill)).
Proof. apply runs_reachable, reach_mount. Qed.

Lemma panel_outputs_sound_witness :
  reachable usdc (fst (run_panel usdc start fill)) /\
  Forall (output_ok usdc (fst (run_panel usdc start fill))) (snd (panel_step usdc (fst (run_panel usdc start fill)) ClickBatch)).
Proof. split; [exact fill_reachable|apply (panel_outputs_sound usdc _ ClickBatch), fill_reachable]. Defined.


(** Adding a token again sums the amounts but keeps the latest quote alone: the batch shows
    150 BONK and hands over a quote for 50. *)
Definition twice : list PanelEvent :=
  [SelectToken bonk; Typed "100"; TimerFires; Answer 0 (Ok (quote "10000000" "2000000")); ClickAdd;
   Typed "50"; TimerFires; Answer 0 (Ok (quote "5000000" "1000000")); ClickAdd; ClickBatch].

Lemma merged_leg_keeps_last_quote :
  exists r r', snd (run_panel usdc start twice) =
    [OQuote r; OQuote r'; ODepositMany [mkLeg (num_of_Z 150) (Some bonk) (Some (quote "5000000" "1000000"))]].
Proof. do 2 eexists. vm_compute. reflexivity. Qed.

(** The preview of an earlier amount stays until the next answer: a deposit of 900 BONK is
    handed over with the quote for 100. *)
Definition hurry : list PanelEvent :=
  [SelectToken bonk; Typed "100"; TimerFires; Answer 0 (Ok (quote "10000000" "2000000")); Typed "900"; ClickDeposit].

Lemma stale_quote_is_deposited :
  exists r, snd (run_panel usdc start hurry) = [OQuote r; ODeposit (num_of_Z 900) bonk (Some (quote "10000000" "2000000"))].
Proof. eexists. vm_compute. reflexivity. Qed.

(** The quick fill of a token without decimals loses the zeros of an integer. *)
Lemma quick_fill_drops_zeros :
  formatQuickFillAmount (num_of_Z 100) 0 = "1" /\ formatQuickFillAmount (num_of_Z 100) 2 = "100" /\
  formatQuickFillAmount (num_of_decimal false 12305 (-2)) 2 = "123.05".
Proof. vm_compute. auto. Qed.
End PanelWitness.
