(* ===== verification/HomePage.v ===== *)
(** * HomePage: the main page, the winner's window and the prize badge

    The state machines of src/src/pages/Home.tsx, src/src/components/WinnerModal.tsx,
    src/src/components/UnclaimedBadge.tsx and src/src/lib/roundUi.ts: when the winner's window
    opens and closes and how it holds the round, what follows a deposit, the status line, and
    what the window and the badge show of a claim.

    An event is a render with new values of the jackpot hook, a click, a timer or the end of an
    asynchronous call, whose result the event carries.  An effect runs after a step that
    changes one of its dependencies; a change of the [winner] object is a change of its
    reference. *)

From stdpp Require Import base list strings pretty.
From Stdlib Require Import ZArith Lia SpecFloat.
From S2P Require Import Prelude JsRuntime Effects Solana Browser JackpotState JackpotDeposit JackpotClaims WalletTokens DepositPanel Notifications Firebase Soar.

Local Open Scope string_scope.
Local Open Scope list_scope.
Local Open Scope Z_scope.
Set Warnings "-clear-no-such-hyp".

(** ** roundUi.ts *)

Definition shouldShowCancelRefundCard (connected hasMyDeposit : bool) (phase : GamePhase) (timeLeft : num) : bool :=
  if negb connected then false
  else if negb hasMyDeposit then false
  else if negb (bool_decide (phase = Phase.open)) then false
  else num_le timeLeft zero.

(** ** The page *)

Record WinnerInfo := mkWinner {
  w_address : string;
  w_displayName : string;
  w_color : string;
  w_ref : Z
}.

#[export] Instance WinnerInfo_eq_dec : EqDecision WinnerInfo.
Proof. solve_decision. Defined.

(** What the page reads of the wallet and of the jackpot hook. *)
Record HomeProps := mkHomeProps {
  hp_publicKey : option string;
  hp_connected : bool;
  hp_phase : GamePhase;
  hp_winner : option WinnerInfo;
  hp_roundId : Z;
  hp_totalUsdc : num;
  hp_totalVolume : num                (* [missionsApi.stats.totalVolume] *)
}.

Record WinnerSnapshot := mkSnapshot {
  sn_address : string;
  sn_displayName : string;
  sn_amount : num;
  sn_fee : num;
  sn_payout : num;
  sn_color : string
}.

Record Home := mkHome {
  showWinnerModal : bool;
  dismissedWinnerRound : option Z;
  spinComplete : bool;
  txStatus : option string;
  winnerSnapshot : option WinnerSnapshot;
  pauseAutoAdvance : bool;            (* as last set through the hook *)
  revealTimer : option WinnerSnapshot; (* the pending timer and what it will show *)
  statusTimers : nat
}.

Definition initial_home : Home := mkHome false None false None None false None 0.

Definition set_spin (b : bool) (h : Home) : Home :=
  mkHome (showWinnerModal h) (dismissedWinnerRound h) b (txStatus h) (winnerSnapshot h) (pauseAutoAdvance h) (revealTimer h) (statusTimers h).
Definition set_status (s : option string) (h : Home) : Home :=
  mkHome (showWinnerModal h) (dismissedWinnerRound h) (spinComplete h) s (winnerSnapshot h) (pauseAutoAdvance h) (revealTimer h) (statusTimers h).
Definition set_reveal (t : option WinnerSnapshot) (h : Home) : Home :=
  mkHome (showWinnerModal h) (dismissedWinnerRound h) (spinComplete h) (txStatus h) (winnerSnapshot h) (pauseAutoAdvance h) t (statusTimers h).
Definition set_timers (n : nat) (h : Home) : Home :=
  mkHome (showWinnerModal h) (dismissedWinnerRound h) (spinComplete h) (txStatus h) (winnerSnapshot h) (pauseAutoAdvance h) (revealTimer h) n.

(** What leaves the page. *)
Inductive HomeOutput :=
| HPause (b : bool)
| HNextRound
| HTrack (amount : num) (isJupiterSwap : bool)
| HSoar (player : string) (totalVolumeCents : num)
| HRefetchTokens
| HPublish (kind : string) (round : Z)
| HFeedRefresh.

Definition FEE_RATE : num := num_of_decimal false 25 (-4).

Definition snapshot (hp : HomeProps) (w : WinnerInfo) : WinnerSnapshot :=
  mkSnapshot (w_address w) (w_displayName w) (hp_totalUsdc hp) (num_times (hp_totalUsdc hp) FEE_RATE)
    (num_times (hp_totalUsdc hp) (num_minus (num_of_Z 1) FEE_RATE)) (w_color w).

(** The window with a snapshot; auto-advance is held. *)
Definition openModal (s : WinnerSnapshot) (h : Home) : Home :=
  mkHome true (dismissedWinnerRound h) (spinComplete h) (txStatus h) (Some s) true (revealTimer h) (statusTimers h).

(** Both ways of closing it. *)
Definition closeModal (roundId : Z) (h : Home) : Home :=
  mkHome false (Some roundId) (spinComplete h) (txStatus h) None false (revealTimer h) (statusTimers h).

(** [Some w] when the window is for this user, of this round and not dismissed. *)
Definition eligible (hp : HomeProps) (h : Home) : option WinnerInfo :=
  if negb (bool_decide (hp_phase hp = Phase.settled)) then None
  else
    w ← hp_winner hp;
    if bool_decide (dismissedWinnerRound h = Some (hp_roundId hp)) then None
    else if bool_decide (hp_publicKey hp = Some (w_address w)) then Some w else None.

(** The effect, which first clears the timer of the one before. *)
Definition modal_effect (hp : HomeProps) (h : Home) : Home * list HomeOutput :=
  let h := set_reveal None h in
  match eligible hp h with
  | None => (h, [])
  | Some w =>
      if spinComplete h then (openModal (snapshot hp w) h, [HPause true])
      else (set_reveal (Some (snapshot hp w)) h, [])
  end.

Definition phase_effect (old new : HomeProps) (h : Home) : Home :=
  if negb (bool_decide (hp_phase new = hp_phase old)) && bool_decide (hp_phase new = Phase.spinning) then set_spin false h else h.

(** The dependencies of [modal_effect]. *)
Definition modal_deps (hp : HomeProps) (h : Home) :=
  (hp_phase hp, hp_winner hp, hp_roundId hp, dismissedWinnerRound h, spinComplete h, hp_publicKey hp).

(** ** Actions *)

(** What follows a successful deposit, single or of several legs: the missions, the
    leaderboard, the tokens and the feed. *)
Definition deposit_done (soar : bool) (hp : HomeProps) (amount : num) (swap : bool) : list HomeOutput :=
  let wallet := default "" (hp_publicKey hp) in
  HTrack amount swap ::
  (if soar && negb (String.eqb wallet "") then [HSoar wallet (deposit_cents (hp_totalVolume hp) amount)] else []) ++
  HRefetchTokens ::
  (if String.eqb wallet "" then [] else [HPublish "deposit" (hp_roundId hp); HFeedRefresh]).

(** [handleDepositMany]: a leg counts with its amount of tokens. *)
Definition legs_amount (legs : list DepositLegInput) : num := totalInputAmount (leg_amount <$> legs).
Definition legs_swap (usdc : string) (legs : list DepositLegInput) : bool :=
  existsb (fun leg => negb (String.eqb (match leg_mint leg with Some m => if String.eqb m "" then usdc else m | None => usdc end) usdc)) legs.

(** A status is cleared five seconds after a success, eight after an error. *)
Definition handleAction_done (hp : HomeProps) (label : string) (r : Res string) (h : Home) : Home * list HomeOutput :=
  match r with
  | Ok sig =>
      (set_timers (S (statusTimers h)) (set_status (Some (label +:+ " ✓ " +:+ String.substring 0 8 sig +:+ "...")) h),
       if negb (String.eqb (default "" (hp_publicKey hp)) "") && String.eqb label "Claim"
       then [HPublish "win" (hp_roundId hp); HFeedRefresh] else [])
  | Throw e =>
      (set_timers (S (statusTimers h)) (set_status (Some ("Error: " +:+ String.substring 0 60 (err_message e))) h), [])
  end.

Inductive HomeEvent :=
| Rendered (hp : HomeProps)
| SpinCompleted
| RevealFires
| ActionStarts (label : string)
| ActionEnds (label : string) (r : Res string)
| DepositEnds (amount : num) (mint : string) (r : Res string)
| DepositManyEnds (legs : list DepositLegInput) (r : Res string)
| StatusFires
| CloseClicked
| ModalClaimEnds (roundId : Z) (r : Res string). (* the round of the click *)

Section home.
(** [ENABLE_SOAR_LEADERBOARD] and the mint of USDC. *)
Context (soar : bool) (USDC : string).

Definition home_react (hp : HomeProps) (ev : HomeEvent) (h : Home) : Home * list HomeOutput :=
  match ev with
  | Rendered _ => (h, [])
  | SpinCompleted => (set_spin true h, [])
  | RevealFires =>
      match revealTimer h with
      | Some s => (openModal s (set_reveal None h), [HPause true])
      | None => (h, [])
      end
  | ActionStarts label => (set_status (Some (label +:+ "...")) h, [])
  | ActionEnds label r => handleAction_done hp label r h
  | DepositEnds amount mint r =>
      let '(h, out) := handleAction_done hp "Deposit" r h in
      (h, match r with Ok _ => deposit_done soar hp amount (negb (String.eqb mint USDC)) | Throw _ => [] end ++ out)
  | DepositManyEnds legs r =>
      let '(h, out) := handleAction_done hp "Deposit" r h in
      (h, match r with Ok _ => deposit_done soar hp (legs_amount legs) (legs_swap USDC legs) | Throw _ => [] end ++ out)
  | StatusFires => (match statusTimers h with O => h | S n => set_timers n (set_status None h) end, [])
  | CloseClicked =>
      (closeModal (hp_roundId hp) h,
       HPause false ::
       (if bool_decide (hp_phase hp = Phase.settled) || bool_decide (hp_phase hp = Phase.claimed) then [HNextRound] else []))
  | ModalClaimEnds roundId r =>
      let '(h, out) := handleAction_done hp "Claim" r h in
      match r with
      | Ok _ => (closeModal roundId h, out ++ [HPause false; HNextRound])
      | Throw _ => (h, out)
      end
  end.

Record Page := mkPage { home : Home; hprops : HomeProps }.

Definition home_step (m : Page) (ev : HomeEvent) : Page * list HomeOutput :=
  let hp := match ev with Rendered hp => hp | _ => hprops m end in
  let '(h, out) := home_react (hprops m) ev (home m) in
  let h := phase_effect (hprops m) hp h in
  if bool_decide (modal_deps hp h = modal_deps (hprops m) (home m)) then (mkPage h hp, out)
  else let '(h, out') := modal_effect hp h in (mkPage h hp, out ++ out').

(** The first render runs every effect. *)
Definition mount (hp : HomeProps) : Page * list HomeOutput :=
  let '(h, out) := modal_effect hp initial_home in (mkPage h hp, out).

Inductive page_reachable : Page -> Prop :=
| page_mounted hp : page_reachable (fst (mount hp))
| page_stepped m ev : page_reachable m -> page_reachable (fst (home_step m ev)).

(** ** The winner's window *)

(** The window is open exactly when auto-advance is held and there is something to show. *)
Definition modal_state (h : Home) : Prop :=
  showWinnerModal h = pauseAutoAdvance h /\ (is_Some (winnerSnapshot h) <-> showWinnerModal h = true).

Definition reveal_ok (hp : HomeProps) (h : Home) : Prop :=
  forall s, revealTimer h = Some s -> exists w, eligible hp h = Some w /\ sn_address s = w_address w.

Definition page_ok (m : Page) : Prop := modal_state (home m) /\ reveal_ok (hprops m) (home m).

Lemma open_state s h : modal_state (openModal s h).
Proof. split; [done|]. cbn. split; [done|by eexists]. Qed.

Lemma close_state id h : modal_state (closeModal id h).
Proof. split; [done|]. cbn. split; [by intros [? ?]|done]. Qed.

Lemma action_keeps hp label r h :
  let h' := fst (handleAction_done hp label r h) in
  showWinnerModal h' = showWinnerModal h /\ dismissedWinnerRound h' = dismissedWinnerRound h /\
  spinComplete h' = spinComplete h /\ winnerSnapshot h' = winnerSnapshot h /\
  pauseAutoAdvance h' = pauseAutoAdvance h /\ revealTimer h' = revealTimer h.
Proof. by destruct r. Qed.

Lemma react_state hp ev h : modal_state h -> modal_state (fst (home_react hp ev h)).
Proof.
  intros Hh. destruct ev; cbn [home_react fst]; try done.
  - destruct (revealTimer h); [apply open_state|done].
  - by destruct r.
  - by destruct r.
  - by destruct r.
  - by destruct (statusTimers h).
  - apply close_state.
  - destruct r; [apply close_state|done].
Qed.

(** A step of the handlers sets no timer. *)
Lemma react_reveal hp ev h :
  revealTimer (fst (home_react hp ev h)) = revealTimer h \/ revealTimer (fst (home_react hp ev h)) = None.
Proof.
  destruct ev; cbn [home_react fst]; try (by left); try (by destruct r; left).
  - destruct (revealTimer h) eqn:E; [by right|by left].
  - by destruct (statusTimers h); left.
Qed.

Lemma phase_effect_keeps old new h :
  modal_state (phase_effect old new h) <-> modal_state h.
Proof. unfold phase_effect. by destruct (_ && _). Qed.

Lemma phase_effect_reveal old new h : revealTimer (phase_effect old new h) = revealTimer h.
Proof. unfold phase_effect. by destruct (_ && _). Qed.

Lemma modal_effect_ok hp h : modal_state h -> page_ok (mkPage (fst (modal_effect hp h)) hp).
Proof.
  intros Hh. unfold modal_effect. destruct (eligible hp (set_reveal None h)) as [w|] eqn:E; [|by split].
  destruct (spinComplete (set_reveal None h)); (split; cbn [fst home hprops]); [apply open_state|done|done|].
  intros s [= <-]. by exists w.
Qed.

(** Whether the window is for the user depends on the dependencies alone. *)
Lemma eligible_deps hp hp' h h' : modal_deps hp h = modal_deps hp' h' -> eligible hp h = eligible hp' h'.
Proof. unfold modal_deps, eligible. by intros [= -> -> -> -> _ ->]. Qed.

Lemma home_step_ok m ev : page_ok m -> page_ok (fst (home_step m ev)).
Proof.
  intros [Hs Hr]. unfold home_step. pose proof (react_state (hprops m) ev (home m) Hs) as Hs'.
  pose proof (react_reveal (hprops m) ev (home m)) as Hr'.
  destruct (home_react (hprops m) ev (home m)) as [h out]. cbn [fst] in Hs', Hr'.
  case_bool_decide as Hd.
  - split; cbn [fst home hprops]; [by apply phase_effect_keeps|]. intros s Hrev. rewrite phase_effect_reveal in Hrev.
    rewrite (eligible_deps _ _ _ _ Hd). apply Hr. destruct Hr' as [E|E]; [by rewrite <- E|by rewrite E in Hrev].
  - pose proof (modal_effect_ok (match ev with Rendered hp => hp | _ => hprops m end)
      (phase_effect (hprops m) (match ev with Rendered hp => hp | _ => hprops m end) h)) as Hm.
    destruct (modal_effect _ _) as [h' out']. cbn [fst] in *. by apply Hm, phase_effect_keeps.
Qed.

Lemma page_reachable_ok m : page_reachable m -> page_ok m.
Proof.
  induction 1 as [hp|m ev _ IH]; [|by apply home_step_ok]. unfold mount.
  pose proof (modal_effect_ok hp initial_home) as Hm. destruct (modal_effect hp initial_home) as [h out].
  apply Hm. split; [done|]. by split; [intros [? ?]|].
Qed.

Lemma eligible_inv hp h w :
  eligible hp h = Some w ->
  hp_phase hp = Phase.settled /\ hp_winner hp = Some w /\ hp_publicKey hp = Some (w_address w) /\
  dismissedWinnerRound h <> Some (hp_roundId hp).
Proof.
  unfold eligible. case_bool_decide as Hp; [|done]. cbn [negb]. destruct (hp_winner hp) as [w'|]; [|done]. cbn.
  case_bool_decide as Hd; [done|]. case_bool_decide as Hk; [|done]. by intros [= <-].
Qed.

(** The window of [w] is open. *)
Definition opened_for (w : WinnerInfo) (h : Home) : Prop :=
  showWinnerModal h = true /\ pauseAutoAdvance h = true /\
  exists s, winnerSnapshot h = Some s /\ sn_address s = w_address w.

Lemma modal_effect_opens hp h :
  showWinnerModal h = false -> showWinnerModal (fst (modal_effect hp h)) = true ->
  exists w, eligible hp h = Some w /\ opened_for w (fst (modal_effect hp h)).
Proof.
  intros Hc. unfold modal_effect. replace (eligible hp (set_reveal None h)) with (eligible hp h) by done.
  destruct (eligible hp h) as [w|]; [|cbn; congruence].
  destruct (spinComplete (set_reveal None h)); cbn; [|congruence]. intros _. exists w. split; [done|].
  split; [done|]. split; [done|]. by eexists.
Qed.

Lemma react_opens hp ev h :
  reveal_ok hp h -> showWinnerModal h = false -> showWinnerModal (fst (home_react hp ev h)) = true ->
  ev = RevealFires /\ exists w, eligible hp h = Some w /\ opened_for w (fst (home_react hp ev h)).
Proof.
  intros Hr Hc. destruct ev; cbn [home_react fst]; try (by cbn; intros; congruence); try (by destruct r; cbn; intros; congruence).
  - destruct (revealTimer h) as [s|] eqn:E; [|cbn; by intros; congruence]. intros _. split; [done|].
    destruct (Hr s E) as (w & Hw & Ha). exists w. split; [done|]. split; [done|]. split; [done|]. by exists s.
  - by destruct (statusTimers h); cbn; intros; congruence.
Qed.

Lemma phase_effect_same hp h : phase_effect hp hp h = h.
Proof. unfold phase_effect. by rewrite bool_decide_eq_true_2. Qed.

Lemma modal_effect_eligible hp h : eligible hp (fst (modal_effect hp h)) = eligible hp h.
Proof. unfold modal_effect. destruct (eligible hp (set_reveal None h)); [|done]. by destruct (spinComplete _). Qed.


(** A settled round shows its winner the window at once when the wheel has stopped, and sets
    the timer when it has not; the timer opens it. *)
Lemma modal_effect_shows hp h w :
  eligible hp h = Some w ->
  if spinComplete h then opened_for w (fst (modal_effect hp h))
  else revealTimer (fst (modal_effect hp h)) = Some (snapshot hp w).
Proof.
  intros E. unfold modal_effect. replace (eligible hp (set_reveal None h)) with (eligible hp h) by done. rewrite E.
  cbn [spinComplete set_reveal]. destruct (spinComplete h); [|done]. split; [done|]. split; [done|]. by eexists.
Qed.

End home.

(** ** What a claim shows *)

(** [x.toFixed(2)] of the amounts is that of [DepositPanel]. *)
Definition usd (x : num) : string := "$" +:+ toFixed x 2.

Record RevealedDegenToken := mkRevealed { rt_mint : string; rt_symbol : string; rt_logoUrl : string }.

(** The state of the winner's window. *)
Record Modal := mkModal {
  degenMode : bool;
  degenToken : option RevealedDegenToken;
  degenSwapping : bool;
  degenStatus : option string;
  degenElapsed : Z
}.

Definition initial_modal : Modal := mkModal false None false None 0.

(** [x || y] of texts that may be missing *)
Definition text_or_default (x : option string) (y : string) : string :=
  match x with Some s => if String.eqb s "" then y else s | None => y end.

Definition present (x : option string) : bool := negb (String.eqb (default "" x) "").

Definition dynamicDegenStatus (m : Modal) : option string :=
  if degenSwapping m then
    Some (if degenElapsed m <? 5 then "Sending VRF request..."
          else if degenElapsed m <? 15 then "Waiting for VRF randomness..."
          else if degenElapsed m <? 30 then "Executor finding best swap route..."
          else if degenElapsed m <? 60 then "Swapping via Jupiter... (this can take a moment)"
          else "Still processing... hang tight!")
  else degenStatus m.

Definition activateDegenMode (m : Modal) : Modal := mkModal true None (degenSwapping m) None (degenElapsed m).
Definition deactivateDegenMode (m : Modal) : Modal := mkModal false None (degenSwapping m) (degenStatus m) (degenElapsed m).

(** [handleDegenClaim] up to its [await], and after it with the logo that was found. *)
Definition handleDegenClaim (m : Modal) : Modal := mkModal (degenMode m) (degenToken m) true None (degenElapsed m).

Definition degen_notice (title detail : string) : Notice := mkNotice n_win title detail.

Definition degen_claimed (payout : num) (r : Res DegenResult) (logoUrl : string) (m : Modal) : Modal * list Notice :=
  let ended token status := mkModal (degenMode m) token false (Some status) 0 in
  match r with
  | Throw e => (ended (degenToken m) ("Error: " +:+ String.substring 0 80 (err_message e)), [])
  | Ok result =>
      if dr_fallback result then
        (ended None "No viable degen route found. Claimed in USDC.",
         [degen_notice "Degen Claim — Fallback to USDC" (usd payout +:+ " USDC (no viable degen route)")])
      else if negb (present (dr_tokenMint result)) then
        (ended None "Degen mode locked. Waiting for executor to pick the first viable VRF-derived route.",
         [degen_notice "Degen Claim Pending" (usd payout +:+ " — executor picking route…")])
      else
        let mint := default "" (dr_tokenMint result) in
        let symbol := text_or_default (dr_tokenSymbol result) (text_or_default (Some (String.substring 0 4 mint)) "TOKEN") in
        (ended (Some (mkRevealed mint symbol logoUrl)) ("Claimed as " +:+ symbol +:+ "."),
         [degen_notice ("Degen Claim — " +:+ symbol) (usd payout +:+ " swapped to " +:+ symbol)])
  end.

(** The window is reset when it closes; a second passes while a claim runs. *)
Definition modal_closed (m : Modal) : Modal := initial_modal.
Definition modal_tick (m : Modal) : Modal :=
  if degenSwapping m then mkModal (degenMode m) (degenToken m) true (degenStatus m) (degenElapsed m + 1) else m.

(** The claim button: which claim it starts; it is disabled while one runs. *)
Inductive ClaimKind := ClaimUsdc | ClaimDegen.

Definition claim_button (isWinner claiming : bool) (m : Modal) : option ClaimKind :=
  if negb isWinner || claiming || degenSwapping m then None
  else Some (if degenMode m then ClaimDegen else ClaimUsdc).

(** The badge of a prize that was not claimed. *)
Inductive DegenOutcome := Swapped (symbol mint : string) (logo : option string) | FellBack | Pending.

Record Badge := mkBadge {
  bg_dismissed : bool;
  bg_claimingMode : option ClaimKind;
  bg_error : option string;
  bg_success : bool;
  bg_degenResult : option DegenOutcome
}.

Definition initial_badge : Badge := mkBadge false None None false None.

Definition badge_visible (b : Badge) : bool :=
  negb (bg_dismissed b) && negb (bg_success b && match bg_degenResult b with None => true | Some _ => false end).

(** Starting a claim: both buttons are disabled while one runs or the hook is loading. *)
Definition badge_claim (kind : ClaimKind) (loading : bool) (b : Badge) : option Badge :=
  if loading || match bg_claimingMode b with Some _ => true | None => false end then None
  else Some (mkBadge (bg_dismissed b) (Some kind) None (bg_success b) (bg_degenResult b)).

Definition error_text (e : JsError) (d : string) : string := text_or_default (Some (String.substring 0 50 (err_message e))) d.

Definition badge_claimed (r : Res string) (b : Badge) : Badge :=
  match r with
  | Ok _ => mkBadge (bg_dismissed b) None (bg_error b) true (bg_degenResult b)
  | Throw e => mkBadge (bg_dismissed b) None (Some (error_text e "Claim failed")) (bg_success b) (bg_degenResult b)
  end.

Definition badge_outcome (result : DegenResult) (logoUrl : string) : DegenOutcome :=
  if dr_fallback result then FellBack
  else match dr_tokenSymbol result, dr_tokenMint result with
       | Some s, Some m =>
           if present (Some s) && present (Some m) then Swapped s m (if String.eqb logoUrl "" then None else Some logoUrl) else Pending
       | _, _ => Pending
       end.

Definition badge_notice (roundId : Z) (payout : num) (o : DegenOutcome) : Notice :=
  let title := "Round #" +:+ pretty roundId +:+ " — " in
  match o with
  | FellBack => degen_notice (title +:+ "Degen Fallback") (usd payout +:+ " USDC (no viable route)")
  | Swapped symbol _ _ => degen_notice (title +:+ symbol) (usd payout +:+ " swapped to " +:+ symbol)
  | Pending => degen_notice (title +:+ "Degen Pending") (usd payout +:+ " — executor picking route…")
  end.

Definition badge_degen_claimed (roundId : Z) (payout : num) (r : Res DegenResult) (logoUrl : string) (b : Badge) : Badge * list Notice :=
  match r with
  | Ok result =>
      let o := badge_outcome result logoUrl in
      (mkBadge (bg_dismissed b) None (bg_error b) true (Some o), [badge_notice roundId payout o])
  | Throw e => (mkBadge (bg_dismissed b) None (Some (error_text e "Degen claim failed")) (bg_success b) (bg_degenResult b), [])
  end.

Definition badge_dismiss (b : Badge) : Badge := mkBadge true (bg_claimingMode b) (bg_error b) (bg_success b) (bg_degenResult b).

(** The window and the badge tell the same story of a claim that ended with a named token, in
    USDC, or undecided. *)
Lemma window_and_badge_agree payout roundId result logo m b :
  (present (dr_tokenMint result) = true -> present (dr_tokenSymbol result) = true) ->
  let window := fst (degen_claimed payout (Ok result) logo m) in
  match bg_degenResult (fst (badge_degen_claimed roundId payout (Ok result) logo b)) with
  | Some (Swapped symbol mint _) => degenToken window = Some (mkRevealed mint symbol logo)
  | Some FellBack => dr_fallback result = true /\ degenToken window = None
  | Some Pending => dr_fallback result = false /\ degenToken window = None
  | None => False
  end.
Proof.
  intros Hs. cbn. unfold badge_outcome. destruct (dr_fallback result); [done|].
  destruct (dr_tokenMint result) as [mint|]; cbn [default present] in *; [|by destruct (dr_tokenSymbol result)].
  destruct (present (Some mint)) eqn:Em; cbn [negb].
  - specialize (Hs eq_refl). destruct (dr_tokenSymbol result) as [s|]; [|done]. rewrite Hs. cbn [andb].
    unfold text_or_default. unfold present in Hs. cbn in Hs. destruct (String.eqb s ""); done.
  - destruct (dr_tokenSymbol result) as [s|]; [|done]. by rewrite andb_false_r.
Qed.

(** A claim that ends after its window was closed leaves its status for the next window. *)
Lemma late_claim_outlives_window payout result logo m :
  dr_fallback result = true ->
  degenStatus (fst (degen_claimed payout (Ok result) logo (modal_closed (handleDegenClaim m)))) =
  Some "No viable degen route found. Claimed in USDC.".
Proof. intros E. cbn. by rewrite E. Qed.

(** ** Runs *)

Module HomeWitness.
Definition alice : WinnerInfo := mkWinner "alice" "Alice" "#fff" 1.
Definition props (phase : GamePhase) (winner : option WinnerInfo) : HomeProps :=
  mkHomeProps (Some "alice") true phase winner 7 (num_of_Z 100) zero.

(** The wheel spins and stops, and the round is settled. *)
Definition before : Page :=
  fst (home_step true "USDC" (fst (home_step true "USDC" (fst (mount (props Phase.open None))) (Rendered (props Phase.spinning None)))) SpinCompleted).

Lemma before_reachable : page_reachable true "USDC" before.
Proof. do 2 apply page_stepped. apply page_mounted. Qed.


(** After a swap of a million tokens the leaderboard is told a hundred million cents. *)
Lemma swap_reported_as_dollars :
  HSoar "alice" (num_of_Z 100000000) ∈
  snd (home_step true "USDC" before (DepositEnds (num_of_Z 1000000) "BONK" (Ok "signature"))).
Proof. vm_compute. right. left. Qed.

(** The timer of a first action clears the status of a second one that still runs. *)
Lemma status_cleared_early :
  txStatus (home (fst (home_step true "USDC" (fst (home_step true "USDC" (fst (home_step true "USDC" before
    (ActionEnds "Claim" (Ok "signature")))) (ActionStarts "Deposit"))) StatusFires))) = None.
Proof. vm_compute. reflexivity. Qed.
End HomeWitness.
