(* ===== verification/JackpotContext.v ===== *)
(** * JackpotContext: the provider around the pages

    src/src/contexts/JackpotContext.tsx: it announces a settled round once the wheel has
    landed, counts it for the missions, and announces the prizes found unclaimed.

    The three refs of the announcement and the set of announced prizes are the record
    [Provider].  A render carries what the provider reads of its hooks and whether the
    dependencies of each of its two effects have changed, in any combination; an effect that
    runs again first runs the clean-up of the run before.  The timer's callback closes over
    the values of the render that set it: the record [Announcement]. *)

From stdpp Require Import base list sets gmap sorting strings pretty.
From Stdlib Require Import ZArith Lia SpecFloat.
From S2P Require Import Prelude JsRuntime Browser JackpotState Notifications HomePage.

Local Open Scope string_scope.
Local Open Scope list_scope.
Local Open Scope Z_scope.
Set Warnings "-clear-no-such-hyp".

(** ** State *)

(** What the provider reads: the address of the wallet (empty without one) and the hook. *)
Record ContextProps := mkContextProps {
  cp_wallet : string;
  cp_phase : GamePhase;
  cp_winner : option WinnerInfo;
  cp_roundId : Z;
  cp_totalUsdc : num;
  cp_participants : list string;      (* their addresses *)
  cp_unclaimed : list UnclaimedPrize
}.

Record Announcement := mkAnnouncement {
  ac_winner : WinnerInfo;
  ac_roundId : Z;
  ac_totalUsdc : num;
  ac_participants : list string;
  ac_wallet : string
}.

Record Provider := mkProvider {
  settledNotified : option Z;
  settledScheduled : option Z;
  settledTimer : option Announcement;
  cleanupRound : option Z;            (* the round of the last clean-up returned *)
  unclaimedNotified : list Z          (* in the order of insertion *)
}.

Definition initial_provider : Provider := mkProvider None None None None [].

(** What leaves the provider; the two calls of [pushNotification] are told apart. *)
Inductive ContextOutput :=
| TrackRoundPlayed
| TrackWin
| PushSettled (n : Notice)
| PushUnclaimed (n : Notice).

(** ** The settled round *)

Definition settled_cleanup (s : Provider) : Provider :=
  match cleanupRound s with
  | Some roundId =>
      match settledTimer s with
      | Some _ =>
          if bool_decide (settledScheduled s = Some roundId)
          then mkProvider (settledNotified s) (settledScheduled s) (settledTimer s) None (unclaimedNotified s)
          else mkProvider (settledNotified s) None None None (unclaimedNotified s)
      | None => mkProvider (settledNotified s) (settledScheduled s) None None (unclaimedNotified s)
      end
  | None => s
  end.

(** A settled round with its winner, for a connected wallet. *)
Definition to_announce (p : ContextProps) : option Announcement :=
  if negb (bool_decide (cp_phase p = Phase.settled)) || String.eqb (cp_wallet p) "" then None
  else
    w ← cp_winner p;
    Some (mkAnnouncement w (cp_roundId p) (cp_totalUsdc p) (cp_participants p) (cp_wallet p)).

Definition settled_effect (p : ContextProps) (s : Provider) : Provider :=
  match to_announce p with
  | None => s
  | Some a =>
      if bool_decide (settledNotified s = Some (ac_roundId a)) || bool_decide (settledScheduled s = Some (ac_roundId a))
      then s
      else mkProvider (settledNotified s) (Some (ac_roundId a)) (Some a) (Some (ac_roundId a)) (unclaimedNotified s)
  end.

Definition won_notice (a : Announcement) : Notice :=
  mkNotice n_win ("You won Round #" +:+ pretty (ac_roundId a) +:+ "!")
    (usd (num_times (ac_totalUsdc a) (num_minus (num_of_Z 1) FEE_RATE)) +:+ " USDC").

Definition lost_notice (a : Announcement) : Notice :=
  mkNotice n_loss ("You lost Round #" +:+ pretty (ac_roundId a)) ("Winner: " +:+ w_displayName (ac_winner a)).

Definition isMe (a : Announcement) : bool := String.eqb (w_address (ac_winner a)) (ac_wallet a).
Definition wasParticipant (a : Announcement) : bool := bool_decide (ac_wallet a ∈ ac_participants a).

(** What the timer does. *)
Definition announce (a : Announcement) : list ContextOutput :=
  (if wasParticipant a then [TrackRoundPlayed] else []) ++
  (if isMe a then [TrackWin; PushSettled (won_notice a)]
   else if wasParticipant a then [PushSettled (lost_notice a)] else []).

Definition timer_fires (s : Provider) : Provider * list ContextOutput :=
  match settledTimer s with
  | Some a => (mkProvider (Some (ac_roundId a)) None None (cleanupRound s) (unclaimedNotified s), announce a)
  | None => (s, [])
  end.

(** ** Prizes found unclaimed *)

Definition unclaimed_notice (prize : UnclaimedPrize) : Notice :=
  mkNotice n_win ("You won Round #" +:+ pretty (up_roundId prize) +:+ "!") (usd (up_payout prize) +:+ " USDC unclaimed").

(** The prizes to announce, given the rounds announced so far. *)
Fixpoint new_prizes (settled : option Z) (seen : list Z) (prizes : list UnclaimedPrize) : list Z * list UnclaimedPrize :=
  match prizes with
  | [] => (seen, [])
  | prize :: prizes =>
      if bool_decide (up_roundId prize ∈ seen) then new_prizes settled seen prizes
      else
        let '(seen', rest) := new_prizes settled (seen ++ [up_roundId prize]) prizes in
        (seen', if bool_decide (settled = Some (up_roundId prize)) then rest else prize :: rest)
  end.

Definition unclaimed_effect (p : ContextProps) (s : Provider) : Provider * list ContextOutput :=
  if String.eqb (cp_wallet p) "" then (s, [])
  else
    let '(seen, prizes) := new_prizes (settledNotified s) (unclaimedNotified s) (cp_unclaimed p) in
    (mkProvider (settledNotified s) (settledScheduled s) (settledTimer s) (cleanupRound s) seen,
     PushUnclaimed ∘ unclaimed_notice <$> prizes).

(** ** Steps *)

Inductive ContextEvent :=
| Render (p : ContextProps) (settledChanged unclaimedChanged : bool)
| TimerFires.

Definition context_step (s : Provider) (ev : ContextEvent) : Provider * list ContextOutput :=
  match ev with
  | Render p settledChanged unclaimedChanged =>
      let s := if settledChanged then settled_effect p (settled_cleanup s) else s in
      if unclaimedChanged then unclaimed_effect p s else (s, [])
  | TimerFires => timer_fires s
  end.

Fixpoint run_context (s : Provider) (evs : list ContextEvent) : Provider * list ContextOutput :=
  match evs with
  | [] => (s, [])
  | ev :: evs =>
      let '(s, out) := context_step s ev in
      let '(s, out') := run_context s evs in
      (s, out ++ out')
  end.

(** On unmounting, the pending announcement is dropped. *)
Definition unmount (s : Provider) : Provider :=
  mkProvider (settledNotified s) None None (cleanupRound s) (unclaimedNotified s).

(** ** The refs *)

(** The round that is scheduled is that of the pending timer, and a clean-up that has not run
    belongs to it. *)
Definition refs_ok (s : Provider) : Prop :=
  settledScheduled s = ac_roundId <$> settledTimer s /\
  (forall a r, settledTimer s = Some a -> cleanupRound s = Some r -> r = ac_roundId a).

(** So that the clean-up never cancels an announcement: only its own note of it goes. *)
Lemma cleanup_cancels_nothing s :
  refs_ok s ->
  settled_cleanup s = mkProvider (settledNotified s) (settledScheduled s) (settledTimer s) None (unclaimedNotified s).
Proof.
  intros [Hs Hc]. unfold settled_cleanup. destruct (cleanupRound s) as [r|] eqn:Er; [|by destruct s; cbn in *; subst].
  destruct (settledTimer s) as [a|] eqn:Ea; [|done]. rewrite bool_decide_eq_true_2; [done|].
  rewrite Hs. cbn. f_equal. symmetry. by apply (Hc a r).
Qed.

Lemma settled_effect_refs p s :
  settledScheduled s = ac_roundId <$> settledTimer s -> cleanupRound s = None -> refs_ok (settled_effect p s).
Proof.
  intros Hs Hc. unfold settled_effect. destruct (to_announce p) as [a|]; [|split; [done|by rewrite Hc]].
  destruct (_ || _); [split; [done|by rewrite Hc]|]. split; [done|]. by intros ? ? [= <-] [= <-].
Qed.

Lemma unclaimed_effect_keeps p s :
  let s' := fst (unclaimed_effect p s) in
  settledNotified s' = settledNotified s /\ settledScheduled s' = settledScheduled s /\
  settledTimer s' = settledTimer s /\ cleanupRound s' = cleanupRound s.
Proof. unfold unclaimed_effect. destruct (String.eqb _ _); [done|]. by destruct (new_prizes _ _ _). Qed.

Lemma step_refs s ev : refs_ok s -> refs_ok (fst (context_step s ev)).
Proof.
  intros Hs. destruct ev as [p b c|]; cbn [context_step].
  - assert (refs_ok (if b then settled_effect p (settled_cleanup s) else s)) as H.
    { destruct b; [|done]. rewrite (cleanup_cancels_nothing _ Hs). apply settled_effect_refs; [apply Hs|done]. }
    destruct c; [|done]. destruct (unclaimed_effect_keeps p (if b then settled_effect p (settled_cleanup s) else s)) as (_ & E1 & E2 & E3).
    unfold refs_ok. rewrite E1, E2, E3. exact H.
  - unfold timer_fires. destruct (settledTimer s); [|done]. split; [done|]. by intros ? ? [=].
Qed.

(** ** What is announced *)

(** The announcements whose timers fire. *)
Fixpoint announced (s : Provider) (evs : list ContextEvent) : list Announcement :=
  match evs with
  | [] => []
  | ev :: evs =>
      match ev, settledTimer s with TimerFires, Some a => [a] | _, _ => [] end ++ announced (fst (context_step s ev)) evs
  end.

(** The round a render wants announced. *)
Definition settled_id (ev : ContextEvent) : option Z :=
  match ev with Render p true _ => ac_roundId <$> to_announce p | _ => None end.

(** The rounds still to come are not below the one announced and the one scheduled. *)
Definition ahead (s : Provider) (ids : list Z) : Prop :=
  (forall n, settledNotified s = Some n -> Forall (Z.le n) ids /\ forall a, settledTimer s = Some a -> n < ac_roundId a) /\
  (forall a, settledTimer s = Some a -> Forall (Z.le (ac_roundId a)) ids).

Lemma ahead_tail s i ids : ahead s (i :: ids) -> ahead s ids.
Proof.
  intros [H1 H2]. split.
  - intros n Hn. destruct (H1 n Hn) as [Hf Ht]. split; [by inversion Hf|done].
  - intros a Ha. specialize (H2 a Ha). by inversion H2.
Qed.

Lemma ahead_same s s' ids :
  settledNotified s' = settledNotified s -> settledTimer s' = settledTimer s -> ahead s ids -> ahead s' ids.
Proof. unfold ahead. by intros -> ->. Qed.

(** A render after which the effect has run. *)
Lemma effect_ahead p s a ids :
  refs_ok s -> to_announce p = Some a -> StronglySorted Z.le (ac_roundId a :: ids) -> ahead s (ac_roundId a :: ids) ->
  ahead (settled_effect p (settled_cleanup s)) ids.
Proof.
  intros Hr Ha Hsort Hs. rewrite (cleanup_cancels_nothing _ Hr). unfold settled_effect. rewrite Ha. cbn.
  case_bool_decide as H1; cbn; [by eapply ahead_same; [..|by eapply ahead_tail]|].
  case_bool_decide as H2; cbn; [by eapply ahead_same; [..|by eapply ahead_tail]|].
  apply StronglySorted_inv in Hsort as [_ Hle]. destruct Hs as [Hn _]. split; cbn.
  - intros n En. destruct (Hn n En) as [Hf _]. inversion Hf as [|? ? Hna Hf']; subst. split; [done|].
    intros ? [= <-]. assert (n <> ac_roundId a) by (intros ->; done). lia.
  - by intros ? [= <-].
Qed.

Lemma step_ahead s ev ids :
  refs_ok s -> StronglySorted Z.le (omap settled_id [ev] ++ ids) -> ahead s (omap settled_id [ev] ++ ids) ->
  ahead (fst (context_step s ev)) ids.
Proof.
  intros Hr Hsort Hs. destruct ev as [p b c|]; cbn [context_step].
  - assert (ahead (if b then settled_effect p (settled_cleanup s) else s) ids) as H.
    { destruct b; [|done]. cbn in Hsort, Hs. destruct (to_announce p) as [a|] eqn:Ea; cbn in Hsort, Hs; [by eapply effect_ahead|].
      rewrite (cleanup_cancels_nothing _ Hr). unfold settled_effect. rewrite Ea. by eapply ahead_same. }
    destruct c; [|done]. destruct (unclaimed_effect_keeps p (if b then settled_effect p (settled_cleanup s) else s)) as (E1 & _ & E2 & _).
    by eapply ahead_same.
  - unfold timer_fires. cbn in Hs. destruct (settledTimer s) as [a|] eqn:Ea; [|done]. destruct Hs as [_ H2].
    specialize (H2 a Ea). split; cbn; [intros ? [= <-]; by split|done].
Qed.

Lemma omap_one {A B} (f : A -> option B) x : omap f [x] = match f x with Some y => [y] | None => [] end.
Proof. done. Qed.

Lemma announced_sorted evs : forall s,
  refs_ok s -> StronglySorted Z.le (omap settled_id evs) -> ahead s (omap settled_id evs) ->
  StronglySorted Z.lt (ac_roundId <$> announced s evs) /\
  Forall (fun i => forall n, settledNotified s = Some n -> n < i) (ac_roundId <$> announced s evs).
Proof.
  induction evs as [|ev evs IH]; intros s Hr Hsort Hs; [split; constructor|].
  change (ev :: evs) with ([ev] ++ evs) in Hsort, Hs. rewrite omap_app in Hsort, Hs.
  assert (StronglySorted Z.le (omap settled_id evs)) as Hsort'.
  { revert Hsort. rewrite omap_one. destruct (settled_id ev) as [i|]; cbn [app]; [|done]. by intros [? _]%StronglySorted_inv. }
  destruct (IH (fst (context_step s ev)) (step_refs _ _ Hr) Hsort' (step_ahead _ _ _ Hr Hsort Hs)) as [H1 H2].
  cbn [announced]. destruct ev as [p b c|].
  - cbn [app]. split; [done|]. assert (settledNotified (fst (context_step s (Render p b c))) = settledNotified s) as <-; [|done].
    cbn [context_step]. assert (settledNotified (if b then settled_effect p (settled_cleanup s) else s) = settledNotified s) as <-.
    { destruct b; [|done]. rewrite (cleanup_cancels_nothing _ Hr). unfold settled_effect.
      destruct (to_announce p); [|done]. by destruct (_ || _). }
    destruct c; [apply unclaimed_effect_keeps|done].
  - cbn [context_step] in H1, H2 |- *. unfold timer_fires in H1, H2 |- *. destruct (settledTimer s) as [a|] eqn:Ea; [|done].
    cbn in H1, H2 |- *. split.
    + constructor; [done|]. apply Forall_impl with (1 := H2). intros i Hi. by apply Hi.
    + destruct Hs as [Hn _]. constructor.
      * intros n En. by apply (Hn n En).
      * apply Forall_impl with (1 := H2). intros i Hi n En. transitivity (ac_roundId a); [by apply (Hn n En)|by apply Hi].
Qed.

(** An announcement is of a render that showed the round settled. *)
Lemma announced_from evs : forall s a,
  a ∈ announced s evs ->
  settledTimer s = Some a \/ exists p c, Render p true c ∈ evs /\ to_announce p = Some a.
Proof.
  induction evs as [|ev evs IH]; intros s a Ha; cbn in Ha; [by apply elem_of_nil in Ha|].
  apply elem_of_app in Ha as [Ha|Ha].
  - destruct ev, (settledTimer s); try (by apply elem_of_nil in Ha). apply list_elem_of_singleton in Ha as ->. by left.
  - destruct (IH _ _ Ha) as [Ht|(p & c & Hin & Hp)]; [|right; exists p, c; split; [by right|done]].
    destruct ev as [p b c|]; cbn in Ht.
    + assert (settledTimer (if b then settled_effect p (settled_cleanup s) else s) = Some a) as Ht'.
      { destruct c; [|done]. by destruct (unclaimed_effect_keeps p (if b then settled_effect p (settled_cleanup s) else s)) as (_ & _ & <- & _). }
      destruct b; [|by left]. unfold settled_effect in Ht'. destruct (to_announce p) as [a'|] eqn:Ep.
      * destruct (_ || _) in Ht'; [|injection Ht' as ->; right; exists p, c; split; [left|done]].
        left. revert Ht'. unfold settled_cleanup. destruct (cleanupRound s); [|done]. destruct (settledTimer s); [|done]. by case_bool_decide.
      * left. revert Ht'. unfold settled_cleanup. destruct (cleanupRound s); [|done]. destruct (settledTimer s); [|done]. by case_bool_decide.
    + unfold timer_fires in Ht. destruct (settledTimer s) eqn:E; cbn in Ht; congruence.
Qed.

(** What goes out for settled rounds, and for prizes found unclaimed. *)
Definition settled_output (o : ContextOutput) : option ContextOutput :=
  match o with PushUnclaimed _ => None | o => Some o end.
Definition unclaimed_output (o : ContextOutput) : option Notice :=
  match o with PushUnclaimed n => Some n | _ => None end.

Lemma announce_outputs a : omap settled_output (announce a) = announce a /\ omap unclaimed_output (announce a) = [].
Proof. unfold announce. by destruct (wasParticipant a), (isMe a). Qed.

Lemma prizes_outputs prizes :
  omap settled_output (PushUnclaimed ∘ unclaimed_notice <$> prizes) = [] /\
  omap unclaimed_output (PushUnclaimed ∘ unclaimed_notice <$> prizes) = unclaimed_notice <$> prizes.
Proof. induction prizes as [|x l [IH1 IH2]]; [done|]. split; cbn; [exact IH1|by f_equal]. Qed.

Lemma new_prizes_spec settled prizes : forall seen,
  let '(seen', new) := new_prizes settled seen prizes in
  seen ⊆ seen' /\ (forall x, x ∈ new -> up_roundId x ∈ seen' /\ up_roundId x ∉ seen) /\ NoDup (up_roundId <$> new).
Proof.
  induction prizes as [|x prizes IH]; intros seen; cbn [new_prizes].
  - split; [done|]. split; [intros x Hx; by apply elem_of_nil in Hx|constructor].
  - case_bool_decide as Hin; [apply IH|]. specialize (IH (seen ++ [up_roundId x])).
    destruct (new_prizes settled (seen ++ [up_roundId x]) prizes) as [seen' new]. destruct IH as (Hs & Hn & Hd).
    split; [set_solver|]. case_bool_decide.
    + split; [|done]. intros y Hy. destruct (Hn y Hy). set_solver.
    + split.
      * intros y [->|Hy]%elem_of_cons; [set_solver|]. destruct (Hn y Hy). set_solver.
      * cbn. constructor; [|done]. intros (y & E & Hy)%list_elem_of_fmap. destruct (Hn y Hy) as [_ Hy']. set_solver.
Qed.

(** The prizes announced in a run. *)
Lemma run_prizes evs : forall s, exists prizes,
  omap unclaimed_output (snd (run_context s evs)) = unclaimed_notice <$> prizes /\
  NoDup (up_roundId <$> prizes) /\ (forall x, x ∈ prizes -> up_roundId x ∉ unclaimedNotified s).
Proof.
  induction evs as [|ev evs IH]; intros s; cbn [run_context].
  { exists []. split; [done|]. split; [constructor|]. intros x Hx. by apply elem_of_nil in Hx. }
  assert (exists prizes seen, unclaimedNotified (fst (context_step s ev)) = seen /\ unclaimedNotified s ⊆ seen /\
    omap unclaimed_output (snd (context_step s ev)) = unclaimed_notice <$> prizes /\
    (forall x, x ∈ prizes -> up_roundId x ∈ seen /\ up_roundId x ∉ unclaimedNotified s) /\ NoDup (up_roundId <$> prizes)) as Hstep.
  { destruct ev as [p b c|]; cbn [context_step].
    - set (s1 := if b then settled_effect p (settled_cleanup s) else s).
      assert (unclaimedNotified s1 = unclaimedNotified s) as Es.
      { subst s1. destruct b; [|done]. unfold settled_effect, settled_cleanup.
        destruct (to_announce p), (cleanupRound s), (settledTimer s); cbn; repeat case_bool_decide; done. }
      rewrite <- Es. assert (forall l : list Z, l ⊆ l) as Hrefl by done.
      destruct c; [unfold unclaimed_effect; destruct (String.eqb _ _)|].
      1, 3: exists [], (unclaimedNotified s1); split; [done|]; split; [done|]; split; [done|];
        split; [intros x Hx; by apply elem_of_nil in Hx|constructor].
      pose proof (new_prizes_spec (settledNotified s1) (cp_unclaimed p) (unclaimedNotified s1)) as Hn.
      destruct (new_prizes _ _ _) as [seen new]. destruct Hn as (H1 & H2 & H3). exists new, seen.
      split; [done|]. split; [done|]. split; [apply prizes_outputs|done].
    - exists [], (unclaimedNotified s). unfold timer_fires. destruct (settledTimer s) as [a|]; cbn.
      all: split; [done|]; split; [done|]; split; [try apply announce_outputs; done|];
        split; [intros x Hx; by apply elem_of_nil in Hx|constructor]. }
  destruct Hstep as (prizes & seen & E1 & Hsub & E2 & Hin & Hd). destruct (context_step s ev) as [s' out]. cbn in E1, E2.
  destruct (IH s') as (rest & Er & Hdr & Hnr). destruct (run_context s' evs) as [s'' out']. cbn in Er |- *.
  exists (prizes ++ rest). rewrite omap_app, E2, Er, !fmap_app. split; [done|]. split.
  - apply NoDup_app. split; [done|]. split; [|done]. intros i (x & -> & Hx)%list_elem_of_fmap (y & E & Hy)%list_elem_of_fmap.
    apply (Hnr y Hy). rewrite E1, <- E. by apply Hin.
  - intros x [Hx|Hx]%elem_of_app; [by apply Hin|]. specialize (Hnr x Hx). rewrite E1 in Hnr. set_solver.
Qed.

Lemma run_announces evs : forall s,
  omap settled_output (snd (run_context s evs)) = announced s evs ≫= announce.
Proof.
  induction evs as [|ev evs IH]; intros s; [done|]. cbn [run_context announced].
  specialize (IH (fst (context_step s ev))). rewrite bind_app, <- IH. clear IH.
  assert (omap settled_output (snd (context_step s ev)) =
    match ev, settledTimer s with TimerFires, Some a => [a] | _, _ => [] end ≫= announce) as <-.
  { destruct ev as [p b c|]; cbn [context_step].
    - set (s1 := if b then _ else _). destruct c; [|done]. unfold unclaimed_effect. destruct (String.eqb _ _); [done|].
      destruct (new_prizes _ _ _) as [seen new]. apply prizes_outputs.
    - unfold timer_fires. destruct (settledTimer s) as [a|]; [|done]. cbn. rewrite app_nil_r. apply announce_outputs. }
  destruct (context_step s ev) as [s' out]. cbn. destruct (run_context s' evs) as [s'' out']. cbn. apply omap_app.
Qed.

(** Once a render shows a round settled, it was announced or its timer runs. *)
Lemma render_schedules s p c a :
  refs_ok s -> to_announce p = Some a ->
  let s' := fst (context_step s (Render p true c)) in
  settledNotified s' = Some (ac_roundId a) \/
  exists a', settledTimer s' = Some a' /\ ac_roundId a' = ac_roundId a /\ snd (context_step s' TimerFires) = announce a'.
Proof.
  intros Hr Ha s'. assert (settledNotified s' = Some (ac_roundId a) \/
    exists a', settledTimer s' = Some a' /\ ac_roundId a' = ac_roundId a) as [H|(a' & Ht & Hi)]; [|by left|].
  - subst s'. cbn [context_step].
    assert (let s1 := settled_effect p (settled_cleanup s) in settledNotified s1 = Some (ac_roundId a) \/
      exists a', settledTimer s1 = Some a' /\ ac_roundId a' = ac_roundId a) as H.
    { rewrite (cleanup_cancels_nothing _ Hr). unfold settled_effect. rewrite Ha. cbn.
      case_bool_decide as H1; [by left|]. cbn. case_bool_decide as H2; [|right; by exists a].
      right. rewrite (proj1 Hr) in H2. cbn. destruct (settledTimer s) as [a'|]; [|done]. injection H2 as H2. by exists a'. }
    destruct c; [|exact H]. destruct (unclaimed_effect_keeps p (settled_effect p (settled_cleanup s))) as (E1 & _ & E2 & _).
    cbn in E1, E2, H. by rewrite E1, E2.
  - right. exists a'. split; [done|]. split; [done|]. cbn. unfold timer_fires. by rewrite Ht.
Qed.

Lemma run_refs evs : forall s, refs_ok s -> refs_ok (fst (run_context s evs)).
Proof.
  induction evs as [|ev evs IH]; intros s Hs; [done|]. cbn. pose proof (step_refs s ev Hs) as H.
  destruct (context_step s ev) as [s' out]. specialize (IH s' H). by destruct (run_context s' evs).
Qed.

Lemma initial_refs : refs_ok initial_provider.
Proof. split; [done|]. by intros ? ? [=]. Qed.


Module ContextWitness.
Definition bob : WinnerInfo := mkWinner "bob" "Bob" "#fff" 1.
Definition alice : WinnerInfo := mkWinner "alice" "Alice" "#fff" 2.
Definition props (phase : GamePhase) (winner : option WinnerInfo) (id : Z) (prizes : list UnclaimedPrize) : ContextProps :=
  mkContextProps "alice" phase winner id (num_of_Z 100) ["bob"; "alice"] prizes.
Definition prize (id : Z) : UnclaimedPrize := mkPrize id "alice" (num_of_Z 9) (num_of_Z 10) 0.

(** Bob wins round 4, which renders twice; then Alice wins round 5, and a prize of round 2 is
    found. *)
Definition events : list ContextEvent :=
  [Render (props Phase.open None 4 []) true true; Render (props Phase.settled (Some bob) 4 []) true false;
   Render (props Phase.settled (Some bob) 4 []) true false; TimerFires;
   Render (props Phase.settled (Some alice) 5 []) true false; TimerFires;
   Render (props Phase.settled (Some alice) 5 [prize 2; prize 5]) true true;
   Render (props Phase.open None 6 [prize 2; prize 5]) true true].

Lemma run_shown :
  snd (run_context initial_provider events) =
  [TrackRoundPlayed; PushSettled (mkNotice n_loss "You lost Round #4" "Winner: Bob");
   TrackRoundPlayed; TrackWin; PushSettled (mkNotice n_win "You won Round #5!" "$99.75 USDC");
   PushUnclaimed (mkNotice n_win "You won Round #2!" "$9.00 USDC unclaimed")].
Proof. vm_compute. reflexivity. Qed.


(** A prize of the round that is found before its announcement is announced twice. *)
Lemma prize_before_announcement :
  snd (run_context initial_provider
    [Render (props Phase.settled (Some alice) 5 []) true true;
     Render (props Phase.settled (Some alice) 5 [prize 5]) true true; TimerFires]) =
  [PushUnclaimed (mkNotice n_win "You won Round #5!" "$9.00 USDC unclaimed");
   TrackRoundPlayed; TrackWin; PushSettled (mkNotice n_win "You won Round #5!" "$99.75 USDC")].
Proof. vm_compute. reflexivity. Qed.
End ContextWitness.
