(* ===== verification/JackpotInvariant.v ===== *)
(** * JackpotInvariant: the states of the jackpot hook

    The hook's operations (effects, callbacks, timers and user actions) as steps, with
    the values they captured arbitrary; [jackpot_ok] is what holds of the state after any
    sequence of them. *)

From stdpp Require Import base list gmap strings pretty.
From Stdlib Require Import ZArith Lia Ascii Strings.Byte SpecFloat.
From S2P Require Import Prelude Buffers Accounts JsRuntime Effects Solana Instructions Firebase DegenExecutor Frames Browser JupiterClient TokenMetadata History NumFacts JackpotState JackpotPrizes JackpotPolling JackpotDeposit JackpotClaims JackpotFrames.

Local Open Scope string_scope.
Local Open Scope list_scope.
Local Open Scope Z_scope.
Set Warnings "-clear-no-such-hyp".

Record jackpot_ok `{Web3Keys} (s : Jackpot) : Prop := {
  jo_storage : storage_ok (storage s);
  jo_prizes : prizes_ok (v_unclaimedPrizes (view s));
  jo_pending : Forall (fun e => safe_id (pe_roundId e)) (r_pendingSettled (refs s));
  jo_heap : heap_ok s
}.

Definition ok_frame `{Web3Keys} (s s' : Jackpot) : Prop := jackpot_ok s -> jackpot_ok s'.

#[export] Instance ok_frame_preorder `{Web3Keys} : PreOrder ok_frame.
Proof. apply keeps_preorder. Qed.

Lemma poll_frame_ok `{Web3Keys} s s' : poll_frame s s' -> ok_frame s s'.
Proof.
  intros [] []. split; [congruence..|auto].
Qed.

(** What every part of a user action keeps. *)
Definition act_frame `{Web3Keys} (s s' : Jackpot) : Prop := ui_frame s s' /\ ok_frame s s'.

#[export] Instance act_frame_preorder `{Web3Keys} : PreOrder act_frame.
Proof.
  split; [by intros s|]. intros s1 s2 s3 [U1 O1] [U2 O2]. split; by etrans.
Qed.

Lemma poll_frame_act `{Web3Keys} s s' : poll_frame s s' -> act_frame s s'.
Proof. split; [by apply poll_frame_ui|by apply poll_frame_ok]. Qed.

#[export] Instance storage_only_preorder `{Web3Keys} : PreOrder storage_only.
Proof.
  split; [by intros s|]. intros s1 s2 s3 (? & ? & ?) (? & ? & ?). unfold storage_only.
  split_and!; congruence.
Qed.

Lemma ok_storage_only `{Web3Keys} s s' :
  jackpot_ok s -> storage_only s s' -> storage_ok (storage s') -> jackpot_ok s'.
Proof. intros [] (Hv & Hr & _) Hs. split; unfold heap_ok; rewrite ?Hv, ?Hr; done. Qed.

Section frames.
Context `{FrontServices} (A : Addresses) (db : bool).
Context (TOKEN_METADATA_PROGRAM_ID COMPUTE_BUDGET_PROGRAM : PublicKey) (API_KEY : string).
Local Abbreviation M := (M Jackpot FWorld FEvent).
Local Abbreviation act := (framed (W:=FWorld) act_frame any_event).
Local Abbreviation keeps := (framed (W:=FWorld) ok_frame any_event).
Local Abbreviation quiet := (framed (W:=FWorld) poll_frame no_wallet).

Lemma act_quiet {X} (m : M X) : quiet m -> act m.
Proof. apply framed_mono; [apply poll_frame_act|done]. Qed.
Lemma keeps_act {X} (m : M X) : act m -> keeps m.
Proof. apply framed_mono; [by intros s s' []|done]. Qed.

Local Ltac go :=
  repeat first
    [ solve [auto with framed nocore] | framed_step | unfold_service
    | apply framed_all_settled; [apply _|apply Forall_fmap, Forall_forall; intros ? _; simpl] ];
  try done.

(** ** Prizes *)

Lemma stores_modify x : framed (W:=FWorld) storage_only any_event (modify (set_storage x)).
Proof. by apply framed_modify. Qed.
#[local] Hint Resolve stores_modify : framed.

(** An operation on the storage is part of an action when it keeps it well formed. *)
Lemma act_storage {X} (m : M X) :
  framed storage_only any_event m ->
  (forall p, storage_ok (storage (local p)) ->
     wp m (fun _ p' => storage_only (local p) (local p') /\ storage_ok (storage (local p'))) p) ->
  act m.
Proof.
  intros Hm Hw. apply framed_and.
  - eapply framed_mono; [|done|exact Hm]. intros s s' (Hv & _). unfold ui_frame. by rewrite Hv.
  - apply framed_keeps; [by eapply framed_mono; [| |exact Hm]|]. intros p Hok.
    eapply wp_mono; [apply Hw, Hok|]. intros r p' [Ho Hs]. by eapply ok_storage_only.
Qed.

Lemma act_save prize : safe_id (up_roundId prize) -> act (saveUnclaimedPrize prize).
Proof.
  intros Hs. apply act_storage.
  { unfold saveUnclaimedPrize, loadUnclaimedPrizes, getItem, setItem. go. }
  intros p Hok. eapply wp_mono; [by apply save_keeps|]. by intros r p' (_ & ?).
Qed.

Lemma act_clear rid : safe_id rid -> act (clearUnclaimedPrize rid).
Proof.
  intros Hs. apply act_storage.
  { unfold clearUnclaimedPrize, loadUnclaimedPrizes, getItem, setItem, removeItem. go. }
  intros p Hok. eapply wp_mono; [by apply clear_keeps|]. by intros r p' (_ & ?).
Qed.

Lemma act_setUnclaimed f :
  (forall l, prizes_ok l -> prizes_ok (f l)) -> act (setUnclaimedPrizes f).
Proof. intros Hf. apply framed_modify. intros s. split; [done|]. intros []. split; simpl; auto. Qed.

Lemma act_drop rid : act (dropUnclaimed rid).
Proof. apply act_setUnclaimed. intros l. apply prizes_ok_filter. Qed.

Lemma act_refs f :
  (forall r, r_pendingSettled (f r) = r_pendingSettled r /\ r_heap (f r) = r_heap r /\
             r_cacheRef (f r) = r_cacheRef r) -> act (modify (set_refs f)).
Proof.
  intros Hf. apply framed_modify. intros s. split; [done|]. intros [].
  destruct (Hf (refs s)) as (E1 & E2 & E3).
  split; unfold heap_ok in *; simpl; rewrite ?E1, ?E2, ?E3; done.
Qed.

Lemma act_forget rid : safe_id rid -> act (forget_prize rid).
Proof. intros. unfold forget_prize. framed_step; [by apply act_clear|apply act_drop]. Qed.

Lemma act_send tx : act (sendTransaction tx).
Proof. by apply framed_invoke; [apply _|]. Qed.

Lemma act_poll user rid : act (poll A TOKEN_METADATA_PROGRAM_ID API_KEY user rid).
Proof.
  unfold poll. framed_step; apply act_quiet; [apply quiet_pollRound|apply quiet_pollBalance].
Qed.

Lemma act_fetchRound rid : act (fetchRound A rid).
Proof. apply act_quiet, quiet_fetchRound. Qed.
Lemma act_fetchConfig : act (fetchConfig A).
Proof. apply act_quiet, quiet_fetchConfig. Qed.
Lemma act_fetchDegenClaim rid user : act (fetchDegenClaim A rid user).
Proof. apply act_quiet, quiet_fetchDegenClaim. Qed.
Lemma act_degen_meta mint : act (fetchDegenTokenMeta API_KEY mint).
Proof. apply act_quiet, quiet_degen_meta. Qed.
Lemma act_metadata_batch mints :
  act (fetchTokenMetadataBatch TOKEN_METADATA_PROGRAM_ID API_KEY mints).
Proof. apply act_quiet, quiet_metadata_batch. Qed.
Lemma act_setAutoStatus x : act (setAutoStatus x).
Proof. apply act_quiet, quiet_setAutoStatus. Qed.
Lemma act_setRoundId x : act (setRoundId x).
Proof. apply act_quiet, quiet_setRoundId. Qed.
Lemma act_updateCache ref f : act (updateCache ref f).
Proof. apply act_quiet, quiet_updateCache. Qed.
Lemma act_newCache rid : act (newCache rid).
Proof. apply act_quiet, quiet_newCache. Qed.
Lemma act_pollRound user rid : act (pollRound A TOKEN_METADATA_PROGRAM_ID API_KEY user rid).
Proof. apply act_quiet, quiet_pollRound. Qed.
Lemma act_pollBalance user : act (pollBalance A user).
Proof. apply act_quiet, quiet_pollBalance. Qed.

#[local] Hint Resolve act_save act_clear act_drop act_forget act_send act_poll act_fetchRound
  act_fetchConfig act_fetchDegenClaim act_degen_meta act_metadata_batch act_setAutoStatus
  act_setRoundId act_updateCache act_newCache act_pollRound act_pollBalance : framed.

(** ** Claims *)

Lemma act_archive rid sig : act (archive_claim A db rid sig).
Proof.
  unfold archive_claim, toHistoryRoundWithDeposits, saveRoundToFirebase, deposit_entry. go.
Qed.
Lemma act_fetchArchived rid : act (fetchRoundFromFirebase db rid).
Proof. unfold fetchRoundFromFirebase. go. Qed.
Lemma act_send_claim user rid : act (send_claim A user rid).
Proof. unfold send_claim. go. Qed.
Lemma act_request_degen user rid current delay : act (request_degen A user rid current delay).
Proof. unfold request_degen. go. Qed.
Lemma act_await_degen fuel user rid start : act (await_degen A fuel user rid start).
Proof. induction fuel as [|fuel IH]; cbn [await_degen]; go. Qed.
Lemma act_swapped sig d : act (swapped_result API_KEY sig d).
Proof. unfold swapped_result. go. Qed.

#[local] Hint Resolve act_archive act_fetchArchived act_send_claim act_request_degen
  act_await_degen act_swapped : framed.

(** ** Deposits *)

Lemma act_jupiter {T} (call : M (TypedResponse T)) ms retries :
  act call -> act (jupiterFetchJson API_KEY call ms retries).
Proof. intros. by apply framed_jupiter; [apply _|..]. Qed.

Lemma act_quote a b c d e : act (getJupiterQuote API_KEY a b c d e).
Proof. apply act_jupiter. by apply framed_invoke; [apply _|]. Qed.
Lemma act_swap user quote : act (getJupiterSwapInstructions API_KEY user quote).
Proof. apply act_jupiter. by apply framed_invoke; [apply _|]. Qed.
Lemma act_build user sets ix prefix :
  act (buildMultiSwapAndDepositTx COMPUTE_BUDGET_PROGRAM user sets ix prefix).
Proof. unfold buildMultiSwapAndDepositTx, resolveAddressLookupTables, compile_v0. go. Qed.
#[local] Hint Resolve act_quote act_swap act_build : framed.

Lemma act_wait n pda : act (wait_for_round n pda).
Proof. induction n as [|n IH]; cbn [wait_for_round]; go. Qed.
Lemma act_find_open ids : act (find_open A ids).
Proof. induction ids as [|id ids IH]; cbn [find_open]; go. Qed.
#[local] Hint Resolve act_wait act_find_open : framed.

Lemma act_effective rid : act (effective_round A rid).
Proof. unfold effective_round. go. Qed.
Lemma act_require_open rid : act (require_open A rid).
Proof. unfold require_open. go. Qed.
Lemma act_direct user ata raw bal : act (direct_part A user ata raw bal).
Proof. unfold direct_part. go. Qed.
Lemma act_prepare_swap user leg : act (prepare_swap A API_KEY user leg).
Proof. unfold prepare_swap, leg_quote_for, token_decimals. go. Qed.
#[local] Hint Resolve act_effective act_require_open act_direct act_prepare_swap : framed.

Lemma act_prepare user rid legs : act (prepare_deposit A API_KEY user rid legs).
Proof. unfold prepare_deposit. go. Qed.

Lemma act_next_part : act next_part.
Proof. unfold next_part. go. by apply act_refs. Qed.
#[local] Hint Resolve act_prepare act_next_part : framed.

Lemma act_send_chunk P chunk prefix ix : act (send_chunk COMPUTE_BUDGET_PROGRAM P chunk prefix ix).
Proof. unfold send_chunk, buildSwapAndDepositTx. go. Qed.
Lemma act_chunk_deposit P chunk b : act (chunk_deposit A P chunk b).
Proof. unfold chunk_deposit, getCurrentUsdcAtaRaw. go. Qed.
#[local] Hint Resolve act_send_chunk act_chunk_deposit : framed.

Lemma act_chunks fuel P chunk b : act (sendDepositChunk A COMPUTE_BUDGET_PROGRAM fuel P chunk b).
Proof. revert chunk b. induction fuel as [|fuel IH]; intros chunk b; cbn [sendDepositChunk]; go. Qed.
#[local] Hint Resolve act_chunks : framed.

Lemma act_track user rid legs : act (track_tokens A TOKEN_METADATA_PROGRAM_ID API_KEY user rid legs).
Proof. unfold track_tokens, currentCache, readCache. go. Qed.
#[local] Hint Resolve act_track : framed.

Lemma act_send_deposit user rid legs P swaps :
  act (send_deposit A TOKEN_METADATA_PROGRAM_ID COMPUTE_BUDGET_PROGRAM API_KEY user rid legs P swaps).
Proof. unfold send_deposit. go. by apply act_refs. Qed.
#[local] Hint Resolve act_send_deposit : framed.

(** ** Actions *)

(** An action ends with [loading] reset and [error] as its outcome says. *)
Lemma with_ui_spec {X} (body : M X) p :
  act body ->
  wp (with_ui body) (fun r p' =>
    v_loading (view (local p')) = false /\
    v_error (view (local p')) = (match r with Ok _ => None | Throw e => Some (err_message e) end) /\
    (jackpot_ok (local p) -> jackpot_ok (local p'))) p.
Proof.
  intros Hb. unfold with_ui, setLoading, setError, setView, settled. repeat wp_step.
  set (p0 := set_local _ _). eapply wp_framed; [exact Hb|]. intros r p' [[_ Hu] Hok] _.
  assert (jackpot_ok (local p) -> jackpot_ok (local p')) as Hok'.
  { intros [? ? ? ?]. apply Hok. by split. }
  destruct r as [x|e]; repeat wp_step; simpl; (split_and!; [done|by try rewrite Hu|]);
    intros [? ? ? ?]%Hok'; by split.
Qed.

Lemma keeps_with_ui {X} (body : M X) : act body -> keeps (with_ui body).
Proof.
  intros Hb. unfold with_ui, setLoading, setError.
  assert (forall f, (forall v, v_unclaimedPrizes (f v) = v_unclaimedPrizes v) -> keeps (setView f)) as Hv.
  { intros f Hf. apply framed_modify. intros s []. split; simpl; rewrite ?Hf; done. }
  assert (keeps body) by by apply keeps_act.
  go; by apply Hv.
Qed.
End frames.

#[export] Hint Resolve act_save act_clear act_drop act_forget act_send act_poll act_fetchRound
  act_fetchConfig act_fetchDegenClaim act_degen_meta act_metadata_batch act_setAutoStatus
  act_setRoundId act_updateCache act_newCache act_pollRound act_pollBalance act_archive
  act_fetchArchived act_send_claim act_request_degen act_await_degen act_swapped act_prepare
  act_send_deposit : framed.

(** bn.js holds a number only below [2^53]. *)
Class BnLaws `{SolanaLibs} : Prop := {
  newBN_safe : forall z b, newBN z = Ok b -> safe_id z
}.

Section effects.
Context `{FrontServices} `{!BnLaws} (A : Addresses) (db : bool).
Context (TOKEN_METADATA_PROGRAM_ID COMPUTE_BUDGET_PROGRAM : PublicKey) (API_KEY : string).
Local Abbreviation M := (M Jackpot FWorld FEvent).
Local Abbreviation act := (framed (W:=FWorld) act_frame any_event).
Local Abbreviation keeps := (framed (W:=FWorld) ok_frame any_event).
Local Abbreviation free := (framed (W:=FWorld) (fun _ _ : Jackpot => True) any_event).

(** A round that could be asked for has an id every number represents. *)
Lemma fetchRound_safe rid p :
  wp (fetchRound A rid) (fun r p' => local p' = local p /\ forall d, r = Ok d -> safe_id rid) p.
Proof.
  unfold fetchRound. repeat front_step. unfold getRoundPda.
  destruct (newBN rid) as [b|e] eqn:Eb; simpl; [|done]. apply newBN_safe in Eb.
  destruct (toArrayLikeLE8 b); simpl; [|done].
  repeat front_step. destruct r as [[acc|]|e]; repeat front_step; [|done..].
  by destruct (Front.parseRound (ai_data acc)).
Qed.

Lemma free_quiet {X} (m : M X) : framed poll_frame no_wallet m -> free m.
Proof. by apply framed_mono. Qed.
Lemma free_modify f : free (modify f).
Proof. by apply framed_modify. Qed.
Lemma free_fetchRound rid : free (fetchRound A rid).
Proof. apply free_quiet, quiet_fetchRound. Qed.
#[local] Hint Resolve free_modify free_fetchRound : framed.

Local Ltac go :=
  repeat first [ solve [auto with framed nocore] | framed_step | unfold_service ]; try done.

Lemma free_load : free loadUnclaimedPrizes.
Proof. unfold loadUnclaimedPrizes, getItem, setItem. go. Qed.
#[local] Hint Resolve free_load : framed.
Lemma free_save prize : free (saveUnclaimedPrize prize).
Proof. unfold saveUnclaimedPrize, setItem. go. Qed.
Lemma free_clear rid : free (clearUnclaimedPrize rid).
Proof. unfold clearUnclaimedPrize, setItem, removeItem. go. Qed.
#[local] Hint Resolve free_save free_clear : framed.

(** ** The start-up scan *)

Lemma start_loop_safe ids st p :
  Forall (fun e => safe_id (pe_roundId e)) (sc_settled st) ->
  wp (start_loop A ids st) (fun r p' => local p' = local p /\
    match r with Ok st' => Forall (fun e => safe_id (pe_roundId e)) (sc_settled st') | Throw _ => True end) p.
Proof.
  revert st p. induction ids as [|id ids IH]; intros st p Hst; cbn [start_loop]; [done|].
  apply wp_bind. eapply wp_mono; [apply fetchRound_safe|]. intros [[d|]|e] p' [Hl Hs]; [| |done].
  - eapply wp_mono; [apply IH|intros r p'' [E ?]; by rewrite E, <- Hl].
    unfold start_found. simpl. case_match; [|done]. apply Forall_app. split; [done|].
    repeat constructor. simpl. by eapply Hs.
  - case_match; [by apply wp_ret|].
    eapply wp_mono; [by apply IH|intros r p'' [E ?]; by rewrite E, <- Hl].
Qed.

Lemma free_start ids st : free (start_loop A ids st).
Proof. revert st. induction ids as [|id ids IH]; intros st; cbn [start_loop]; go. Qed.
#[local] Hint Resolve free_start : framed.

Lemma keeps_startup : keeps (startup_scan A db).
Proof.
  apply framed_keeps.
  { unfold startup_scan, scan_start, getMaxArchivedRoundId, setRoundId, setInitialized, setView. go. }
  intros p Hok. unfold startup_scan. apply wp_bind. unfold or_else at 1. apply wp_try, wp_bind.
  assert (framed (W:=FWorld) poll_frame no_wallet (scan_start db)) as Hs.
  { unfold scan_start, getMaxArchivedRoundId. go; by intros []. }
  eapply wp_framed; [exact Hs|]. intros r p' Hf _. pose proof (poll_frame_ok _ _ Hf Hok) as Hok'.
  assert (forall q : Proc Jackpot FWorld FEvent, jackpot_ok (local q) ->
    wp (setInitialized true) (fun _ q' => jackpot_ok (local q')) q) as Hinit.
  { intros q [? ? ? ?]. apply wp_modify. by split. }
  destruct r as [start|e]; [|by apply wp_ret, Hinit]. apply wp_bind.
  eapply wp_mono; [apply start_loop_safe; constructor|]. intros [st|e] q [Hl Hst];
    [|apply wp_ret, Hinit; by rewrite Hl].
  destruct Hok' as [? ? ? ?].
  apply wp_bind. destruct (0 <? length (sc_settled st))%nat; repeat wp_step; unfold setRoundId, setView;
    repeat wp_step; apply Hinit; rewrite Hl; by split.
Qed.

(** ** Effects on the prizes *)

Lemma validate_spec acc a p :
  jackpot_ok (local p) ->
  wp (validate_prize A acc a) (fun r p' =>
    jackpot_ok (local p') /\ (r = Ok (acc ++ [a]) \/ r = Ok acc)) p.
Proof.
  intros Hok. unfold validate_prize. apply wp_try, wp_bind, wp_lift.
  destruct (stored_round a) as [rid|e]; [|apply wp_ret; by auto]. apply wp_bind.
  eapply wp_mono; [apply fetchRound_safe|]. intros [d|e] p' [Hl Hs];
    [|apply wp_ret; rewrite Hl; by auto].
  specialize (Hs d eq_refl). rewrite <- Hl in Hok.
  assert (wp (clearUnclaimedPrize rid ;; mret acc) (fun r q => match r with
    | Ok x => jackpot_ok (local q) /\ (Ok x = Ok (acc ++ [a]) \/ Ok x = Ok acc)
    | Throw _ => False end) p') as Hc.
  { apply wp_bind. eapply wp_mono; [apply clear_keeps; [done|apply Hok]|].
    intros r q (-> & Ho & Hst). apply wp_ret. split; [by eapply ok_storage_only|by right]. }
  assert (wp (clearUnclaimedPrize rid ;; mret acc) (fun r q => match r with
    | Ok x => jackpot_ok (local q) /\ (Ok x = Ok (acc ++ [a]) \/ Ok x = Ok acc)
    | Throw e => wp (mret (acc ++ [a])) (fun r' q' =>
        jackpot_ok (local q') /\ (r' = Ok (acc ++ [a]) \/ r' = Ok acc)) q end) p') as Hc'.
  { eapply wp_mono; [exact Hc|]. by intros []. }
  destruct d as [d|]; [|exact Hc']. case_match; [|exact Hc']. apply wp_ret. by auto.
Qed.

Lemma validate_loop saved acc p :
  jackpot_ok (local p) -> prizes_ok (acc ++ saved) ->
  wp (for_acc saved (validate_prize A) acc) (fun r p' =>
    jackpot_ok (local p') /\ exists l, r = Ok l /\ prizes_ok l) p.
Proof.
  revert acc p. induction saved as [|a saved IH]; intros acc p Hok Hl; cbn [for_acc].
  { apply wp_ret. rewrite app_nil_r in Hl. eauto. }
  apply wp_bind. eapply wp_mono; [by apply validate_spec|].
  intros r p' [Hok' [-> | ->]]; apply IH; try done.
  - by rewrite <- app_assoc.
  - eapply prizes_ok_sublist; [|done]. apply sublist_app; [done|]. by apply sublist_cons.
Qed.

Lemma pending_loop addr pendings acc p :
  jackpot_ok (local p) -> prizes_ok acc -> Forall (fun e => safe_id (pe_roundId e)) pendings ->
  wp (for_acc pendings (pending_prize addr) acc) (fun r p' =>
    jackpot_ok (local p') /\ exists l, r = Ok l /\ prizes_ok l) p.
Proof.
  intros Hok Hacc Hp. revert acc p Hok Hacc.
  induction Hp as [|e pendings He _ IH]; intros acc p Hok Hacc; cbn [for_acc].
  { apply wp_ret. eauto. }
  apply wp_bind. unfold pending_prize. case_match; [by apply wp_ret, IH|].
  destruct (existsb (prize_is (pe_roundId e)) acc) eqn:Ex; [by apply wp_ret, IH|].
  apply wp_bind. unfold f_now. apply wp_invoke_total. intros now w.
  set (prize := mkPrize _ _ _ _ _). apply wp_bind.
  eapply wp_mono; [apply save_keeps; [done|apply Hok]|].
  intros r p' (-> & Ho & Hst). apply wp_ret, IH; [by eapply ok_storage_only|].
  eapply prizes_ok_snoc; [done|by apply prize_round_json|done|].
  intros Hin%existsb_prize_is; [|done]. simpl in Hin. congruence.
Qed.

Lemma keeps_load_prizes user init : keeps (load_prizes_effect A user init).
Proof.
  apply framed_keeps.
  { unfold load_prizes_effect, validate_prize, pending_prize, setUnclaimedPrizes, setView. go. }
  intros p Hok. unfold load_prizes_effect.
  assert (forall l (q : Proc Jackpot FWorld FEvent), prizes_ok l -> jackpot_ok (local q) ->
    wp (setUnclaimedPrizes (fun _ => l)) (fun _ q' => jackpot_ok (local q')) q) as Hset.
  { intros l q Hl [? ? ? ?]. apply wp_modify. by split. }
  destruct user as [user|]; [|by apply Hset, Hok; apply prizes_ok_nil].
  destruct init; [|by apply Hset, Hok; apply prizes_ok_nil].
  apply wp_bind. eapply wp_mono; [apply load_spec, Hok|].
  intros r p1 (l & -> & Hl & _ & Ho & Hst).
  assert (jackpot_ok (local p1)) as Hok1 by by eapply ok_storage_only.
  apply wp_bind, wp_lift. rewrite checked_filter_ok by by apply prizes_ok_not_null.
  apply wp_bind. eapply wp_mono; [apply validate_loop; [done|by apply prizes_ok_filter]|].
  intros r p2 [Hok2 (res & -> & Hres)]. apply wp_bind, wp_gets, wp_bind.
  eapply wp_mono; [apply pending_loop; [done|done|apply Hok2]|].
  intros r p3 [Hok3 (res' & -> & Hres')]. apply wp_bind, wp_modify, Hset; [done|].
  destruct Hok3 as [? ? ? ?]. by split.
Qed.

Lemma keeps_reveal prize : safe_id (up_roundId prize) -> keeps (reveal_prize prize).
Proof.
  intros Hs. apply keeps_act. unfold reveal_prize. framed_step; [by apply act_save|].
  apply act_setUnclaimed. intros l Hl. case_match eqn:Ex; [done|].
  eapply prizes_ok_snoc; [done|by apply prize_round_json|done|].
  intros Hin%existsb_prize_is; [|done]. congruence.
Qed.

Lemma won_prize_round ph rd user rid p :
  wp (won_prize ph rd user rid) (fun r p' => local p' = local p /\
    match r with Ok (Some prize) => up_roundId prize = rid | _ => True end) p.
Proof.
  unfold won_prize. destruct (bool_decide _), rd as [rd|], user as [user|]; try done.
  repeat (case_match; [done|]). repeat front_step. done.
Qed.

Lemma keeps_save_won ph rd user rid : safe_id rid -> keeps (save_won_effect ph rd user rid).
Proof.
  intros Hs. apply framed_keeps.
  { unfold save_won_effect, won_prize, reveal_prize, setUnclaimedPrizes, setView. go. }
  intros p Hok. unfold save_won_effect. apply wp_bind.
  eapply wp_mono; [apply won_prize_round|]. intros [[prize|]|e] p' [Hl Hr].
  - unfold f_sleep. apply wp_bind, wp_invoke_total. intros a w.
    eapply wp_framed; [apply keeps_reveal; by rewrite Hr|]. intros r q Hk _. apply Hk. simpl. by rewrite Hl.
  - apply wp_ret. by rewrite Hl.
  - by rewrite Hl.
Qed.

Lemma keeps_claimed ph rid prizes : safe_id rid -> keeps (claimed_effect ph rid prizes).
Proof.
  intros Hs. apply keeps_act. unfold claimed_effect. case_match; [|by apply framed_ret; apply _].
  framed_step; [by apply act_clear|apply act_drop].
Qed.

(** The rounds to be dropped could be asked for. *)
Lemma stale_loop prizes acc p :
  Forall safe_id acc ->
  wp (for_acc prizes (stale_rounds A) acc) (fun r p' => local p' = local p /\
    match r with Ok l => Forall safe_id l | Throw _ => True end) p.
Proof.
  revert acc p. induction prizes as [|a prizes IH]; intros acc p Hacc; cbn [for_acc]; [done|].
  apply wp_bind. unfold stale_rounds, or_else.
  assert (forall l q, Forall safe_id l -> local q = local p ->
    wp (for_acc prizes (stale_rounds A) l) (fun r p' => local p' = local p /\
      match r with Ok l => Forall safe_id l | Throw _ => True end) q) as Hrec.
  { intros l q Hl Hq. eapply wp_mono; [by apply IH|]. intros r q' [E ?]. by rewrite E, Hq. }
  apply wp_try, wp_bind, wp_lift. destruct (stored_round a) as [rid|e]; [|by apply wp_ret, Hrec].
  apply wp_bind. eapply wp_mono; [apply fetchRound_safe|].
  intros [d|e] p' [Hl Hs]; [|by apply wp_ret, Hrec]. specialize (Hs d eq_refl).
  apply wp_ret, Hrec; [|done].
  destruct d as [d|]; [case_match; [done|]|]; (apply Forall_app; split; [done|by repeat constructor]).
Qed.

Lemma act_clear_all rids : Forall safe_id rids -> act (for_each rids clearUnclaimedPrize).
Proof.
  induction 1 as [|rid rids Hr _ IH]; cbn [for_each]; [apply framed_ret, _|].
  apply framed_bind; [apply _|by apply act_clear|intros _; exact IH].
Qed.

Lemma keeps_revalidate prizes : keeps (revalidate A prizes).
Proof.
  apply framed_keeps.
  { unfold revalidate, stale_rounds, setUnclaimedPrizes, setView. go. }
  intros p Hok. unfold revalidate. apply wp_bind.
  eapply wp_mono; [apply stale_loop; constructor|]. intros [rids|e] p' [Hl Hs]; [|by rewrite Hl].
  case_match; [apply wp_ret; by rewrite Hl|].
  assert (keeps (for_each rids clearUnclaimedPrize ;;
    setUnclaimedPrizes (filter (fun q => existsb (fun rid => prize_is rid q) rids = false)))) as Hk.
  { apply keeps_act. framed_step; [by apply act_clear_all|].
    apply act_setUnclaimed. intros l. apply prizes_ok_filter. }
  eapply wp_framed; [exact Hk|]. intros r q Hq _. apply Hq. by rewrite Hl.
Qed.
End effects.

(** ** The hook *)

(** Its operations, with the values they captured. *)
Inductive HookOp `{Web3Keys} :=
| OpStartup
| OpPollRound (publicKey : option PublicKey) (roundId : Z)
| OpPollBalance (publicKey : option PublicKey)
| OpRoundWs (publicKey : option PublicKey) (roundId : Z) (data : bytes)
| OpBalanceWs (data : bytes)
| OpCountdown (phase : GamePhase) (roundData : option Front.RoundData)
| OpAutoStatus (roundData : option Front.RoundData)
| OpLoadPrizes (publicKey : option PublicKey) (initialized : bool)
| OpSaveWon (phase : GamePhase) (roundData : option Front.RoundData)
    (publicKey : option PublicKey) (roundId : Z)
| OpClaimed (phase : GamePhase) (roundId : Z) (unclaimedPrizes : list Json)
| OpRevalidate (unclaimedPrizes : list Json)
| OpAutoAdvance
| OpPause (paused : bool)
| OpNextRound
| OpClearStatus
| OpDeposit (publicKey : option PublicKey) (roundId : Z) (legs : list DepositLegInput)
| OpClaim (publicKey : option PublicKey) (roundId : Z) (unclaimedPrizes : list Json)
| OpClaimDegen (fuel : nat) (publicKey : option PublicKey) (roundId : Z)
| OpClaimUnclaimed (publicKey : option PublicKey) (roundId unclaimedRoundId : Z)
| OpClaimUnclaimedDegen (publicKey : option PublicKey) (roundId unclaimedRoundId : Z)
| OpCancelRound (publicKey : option PublicKey) (roundId : Z)
| OpClaimRefund (publicKey : option PublicKey) (roundId : Z).

(** Round ids are counted from 1; those an operation removes or adds prizes for are below
    [2^53]. *)
Definition op_safe `{Web3Keys} (op : HookOp) : Prop :=
  match op with
  | OpSaveWon _ _ _ rid | OpClaimed _ rid _ | OpClaim _ rid _
  | OpClaimUnclaimed _ _ rid | OpClaimUnclaimedDegen _ _ rid => safe_id rid
  | _ => True
  end.

Section hook.
Context `{FrontServices} (A : Addresses) (db : bool).
Context (TOKEN_METADATA_PROGRAM_ID COMPUTE_BUDGET_PROGRAM : PublicKey) (API_KEY : string).
Local Abbreviation M := (M Jackpot FWorld FEvent).

(** The outcome of an action belongs to its caller. *)
Definition ended {X} (m : M X) : M unit := _ ← settled m; mret tt.

Definition run (op : HookOp) : M unit :=
  match op with
  | OpStartup => startup_scan A db
  | OpPollRound user rid => pollRound A TOKEN_METADATA_PROGRAM_ID API_KEY user rid
  | OpPollBalance user => pollBalance A user
  | OpRoundWs user rid data => handleRoundWs A TOKEN_METADATA_PROGRAM_ID API_KEY user rid data
  | OpBalanceWs data => handleBalanceWs data
  | OpCountdown ph rd => countdown_tick ph rd
  | OpAutoStatus rd => auto_status_effect rd
  | OpLoadPrizes user init => load_prizes_effect A user init
  | OpSaveWon ph rd user rid => save_won_effect ph rd user rid
  | OpClaimed ph rid prizes => claimed_effect ph rid prizes
  | OpRevalidate prizes => revalidate A prizes
  | OpAutoAdvance => auto_advance
  | OpPause b => setPauseAutoAdvance b
  | OpNextRound => nextRound
  | OpClearStatus => clear_deposit_status
  | OpDeposit user rid legs => ended (depositMany A TOKEN_METADATA_PROGRAM_ID COMPUTE_BUDGET_PROGRAM
                                        API_KEY user rid legs)
  | OpClaim user rid prizes => ended (claim A db TOKEN_METADATA_PROGRAM_ID API_KEY user rid prizes)
  | OpClaimDegen fuel user rid =>
      ended (claimDegen A TOKEN_METADATA_PROGRAM_ID API_KEY fuel user rid)
  | OpClaimUnclaimed user rid urid =>
      ended (claimUnclaimed A db TOKEN_METADATA_PROGRAM_ID API_KEY user rid urid)
  | OpClaimUnclaimedDegen user rid urid =>
      ended (claimUnclaimedDegen A TOKEN_METADATA_PROGRAM_ID API_KEY user rid urid)
  | OpCancelRound user rid => ended (cancelRound A TOKEN_METADATA_PROGRAM_ID API_KEY user rid)
  | OpClaimRefund user rid => ended (claimRefund A TOKEN_METADATA_PROGRAM_ID API_KEY user rid)
  end.

(** The states a mounted hook reaches from a storage it finds. *)
Inductive hook_reaches (found : option (Res Json)) : Proc Jackpot FWorld FEvent -> Prop :=
| hook_mounts caches w :
    hook_reaches found (mkProc (mkJackpot initial_view initial_refs found caches) w [])
| hook_runs op p :
    hook_reaches found p -> op_safe op -> hook_reaches found (snd (run op p)).
End hook.

Section reachable.
Context `{FrontServices} `{!BnLaws} (A : Addresses) (db : bool).
Context (TOKEN_METADATA_PROGRAM_ID COMPUTE_BUDGET_PROGRAM : PublicKey) (API_KEY : string).
Local Abbreviation M := (M Jackpot FWorld FEvent).
Local Abbreviation run := (run A db TOKEN_METADATA_PROGRAM_ID COMPUTE_BUDGET_PROGRAM API_KEY).
Local Abbreviation reaches :=
  (hook_reaches A db TOKEN_METADATA_PROGRAM_ID COMPUTE_BUDGET_PROGRAM API_KEY).

(** Well formed, and no action pending. *)
Definition idle_ok (s : Jackpot) : Prop := jackpot_ok s /\ v_loading (view s) = false.

Lemma act_idle {X} (m : M X) p :
  framed act_frame any_event m -> idle_ok (local p) -> idle_ok (local (snd (m p))).
Proof. intros Hm [Hok Hl]. destruct (Hm p) as [[[Hl' _] Hk] _]. split; [auto|congruence]. Qed.

Lemma keeps_idle {X} (m : M X) p :
  framed ok_frame any_event m -> framed ui_frame any_event m ->
  idle_ok (local p) -> idle_ok (local (snd (m p))).
Proof.
  intros Hm Hu [Hok Hl]. destruct (Hm p) as [Hk _], (Hu p) as [[Hl' _] _]. split; [auto|congruence].
Qed.

Lemma ended_local {X} (m : M X) p : local (snd (ended m p)) = local (snd (m p)).
Proof. unfold ended, settled, try_catch, mbind, M_bind. by destruct (m p) as [[]]. Qed.

Lemma with_ui_idle {X} (body : M X) p :
  framed act_frame any_event body -> idle_ok (local p) -> idle_ok (local (snd (with_ui body p))).
Proof. intros Hb [Hok _]. destruct (with_ui_spec body p Hb) as (Hl & _ & Hk). split; auto. Qed.

Lemma ui_quiet {X} (m : M X) : framed poll_frame no_wallet m -> framed ui_frame any_event m.
Proof. apply framed_mono; [apply poll_frame_ui|done]. Qed.
Lemma ui_fetchRound rid : framed (W:=FWorld) ui_frame any_event (fetchRound A rid).
Proof. apply ui_quiet, quiet_fetchRound. Qed.
Lemma ui_storage x : framed (W:=FWorld) ui_frame any_event (modify (set_storage x)).
Proof. by apply framed_modify. Qed.
Lemma ui_refs f : framed (W:=FWorld) ui_frame any_event (modify (set_refs f)).
Proof. by apply framed_modify. Qed.
Lemma ui_setView f :
  (forall v, v_loading (f v) = v_loading v /\ v_error (f v) = v_error v) ->
  framed (W:=FWorld) ui_frame any_event (setView f).
Proof. intros Hf. apply framed_modify. intros s. apply Hf. Qed.
#[local] Hint Resolve ui_fetchRound ui_storage ui_refs : framed.

Local Ltac go :=
  repeat first [ solve [auto with framed nocore] | framed_step | unfold_service ];
  try (by apply ui_setView); try done.

Lemma ui_startup : framed (W:=FWorld) ui_frame any_event (startup_scan A db).
Proof.
  unfold startup_scan, scan_start, getMaxArchivedRoundId, setRoundId, setInitialized.
  assert (forall ids st, framed (W:=FWorld) ui_frame any_event (start_loop A ids st)).
  { intros ids. induction ids as [|id ids IH]; intros st; cbn [start_loop]; go. }
  go.
Qed.

Lemma ui_load_prizes user init : framed (W:=FWorld) ui_frame any_event (load_prizes_effect A user init).
Proof.
  unfold load_prizes_effect, validate_prize, pending_prize, setUnclaimedPrizes, clearUnclaimedPrize,
    saveUnclaimedPrize, loadUnclaimedPrizes, getItem, setItem, removeItem. go.
Qed.

Lemma ui_save_won ph rd user rid : framed (W:=FWorld) ui_frame any_event (save_won_effect ph rd user rid).
Proof.
  unfold save_won_effect, won_prize, reveal_prize, setUnclaimedPrizes, saveUnclaimedPrize,
    loadUnclaimedPrizes, getItem, setItem. go.
Qed.

Lemma ui_claimed ph rid prizes : framed (W:=FWorld) ui_frame any_event (claimed_effect ph rid prizes).
Proof.
  unfold claimed_effect, dropUnclaimed, setUnclaimedPrizes, clearUnclaimedPrize,
    loadUnclaimedPrizes, getItem, setItem, removeItem. go.
Qed.

Lemma ui_revalidate prizes : framed (W:=FWorld) ui_frame any_event (revalidate A prizes).
Proof.
  unfold revalidate, stale_rounds, setUnclaimedPrizes, clearUnclaimedPrize,
    loadUnclaimedPrizes, getItem, setItem, removeItem. go.
Qed.

(** ** Every operation *)

Lemma quiet_idle {X} (m : M X) p :
  framed poll_frame no_wallet m -> idle_ok (local p) -> idle_ok (local (snd (m p))).
Proof. intros Hm. by apply act_idle, act_quiet. Qed.

Lemma setView_idle f p :
  (forall v, v_loading (f v) = v_loading v /\ v_error (f v) = v_error v /\
             v_unclaimedPrizes (f v) = v_unclaimedPrizes v) ->
  idle_ok (local p) -> idle_ok (local (snd (setView f p))).
Proof. intros Hf. by apply quiet_idle, quiet_setView. Qed.

Lemma ws_idle user rid data p :
  idle_ok (local p) ->
  idle_ok (local (snd (handleRoundWs A TOKEN_METADATA_PROGRAM_ID API_KEY user rid data p))).
Proof.
  apply act_idle. unfold handleRoundWs.
  apply framed_bind; [apply _|go|intros now]. framed_step; [by apply act_refs|]. case_match; [|go].
  unfold_service. framed_step; [apply act_quiet, quiet_process|go].
Qed.

Lemma action_idle op p :
  match op with
  | OpDeposit _ _ _ | OpClaim _ _ _ | OpClaimDegen _ _ _ | OpClaimUnclaimed _ _ _
  | OpClaimUnclaimedDegen _ _ _ | OpCancelRound _ _ | OpClaimRefund _ _ => True
  | _ => False
  end ->
  op_safe op -> idle_ok (local p) -> idle_ok (local (snd (run op p))).
Proof.
  destruct op; try done; intros _ Hs Hok; cbn [JackpotInvariant.run op_safe] in *; rewrite ended_local;
    unfold depositMany, claim, claimDegen, claimUnclaimed, claimUnclaimedDegen, cancelRound,
      claimRefund, send_and_poll; (destruct publicKey as [user|]; [|done]).
  1: { rewrite bind_lift. destruct (validate_legs _ _); [|done]. apply with_ui_idle; [go|done]. }
  all: (apply with_ui_idle; [go|done]).
Qed.

Lemma run_idle op p : op_safe op -> idle_ok (local p) -> idle_ok (local (snd (run op p))).
Proof.
  intros Hs Hok. destruct op; try (by apply action_idle); cbn [JackpotInvariant.run op_safe] in *.
  - apply keeps_idle; [apply keeps_startup|apply ui_startup|done].
  - apply quiet_idle; [apply quiet_pollRound|done].
  - apply quiet_idle; [apply quiet_pollBalance|done].
  - by apply ws_idle.
  - unfold handleBalanceWs. case_match; [case_match|]; [by apply setView_idle|done].
  - apply act_idle; [|done]. unfold countdown_tick. go; by apply act_quiet, quiet_setView.
  - unfold auto_status_effect. case_match; [case_match; by apply setView_idle|done].
  - apply keeps_idle; [apply keeps_load_prizes|apply ui_load_prizes|done].
  - apply keeps_idle; [by apply keeps_save_won|apply ui_save_won|done].
  - apply keeps_idle; [by apply keeps_claimed|apply ui_claimed|done].
  - apply keeps_idle; [apply keeps_revalidate|apply ui_revalidate|done].
  - apply act_idle; [|done]. unfold auto_advance, nextRound. go; by apply act_quiet, quiet_setView.
  - apply act_idle; [|done]. by apply act_refs.
  - apply act_idle; [|done]. unfold nextRound. go; by apply act_quiet, quiet_setView.
  - apply setView_idle; [|done]. intros v. by repeat case_match.
Qed.

(** C10: Whatever the effects, callbacks, timers and user actions of the hook do, in any
    order, with any values they captured and any answers of the chain, the wallet, Jupiter
    and the browser, the state stays well typed: local storage, when it held prizes of
    this page (in either of its formats), still holds an array of prize objects with a
    round number, at most one per round; so does the list shown; the cache reference
    points to an existing object; and between two operations nothing is loading. *)
Theorem hook_state_ok found p :
  storage_ok found -> reaches found p ->
  storage_ok (storage (local p)) /\
  prizes_ok (v_unclaimedPrizes (view (local p))) /\
  heap_ok (local p) /\
  v_loading (view (local p)) = false.
Proof.
  intros Hf Hr. assert (idle_ok (local p)) as [[] ?]; [|done].
  induction Hr as [caches w|op p Hr IH Hs].
  - split; [|done]. split; [done|apply prizes_ok_nil|constructor|]. unfold heap_ok. simpl. lia.
  - by apply run_idle.
Qed.
End reachable.
