(* ===== verification/JackpotClaimsSpec.v ===== *)
(** * JackpotClaimsSpec: what a claim does

    A claim asks the wallet at most once, for the claim of the round, after the round was
    read as settled, and its outcome is the wallet's; what it does afterwards (clean-up,
    archive, polls) cannot fail it.  In degen mode the wait for the executor ends. *)

From stdpp Require Import base list gmap strings pretty.
From Stdlib Require Import ZArith Lia Ascii Strings.Byte SpecFloat.
From S2P Require Import Prelude Buffers Accounts JsRuntime Effects Solana Instructions Firebase DegenExecutor Frames Browser JupiterClient TokenMetadata History NumFacts JackpotState JackpotPrizes JackpotPolling JackpotDeposit JackpotClaims JackpotFrames JackpotInvariant.

Local Open Scope string_scope.
Local Open Scope list_scope.
Local Open Scope Z_scope.
Set Warnings "-clear-no-such-hyp".

Section contract.
Context `{FrontServices} (A : Addresses) (db : bool).
Context (TOKEN_METADATA_PROGRAM_ID : PublicKey) (API_KEY : string).
Local Abbreviation M := (M Jackpot FWorld FEvent).
Local Abbreviation Proc := (Proc Jackpot FWorld FEvent).

(** Among the events, newest first, the account of the round was read with the status. *)
Definition sees_status (rid status : Z) (evs : list FEvent) : Prop :=
  exists pda acc d, getRoundPda A rid = Ok pda /\
    FAccount pda (Ok (Some acc)) ∈ evs /\ Front.parseRound (ai_data acc) = Ok d /\
    Front.status d = status.

(** The transaction claims the round's prize to the user and the configured treasury. *)
Definition claim_tx (user : PublicKey) (rid : Z) (tx : WalletTx) (before : list FEvent) : Prop :=
  exists cfg ix, FConfig (getConfigPda A) (Ok cfg) ∈ before /\
    FrontIx.buildClaim A user rid (USDC_MINT A) (treasuryUsdcAta cfg) None = Ok ix /\
    tx = LegacyTx [ix].

(** The transaction asks for the randomness of degen mode. *)
Definition degen_tx (user : PublicKey) (rid : Z) (tx : WalletTx) : Prop :=
  exists ix, FrontIx.buildRequestDegenVrf A user rid = Ok ix /\ tx = LegacyTx [ix].

(** From the history [h] to [h'], newest first: the wallet was not asked and the outcome
    is an error; or it was asked once, for a transaction that is [good] after the events
    that preceded it, and the outcome follows from the wallet's. *)
Definition asks_once {X} (good : WalletTx -> list FEvent -> Prop) (follows : Res string -> Res X -> Prop)
    (h : list FEvent) (r : Res X) (h' : list FEvent) : Prop :=
  exists evs, h' = evs ++ h /\
    ((Forall no_wallet evs /\ exists e, r = Throw e) \/
     (exists after tx w before, evs = after ++ FSend tx w :: before /\
        Forall no_wallet after /\ Forall no_wallet before /\ good tx before /\ follows w r)).

(** ** Steps *)

Lemma returns_or_else {X} (m : M X) x : returns (or_else m x).
Proof. apply returns_try. intros e. apply returns_ret. Qed.

Lemma returns_forget rid : returns (W:=FWorld) (forget_prize rid).
Proof.
  unfold forget_prize. apply returns_bind; [apply returns_or_else|intros _; apply returns_modify].
Qed.

Lemma returns_poll user rid : returns (poll A TOKEN_METADATA_PROGRAM_ID API_KEY user rid).
Proof.
  unfold poll. apply returns_bind; [apply returns_or_else|intros _]. unfold pollBalance.
  destruct user; [|apply returns_modify]. apply returns_try. intros e. apply returns_modify.
Qed.

Lemma returns_archive rid sig : returns (archive_claim A db rid sig).
Proof. apply returns_or_else. Qed.

(** The operations after a claim ask the wallet nothing. *)
Local Ltac go :=
  repeat first [ solve [auto with framed nocore] | framed_step | unfold_service ]; try done;
  try by intros [].
Local Abbreviation silent := (framed (W:=FWorld) (fun _ _ : Jackpot => True) no_wallet).

Lemma silent_quiet {X} (m : M X) : framed poll_frame no_wallet m -> silent m.
Proof. by apply framed_mono. Qed.
Lemma silent_modify f : silent (modify f).
Proof. by apply framed_modify. Qed.
Lemma silent_fetchRound rid : silent (fetchRound A rid).
Proof. apply silent_quiet, quiet_fetchRound. Qed.
Lemma silent_fetchDegenClaim rid user : silent (fetchDegenClaim A rid user).
Proof. apply silent_quiet, quiet_fetchDegenClaim. Qed.
Lemma silent_degen_meta mint : silent (fetchDegenTokenMeta API_KEY mint).
Proof. apply silent_quiet, quiet_degen_meta. Qed.
#[local] Hint Resolve silent_modify silent_fetchRound silent_fetchDegenClaim silent_degen_meta : framed.

Lemma silent_forget rid : silent (forget_prize rid).
Proof.
  unfold forget_prize, clearUnclaimedPrize, loadUnclaimedPrizes, getItem, setItem, removeItem,
    dropUnclaimed, setUnclaimedPrizes, setView. go.
Qed.
Lemma silent_poll user rid : silent (poll A TOKEN_METADATA_PROGRAM_ID API_KEY user rid).
Proof.
  unfold poll. framed_step; apply silent_quiet; [apply quiet_pollRound|apply quiet_pollBalance].
Qed.
Lemma silent_archive rid sig : silent (archive_claim A db rid sig).
Proof. unfold archive_claim, toHistoryRoundWithDeposits, saveRoundToFirebase, deposit_entry. go. Qed.
Lemma silent_fetchArchived rid : silent (fetchRoundFromFirebase db rid).
Proof. unfold fetchRoundFromFirebase. go. Qed.
Lemma silent_await fuel user rid start : silent (await_degen A fuel user rid start).
Proof. induction fuel as [|fuel IH]; cbn [await_degen]; go. Qed.
Lemma silent_swapped sig d : silent (swapped_result API_KEY sig d).
Proof. unfold swapped_result. go. Qed.
#[local] Hint Resolve silent_forget silent_poll silent_archive silent_fetchArchived silent_await
  silent_swapped : framed.

(** Reading the round. *)
Lemma fetchRound_reads rid p :
  wp (fetchRound A rid) (fun r p' => exists evs, history p' = evs ++ history p /\ Forall no_wallet evs /\
    forall d, r = Ok (Some d) -> sees_status rid (Front.status d) evs) p.
Proof.
  unfold fetchRound. repeat front_step. destruct (getRoundPda A rid) as [pda|e] eqn:Ep; [|by exists []].
  front_step. front_step.
  assert (forall r, Forall no_wallet [FAccount pda r]) as Hq by (repeat constructor; by intros []).
  destruct r as [[acc|]|e]; repeat front_step; [|by eexists [_]..].
  destruct (Front.parseRound (ai_data acc)) as [d|e] eqn:Ed; repeat front_step; [|by eexists [_]].
  exists [FAccount pda (Ok (Some acc))]. split_and!; [done..|]. intros d' [= <-]. exists pda, acc, d. split_and!; [done|by left|done..].
Qed.

(** The user interface around an action adds no calls. *)
Lemma wp_with_ui {X} (body : M X) (Q : Res X -> list FEvent -> Prop) p :
  (forall s, wp body (fun r p' => Q r (history p')) (mkProc s (world p) (history p))) ->
  wp (with_ui body) (fun r p' => Q r (history p')) p.
Proof.
  intros Hb. unfold with_ui, setLoading, setError, setView, settled. repeat wp_step.
  eapply wp_mono; [apply Hb|]. intros [x|e] p' HQ; repeat wp_step; done.
Qed.

Section asking.
Context {X : Type} (good : WalletTx -> list FEvent -> Prop) (follows : Res string -> Res X -> Prop).
Context (h : list FEvent).

(** Silent since [h]. *)
Definition silent_since (p : Proc) : Prop := exists evs, history p = evs ++ h /\ Forall no_wallet evs.

(** The wallet has answered [w]. *)
Definition answered (w : Res string) (p : Proc) : Prop :=
  exists after tx before, history p = after ++ FSend tx w :: before ++ h /\
    Forall no_wallet after /\ Forall no_wallet before /\ good tx before.

Lemma silent_since_extends p p' : silent_since p -> extends no_wallet p p' -> silent_since p'.
Proof.
  intros (l1 & E1 & F1) (l2 & E2 & F2). exists (l2 ++ l1). rewrite E2, E1, app_assoc.
  split; [done|]. by apply Forall_app.
Qed.

Lemma answered_extends w p p' : answered w p -> extends no_wallet p p' -> answered w p'.
Proof.
  intros (after & tx & before & E1 & F1 & F2 & Hg) (l & E2 & F3).
  exists (l ++ after), tx, before. rewrite E2, E1, <- !app_assoc. split_and!; try done.
  by apply Forall_app.
Qed.

Lemma asks_throw e p : silent_since p -> asks_once good follows h (Throw e) (history p).
Proof. intros (evs & E & F). exists evs. split; [done|]. left. eauto. Qed.

Lemma asks_answered w r p : answered w p -> follows w r -> asks_once good follows h r (history p).
Proof.
  intros (after & tx & before & E & F1 & F2 & Hg) Hf.
  exists (after ++ FSend tx w :: before). split; [by rewrite E, <- app_assoc|]. right.
  exists after, tx, w, before. by split_and!.
Qed.

(** A silent computation before the wallet is asked: its error is the outcome. *)
Lemma wp_silent {Y} (m : M Y) (f : Y -> M X) p :
  silent m -> silent_since p ->
  (forall y p', silent_since p' -> wp (f y) (fun r p' => asks_once good follows h r (history p')) p') ->
  wp (mbind f m) (fun r p' => asks_once good follows h r (history p')) p.
Proof.
  intros Hm Hs Hf. apply wp_bind. eapply wp_framed; [exact Hm|]. intros [y|e] p' _ He.
  - apply Hf. by eapply silent_since_extends.
  - apply asks_throw. by eapply silent_since_extends.
Qed.

(** A silent computation after the answer, which cannot fail. *)
Lemma wp_after {Y} (m : M Y) (f : Y -> M X) w p :
  silent m -> returns m -> answered w p ->
  (forall y p', answered w p' -> wp (f y) (fun r p' => asks_once good follows h r (history p')) p') ->
  wp (mbind f m) (fun r p' => asks_once good follows h r (history p')) p.
Proof.
  intros Hm Hr Ha Hf. apply wp_bind. eapply wp_framed_returns; [exact Hm|done|].
  intros y p' _ He. apply Hf. by eapply answered_extends.
Qed.
End asking.

Lemma silent_since_here (p : Proc) : silent_since (history p) p.
Proof. by exists []. Qed.

(** ** Claims in USDC *)

Definition claim_good (user : PublicKey) (rid : Z) (tx : WalletTx) (before : list FEvent) : Prop :=
  sees_status rid RoundStatus.Settled before /\ claim_tx user rid tx before.

(** The claim transaction after a reading of the settled round. *)
Lemma send_claim_asks {X} user rid evs h (f : string -> M X) (follows : Res string -> Res X -> Prop) p :
  history p = evs ++ h -> Forall no_wallet evs -> sees_status rid RoundStatus.Settled evs ->
  (forall e, follows (Throw e) (Throw e)) ->
  (forall sig p', answered (claim_good user rid) h (Ok sig) p' ->
     wp (f sig) (fun r p' => asks_once (claim_good user rid) follows h r (history p')) p') ->
  wp (mbind f (send_claim A user rid)) (fun r p' => asks_once (claim_good user rid) follows h r (history p')) p.
Proof.
  intros Hh Hq Hs Hfe Hf. unfold send_claim, fetchConfig. apply wp_bind. repeat front_step.
  assert (Forall no_wallet (FConfig (getConfigPda A) r :: evs)) as Hq'.
  { constructor; [by intros []|done]. }
  destruct r as [cfg|e]; [|apply asks_throw; eexists; simpl; rewrite Hh; split; [by rewrite app_comm_cons|done]].
  repeat front_step. destruct (FrontIx.buildClaim _ _ _ _ _ _) as [ix|e] eqn:Ex;
    [|apply asks_throw; eexists; simpl; rewrite Hh; split; [by rewrite app_comm_cons|done]].
  repeat front_step. set (tx := LegacyTx [ix]).
  assert (answered (claim_good user rid) h r (mkProc (local p) w0
    (FSend tx r :: FConfig (getConfigPda A) (Ok cfg) :: history p))) as Ha.
  { exists [], tx, (FConfig (getConfigPda A) (Ok cfg) :: evs). simpl. rewrite Hh.
    split_and!; [done|constructor|done|]. split.
    - destruct Hs as (pda & acc & d & E1 & Hin & E2 & E3). exists pda, acc, d.
      split_and!; [done|by right|done..].
    - exists cfg, ix. split_and!; [by left|done..]. }
  destruct r as [sig|e]; [by apply Hf|]. eapply asks_answered; [exact Ha|done].
Qed.

Local Ltac silent_steps :=
  repeat (eapply wp_silent; [solve [go]|by eauto|intros ? ? ?]).
Local Ltac after_steps :=
  repeat (eapply wp_after;
    [solve [go]
    |first [apply returns_forget|apply returns_archive|apply returns_poll|apply returns_ret]
    |by eauto|intros ? ? ?]).

(** The rest of a claim after its first reading, common to both claims: the branches of
    the checks, then what follows the signature. *)
Lemma claim_asks user rid prizes p :
  wp (claim A db TOKEN_METADATA_PROGRAM_ID API_KEY (Some user) rid prizes)
    (fun r p' => asks_once (claim_good user rid) eq (history p) r (history p')) p.
Proof.
  unfold claim. apply (wp_with_ui _ (fun r h' => asks_once _ _ (history p) r h')). intros s.
  apply wp_bind. eapply wp_mono; [apply fetchRound_reads|]. simpl. intros r p1 (evs & Hh & Hq & Hd).
  assert (silent_since (history p) p1) as Hs1 by by exists evs.
  destruct r as [[rd|]|e]; [| |by apply asks_throw].
  - case_match; [silent_steps; by apply asks_throw|].
    case_match eqn:Est; [by apply asks_throw|].
    apply negb_false_iff, Z.eqb_eq in Est. specialize (Hd rd eq_refl). rewrite Est in Hd.
    eapply send_claim_asks; [done..|]. intros sig p2 Ha.
    eapply wp_after; [destruct (existsb _ _); go|destruct (existsb _ _); [apply returns_forget|apply returns_ret]
      |done|intros ? ? ?].
    after_steps. by eapply asks_answered.
  - silent_steps. by apply asks_throw.
Qed.

Lemma claimUnclaimed_asks user shown rid p :
  wp (claimUnclaimed A db TOKEN_METADATA_PROGRAM_ID API_KEY (Some user) shown rid)
    (fun r p' => asks_once (claim_good user rid) eq (history p) r (history p')) p.
Proof.
  unfold claimUnclaimed. apply (wp_with_ui _ (fun r h' => asks_once _ _ (history p) r h')). intros s.
  apply wp_bind. eapply wp_mono; [apply fetchRound_reads|]. simpl. intros r p1 (evs & Hh & Hq & Hd).
  assert (silent_since (history p) p1) as Hs1 by by exists evs.
  destruct r as [[rd|]|e]; [| |by apply asks_throw].
  - case_match; [silent_steps; by apply asks_throw|].
    case_match eqn:Est; [by apply asks_throw|].
    apply negb_false_iff, Z.eqb_eq in Est. specialize (Hd rd eq_refl). rewrite Est in Hd.
    eapply send_claim_asks; [done..|]. intros sig p2 Ha.
    after_steps. by eapply asks_answered.
  - silent_steps. by apply asks_throw.
Qed.

(** C4: A claim, of the current round or of an earlier one, asks the wallet at most once,
    for the claim instruction of that round to the connected user and the treasury of the
    configuration it has read, and only after it has read the round as settled.  Its
    outcome is exactly the wallet's: a signature is reported whatever fails afterwards
    (clean-up of the prize, archive, polls), a refusal is reported with its error; and
    when the wallet was not asked the outcome is an error. *)
Theorem claim_follows_wallet user shown rid prizes p :
  (let '(r, p') := claim A db TOKEN_METADATA_PROGRAM_ID API_KEY (Some user) rid prizes p in
   asks_once (claim_good user rid) eq (history p) r (history p')) /\
  (let '(r, p') := claimUnclaimed A db TOKEN_METADATA_PROGRAM_ID API_KEY (Some user) shown rid p in
   asks_once (claim_good user rid) eq (history p) r (history p')).
Proof.
  pose proof (claim_asks user rid prizes p) as Hc. pose proof (claimUnclaimed_asks user shown rid p) as Hu.
  unfold wp in Hc, Hu.
  destruct (claim _ _ _ _ _ _ _ p), (claimUnclaimed _ _ _ _ _ _ _ p). done.
Qed.

(** ** Degen mode *)

Definition degen_good (user : PublicKey) (rid : Z) (tx : WalletTx) (before : list FEvent) : Prop :=
  sees_status rid RoundStatus.Settled before /\ degen_tx user rid tx.

(** From [h] to [h'] the wallet was asked at most once, for a good transaction. *)
Definition asks_at_most_once (good : WalletTx -> list FEvent -> Prop) (h h' : list FEvent) : Prop :=
  exists evs, h' = evs ++ h /\
    (Forall no_wallet evs \/
     exists after tx w before, evs = after ++ FSend tx w :: before /\
       Forall no_wallet after /\ Forall no_wallet before /\ good tx before).

(** Nothing asked yet, or asked once. *)
Definition asked (user : PublicKey) (rid : Z) (h : list FEvent) (p : Proc) : Prop :=
  silent_since h p \/ exists w, answered (degen_good user rid) h w p.

Lemma asked_extends user rid h p p' : asked user rid h p -> extends no_wallet p p' -> asked user rid h p'.
Proof.
  intros [Hs|[w Ha]] He; [left; by eapply silent_since_extends|right].
  exists w. by eapply answered_extends.
Qed.

Lemma asked_once user rid h p : asked user rid h p -> asks_at_most_once (degen_good user rid) h (history p).
Proof.
  intros [(evs & E & F)|(w & after & tx & before & E & F1 & F2 & Hg)].
  - exists evs. auto.
  - exists (after ++ FSend tx w :: before). rewrite <- app_assoc. split; [done|]. right.
    exists after, tx, w, before. by split_and!.
Qed.

Lemma request_asks user rid current delay evs h p :
  history p = evs ++ h -> Forall no_wallet evs -> sees_status rid RoundStatus.Settled evs ->
  wp (request_degen A user rid current delay) (fun r p' => asked user rid h p') p.
Proof.
  intros Hh Hq Hs. assert (asked user rid h p) as Hp by (left; by exists evs).
  unfold request_degen. destruct (match current with Some _ => _ | None => _ end); [|done].
  apply wp_bind, wp_lift. destruct (FrontIx.buildRequestDegenVrf A user rid) as [ix|e] eqn:Ex; [|done].
  apply wp_bind. unfold sendTransaction. apply wp_invoke. intros r w.
  assert (asked user rid h (mkProc (local p) w (FSend (LegacyTx [ix]) r :: history p))) as Ha.
  { right. exists r, [], (LegacyTx [ix]), evs. simpl. rewrite Hh. split_and!; [done|constructor|done|].
    split; [done|by exists ix]. }
  destruct r as [sig|e]; [|done]. apply wp_bind.
  assert (silent (if 0 <? delay then f_sleep delay else mret tt)) as Hsl by (case_match; go).
  eapply wp_framed; [exact Hsl|]. intros [[]|e] p' _ He; [apply wp_ret|]; by eapply asked_extends.
Qed.

(** ** The wait ends *)

(** The clock, as [Date.now] reads it: it never goes back, and a timer runs its time. *)
Class ClockLaws := {
  clock : FWorld -> Z;
  now_reads : forall w, fst (fxNow w) = clock w;
  now_forward : forall w, clock w <= clock (snd (fxNow w));
  sleep_runs : forall ms w, clock w + ms <= clock (snd (fxSleep ms w));
  claim_forward : forall k w, clock w <= clock (snd (fxDegenClaim k w))
}.

Context `{!ClockLaws}.

Lemma fetchDegenClaim_clock rid user p :
  wp (fetchDegenClaim A rid user) (fun _ p' => clock (world p) <= clock (world p')) p.
Proof.
  unfold fetchDegenClaim. apply wp_bind, wp_lift. destruct (getDegenClaimPda A rid user) as [pda|e]; [|done].
  unfold or_else, f_degenClaim. apply wp_try, wp_bind, wp_invoke_at.
  pose proof (claim_forward pda (world p)) as Hc.
  by destruct (fxDegenClaim pda (world p)) as [[c|e] w].
Qed.

Lemma await_ends fuel user rid start p :
  MAX_POLL_TIME - (clock (world p) - start) <= POLL_INTERVAL * (Z.of_nat fuel - 1) -> (1 <= fuel)%nat ->
  wp (await_degen A fuel user rid start) (fun r _ => r ≠ Ok None) p.
Proof.
  revert p. induction fuel as [|fuel IH]; intros p Hc Hf; [lia|]. cbn [await_degen].
  pose proof (now_forward (world p)) as Hm. set (w := snd (fxNow (world p))) in Hm.
  pose proof (sleep_runs POLL_INTERVAL w) as Hs.
  apply wp_bind. unfold f_now. apply wp_invoke_total_at. rewrite now_reads. fold w.
  destruct (clock (world p) - start <? MAX_POLL_TIME) eqn:Et; [|by apply wp_ret].
  apply wp_bind. unfold f_sleep. apply wp_invoke_total_at. cbn [world].
  apply wp_bind. eapply wp_mono; [apply fetchDegenClaim_clock|]. simpl. intros r p' Hcl.
  apply Z.ltb_lt in Et. unfold POLL_INTERVAL, MAX_POLL_TIME in *.
  assert (wp (await_degen A fuel user rid start) (fun r _ => r ≠ Ok None) p') as Hrec
    by (apply IH; lia).
  destruct r as [[d|]|e]; [|done|done]. case_match; [by apply wp_ret|done].
Qed.

(** What the code does once it stopped waiting. *)
Definition after_wait (publicKey : option PublicKey) (rid : Z) (requestSig : string)
    (r : option (option DegenClaimData)) : M (option DegenResult) :=
  match r with
  | None => mret None
  | Some None => poll A TOKEN_METADATA_PROGRAM_ID API_KEY publicKey rid ;;
                 mret (Some (pending_result requestSig))
  | Some (Some d) =>
      if dcl_status d =? DegenModeStatus.ClaimedFallback then
        poll A TOKEN_METADATA_PROGRAM_ID API_KEY publicKey rid ;;
        mret (Some (fallback_result requestSig))
      else
        res ← swapped_result API_KEY requestSig d;
        poll A TOKEN_METADATA_PROGRAM_ID API_KEY publicKey rid ;;
        mret (Some res)
  end.

Lemma after_wait_some user rid sig d p :
  wp (after_wait user rid sig (Some d)) (fun r _ => r ≠ Ok None) p.
Proof.
  unfold after_wait.
  repeat (first [case_match | apply wp_bind, wp_any; intros [] ? | by apply wp_ret | done]).
Qed.

Lemma silent_after_wait user rid sig r : silent (after_wait user rid sig r).
Proof. unfold after_wait. go. Qed.

Lemma claimDegen_body_ends fuel user rid s :
  (31 <= fuel)%nat ->
  wp (current ← fetchDegenClaim A rid user;
      requestSig ← request_degen A user rid current 0;
      startTime ← f_now;
      r ← await_degen A fuel user rid startTime;
      after_wait (Some user) rid requestSig r) (fun r _ => r ≠ Ok None) s.
Proof.
  intros Hf. apply wp_bind, wp_any. intros [cur|] p1; [|done].
  apply wp_bind, wp_any. intros [sig|] p2; [|done]. apply wp_bind.
  pose proof (now_forward (world p2)) as Hm. unfold f_now. apply wp_invoke_total_at. rewrite now_reads.
  apply wp_bind. eapply wp_mono; [apply await_ends; simpl; unfold MAX_POLL_TIME, POLL_INTERVAL; lia|].
  intros [[d|]|e] p'' Hr; [apply after_wait_some|done|done].
Qed.

(** C15: A claim in degen mode ends: when the clock never goes back and a timer runs its
    time, 31 rounds of waiting are enough, and the outcome is an error or a result, never
    an endless wait.  On the way it asks the wallet at most once, for the randomness of
    the round it has read as settled. *)
Theorem claimDegen_ends fuel user rid p :
  (31 <= fuel)%nat ->
  let '(r, p') := claimDegen A TOKEN_METADATA_PROGRAM_ID API_KEY fuel (Some user) rid p in
  r ≠ Ok None /\ asks_at_most_once (degen_good user rid) (history p) (history p').
Proof.
  intros Hf. enough (wp (claimDegen A TOKEN_METADATA_PROGRAM_ID API_KEY fuel (Some user) rid)
    (fun r p' => r ≠ Ok None /\ asks_at_most_once (degen_good user rid) (history p) (history p')) p) as Hw.
  { unfold wp in Hw. by destruct (claimDegen _ _ _ _ _ _ p). }
  unfold claimDegen.
  apply (wp_with_ui _ (fun r h' => r ≠ Ok None /\ asks_at_most_once _ (history p) h')). intros s.
  apply wp_bind. eapply wp_mono; [apply fetchRound_reads|]. simpl. intros r p1 (evs & Hh & Hq & Hd).
  assert (asked user rid (history p) p1) as Hs1 by (left; by exists evs).
  assert (forall (e : JsError), @Throw (option DegenResult) e ≠ Ok None /\
    asks_at_most_once (degen_good user rid) (history p) (history p1)) as Ht.
  { intros e. split; [done|by apply asked_once]. }
  destruct r as [[rd|]|e]; [| |done]; [|by apply wp_throw].
  case_match; [by apply wp_throw|]. case_match eqn:Est; [by apply wp_throw|].
  apply negb_false_iff, Z.eqb_eq in Est. specialize (Hd rd eq_refl). rewrite Est in Hd.
  apply wp_and; [by apply claimDegen_body_ends|].
  apply wp_bind. eapply wp_framed; [apply silent_fetchDegenClaim|]. intros [cur|e] p2 _ (evs2 & Hh2 & Hq2).
  2: { apply asked_once. eapply asked_extends; [done|by exists evs2]. }
  apply wp_bind. eapply wp_mono; [apply (request_asks _ _ _ _ (evs2 ++ evs))|].
  { by rewrite Hh2, Hh, app_assoc. }
  { by apply Forall_app. }
  { destruct Hd as (pda & acc & d & E1 & Hin & E2). exists pda, acc, d. split; [done|]. split; [|done].
    apply elem_of_app. by right. }
  intros [sig|e] p3 Ha3; [|by apply asked_once].
  apply wp_bind. unfold f_now. apply wp_invoke_total. intros now w.
  apply (asked_extends _ _ _ _ (mkProc (local p3) w (FNow now :: history p3))) in Ha3;
    [|exists [FNow now]; split; [done|]; constructor; [by intros []|done]].
  apply wp_bind. eapply wp_framed; [apply silent_await|]. intros [res|e] p4 _ He4;
    [|apply asked_once; by eapply asked_extends].
  eapply wp_framed; [apply (silent_after_wait (Some user) rid sig res)|]. intros r5 p5 _ He5.
  apply asked_once. by do 2 (eapply asked_extends; [|done]).
Qed.
End contract.
