(* ===== verification/RoundDetail.v ===== *)
(** * RoundDetail: the page of one round

    src/src/pages/RoundDetail.tsx: loading a round from the chain or from the archive, noticing
    a claim in degen mode, claiming the prize in USDC or in degen mode, and the values shown.

    The page has its own state; the local storage and the caches of the modules are those of
    the frontend ([dt_page]), reached with [zoom].  A load that is superseded stops at its next
    check: [alive n] is what the [n]-th check of the run finds. *)

From stdpp Require Import base list gmap strings pretty.
From Stdlib Require Import ZArith Lia Ascii Strings.Byte SpecFloat.
From S2P Require Import Prelude Buffers Accounts JsRuntime Effects Solana Instructions Firebase DegenExecutor Frames Browser JupiterClient TokenMetadata History JackpotState JackpotPrizes JackpotPolling JackpotDeposit JackpotClaims JackpotFrames JackpotInvariant JackpotClaimsSpec.

Local Open Scope string_scope.
Local Open Scope list_scope.
Local Open Scope Z_scope.
Set Warnings "-clear-no-such-hyp".

Inductive ClaimingMode := ClaimingUsdc | ClaimingDegen.

Inductive DegenKind := DegenSwapped | DegenFallback | DegenPending.

Record DegenClaimResult := mkDegenClaimResult {
  dg_type : DegenKind;
  dg_tokenSymbol : option string;
  dg_tokenMint : option string;
  dg_tokenLogoUrl : option string;
  dg_sig : option string
}.

Record ParticipantDetail := mkDetail {
  pd_address : string;
  pd_tickets : num;
  pd_usdcAmount : num;
  pd_isWinner : bool;
  pd_color : string;
  pd_pct : num
}.

(** [PARTICIPANT_COLORS[i % PARTICIPANT_COLORS.length]] *)
Definition color_of (i : nat) : string := nth (i mod length PARTICIPANT_COLORS)%nat PARTICIPANT_COLORS "".

(** [total > 0 ? (usdcAmt / total) * 100 : 0] *)
Definition share_pct (usdcAmt total : num) : num :=
  if positive_num total then num_times (num_over usdcAmt total) (num_of_Z 100) else S754_zero false.

(** [x || 1] of a count *)
Definition or_one_Z (n : Z) : num := if n =? 0 then num_of_Z 1 else num_of_Z n.

Definition floor_of (x : num) : num := match num_floor x with Some z => num_of_Z z | None => x end.

(** A participant of an archived round: its saved deposit, or an equal share. *)
Definition archived_detail (h : Hist.HistoryRound) (i : nat) (addrStr : string) : ParticipantDetail :=
  let dep := snd <$> list_find (fun d => d_address d = addrStr) (default [] (Hist.participantDeposits h)) in
  let n := or_one_Z (Hist.participantsCount h) in
  let usdcAmt := match dep with Some d => d_usdc d | None => num_over (Hist.totalUsdc h) n end in
  let tickets := match dep with Some d => d_tickets d | None => floor_of (num_over (Hist.totalTickets h) n) end in
  mkDetail addrStr tickets usdcAmt (String.eqb addrStr (Hist.winner h) && (RoundStatus.Settled <=? Hist.status h))
    (color_of i) (share_pct usdcAmt (Hist.totalUsdc h)).

Section detail.
Context `{FrontServices} (A : Addresses).
Context (db : bool) (API_KEY : string).

Record DetailView := mkDetailView {
  dv_roundData : option Front.RoundData;
  dv_archived : option Hist.HistoryRound;
  dv_participants : list ParticipantDetail;
  dv_loading : bool;
  dv_error : option string;
  dv_claimingMode : option ClaimingMode;
  dv_claimTx : option string;
  dv_claimError : option string;
  dv_degen : option DegenClaimResult
}.

Record Detail := mkDetailState { dt_view : DetailView; dt_page : Jackpot }.

Definition initial_detail : DetailView := mkDetailView None None [] true None None None None None.

Local Abbreviation M := (M Detail FWorld FEvent).

(** A computation of the frontend on the page's part of the state. *)
Definition zoom {X} (m : Effects.M Jackpot FWorld FEvent X) : M X := fun p =>
  let '(r, q) := m (mkProc (dt_page (local p)) (world p) (history p)) in
  (r, mkProc (mkDetailState (dt_view (local p)) (local q)) (world q) (history q)).

Definition dv_modify (f : DetailView -> DetailView) : M unit :=
  modify (fun s => mkDetailState (f (dt_view s)) (dt_page s)).

Definition set_dv_roundData (x : option Front.RoundData) (v : DetailView) : DetailView :=
  mkDetailView x (dv_archived v) (dv_participants v) (dv_loading v) (dv_error v) (dv_claimingMode v) (dv_claimTx v) (dv_claimError v) (dv_degen v).
Definition set_dv_archived (x : option Hist.HistoryRound) (v : DetailView) : DetailView :=
  mkDetailView (dv_roundData v) x (dv_participants v) (dv_loading v) (dv_error v) (dv_claimingMode v) (dv_claimTx v) (dv_claimError v) (dv_degen v).
Definition set_dv_participants (x : list ParticipantDetail) (v : DetailView) : DetailView :=
  mkDetailView (dv_roundData v) (dv_archived v) x (dv_loading v) (dv_error v) (dv_claimingMode v) (dv_claimTx v) (dv_claimError v) (dv_degen v).
Definition set_dv_loading (x : bool) (v : DetailView) : DetailView :=
  mkDetailView (dv_roundData v) (dv_archived v) (dv_participants v) x (dv_error v) (dv_claimingMode v) (dv_claimTx v) (dv_claimError v) (dv_degen v).
Definition set_dv_error (x : option string) (v : DetailView) : DetailView :=
  mkDetailView (dv_roundData v) (dv_archived v) (dv_participants v) (dv_loading v) x (dv_claimingMode v) (dv_claimTx v) (dv_claimError v) (dv_degen v).
Definition set_dv_claimingMode (x : option ClaimingMode) (v : DetailView) : DetailView :=
  mkDetailView (dv_roundData v) (dv_archived v) (dv_participants v) (dv_loading v) (dv_error v) x (dv_claimTx v) (dv_claimError v) (dv_degen v).
Definition set_dv_claimTx (x : option string) (v : DetailView) : DetailView :=
  mkDetailView (dv_roundData v) (dv_archived v) (dv_participants v) (dv_loading v) (dv_error v) (dv_claimingMode v) x (dv_claimError v) (dv_degen v).
Definition set_dv_claimError (x : option string) (v : DetailView) : DetailView :=
  mkDetailView (dv_roundData v) (dv_archived v) (dv_participants v) (dv_loading v) (dv_error v) (dv_claimingMode v) (dv_claimTx v) x (dv_degen v).
Definition set_dv_degen (x : option DegenClaimResult) (v : DetailView) : DetailView :=
  mkDetailView (dv_roundData v) (dv_archived v) (dv_participants v) (dv_loading v) (dv_error v) (dv_claimingMode v) (dv_claimTx v) (dv_claimError v) x.

(** ** Loading *)

Definition chain_detail (data : Front.RoundData) (roundPda : PublicKey) (parts : list ParticipantDetail) (i : nat)
    : M (list ParticipantDetail) :=
  match Front.participants data !! i with
  | None => throw type_error
  | Some addr =>
      let totalUsdc := usdc_of_raw (Front.totalUsdc data) in
      amounts ← try_catch
        (pData ← f_participant (getParticipantPda A roundPda addr);
         mret (num_of_Z (snd pData), usdc_of_raw (fst pData)))
        (fun _ =>
           let usdcAmt := num_over totalUsdc (num_of_Z (Front.participantsCount data)) in
           mret (floor_of (num_over (num_times usdcAmt (num_of_Z 1000000)) (num_of_Z TICKET_UNIT)), usdcAmt));
      let '(tickets, usdcAmt) := amounts in
      mret (parts ++ [mkDetail (toBase58 addr) tickets usdcAmt
        (bool_decide (toBase58 addr = toBase58 (Front.winner data)) && (RoundStatus.Settled <=? Front.status data))
        (color_of i) (share_pct usdcAmt totalUsdc)])
  end.

(** The archived round is shown. *)
Definition show_archived (archived : Hist.HistoryRound) : M unit :=
  dv_modify (fun v =>
    let v := set_dv_roundData None (set_dv_archived (Some archived) v) in
    let v := match nonempty (Hist.claimTx archived) with Some sig => set_dv_claimTx (Some sig) v | None => v end in
    set_dv_loading false (set_dv_participants (imap (archived_detail archived) (Hist.participants archived)) v)).

Definition load_body (alive : nat -> bool) (roundDetailId : Z) : M unit :=
  data ← zoom (fetchRound A roundDetailId);
  if negb (alive 0%nat) then mret tt
  else
    match data with
    | None =>
        archived ← zoom (fetchRoundFromFirebase db roundDetailId);
        if negb (alive 1%nat) then mret tt
        else match archived with
             | None => dv_modify (fun v => set_dv_loading false (set_dv_error (Some "Round not found") v))
             | Some h => show_archived h
             end
    | Some data =>
        dv_modify (fun v => set_dv_roundData (Some data) (set_dv_archived None v)) ;;
        roundPda ← lift (getRoundPda A roundDetailId);
        parts ← for_acc (seq 0 (Z.to_nat (Front.participantsCount data))) (chain_detail data roundPda) [];
        if alive 2%nat then dv_modify (fun v => set_dv_loading false (set_dv_participants parts v)) else mret tt
    end.

Definition load_round (alive : nat -> bool) (roundDetailId : Z) : M unit :=
  if roundDetailId =? 0 then mret tt
  else
    dv_modify (fun v => set_dv_error None (set_dv_loading true v)) ;;
    try_catch (load_body alive roundDetailId)
      (fun e => if alive 3%nat
                then dv_modify (fun v => set_dv_loading false
                       (set_dv_error (Some (text_or (Some (err_message e)) "Failed to load round")) v))
                else mret tt).

(** ** Degen claims *)

(** The mint and symbol of the token that was paid out, with its logo if it can be had. *)
Definition degen_token (degen : DegenClaimData) (none : string) : M (option string * string * string) :=
  if bool_decide (dcl_tokenMint degen = defaultKey) then mret (None, none, "")
  else
    let mint := toBase58 (dcl_tokenMint degen) in
    t ← zoom (fetchDegenTokenMeta API_KEY mint);
    logo ← zoom (or_else (fetchTokenLogoViaJupiter API_KEY mint) "");
    mret (Some mint, dt_symbol t, logo).

Definition show_degen (alive : bool) (r : DegenClaimResult) (mark : string) : M unit :=
  if alive then
    dv_modify (fun v => 
      let v' := set_dv_degen (Some r) v in
      match nonempty (dv_claimTx v) with Some _ => v' | None => set_dv_claimTx (Some mark) v' end)
  else mret tt.

(** The effect that notices a claim in degen mode; a failure is ignored. *)
Definition detect_degen (alive : nat -> bool) (roundDetailId : Z) : M unit :=
  v ← gets dt_view;
  match dv_roundData v with
  | None => mret tt
  | Some data =>
      if (roundDetailId =? 0) || (Front.status data <? RoundStatus.Settled) || bool_decide (Front.winner data = defaultKey)
      then mret tt
      else
        try_catch
          (degen ← zoom (fetchDegenClaim A roundDetailId (Front.winner data));
           match degen with
           | None => mret tt
           | Some d =>
               if negb (alive 0%nat) then mret tt
               else if dcl_status d =? DegenModeStatus.ClaimedSwapped then
                 token ← degen_token d "TOKEN";
                 let '(mint, symbol, logo) := token in
                 show_degen (alive 1%nat)
                   (mkDegenClaimResult DegenSwapped (Some (text_or (Some symbol) "TOKEN")) mint (Some logo) None) "degen-swapped"
               else if dcl_status d =? DegenModeStatus.ClaimedFallback then
                 show_degen (alive 1%nat) (mkDegenClaimResult DegenFallback None None None None) "degen-fallback"
               else if (DegenModeStatus.VrfRequested <=? dcl_status d) && (dcl_status d <=? DegenModeStatus.Executing) then
                 show_degen (alive 1%nat) (mkDegenClaimResult DegenPending None None None None) "degen-pending"
               else mret tt
           end)
          (fun _ => mret tt)
  end.

(** ** Claims *)

Definition isWinner (publicKey : option PublicKey) (v : DetailView) : bool :=
  match dv_roundData v, publicKey with
  | Some data, Some user =>
      (Front.status data =? RoundStatus.Settled) && String.eqb (toBase58 (Front.winner data)) (toBase58 user)
  | _, _ => false
  end.

(** The round may have been claimed since: a round that is read in another state stops the
    claim. *)
Definition recheck (roundDetailId : Z) : M unit :=
  freshRound ← zoom (fetchRound A roundDetailId);
  match freshRound with
  | Some fresh =>
      if Front.status fresh =? RoundStatus.Settled then mret tt
      else
        dv_modify (set_dv_roundData (Some fresh)) ;;
        throw (if Front.status fresh =? RoundStatus.Claimed then already_claimed else not_claimable)
  | None => mret tt
  end.

(** The account of the payer of the VRF is created when it does not exist. *)
Definition vrf_payer_ata (user vrfPayer : PublicKey) : M (list TransactionInstruction) :=
  if bool_decide (vrfPayer = defaultKey) then mret []
  else
    ata ← lift (getAssociatedTokenAddress (USDC_MINT A) vrfPayer false);
    info ← f_account ata;
    mret (match info with
          | None => [createAssociatedTokenAccountIdempotent user ata vrfPayer (USDC_MINT A) TOKEN_PROGRAM_ID]
          | Some _ => []
          end).

(** The claimed round as it is archived. *)
Definition claimed_entry (h : Hist.HistoryRound) (sig : string) : Hist.HistoryRound :=
  Hist.mkHistoryRound (Hist.roundId h) RoundStatus.Claimed (Hist.totalUsdc h) (Hist.totalTickets h)
    (Hist.participantsCount h) (Hist.winner h) (Hist.winningTicket h) (Hist.randomness h) (Hist.startTs h) (Hist.endTs h)
    (Some sig) (Hist.vaultUsdcAta h) (Hist.participants h) (Hist.participantDeposits h).

Definition after_claim (roundDetailId : Z) (sig : string) : M unit :=
  zoom (clearUnclaimedPrize roundDetailId) ;;
  fresh ← zoom (fetchRound A roundDetailId);
  match fresh with
  | None => mret tt
  | Some fresh =>
      dv_modify (set_dv_roundData (Some fresh)) ;;
      zoom (or_else (h ← toHistoryRoundWithDeposits A fresh roundDetailId; saveRoundToFirebase db (claimed_entry h sig)) tt)
  end.

Definition claim_body (user : PublicKey) (data : Front.RoundData) (roundDetailId : Z) : M unit :=
  recheck roundDetailId ;;
  pre ← vrf_payer_ata user (Front.vrfPayer data);
  cfg ← zoom (fetchConfig A);
  ix ← lift (FrontIx.buildClaim A user roundDetailId (USDC_MINT A) (treasuryUsdcAta cfg) (Some (Front.vrfPayer data)));
  sig ← sendTransaction (LegacyTx (pre ++ [ix]));
  dv_modify (set_dv_claimTx (Some sig)) ;;
  after_claim roundDetailId sig.

(** [e.message?.slice(0, 80) || fallback] *)
Definition claim_error (e : JsError) (fallback : string) : string :=
  text_or (Some (String.substring 0 80 (err_message e))) fallback.

(** [try { body } catch (e) { setClaimError(...) } finally { setClaimingMode(null) }] *)
Definition claiming (mode : ClaimingMode) (fallback : string) (body : M unit) : M unit :=
  dv_modify (fun v => set_dv_claimError None (set_dv_claimingMode (Some mode) v)) ;;
  try_catch body
    (fun e => dv_modify (set_dv_claimError (Some (claim_error e fallback)))) ;;
  dv_modify (set_dv_claimingMode None).

Definition handleClaim (publicKey : option PublicKey) (roundDetailId : Z) : M unit :=
  v ← gets dt_view;
  match publicKey, dv_roundData v with
  | Some user, Some data =>
      if roundDetailId =? 0 then mret tt else claiming ClaimingUsdc "Claim failed" (claim_body user data roundDetailId)
  | _, _ => mret tt
  end.

(** The request, unless one was made. *)
Definition request_vrf_if_needed (user : PublicKey) (roundDetailId : Z) (current : option DegenClaimData) : M string :=
  match current with
  | Some c => if negb (dcl_status c =? 0) then mret "" else
      ix ← lift (FrontIx.buildRequestDegenVrf A user roundDetailId); sendTransaction (LegacyTx [ix])
  | None => ix ← lift (FrontIx.buildRequestDegenVrf A user roundDetailId); sendTransaction (LegacyTx [ix])
  end.

Definition degen_shown (degen : DegenClaimData) (requestSig : string) : M unit :=
  let sig := nonempty (Some requestSig) in
  let show r mark := dv_modify (fun v => set_dv_degen (Some r) (set_dv_claimTx (Some (text_or (Some requestSig) mark)) v)) in
  if dcl_status degen =? DegenModeStatus.ClaimedFallback then
    show (mkDegenClaimResult DegenFallback None None None sig) "degen-fallback"
  else if dcl_status degen =? DegenModeStatus.ClaimedSwapped then
    token ← degen_token degen "token";
    let '(mint, symbol, logo) := token in
    show (mkDegenClaimResult DegenSwapped (Some (text_or (Some symbol) "TOKEN")) mint (Some logo) sig) ("degen-" +:+ symbol)
  else if (dcl_status degen =? DegenModeStatus.VrfRequested) || (dcl_status degen =? DegenModeStatus.VrfReady) ||
          (dcl_status degen =? DegenModeStatus.Executing) then
    show (mkDegenClaimResult DegenPending None None None sig) "degen-pending"
  else throw (mkError "Error" "Unexpected degen claim state").

Definition claim_degen_body (user : PublicKey) (roundDetailId : Z) : M unit :=
  recheck roundDetailId ;;
  current ← zoom (fetchDegenClaim A roundDetailId user);
  requestSig ← request_vrf_if_needed user roundDetailId current;
  f_sleep 2000 ;;
  degen ← zoom (fetchDegenClaim A roundDetailId user);
  match degen with
  | None => throw (mkError "Error" "Degen claim state is not available yet")
  | Some d =>
      degen_shown d requestSig ;;
      zoom (clearUnclaimedPrize roundDetailId) ;;
      updated ← zoom (fetchRound A roundDetailId);
      match updated with Some u => dv_modify (set_dv_roundData (Some u)) | None => mret tt end
  end.

Definition handleClaimDegen (publicKey : option PublicKey) (roundDetailId : Z) : M unit :=
  v ← gets dt_view;
  match publicKey, dv_roundData v with
  | Some user, Some _ =>
      if roundDetailId =? 0 then mret tt else claiming ClaimingDegen "Degen claim failed" (claim_degen_body user roundDetailId)
  | _, _ => mret tt
  end.

(** ** What is shown *)

Definition display_totalUsdc (v : DetailView) : num :=
  match dv_roundData v, dv_archived v with
  | Some data, _ => usdc_of_raw (Front.totalUsdc data)
  | None, Some h => Hist.totalUsdc h
  | None, None => S754_zero false
  end.

(** [FEE_BPS] is 25. *)
Definition display_fee (v : DetailView) : num := num_over (num_times (display_totalUsdc v) (num_of_Z 25)) (num_of_Z 10000).
Definition display_payout (v : DetailView) : num := num_minus (display_totalUsdc v) (display_fee v).

Definition displayStatus (v : DetailView) : Z :=
  match dv_roundData v, dv_archived v with
  | Some data, _ => Front.status data
  | None, Some h => Hist.status h
  | None, None => -1
  end.

Definition STATUS_LABELS (st : Z) : string :=
  if st =? RoundStatus.Open then "Open"
  else if st =? RoundStatus.Locked then "Locked"
  else if st =? RoundStatus.VrfRequested then "VRF Requested"
  else if st =? RoundStatus.Settled then "Settled"
  else if st =? RoundStatus.Claimed then "Claimed"
  else if st =? RoundStatus.Cancelled then "Cancelled"
  else "?".

Definition display_winner (v : DetailView) : string :=
  match dv_roundData v, dv_archived v with
  | Some data, _ => toBase58 (Front.winner data)
  | None, Some h => Hist.winner h
  | None, None => ""
  end.

Definition isArchived (v : DetailView) : bool :=
  match dv_roundData v, dv_archived v with None, Some _ => true | _, _ => false end.

(** ** The claim asks the wallet once *)

Lemma wp_zoom {X} (m : Effects.M Jackpot FWorld FEvent X) Q p :
  wp m (fun r q => Q r (mkProc (mkDetailState (dt_view (local p)) (local q)) (world q) (history q)))
    (mkProc (dt_page (local p)) (world p) (history p)) ->
  wp (zoom m) Q p.
Proof. unfold wp, zoom. by destruct (m _) as [r q]. Qed.

(** The signature that is shown stays as it is. *)
Definition same_tx (s s' : Detail) : Prop := dv_claimTx (dt_view s') = dv_claimTx (dt_view s).

#[local] Instance same_tx_preorder : PreOrder same_tx.
Proof. split; [done|]. intros s1 s2 s3. unfold same_tx. congruence. Qed.

Local Abbreviation silent := (framed same_tx no_wallet).

Lemma silent_zoom {X} (m : Effects.M Jackpot FWorld FEvent X) : framed (fun _ _ => True) no_wallet m -> silent (zoom m).
Proof.
  intros Hm p. unfold zoom. destruct (Hm (mkProc (dt_page (local p)) (world p) (history p))) as [_ He].
  destruct (m _) as [r q]. by split.
Qed.

Lemma silent_dv_modify f : (forall v, dv_claimTx (f v) = dv_claimTx v) -> silent (dv_modify f).
Proof. intros Hf. apply framed_modify. intros s. unfold same_tx. cbn. by rewrite Hf. Qed.

Local Ltac go :=
  repeat first [ solve [auto with framed nocore] | framed_step | unfold_service ]; try done; try by intros [].

Lemma silent_clear rid : silent (zoom (clearUnclaimedPrize rid)).
Proof.
  apply silent_zoom. unfold clearUnclaimedPrize, loadUnclaimedPrizes, getItem, setItem, removeItem. go; by apply framed_modify.
Qed.

Lemma silent_read rid : silent (zoom (fetchRound A rid)).
Proof. apply silent_zoom. eapply framed_mono; [..|apply quiet_fetchRound]; done. Qed.

Lemma silent_config : silent (zoom (fetchConfig A)).
Proof. apply silent_zoom. eapply framed_mono; [..|apply quiet_fetchConfig]; done. Qed.

Lemma silent_archive_detail fresh rid sig :
  silent (zoom (or_else (h ← toHistoryRoundWithDeposits A fresh rid; saveRoundToFirebase db (claimed_entry h sig)) tt)).
Proof. apply silent_zoom. unfold toHistoryRoundWithDeposits, saveRoundToFirebase, deposit_entry. go. Qed.

Lemma silent_recheck rid : silent (recheck rid).
Proof.
  unfold recheck. apply framed_bind; [apply _|apply silent_read|]. intros [fresh|]; [|go].
  destruct (_ =? _); [go|]. apply framed_bind; [apply _|by apply silent_dv_modify|intros _; go].
Qed.

Lemma silent_vrf_payer user k : silent (vrf_payer_ata user k).
Proof. unfold vrf_payer_ata. go. Qed.

Lemma silent_after rid sig : silent (after_claim rid sig).
Proof.
  unfold after_claim. apply framed_bind; [apply _|apply silent_clear|intros _].
  apply framed_bind; [apply _|apply silent_read|]. intros [fresh|]; [|go].
  apply framed_bind; [apply _|by apply silent_dv_modify|intros _]. apply silent_archive_detail.
Qed.

(** Among the events, the account of the round was read, and found settled or not found. *)
Definition claimable (rid : Z) (evs : list FEvent) : Prop :=
  exists pda r, getRoundPda A rid = Ok pda /\ FAccount pda r ∈ evs /\
    (r = Ok None \/ exists acc d, r = Ok (Some acc) /\ Front.parseRound (ai_data acc) = Ok d /\ Front.status d = RoundStatus.Settled).

(** The claim of the round to the user and the configured treasury, with the payer of the VRF
    the page has read, whose account is created first when it does not exist. *)
Definition detail_claim_tx (user : PublicKey) (data : Front.RoundData) (rid : Z) (tx : WalletTx) (before : list FEvent) : Prop :=
  exists cfg ix pre, FConfig (getConfigPda A) (Ok cfg) ∈ before /\
    FrontIx.buildClaim A user rid (USDC_MINT A) (treasuryUsdcAta cfg) (Some (Front.vrfPayer data)) = Ok ix /\
    tx = LegacyTx (pre ++ [ix]) /\
    (pre = [] \/ exists ata, getAssociatedTokenAddress (USDC_MINT A) (Front.vrfPayer data) false = Ok ata /\
       pre = [createAssociatedTokenAccountIdempotent user ata (Front.vrfPayer data) (USDC_MINT A) TOKEN_PROGRAM_ID]).

Definition claim_good (user : PublicKey) (data : Front.RoundData) (rid : Z) (tx : WalletTx) (before : list FEvent) : Prop :=
  claimable rid before /\ detail_claim_tx user data rid tx before.

Lemma recheck_reads rid p :
  wp (recheck rid) (fun r p' => exists evs, history p' = evs ++ history p /\ (r = Ok tt -> claimable rid evs)) p.
Proof.
  unfold recheck. apply wp_bind, wp_zoom. unfold fetchRound. repeat front_step.
  destruct (getRoundPda A rid) as [pda|e] eqn:Ep; [|by exists []]. front_step. front_step.
  destruct r as [[acc|]|e]; repeat front_step; [| |by eexists [_]].
  - destruct (Front.parseRound (ai_data acc)) as [d|e] eqn:Ed; repeat front_step; [|by eexists [_]].
    destruct (Z.eqb_spec (Front.status d) RoundStatus.Settled) as [Es|_]; unfold dv_modify; repeat wp_step; eexists [_]; (split; [done|]); [|done].
    intros _. exists pda, (Ok (Some acc)). split; [done|]. split; [by left|]. right. eauto.
  - eexists [_]. split; [done|]. intros _. exists pda, (Ok None). split; [done|]. split; [by left|by left].
Qed.

(** The view after the body of a claim. *)
Definition body_outcome (user : PublicKey) (data : Front.RoundData) (rid : Z) (p : Proc Detail FWorld FEvent)
    (r : Res unit) (p' : Proc Detail FWorld FEvent) : Prop :=
  exists evs, history p' = evs ++ history p /\
    ((Forall no_wallet evs /\ (exists e, r = Throw e) /\ same_tx (local p) (local p')) \/
     (exists after tx w before, evs = after ++ FSend tx w :: before /\ Forall no_wallet after /\ Forall no_wallet before /\
        claim_good user data rid tx before /\
        match w with
        | Ok sig => dv_claimTx (dt_view (local p')) = Some sig
        | Throw e => r = Throw e /\ same_tx (local p) (local p')
        end)).

Lemma vrf_payer_spec user data p :
  wp (vrf_payer_ata user (Front.vrfPayer data)) (fun r p' => forall pre, r = Ok pre ->
    pre = [] \/ exists ata, getAssociatedTokenAddress (USDC_MINT A) (Front.vrfPayer data) false = Ok ata /\
       pre = [createAssociatedTokenAccountIdempotent user ata (Front.vrfPayer data) (USDC_MINT A) TOKEN_PROGRAM_ID]) p.
Proof.
  unfold vrf_payer_ata. case_bool_decide; [front_step; intros pre [= <-]; by left|].
  repeat front_step. destruct (getAssociatedTokenAddress _ _ _) as [ata|e]; [|done]. front_step. front_step.
  destruct r as [info|e]; [|done]. front_step. intros pre [= <-]. destruct info; [by left|right]. by exists ata.
Qed.

Lemma claimable_more rid evs evs' : claimable rid evs -> claimable rid (evs' ++ evs).
Proof.
  intros (pda & r & E & Hin & Hr). exists pda, r. split; [done|]. split; [|done]. apply elem_of_app. by right.
Qed.

(** A silent step, with what is known of its result. *)
Lemma wp_silent_step {X Y} (m : M X) (f : X -> M Y) (K : Res X -> Proc Detail FWorld FEvent -> Prop) Q (p0 p : Proc Detail FWorld FEvent) evs :
  silent m -> wp m K p -> history p = evs ++ history p0 -> Forall no_wallet evs -> same_tx (local p0) (local p) ->
  (forall r p' evs', K r p' -> history p' = (evs' ++ evs) ++ history p0 -> Forall no_wallet (evs' ++ evs) ->
     same_tx (local p0) (local p') -> history p' = evs' ++ history p ->
     match r with Ok x => wp (f x) Q p' | Throw e => Q (Throw e) p' end) ->
  wp (mbind f m) Q p.
Proof.
  intros Hm HK Hp Hq Ht Hnext. apply wp_bind. destruct (Hm p) as [Hs (evs' & He & Hq')]. unfold wp in HK |- *.
  apply (Hnext _ _ evs'); [done|by rewrite He, Hp, app_assoc|by apply Forall_app|by etrans|done].
Qed.

Lemma claim_body_outcome user data rid p :
  wp (claim_body user data rid) (body_outcome user data rid p) p.
Proof.
  assert (forall e p' evs, history p' = evs ++ history p -> Forall no_wallet evs -> same_tx (local p) (local p') ->
    body_outcome user data rid p (Throw e) p') as Hfail.
  { intros e p' evs Hp Hq Ht. exists evs. split; [done|]. left. by eauto. }
  unfold claim_body.
  eapply (wp_silent_step _ _ _ _ p p []); [apply silent_recheck|apply recheck_reads|done|done|done|].
  intros [[]|e] p1 evs1 (evs1' & E1 & Hc) Hp1 Hq1 Ht1 E1'; [|exact (Hfail e p1 _ Hp1 Hq1 Ht1)].
  assert (evs1' = evs1) as -> by (rewrite E1' in E1; by eapply (inj (.++ history p))). specialize (Hc eq_refl).
  rewrite app_nil_r in *.
  eapply (wp_silent_step _ _ _ _ p p1 evs1); [apply silent_vrf_payer|apply vrf_payer_spec|done|done|done|].
  intros [pre|e] p2 evs2 Hpre Hp2 Hq2 Ht2 _; [|exact (Hfail e p2 _ Hp2 Hq2 Ht2)]. specialize (Hpre pre eq_refl).
  unfold fetchConfig. apply wp_bind, wp_zoom. unfold f_config. apply wp_invoke. intros cfg w2. cbn [local world history].
  set (p3 := mkProc _ w2 _).
  assert (history p3 = (FConfig (getConfigPda A) cfg :: evs2 ++ evs1) ++ history p) as Hp3 by (cbn; by rewrite Hp2).
  assert (Forall no_wallet (FConfig (getConfigPda A) cfg :: evs2 ++ evs1)) as Hq3 by (constructor; [by intros []|done]).
  assert (same_tx (local p) (local p3)) as Ht3 by exact Ht2.
  destruct cfg as [cfg|e]; [|exact (Hfail e p3 _ Hp3 Hq3 Ht3)]. clearbody p3.
  wp_step. wp_step. destruct (FrontIx.buildClaim _ _ _ _ _ _) as [ix|e] eqn:Ex; [|exact (Hfail e p3 _ Hp3 Hq3 Ht3)].
  wp_step. unfold sendTransaction. apply wp_invoke. intros w w3.
  assert (claim_good user data rid (LegacyTx (pre ++ [ix])) (FConfig (getConfigPda A) (Ok cfg) :: evs2 ++ evs1)) as Hgood.
  { split; [by apply (claimable_more rid evs1 (FConfig (getConfigPda A) (Ok cfg) :: evs2))|].
    exists cfg, ix, pre. split; [by left|done]. }
  destruct w as [sig|e].
  - set (before := FConfig (getConfigPda A) (Ok cfg) :: evs2 ++ evs1) in *. set (tx := LegacyTx (pre ++ [ix])) in *.
    unfold dv_modify. wp_step. wp_step. cbn [local world history].
    set (p4 := mkProc _ w3 _).
    eapply wp_framed; [apply silent_after|]. intros r p5 Ht5 (evs5 & Hp5 & Hq5).
    exists (evs5 ++ FSend tx (Ok sig) :: before). split; [rewrite Hp5; unfold p4; cbn [history]; by rewrite Hp3, <- app_assoc|]. right.
    exists evs5, tx, (Ok sig), before. split; [done|]. split; [done|]. split; [done|]. split; [done|]. exact Ht5.
  - exists (FSend (LegacyTx (pre ++ [ix])) (Throw e) :: FConfig (getConfigPda A) (Ok cfg) :: evs2 ++ evs1).
    split; [cbn [history]; by rewrite Hp3|]. right.
    exists [], (LegacyTx (pre ++ [ix])), (Throw e), (FConfig (getConfigPda A) (Ok cfg) :: evs2 ++ evs1).
    split; [done|]. split; [constructor|]. split; [done|]. split; [done|]. by split.
Qed.

(** C19: a claim from the page of a round asks the wallet at most once, for the claim of that
    round to the connected user and the configured treasury, and never when the round was read
    in another state than settled; the signature the wallet gives is shown whatever fails
    afterwards, its refusal and every earlier failure are shown as an error with the old
    signature kept, and the page is never left claiming. *)
Theorem detail_claim_follows_wallet (user : PublicKey) (data : Front.RoundData) (rid : Z) (p : Proc Detail FWorld FEvent) :
  dv_roundData (dt_view (local p)) = Some data -> rid <> 0 ->
  wp (handleClaim (Some user) rid) (fun r p' =>
    r = Ok tt /\ dv_claimingMode (dt_view (local p')) = None /\
    exists evs, history p' = evs ++ history p /\
      ((Forall no_wallet evs /\ same_tx (local p) (local p') /\ is_Some (dv_claimError (dt_view (local p')))) \/
       (exists after tx w before, evs = after ++ FSend tx w :: before /\ Forall no_wallet after /\ Forall no_wallet before /\
          claim_good user data rid tx before /\
          match w with
          | Ok sig => dv_claimTx (dt_view (local p')) = Some sig
          | Throw e => same_tx (local p) (local p') /\
              dv_claimError (dt_view (local p')) = Some (claim_error e "Claim failed")
          end))) p.
Proof.
  intros Hd Hid. unfold handleClaim. wp_step. wp_step. rewrite Hd. destruct (Z.eqb_spec rid 0) as [|_]; [done|].
  unfold claiming, dv_modify. repeat wp_step. cbn [local world history].
  eapply wp_mono; [apply claim_body_outcome|]. intros [[]|e] p' (evs & Hp & Hout); repeat wp_step; cbn in *.
  - split; [done|]. split; [done|]. exists evs. split; [done|].
    destruct Hout as [(_ & (e & [=]) & _)|(after & tx & w & before & E & F1 & F2 & Hg & Hw)]. right.
    exists after, tx, w, before. do 4 (split; [done|]). destruct w as [sig|e]; [done|]. by destruct Hw.
  - split; [done|]. split; [done|]. exists evs. split; [done|].
    destruct Hout as [(F & _ & Ht)|(after & tx & w & before & E & F1 & F2 & Hg & Hw)].
    + left. split; [done|]. split; [exact Ht|by eexists].
    + right. exists after, tx, w, before. do 4 (split; [done|]). destruct w as [sig|e']; [done|].
      destruct Hw as [[= ->] Ht]. split; [exact Ht|done].
Qed.

(** ** Loading settles *)

Definition detail_of (data : Front.RoundData) (i : nat) (d : ParticipantDetail) : Prop :=
  exists addr, Front.participants data !! i = Some addr /\ pd_address d = toBase58 addr /\ pd_color d = color_of i /\
    pd_isWinner d = bool_decide (toBase58 addr = toBase58 (Front.winner data)) && (RoundStatus.Settled <=? Front.status data).

(** The round that is shown: one of the chain with its participants in order, or one of the
    archive with its own. *)
Definition shown (v : DetailView) : Prop :=
  (exists data, dv_roundData v = Some data /\ dv_archived v = None /\
     length (dv_participants v) = Z.to_nat (Front.participantsCount data) /\
     forall i d, dv_participants v !! i = Some d -> detail_of data i d) \/
  (exists h, dv_roundData v = None /\ dv_archived v = Some h /\
     dv_participants v = imap (archived_detail h) (Hist.participants h)).

Lemma chain_detail_spec data pda parts i p :
  wp (chain_detail data pda parts i) (fun r p' => dt_view (local p') = dt_view (local p) /\
    forall parts', r = Ok parts' -> exists d, parts' = parts ++ [d] /\ detail_of data i d) p.
Proof.
  unfold chain_detail. destruct (Front.participants data !! i) as [addr|] eqn:Ea; [|by front_step].
  repeat front_step. destruct r as [pd|e]; repeat front_step; (split; [done|]); intros parts' [= <-]; eexists; (split; [done|]);
    exists addr; by split.
Qed.

Lemma load_parts_spec data pda n start parts p :
  length parts = start -> (forall i d, parts !! i = Some d -> detail_of data i d) ->
  wp (for_acc (seq start n) (chain_detail data pda) parts) (fun r p' => dt_view (local p') = dt_view (local p) /\
    forall parts', r = Ok parts' -> length parts' = (start + n)%nat /\ forall i d, parts' !! i = Some d -> detail_of data i d) p.
Proof.
  revert start parts p. induction n as [|n IH]; intros start parts p Hl Hd; cbn [seq for_acc].
  { wp_step. split; [done|]. intros parts' [= <-]. split; [lia|done]. }
  apply wp_bind. eapply wp_mono; [apply chain_detail_spec|]. intros [parts1|e] p1 [Hv Hs]; [|by split].
  destruct (Hs parts1 eq_refl) as (d & -> & Hd1). eapply wp_mono; [apply (IH (S start))|].
  - rewrite length_app. cbn. lia.
  - intros i d' Hi. apply lookup_app_Some in Hi as [Hi|[Hge Hi]]; [by apply Hd|].
    apply list_lookup_singleton_Some in Hi as [Hi <-]. by replace i with start by lia.
  - cbn. intros r p2 [Hv2 Hs2]. split; [congruence|]. intros parts' Hr. destruct (Hs2 parts' Hr). split; [lia|done].
Qed.

(** A computation of the frontend leaves the view alone. *)
Lemma wp_zoom_view {X} (m : Effects.M Jackpot FWorld FEvent X) (Q : Res X -> Proc Detail FWorld FEvent -> Prop) p :
  (forall r p', dt_view (local p') = dt_view (local p) -> Q r p') -> wp (zoom m) Q p.
Proof. intros HQ. apply wp_zoom, wp_any. intros r q. by apply HQ. Qed.

Lemma load_body_settles rid p :
  dv_error (dt_view (local p)) = None ->
  wp (load_body (fun _ => true) rid) (fun r p' => match r with
    | Ok _ => dv_loading (dt_view (local p')) = false /\
        (is_Some (dv_error (dt_view (local p'))) \/ dv_error (dt_view (local p')) = None /\ shown (dt_view (local p')))
    | Throw _ => True
    end) p.
Proof.
  intros He. unfold load_body. apply wp_bind, wp_zoom_view. intros [data|e] p1 Hv1; [|done]. cbn [negb].
  destruct data as [data|].
  - unfold dv_modify. wp_step. wp_step. wp_step. wp_step. destruct (getRoundPda A rid) as [pda|e]; [|done].
    wp_step. eapply wp_mono; [apply (load_parts_spec data pda _ 0 []); done|]. intros [parts|e] p2 [Hv2 Hs]; [|done].
    destruct (Hs parts eq_refl) as [Hlen Hd]. cbn beta iota. wp_step. cbn. rewrite Hv2. cbn. split; [done|]. right.
    rewrite Hv1. split; [done|]. left. by exists data.
  - apply wp_bind, wp_zoom_view. intros [archived|e] p2 Hv2; [|done]. destruct archived as [h|].
    + unfold show_archived, dv_modify. wp_step. cbn. rewrite Hv2, Hv1.
      destruct (nonempty (Hist.claimTx h)); (split; [done|]); right; (split; [done|]); right; by exists h.
    + unfold dv_modify. wp_step. cbn. split; [done|]. left. by eexists.
Qed.

Lemma load_body_superseded rid p :
  wp (load_body (fun _ => false) rid) (fun _ p' => dt_view (local p') = dt_view (local p)) p.
Proof. unfold load_body. apply wp_bind, wp_zoom_view. intros [data|e] p1 Hv1; [|done]. cbn [negb]. by wp_step. Qed.

(** Loading the page of a round always settles: it ends without an exception, no longer
    loading, with an error or with the round: one read from the chain, its participants all
    listed in order and exactly the winner of a settled round marked as such, or one of the
    archive.  A load that was superseded shows nothing of what it read. *)
Theorem detail_load_settles (rid : Z) (p : Proc Detail FWorld FEvent) :
  rid <> 0 ->
  wp (load_round (fun _ => true) rid) (fun r p' => r = Ok tt /\ dv_loading (dt_view (local p')) = false /\
    (is_Some (dv_error (dt_view (local p'))) \/ dv_error (dt_view (local p')) = None /\ shown (dt_view (local p')))) p /\
  wp (load_round (fun _ => false) rid) (fun r p' => r = Ok tt /\
    dt_view (local p') = set_dv_error None (set_dv_loading true (dt_view (local p)))) p.
Proof.
  intros Hid. unfold load_round. destruct (Z.eqb_spec rid 0) as [|_]; [done|]. unfold dv_modify. split.
  - wp_step. wp_step. wp_step. eapply wp_mono; [by apply load_body_settles|]. intros [[]|e] p' HQ; [done|].
    cbn beta iota. wp_step. cbn. split; [done|]. split; [done|]. left. by eexists.
  - wp_step. wp_step. wp_step. eapply wp_mono; [apply load_body_superseded|]. intros [[]|e] p' HQ; [done|].
    cbn beta iota. wp_step. by split.
Qed.
End detail.

(** ** Runs *)

Module DetailWitness.
#[local] Existing Instance ToyKeys.keys.
#[local] Existing Instance ToySolana.libs.
#[local] Existing Instance ToyBrowser.xlibs.
#[local] Existing Instance ToyBrowser.services.
Local Abbreviation k := ToyBrowser.k.
Local Abbreviation A := ToyBrowser.addresses.
Local Abbreviation Proc := (Proc Detail (@FWorld _ _ _ ToyBrowser.services) FEvent).

Definition user : PublicKey := k 21.

(** The page has read a settled round the user has won; the account is gone since. *)
Definition data : Front.RoundData :=
  Front.mkRoundData 6 RoundStatus.Settled None 254 0 0 0 (k 20) 5000000 500 1 [] 0 user [user] defaultKey None.

Definition page : DetailView := mkDetailView (Some data) None [] false None None None None None.

Definition start : Proc :=
  mkProc (mkDetailState page (mkJackpot initial_view initial_refs None no_metadata)) (ToyBrowser.mkScript 1000 [] [] [] 9 [] 0) [].

Lemma detail_claim_follows_wallet_witness :
  dv_claimingMode (dt_view (local (snd (handleClaim A true (Some user) 6 start)))) = None.
Proof.
  destruct (detail_claim_follows_wallet A true user data 6 start) as (_ & E & _); [reflexivity|discriminate|exact E].
Defined.

Lemma detail_load_settles_witness :
  dv_loading (dt_view (local (snd (load_round A true (fun _ => true) 6 start)))) = false.
Proof.
  destruct (detail_load_settles A true 6 start) as [(_ & E & _) _]; [discriminate|exact E].
Defined.

(** The claim of a round whose account no longer exists is sent all the same, and its
    signature is shown as a claim. *)
Lemma closed_round_is_claimed :
  dv_claimTx (dt_view (local (snd (handleClaim A true (Some user) 6 start)))) = Some "sig0" /\
  dv_claimError (dt_view (local (snd (handleClaim A true (Some user) 6 start)))) = None.
Proof. split; vm_compute; reflexivity. Qed.
End DetailWitness.
