(* ===== verification/JackpotDepositSpec.v ===== *)
(** * JackpotDepositSpec: what a deposit sends

    The transactions of a deposit partition its swaps: every swap is in exactly one of
    them, in order, the direct USDC in the first, and each deposits the sum of what its
    parts promise.  A deposit that fails has sent a prefix of that partition.  Then the
    bounds of the top-up that collects the direct USDC. *)

From stdpp Require Import base list gmap strings pretty.
From Stdlib Require Import ZArith Lia Ascii Strings.Byte SpecFloat.
From S2P Require Import Prelude Buffers Accounts JsRuntime Effects Solana Instructions Firebase DegenExecutor Frames Browser JupiterClient TokenMetadata History NumFacts JackpotState JackpotPrizes JackpotPolling JackpotDeposit JackpotClaims JackpotFrames JackpotInvariant JackpotClaimsSpec.

Local Open Scope string_scope.
Local Open Scope list_scope.
Local Open Scope Z_scope.
Set Warnings "-clear-no-such-hyp".

(** ** The top-up *)

Section topup.
Context `{Web3Keys}.

(** What the accounts other than the associated one can give. *)
Definition available (sources : list UsdcSource) : Z := fold_right (fun s z => us_raw s + z) 0 sources.

Lemma insert_source_perm s l : insert_source s l ≡ₚ s :: l.
Proof.
  induction l as [|t l IH]; simpl; [done|]. case_match; [done|]. rewrite IH. apply Permutation_swap.
Qed.

Lemma sort_sources_perm l : sort_sources l ≡ₚ l.
Proof. induction l as [|s l IH]; simpl; [done|]. by rewrite insert_source_perm, IH. Qed.

Lemma available_perm l1 l2 : l1 ≡ₚ l2 -> available l1 = available l2.
Proof. unfold available. induction 1; simpl in *; lia. Qed.

(** Every transfer is positive, drawn on one of the sources within its amount, and the
    transfers add up to what is needed, or to all there is. *)
Lemma topup_spec sources remaining :
  Forall (fun s => 0 < us_raw s) sources -> 0 <= remaining ->
  total (topup sources remaining) = Z.min remaining (available sources) /\
  Forall2 (fun m s => fst m = us_pubkey s /\ 0 < snd m <= us_raw s)
    (topup sources remaining) (take (length (topup sources remaining)) sources).
Proof.
  intros Hs. revert remaining. induction Hs as [|s l Hs Hl IH]; intros remaining Hr; simpl.
  { unfold total, available. simpl. split; [lia|done]. }
  assert (0 <= available l) as Hav.
  { clear IH. unfold available. induction Hl; simpl in *; lia. }
  change (available (s :: l)) with (us_raw s + available l).
  destruct (Z.leb_spec remaining 0). { unfold total. simpl. split; [lia|done]. }
  set (move := if remaining <=? us_raw s then remaining else us_raw s).
  assert (0 < move <= us_raw s /\ move <= remaining /\ (move < us_raw s -> move = remaining)) as Hm.
  { unfold move. destruct (Z.leb_spec remaining (us_raw s)); lia. }
  clearbody move. destruct (Z.leb_spec move 0); [lia|]. destruct (IH (remaining - move)) as [Ht Hf]; [lia|].
  split.
  - change (total ((us_pubkey s, move) :: topup l (remaining - move)))
      with (move + total (topup l (remaining - move))). rewrite Ht. lia.
  - simpl. constructor; [split; [done|simpl; lia]|done].
Qed.

Definition split_step (usdcAta : PublicKey) (acc : Z * list UsdcSource) (a : UsdcSource)
    : Z * list UsdcSource :=
  if bool_decide (us_pubkey a = usdcAta) then (us_raw a, snd acc)
  else if 0 <? us_raw a then (fst acc, snd acc ++ [a]) else acc.

(** The sources are the other accounts that hold something. *)
Lemma split_sources_spec ata accounts :
  snd (split_sources ata accounts) = filter (fun a => us_pubkey a ≠ ata /\ 0 < us_raw a) accounts.
Proof.
  unfold split_sources. change (fun acc a => _) with (split_step ata).
  enough (forall l acc, snd (fold_left (split_step ata) l acc) =
    snd acc ++ filter (fun a => us_pubkey a ≠ ata /\ 0 < us_raw a) l) as E by apply E.
  intros l. induction l as [|a l IH]; intros acc; simpl; [by rewrite app_nil_r|].
  rewrite IH. unfold split_step. case_bool_decide; simpl.
  - rewrite filter_cons, decide_False by naive_solver. done.
  - destruct (Z.ltb_spec 0 (us_raw a)); simpl; rewrite filter_cons.
    + rewrite decide_True by done. by rewrite <- app_assoc.
    + rewrite decide_False by lia. done.
Qed.

Lemma split_sources_nonneg ata accounts :
  Forall (fun a => 0 <= us_raw a) accounts -> 0 <= fst (split_sources ata accounts).
Proof.
  unfold split_sources. change (fun acc a => _) with (split_step ata).
  enough (forall l acc, Forall (fun a => 0 <= us_raw a) l -> 0 <= fst acc ->
    0 <= fst (fold_left (split_step ata) l acc)) as E by (intros; by apply E).
  intros l. induction l as [|a l IH]; intros acc Hl Hacc; simpl; [done|]. inversion Hl; subst.
  apply IH; [done|]. unfold split_step. case_bool_decide; [done|]. by case_match.
Qed.

End topup.

(** ** The transactions *)

Section partition.
Context `{FrontServices} (A : Addresses) (COMPUTE_BUDGET_PROGRAM : PublicKey).
Local Abbreviation M := (M Jackpot FWorld FEvent).
Local Abbreviation Proc := (Proc Jackpot FWorld FEvent).

(** The transactions the wallet accepted, oldest first, with their signatures. *)
Definition acceptance (ev : FEvent) : option (WalletTx * string) :=
  match ev with FSend tx (Ok sig) => Some (tx, sig) | _ => None end.
Definition accepted (evs : list FEvent) : list (WalletTx * string) := reverse (omap acceptance evs).

Lemma accepted_app later earlier : accepted (later ++ earlier) = accepted earlier ++ accepted later.
Proof. unfold accepted. by rewrite omap_app, reverse_app. Qed.

Lemma accepted_silent evs : Forall no_wallet evs -> accepted evs = [].
Proof.
  intros F. unfold accepted. assert (omap acceptance evs = []) as ->; [|done].
  induction F as [|ev evs Hev _ IH]; [done|].
  assert (acceptance ev = None) as E by (destruct ev; try done; by destruct Hev).
  simpl. by rewrite E.
Qed.

(** The instructions of a chunk: the prefix of the direct USDC, the merged swaps, the
    deposit. *)
Definition chunk_tx (user : PublicKey) (prefix : list TransactionInstruction)
    (chunk : list PreparedSwap) (ix : TransactionInstruction) (tx : WalletTx) : Prop :=
  match chunk with
  | [] => tx = LegacyTx (prefix ++ [ix])
  | _ => exists jup blockhash alts,
      buildMultiJupiterInstructions COMPUTE_BUDGET_PROGRAM (ps_swapIxs <$> chunk) = Ok jup /\
      tx = V0Tx (mkVtx user blockhash (prefix ++ jup ++ [ix]) alts)
  end.

(** The transaction of a part: it deposits what the swaps of the part promise, and the
    direct USDC if the part has it. *)
Definition part_tx (P : DepositPlan) (part : bool * list PreparedSwap) (tx : WalletTx) : Prop :=
  let '(direct, chunk) := part in
  exists balanceBefore ix,
    (direct = true -> balanceBefore = dp_balanceBefore (pl_direct P)) /\
    FrontIx.buildDepositAny A (pl_user P) (pl_round P) balanceBefore
      ((if direct then pl_directUsdcRaw P else 0) + min_swap_out chunk) (USDC_MINT A) = Ok ix /\
    chunk_tx (pl_user P) (if direct then dp_prefix (pl_direct P) else []) chunk ix tx.

(** The first part, and no other, has the direct USDC if [direct]. *)
Definition direct_first (direct : bool) (parts : list (bool * list PreparedSwap)) : Prop :=
  match parts with
  | [] => True
  | part :: rest => fst part = direct /\ Forall (fun q => fst q = false) rest
  end.

Lemma direct_first_app direct l1 l2 :
  l1 ≠ [] -> direct_first direct l1 -> direct_first false l2 -> direct_first direct (l1 ++ l2).
Proof.
  destruct l1 as [|x l1]; [done|]. intros _ [Hx Hl] Hl2. split; [done|]. simpl.
  apply Forall_app. split; [done|]. destruct l2; [constructor|]. destruct Hl2. by constructor.
Qed.

(** What was sent for a chunk: the accepted transactions are those of consecutive parts
    that cover the chunk, or, after a failure, the beginning of it. *)
Definition sent_parts (P : DepositPlan) (chunk : list PreparedSwap) (direct : bool)
    (r : Res (list string)) (evs : list FEvent) : Prop :=
  exists parts rest,
    concat (snd <$> parts) ++ rest = chunk /\ direct_first direct parts /\
    Forall2 (fun part a => part_tx P part (fst a)) parts (accepted evs) /\
    match r with
    | Ok sigs => rest = [] /\ parts ≠ [] /\ sigs = snd <$> accepted evs
    | Throw _ => True
    end.

Lemma sent_nothing P chunk direct e evs :
  accepted evs = [] -> sent_parts P chunk direct (Throw e) evs.
Proof. intros E. exists [], chunk. by rewrite E. Qed.

(** Silence before does not change what was sent. *)
Lemma sent_parts_silent P chunk direct r evs before :
  accepted before = [] -> sent_parts P chunk direct r evs -> sent_parts P chunk direct r (evs ++ before).
Proof. unfold sent_parts. intros E. by rewrite accepted_app, E. Qed.

(** Two chunks after each other. *)
Lemma sent_parts_app P c1 c2 direct sigs1 evs1 r2 evs2 :
  sent_parts P c1 direct (Ok sigs1) evs1 -> sent_parts P c2 false r2 evs2 ->
  sent_parts P (c1 ++ c2) direct (match r2 with Ok sigs2 => Ok (sigs1 ++ sigs2) | Throw e => Throw e end)
    (evs2 ++ evs1).
Proof.
  intros (parts1 & rest1 & C1 & D1 & F1 & -> & N1 & S1) (parts2 & rest2 & C2 & D2 & F2 & R2).
  exists (parts1 ++ parts2), rest2. rewrite accepted_app, app_nil_r in *. split_and!.
  - rewrite fmap_app, concat_app, <- app_assoc, C2. by rewrite C1.
  - by apply direct_first_app.
  - by apply Forall2_app.
  - destruct r2 as [sigs2|e]; [|done]. destruct R2 as (-> & N2 & ->). split_and!; [done| |].
    + by destruct parts1.
    + by rewrite fmap_app, S1.
Qed.

Lemma sent_parts_throw P c1 c2 direct e evs :
  sent_parts P c1 direct (Throw e) evs -> sent_parts P (c1 ++ c2) direct (Throw e) evs.
Proof.
  intros (parts & rest & C & D & F & _). exists parts, (rest ++ c2). by rewrite app_assoc, C.
Qed.

(** *** One chunk *)

Local Ltac go :=
  repeat first [ solve [auto with framed nocore] | framed_step | unfold_service ]; try done;
  try by intros [].
Local Abbreviation silent := (framed (W:=FWorld) (fun _ _ : Jackpot => True) no_wallet).

Lemma silent_modify' f : silent (modify f).
Proof. by apply framed_modify. Qed.
#[local] Hint Resolve silent_modify' : framed.

Lemma silent_next_part : silent next_part.
Proof. unfold next_part, setAutoStatus, setView. go. Qed.

Lemma build_spec user chunk ix prefix (p : Proc) :
  chunk ≠ [] ->
  wp (buildMultiSwapAndDepositTx COMPUTE_BUDGET_PROGRAM user (ps_swapIxs <$> chunk) ix prefix)
    (fun r p' => extends no_wallet p p' /\
       forall tx, r = Ok tx -> chunk_tx user prefix chunk ix (V0Tx tx)) p.
Proof.
  intros Hne. unfold buildMultiSwapAndDepositTx, compile_v0. apply wp_bind, wp_lift.
  destruct (buildMultiJupiterInstructions _ _) as [jup|e] eqn:Ej; [|by split; [exists []|]].
  assert (silent (resolveAddressLookupTables (mergeAltAddresses (ps_swapIxs <$> chunk)))) as Hr.
  { unfold resolveAddressLookupTables. go. }
  apply wp_bind. eapply wp_framed; [exact Hr|]. intros [alts|e] p1 _ He1; [|done].
  apply wp_bind. eapply (wp_framed (fun _ _ => True) no_wallet); [go|]. intros [bh|e] p2 _ He2;
    [|by split; [eapply extends_trans|]].
  apply wp_bind, wp_lift. destruct (fxCompile _); [|by split; [eapply extends_trans|]].
  apply wp_ret. split; [by eapply extends_trans|]. intros tx [= <-].
  destruct chunk as [|s chunk]; [done|]. exists jup, bh, alts. done.
Qed.

(** Handing a built transaction over. *)
Lemma send_spec tx (p : Proc) :
  wp (sendTransaction tx) (fun r p' => exists evs, history p' = evs ++ history p /\
    accepted evs = match r with Ok sig => [(tx, sig)] | Throw _ => [] end) p.
Proof. unfold sendTransaction. apply wp_invoke. intros r w. exists [FSend tx r]. by destruct r. Qed.

(** From [h] to [h'] the chunk's transaction was accepted, or none. *)
Definition sends_one (user : PublicKey) (prefix : list TransactionInstruction)
    (chunk : list PreparedSwap) (ix : TransactionInstruction) (h : list FEvent) (r : Res string)
    (h' : list FEvent) : Prop :=
  exists evs, h' = evs ++ h /\
    match r with
    | Ok sig => exists tx, accepted evs = [(tx, sig)] /\ chunk_tx user prefix chunk ix tx
    | Throw _ => accepted evs = []
    end.

Lemma sends_one_silent user prefix chunk ix h r (p p' : Proc) :
  extends no_wallet p p' -> history p = h ->
  forall h', sends_one user prefix chunk ix (history p') r h' -> sends_one user prefix chunk ix h r h'.
Proof.
  intros (evs1 & E1 & F1) <- h' (evs & -> & Hr). exists (evs ++ evs1).
  by rewrite E1, app_assoc, accepted_app, (accepted_silent _ F1).
Qed.

Lemma build_and_send user chunk ix prefix (p : Proc) :
  chunk ≠ [] ->
  wp (tx ← buildMultiSwapAndDepositTx COMPUTE_BUDGET_PROGRAM user (ps_swapIxs <$> chunk) ix prefix;
      sendTransaction (V0Tx tx))
    (fun r p' => sends_one user prefix chunk ix (history p) r (history p')) p.
Proof.
  intros Hne. apply wp_bind. eapply wp_mono; [by apply build_spec|]. intros [tx|e] p1 [He Htx].
  - eapply wp_mono; [apply send_spec|]. intros r p2 (evs2 & E2 & Ha).
    eapply sends_one_silent; [done..|]. exists evs2. rewrite Ha. split; [done|].
    destruct r; [|done]. eexists. split; [done|by apply Htx].
  - destruct He as (evs1 & E1 & F1). exists evs1. split; [done|by apply accepted_silent].
Qed.

Lemma send_chunk_spec P chunk prefix ix (p : Proc) :
  wp (send_chunk COMPUTE_BUDGET_PROGRAM P chunk prefix ix) (fun r p' =>
    sends_one (pl_user P) prefix chunk ix (history p) r (history p')) p.
Proof.
  unfold send_chunk. apply wp_bind. eapply wp_framed; [apply silent_next_part|].
  intros [[]|e] p1 _ He.
  2: { destruct He as (evs1 & E1 & F1). exists evs1. by rewrite accepted_silent. }
  destruct chunk as [|s [|s' chunk]].
  - eapply wp_mono; [apply send_spec|]. intros r p2 (evs & E & Ha).
    eapply sends_one_silent; [done..|]. exists evs. rewrite Ha. split; [done|].
    destruct r; [|done]. by eexists.
  - destruct prefix; (eapply wp_mono; [by apply (build_and_send (pl_user P) [s])|]);
      intros r p2; by eapply sends_one_silent.
  - eapply wp_mono; [by apply build_and_send|]. intros r p2. by eapply sends_one_silent.
Qed.

(** The deposit instruction of a chunk, read before it is sent. *)
Lemma chunk_deposit_spec P chunk direct (p : Proc) :
  wp (chunk_deposit A P chunk direct) (fun r p' => extends no_wallet p p' /\
    forall ix, r = Ok ix -> exists before,
      (direct = true -> before = dp_balanceBefore (pl_direct P)) /\
      FrontIx.buildDepositAny A (pl_user P) (pl_round P) before
        ((if direct then pl_directUsdcRaw P else 0) + min_swap_out chunk) (USDC_MINT A) = Ok ix) p.
Proof.
  unfold chunk_deposit. case_match; [by split; [exists []|]|]. apply wp_bind.
  assert (silent (if direct then mret (dp_balanceBefore (pl_direct P))
                  else getCurrentUsdcAtaRaw (pl_usdcAta P))) as Hs.
  { unfold getCurrentUsdcAtaRaw. go. }
  destruct direct.
  - apply wp_ret, wp_lift. split; [by exists []|]. eauto.
  - eapply wp_framed; [exact Hs|]. intros [before|e] p1 _ He; [|done]. apply wp_lift.
    split; [done|]. intros ix Hix. exists before. done.
Qed.

(** *** The recursion *)

Local Abbreviation chunks := (sendDepositChunk A COMPUTE_BUDGET_PROGRAM).

(** Whatever happens from [h] on, the parts sent for the chunk. *)
Definition sent (P : DepositPlan) (chunk : list PreparedSwap) (direct : bool) (h : list FEvent)
    (r : Res (list string)) (p' : Proc) : Prop :=
  exists evs, history p' = evs ++ h /\ sent_parts P chunk direct r evs.

(** Two recursive calls after a silent beginning. *)
Lemma two_chunks fuel P c1 c2 direct evs h p :
  (forall chunk direct q, wp (chunks fuel P chunk direct) (sent P chunk direct (history q)) q) ->
  history p = evs ++ h -> accepted evs = [] ->
  wp (first ← chunks fuel P c1 direct; second ← chunks fuel P c2 false; mret (first ++ second))
    (sent P (c1 ++ c2) direct h) p.
Proof.
  intros IH Hh Ha. apply wp_bind. eapply wp_mono; [apply IH|].
  intros [sigs1|e] p1 (evs1 & E1 & S1).
  - apply wp_bind. eapply wp_mono; [apply IH|]. intros r2 p2 (evs2 & E2 & S2).
    pose proof (sent_parts_app _ _ _ _ _ _ _ _ S1 S2) as S12.
    assert (forall r, sent_parts P (c1 ++ c2) direct r (evs2 ++ evs1) ->
      sent P (c1 ++ c2) direct h r p2) as Hd.
    { intros r Hr. exists ((evs2 ++ evs1) ++ evs). rewrite E2, E1, Hh, !app_assoc. split; [done|].
      by apply sent_parts_silent. }
    destruct r2 as [sigs2|e]; [apply wp_ret|]; by apply Hd.
  - exists (evs1 ++ evs). rewrite E1, Hh, app_assoc. split; [done|].
    by apply sent_parts_silent, sent_parts_throw.
Qed.

Lemma chunks_sent fuel P chunk direct p :
  wp (chunks fuel P chunk direct) (sent P chunk direct (history p)) p.
Proof.
  revert chunk direct p. induction fuel as [|fuel IH]; intros chunk direct p; cbn [sendDepositChunk].
  { apply wp_throw. exists []. split; [done|by apply sent_nothing]. }
  apply wp_bind. eapply wp_mono; [apply chunk_deposit_spec|].
  intros [ix|e] p1 [(evs1 & E1 & F1) Hix]; pose proof (accepted_silent _ F1) as A1;
    [|exists evs1; split; [done|by apply sent_nothing]].
  destruct (Hix ix eq_refl) as (before & Hbefore & Hdep).
  apply wp_try, wp_bind. eapply wp_mono; [apply send_chunk_spec|].
  intros [sig|e] p2 (evs2 & E2 & Hs).
  - apply wp_ret. exists (evs2 ++ evs1). rewrite E2, E1, app_assoc. split; [done|].
    destruct Hs as (tx & Ha & Htx). exists [(direct, chunk)], []. simpl.
    rewrite accepted_app, A1, Ha, !app_nil_r. split; [done|]. split; [by split|]. split; [|done].
    constructor; [|done]. by exists before, ix.
  - assert (history p2 = (evs2 ++ evs1) ++ history p /\ accepted (evs2 ++ evs1) = []) as [Hh Ha].
    { by rewrite E2, E1, app_assoc, accepted_app, A1, Hs. }
    assert (forall e, sent P chunk direct (history p) (Throw e) p2) as Ht.
    { intros e'. exists (evs2 ++ evs1). split; [done|by apply sent_nothing]. }
    destruct (negb (isTxTooLargeEncodingError e)); [by apply wp_throw|].
    destruct (direct && _ && _) eqn:Esplit.
    + apply andb_true_iff in Esplit as [[Hd _]%andb_true_iff _]. subst direct.
      by apply (two_chunks fuel P [] chunk true (evs2 ++ evs1)).
    + destruct (length chunk <=? 1)%nat; [by apply wp_throw|]. rewrite <- (take_drop (half (length chunk)) chunk) at 3.
      by apply (two_chunks fuel P (take _ chunk) (drop _ chunk) direct (evs2 ++ evs1)).
Qed.

(** *** Fuel *)

Definition chunk_measure (chunk : list PreparedSwap) (direct : bool) : nat :=
  (2 * length chunk + (if direct then 1 else 0))%nat.

Lemma half_bounds n : (2 <= n)%nat -> (1 <= half n < n)%nat.
Proof.
  intros Hn. unfold half. split.
  - apply Nat.div_le_lower_bound; lia.
  - apply Nat.Div0.div_lt_upper_bound; lia.
Qed.

Lemma bind_ext {X Y} (m m' : M X) (f f' : X -> M Y) p :
  m p = m' p -> (forall x q, f x q = f' x q) -> mbind f m p = mbind f' m' p.
Proof. intros Em Ef. unfold mbind, M_bind. rewrite Em. destruct (m' p) as [[x|e] q]; auto. Qed.

Lemma try_ext {X} (m : M X) h h' p :
  (forall e q, h e q = h' e q) -> try_catch m h p = try_catch m h' p.
Proof. intros Eh. unfold try_catch. destruct (m p) as [[x|e] q]; auto. Qed.

(** More fuel than the measure changes nothing: the recursion ends. *)
Lemma sendDepositChunk_fuel fuel fuel' P chunk direct p :
  (chunk_measure chunk direct < fuel)%nat -> (chunk_measure chunk direct < fuel')%nat ->
  chunks fuel P chunk direct p = chunks fuel' P chunk direct p.
Proof.
  revert fuel' chunk direct p. induction fuel as [|fuel IH]; intros fuel' chunk direct p Hf Hf'; [lia|].
  destruct fuel' as [|fuel']; [lia|]. cbn [sendDepositChunk]. apply bind_ext; [done|]. intros ix q.
  apply try_ext. intros e q'. destruct (negb (isTxTooLargeEncodingError e)); [done|].
  unfold chunk_measure in *. destruct (direct && _ && _) eqn:Es.
  - apply andb_true_iff in Es as [[-> Hl]%andb_true_iff _]. apply Nat.eqb_eq in Hl.
    apply bind_ext; [apply IH; simpl; lia|]. intros a q1. apply bind_ext; [apply IH; simpl; lia|done].
  - destruct (Nat.leb_spec (length chunk) 1); [done|]. pose proof (half_bounds (length chunk) ltac:(lia)).
    apply bind_ext; [apply IH; rewrite length_take; destruct direct; lia|]. intros a q1.
    apply bind_ext; [apply IH; rewrite length_drop; destruct direct; lia|done].
Qed.
End partition.

(** ** The deposit *)

Section deposits.
Context `{FrontServices} (A : Addresses).
Context (TOKEN_METADATA_PROGRAM_ID COMPUTE_BUDGET_PROGRAM : PublicKey) (API_KEY : string).
Local Abbreviation M := (M Jackpot FWorld FEvent).
Local Abbreviation Proc := (Proc Jackpot FWorld FEvent).
Local Abbreviation silent := (framed (W:=FWorld) (fun _ _ : Jackpot => True) no_wallet).

(** The swap prepared for a leg: it promises something, what its quote says; a quote the
    leg brought along is the one used, and is for the leg's token. *)
Definition swap_for (leg : NormalizedLeg) (s : PreparedSwap) : Prop :=
  0 < ps_minOut s /\
  newBNText (text_or (Some (Jup.otherAmountThreshold (ps_quote s))) (Jup.outAmount (ps_quote s)))
    = Ok (ps_minOut s) /\
  forall q, nl_quote leg = Some q ->
    ps_quote s = q /\ Jup.inputMint q = nl_mint leg /\ Jup.outputMint q = USDC_STR A.

(** The plan of a deposit of [legs], after the events [evs]. *)
Record plan_ok (user : PublicKey) (roundId : Z) (legs : list NormalizedLeg) (P : DepositPlan)
    (swaps : list PreparedSwap) (evs : list FEvent) : Prop := {
  po_user : pl_user P = user;
  po_round : pl_round P ∈ [roundId; roundId - 1; roundId + 1; roundId - 2; roundId + 2; roundId + 3];
  po_open : sees_status A (pl_round P) RoundStatus.Open evs;
  po_direct : direct_usdc (filter (fun leg => nl_mint leg = USDC_STR A) legs) 0
    = Ok (pl_directUsdcRaw P);
  po_swaps : Forall2 swap_for (filter (fun leg => nl_mint leg ≠ USDC_STR A) legs) swaps
}.

Local Ltac go :=
  repeat first [ solve [auto with framed nocore] | framed_step | unfold_service
    | apply framed_all_settled; [apply _|apply Forall_fmap, Forall_forall; intros ? _; simpl] ];
  try done; try by intros [].

Lemma silent_modify2 f : silent (modify f).
Proof. by apply framed_modify. Qed.
Lemma silent_fetchRound2 rid : silent (fetchRound A rid).
Proof. apply silent_quiet, quiet_fetchRound. Qed.
#[local] Hint Resolve silent_modify2 silent_fetchRound2 : framed.

Lemma silent_wait n pda : silent (wait_for_round n pda).
Proof. induction n as [|n IH]; cbn [wait_for_round]; go. Qed.
Lemma silent_find ids : silent (find_open A ids).
Proof. induction ids as [|id ids IH]; cbn [find_open]; go. Qed.
#[local] Hint Resolve silent_wait silent_find : framed.
Lemma silent_effective rid : silent (effective_round A rid).
Proof. unfold effective_round, setAutoStatus, setRoundId, setView. go. Qed.
Lemma silent_jupiter {T} (call : M (TypedResponse T)) ms retries :
  silent call -> silent (jupiterFetchJson API_KEY call ms retries).
Proof. intros. by apply framed_jupiter; [apply _|..]. Qed.
Lemma silent_quote a b c d e : silent (getJupiterQuote API_KEY a b c d e).
Proof. apply silent_jupiter. apply framed_invoke; [apply _|]. by intros r []. Qed.
Lemma silent_swap user q : silent (getJupiterSwapInstructions API_KEY user q).
Proof. apply silent_jupiter. apply framed_invoke; [apply _|]. by intros r []. Qed.
#[local] Hint Resolve silent_effective silent_quote silent_swap : framed.
Lemma silent_prepare_swap user leg : silent (prepare_swap A API_KEY user leg).
Proof. unfold prepare_swap, leg_quote_for, token_decimals. go. Qed.
#[local] Hint Resolve silent_prepare_swap : framed.
Lemma silent_prepare user rid legs : silent (prepare_deposit A API_KEY user rid legs).
Proof. unfold prepare_deposit, require_open, direct_part, setAutoStatus, setView. go. Qed.

(** *** The round *)

Lemma find_open_in ids p :
  wp (find_open A ids) (fun r _ => forall id, r = Ok (Some id) -> id ∈ ids) p.
Proof.
  revert p. induction ids as [|i ids IH]; intros p; cbn [find_open]; [by apply wp_ret|].
  assert (forall q, wp (find_open A ids) (fun r _ => forall id, r = Ok (Some id) -> id ∈ i :: ids) q) as Hr.
  { intros q. eapply wp_mono; [apply IH|]. intros r q' Hin id Hid. right. by apply Hin. }
  case_match; [done|]. apply wp_bind, wp_any. intros [[d|]|e] q; [|done|done].
  case_match; [|done]. apply wp_ret. intros id [= <-]. by left.
Qed.

Lemma effective_near rid p :
  wp (effective_round A rid) (fun r _ => forall id, r = Ok id ->
    id ∈ [rid; rid - 1; rid + 1; rid - 2; rid + 2; rid + 3]) p.
Proof.
  unfold effective_round. apply wp_bind, wp_lift. destruct (getRoundPda A rid) as [pda|e]; [|done].
  assert (forall id, @Ok Z rid = Ok id -> id ∈ [rid; rid - 1; rid + 1; rid - 2; rid + 2; rid + 3]) as Hr.
  { intros id [= <-]. by left. }
  apply wp_bind, wp_any. intros [[acc|]|e] q; [by apply wp_ret| |done].
  apply wp_bind, wp_any. intros [|e] q1; [|done]. apply wp_bind, wp_any. intros [[]|e] q2; [by apply wp_ret| |done].
  apply wp_bind, wp_any. intros [|e] q3; [|done]. apply wp_bind.
  eapply wp_mono; [apply find_open_in|]. intros [[id|]|e] q4 Hin; [|done|done].
  specialize (Hin id eq_refl). apply wp_bind, wp_any. intros [u|e] q5; [|done].
  apply wp_bind, wp_any. intros [k|e] q6; [|done]. apply wp_bind, wp_any. intros [i|e] q7; [|done].
  apply wp_ret. intros id' [= <-]. by right.
Qed.

Lemma require_open_reads rid p :
  wp (require_open A rid) (fun r p' => exists evs, history p' = evs ++ history p /\
    forall u, r = Ok u -> sees_status A rid RoundStatus.Open evs) p.
Proof.
  unfold require_open. apply wp_bind. eapply wp_mono; [apply fetchRound_reads|].
  intros [[d|]|e] p' (evs & E & _ & Hd); [|by exists evs|by exists evs].
  destruct (Z.eqb_spec (Front.status d) RoundStatus.Open) as [Ho|]; [|by exists evs].
  apply wp_ret. exists evs. split; [done|]. intros _ _. rewrite <- Ho. by apply Hd.
Qed.

Lemma sees_status_app rid status l1 l2 :
  sees_status A rid status l2 -> sees_status A rid status (l1 ++ l2).
Proof.
  intros (pda & acc & d & ? & Hin & ?). exists pda, acc, d. split; [done|]. split; [|done].
  apply elem_of_app. by right.
Qed.

Lemma sees_status_app_l rid status l1 l2 :
  sees_status A rid status l1 -> sees_status A rid status (l1 ++ l2).
Proof.
  intros (pda & acc & d & ? & Hin & ?). exists pda, acc, d. split; [done|]. split; [|done].
  apply elem_of_app. by left.
Qed.

(** *** The swaps *)

Lemma leg_quote_spec user leg p :
  wp (leg_quote_for A API_KEY user leg) (fun r _ => forall quote, r = Ok quote ->
    forall q, nl_quote leg = Some q ->
      quote = q /\ Jup.inputMint q = nl_mint leg /\ Jup.outputMint q = USDC_STR A) p.
Proof.
  unfold leg_quote_for. destruct (nl_quote leg) as [q|]; [|by apply wp_any].
  destruct (String.eqb_spec (Jup.inputMint q) (nl_mint leg)); [|by apply wp_throw].
  destruct (String.eqb_spec (Jup.outputMint q) (USDC_STR A)); [|by apply wp_throw].
  apply wp_ret. by intros quote [= <-] q' [= <-].
Qed.

Lemma prepare_swap_spec user leg p :
  wp (prepare_swap A API_KEY user leg) (fun r _ => forall s, r = Ok s -> swap_for leg s) p.
Proof.
  unfold prepare_swap. apply wp_bind. eapply wp_mono; [apply leg_quote_spec|].
  intros [quote|e] p1 Hq; [|done]. apply wp_bind, wp_lift.
  destruct (newBNText _) as [minOut|e] eqn:Em; [|done].
  destruct (Z.leb_spec minOut 0); [by apply wp_throw|].
  apply wp_bind, wp_any. intros [ixs|e] p2; [|done]. apply wp_ret. intros s [= <-].
  split_and!; [done|done|by apply Hq].
Qed.

Lemma all_settled_spec {X Y} (m : X -> M Y) (Q : X -> Y -> Prop) l p :
  (forall x p, wp (m x) (fun r _ => forall y, r = Ok y -> Q x y) p) ->
  wp (all_settled (m <$> l)) (fun r _ => forall rs, r = Ok rs ->
    Forall2 (fun x ry => forall y, ry = Ok y -> Q x y) l rs) p.
Proof.
  intros Hm. revert p. induction l as [|x l IH]; intros p; simpl.
  { apply wp_ret. intros rs [= <-]. constructor. }
  apply wp_bind. unfold settled. apply wp_try, wp_bind. eapply wp_mono; [apply Hm|].
  intros [y|e] p1 Hy; apply wp_ret; (apply wp_bind; eapply wp_mono; [apply IH|]);
    intros [rs|e'] p2 Hrs; try done; apply wp_ret; intros ? [= <-]; constructor; auto; by intros ? [= <-]; apply Hy.
Qed.

Lemma res_mapM_id_forall2 {X Y} (Q : X -> Y -> Prop) l (rs : list (Res Y)) ys :
  Forall2 (fun x ry => forall y, ry = Ok y -> Q x y) l rs -> res_mapM id rs = Ok ys -> Forall2 Q l ys.
Proof.
  intros Hf. revert ys. induction Hf as [|x ry l rs Hr _ IH]; intros ys; simpl.
  { intros [= <-]. constructor. }
  intros Hy. res_inv Hy. constructor; [by apply Hr|by apply IH].
Qed.

Lemma prepared_swaps_spec user legs p :
  wp (promise_all (prepare_swap A API_KEY user <$> legs)) (fun r _ => forall swaps, r = Ok swaps ->
    Forall2 swap_for legs swaps) p.
Proof.
  unfold promise_all. apply wp_bind.
  eapply wp_mono; [apply all_settled_spec; intros; apply prepare_swap_spec|].
  intros [rs|e] p' Hrs; [|done]. apply wp_lift. intros swaps. by apply res_mapM_id_forall2, Hrs.
Qed.

(** *** The plan *)

Lemma prepare_spec user rid legs p :
  wp (prepare_deposit A API_KEY user rid legs) (fun r p' => exists evs, history p' = evs ++ history p /\
    Forall no_wallet evs /\
    forall P swaps, r = Ok (P, swaps) -> plan_ok user rid legs P swaps evs) p.
Proof.
  enough (wp (prepare_deposit A API_KEY user rid legs) (fun r p' => forall evs, history p' = evs ++ history p ->
    forall P swaps, r = Ok (P, swaps) -> plan_ok user rid legs P swaps evs) p) as Hw.
  { destruct (silent_prepare user rid legs p) as [_ (evs & E & F)]. exists evs.
    split_and!; [done|done|]. by apply Hw. }
  unfold prepare_deposit.
  apply wp_bind. eapply wp_framed; [apply silent_modify2|]. intros [u|e] p1 _ X1; [|done].
  apply wp_bind, wp_lift. destruct (getAssociatedTokenAddress _ _ _) as [ata|e]; [|done].
  apply wp_bind. eapply (wp_framed (fun _ _ => True) no_wallet); [by go|]. intros [bal|e] p2 _ X2; [|done].
  apply wp_bind. eapply (wp_framed (fun _ _ => True) no_wallet); [by destruct bal; go|]. intros [raw|e] p3 _ X3; [|done].
  apply wp_bind. eapply wp_framed_and; [apply silent_effective|apply effective_near|].
  intros [id|e] p4 Hnear X4; [|done]. specialize (Hnear id eq_refl).
  apply wp_bind. eapply wp_mono; [apply require_open_reads|].
  intros [u5|e] p5 (evs5 & E5 & Hopen); [|done]. specialize (Hopen u5 eq_refl).
  apply wp_bind, wp_lift. destruct (direct_usdc _ _) as [direct|e] eqn:Ed; [|done].
  apply wp_bind. eapply (wp_framed (fun _ _ => True) no_wallet); [by unfold direct_part; go|]. intros [dp|e] p6 _ X6; [|done].
  apply wp_bind. eapply (wp_framed_and (fun _ _ => True) no_wallet); [|apply prepared_swaps_spec|].
  { unfold promise_all. go. }
  intros [swaps|e] p7 Hswaps X7; [|done]. apply wp_ret. intros evs Hevs P' swaps' [= <- <-].
  assert (extends no_wallet p p4) as (evs4 & E4 & _) by by do 3 (eapply extends_trans; [done|]).
  assert (extends no_wallet p5 p7) as (evs7 & E7 & _) by by eapply extends_trans.
  rewrite E7, E5, E4, !app_assoc in Hevs. apply app_inv_tail in Hevs. subst evs.
  split; [done|done| |done|by apply Hswaps].
  by apply sees_status_app_l, sees_status_app.
Qed.

(** *** The whole deposit *)

(** The accepted transactions of a deposit: none, or those of the parts of a plan that
    was made, with the round read as open, before the first of them. *)
Definition deposit_sent (user : PublicKey) (roundId : Z) (legs : list NormalizedLeg)
    (r : Res string) (evs : list FEvent) : Prop :=
  (accepted evs = [] /\ exists e, r = Throw e) \/
  exists P swaps parts rest sending before,
    evs = sending ++ before /\ Forall no_wallet before /\
    plan_ok user roundId legs P swaps before /\
    concat (snd <$> parts) ++ rest = swaps /\ direct_first true parts /\
    Forall2 (fun part a => part_tx A COMPUTE_BUDGET_PROGRAM P part (fst a)) parts (accepted evs) /\
    match r with
    | Ok sig => rest = [] /\ parts ≠ [] /\ last (snd <$> accepted evs) = Some sig
    | Throw _ => True
    end.

Lemma silent_track user rid legs :
  silent (track_tokens A TOKEN_METADATA_PROGRAM_ID API_KEY user rid legs).
Proof.
  apply silent_quiet. unfold track_tokens, currentCache, readCache.
  repeat first [ apply quiet_newCache | apply quiet_updateCache | apply quiet_metadata_batch
               | framed_step | unfold_service ].
Qed.

Lemma silent_poll2 user rid :
  silent (pollRound A TOKEN_METADATA_PROGRAM_ID API_KEY user rid ;; pollBalance A user).
Proof.
  apply silent_quiet. framed_step; [apply quiet_pollRound|apply quiet_pollBalance].
Qed.

(** What follows the transactions returns the last signature, whatever it meets. *)
Lemma after_chunks user rid legs sigs (p : Proc) :
  wp (setAutoStatus (if (1 <? length sigs)%nat
                     then Some ("Batch deposit complete (" +:+ pretty (length sigs) +:+ " tx)")
                     else None) ;;
      track_tokens A TOKEN_METADATA_PROGRAM_ID API_KEY user rid legs ;;
      pollRound A TOKEN_METADATA_PROGRAM_ID API_KEY (Some user) rid ;;
      pollBalance A (Some user) ;;
      mret (default "" (last sigs)))
    (fun r p' => extends no_wallet p p' /\ r = Ok (default "" (last sigs))) p.
Proof.
  apply wp_bind, wp_modify. apply wp_bind. eapply wp_framed_returns; [apply silent_track| |].
  { unfold track_tokens. repeat first [ apply returns_bind; [|intros ?] | apply returns_gets
      | apply returns_modify | apply returns_ret | apply returns_or_else | case_match ]. }
  intros _ p1 _ X1. apply wp_bind. eapply wp_framed_returns;
    [apply silent_quiet, quiet_pollRound|apply returns_or_else|]. intros _ p2 _ X2.
  apply wp_bind. eapply wp_framed_returns; [apply silent_quiet, quiet_pollBalance| |].
  { unfold pollBalance. apply returns_try. intros e. apply returns_modify. }
  intros _ p3 _ X3. apply wp_ret. split; [|done]. by do 2 (eapply extends_trans; [done|]).
Qed.

Lemma deposit_body_sent user rid legs (p : Proc) :
  wp ('(P, swaps) ← prepare_deposit A API_KEY user rid legs;
      send_deposit A TOKEN_METADATA_PROGRAM_ID COMPUTE_BUDGET_PROGRAM API_KEY user rid legs P swaps)
    (fun r p' => exists evs, history p' = evs ++ history p /\ deposit_sent user rid legs r evs) p.
Proof.
  apply wp_bind. eapply wp_mono; [apply prepare_spec|]. intros [[P swaps]|e] p1 (before & E1 & F1 & Hplan).
  2: { exists before. split; [done|]. left. rewrite accepted_silent by done. eauto. }
  specialize (Hplan P swaps eq_refl). unfold send_deposit. apply wp_bind, wp_modify, wp_bind.
  eapply wp_mono; [apply chunks_sent|].
  intros [sigs|e] p2 (sending & E2 & parts & rest & Hc & Hd & Hf & Hr); simpl in E2.
  - destruct Hr as (-> & Hne & ->).
    eapply wp_mono; [apply after_chunks|]. intros r p3 [(evs3 & E3 & F3) ->].
    exists ((evs3 ++ sending) ++ before). rewrite E3, E2, E1, !app_assoc. split; [done|]. right.
    assert (accepted ((evs3 ++ sending) ++ before) = accepted sending) as Ea.
    { by rewrite !accepted_app, (accepted_silent _ F1), (accepted_silent _ F3), app_nil_r. }
    exists P, swaps, parts, [], (evs3 ++ sending), before. rewrite Ea. split_and!; try done.
    assert (accepted sending ≠ []) as Hs. { intros E. rewrite E in Hf. by inversion Hf; subst. }
    destruct (accepted sending) as [|a l] using rev_ind; [done|]. rewrite fmap_app. simpl. by rewrite !last_snoc.
  - exists (sending ++ before). rewrite E2, E1, app_assoc. split; [done|]. right.
    exists P, swaps, parts, rest, sending, before.
    rewrite accepted_app, (accepted_silent _ F1). by split_and!.
Qed.

(** C3: What a deposit sends.  When it succeeds, the transactions the wallet accepted are
    those of consecutive parts that together hold every prepared swap exactly once, in
    order, the direct USDC in the first part only; each deposits into the round that was
    read as open before the first of them, with a minimum that is the sum of what its
    swaps promise (plus the direct USDC), and the last signature is reported.  When it
    fails, the accepted transactions, if any, are the first parts of such a partition: no
    token is ever deposited twice.  One swap was prepared per token, in order, with the
    quote that came with it.  The recursion that splits the batch ends: its result does
    not depend on the bound on its depth. *)
Theorem deposit_partitions user roundId legs normalized (p : Proc) :
  validate_legs (USDC_STR A) legs = Ok normalized ->
  (let '(r, p') := depositMany A TOKEN_METADATA_PROGRAM_ID COMPUTE_BUDGET_PROGRAM API_KEY
                     (Some user) roundId legs p in
   exists evs, history p' = evs ++ history p /\ deposit_sent user roundId normalized r evs) /\
  (forall fuel P swaps direct (q : Proc), (chunk_fuel (length swaps) <= fuel)%nat ->
     sendDepositChunk A COMPUTE_BUDGET_PROGRAM fuel P swaps direct q =
     sendDepositChunk A COMPUTE_BUDGET_PROGRAM (chunk_fuel (length swaps)) P swaps direct q).
Proof.
  intros Hv. split.
  - enough (wp (depositMany A TOKEN_METADATA_PROGRAM_ID COMPUTE_BUDGET_PROGRAM API_KEY (Some user) roundId legs)
      (fun r p' => exists evs, history p' = evs ++ history p /\ deposit_sent user roundId normalized r evs) p) as Hw.
    { unfold wp in Hw. by destruct (depositMany _ _ _ _ _ _ _ p). }
    unfold depositMany. apply wp_bind, wp_lift. rewrite Hv.
    apply (wp_with_ui _ (fun r h' => exists evs, h' = evs ++ history p /\
      deposit_sent user roundId normalized r evs)).
    intros s. apply (deposit_body_sent user roundId normalized (mkProc s (world p) (history p))).
  - intros fuel P swaps direct q Hf. unfold chunk_fuel in *.
    apply sendDepositChunk_fuel; unfold chunk_measure; destruct direct; lia.
Qed.
End deposits.
