(* ===== verification/JackpotWitness.v ===== *)
(** * JackpotWitness: the jackpot hook on concrete inputs

    Runs of the hook's operations in a scripted browser, and the instances at which the
    theorems of the hook are applied; then a defect of the deposit's bookkeeping. *)

From stdpp Require Import base list gmap strings pretty.
From Stdlib Require Import ZArith Lia Ascii Strings.Byte SpecFloat.
From S2P Require Import Prelude Buffers Accounts JsRuntime Effects Solana Instructions Firebase DegenExecutor Frames Browser JupiterClient TokenMetadata History NumFacts JackpotState JackpotPrizes JackpotPolling JackpotDeposit JackpotClaims JackpotFrames JackpotInvariant JackpotClaimsSpec JackpotDepositSpec.

Local Open Scope string_scope.
Local Open Scope list_scope.
Local Open Scope Z_scope.
Set Warnings "-clear-no-such-hyp".

(** ** The tokens of a deposit that changes the round's cache *)

Section lost.
Context `{FrontServices} (A : Addresses) (TOKEN_METADATA_PROGRAM_ID : PublicKey) (API_KEY : string).

(** The object [depositTokensCacheRef.current] points to. *)
Definition current_cache (j : Jackpot) : DepositCache :=
  default (fresh_cache 0) (r_heap (refs j) !! r_cacheRef (refs j)).

(** [depositMany] takes the cache object before it replaces it, and notes the deposited
    tokens in the old object: after the first deposit into a round that has not been
    polled yet, the current cache knows no tokens at all. *)
Lemma track_tokens_lost user roundId legs (p : Proc Jackpot FWorld FEvent) :
  heap_ok (local p) -> dc_roundId (current_cache (local p)) ≠ roundId ->
  wp (track_tokens A TOKEN_METADATA_PROGRAM_ID API_KEY user roundId legs) (fun _ p' =>
    dc_map (current_cache (local p')) = ∅) p.
Proof.
  intros Hh Hr. unfold track_tokens, currentCache, readCache. apply wp_bind, wp_gets, wp_bind, wp_gets.
  fold (current_cache (local p)). rewrite (proj2 (Z.eqb_neq _ _) Hr). simpl.
  set (j := local p) in *. apply wp_bind. unfold newCache. apply wp_modify. simpl.
  set (P := fun s : Jackpot => r_cacheRef (refs s) = length (r_heap (refs j)) /\
              r_heap (refs s) !! length (r_heap (refs j)) = Some (fresh_cache roundId)).
  assert (forall s, P s -> dc_map (current_cache s) = ∅) as HP.
  { intros s [E1 E2]. unfold current_cache. by rewrite E1, E2. }
  assert (forall q : Proc Jackpot FWorld FEvent, P (local q) ->
    wp (or_else
      (ks ← lift (res_mapM keyOfString (filter (fun m => m ≠ USDC_STR A) (nl_mint <$> legs)));
       metaMap ← fetchTokenMetadataBatch TOKEN_METADATA_PROGRAM_ID API_KEY ks;
       updateCache (r_cacheRef (refs j)) (cache_add_tags (toBase58 user)
         (tag_of metaMap <$> filter (fun m => m ≠ USDC_STR A) (nl_mint <$> legs)))) tt)
      (fun _ q' => dc_map (current_cache (local q')) = ∅) q) as Hw.
  { intros q Hq. unfold or_else. apply wp_try, wp_bind, wp_lift.
    destruct (res_mapM _ _) as [ks|e]; [|by apply wp_ret, HP]. apply wp_bind.
    assert (framed (W:=FWorld) (fun s s' => P s -> P s') any_event
      (fetchTokenMetadataBatch TOKEN_METADATA_PROGRAM_ID API_KEY ks)) as Hf.
    { by apply framed_metadata_batch; [apply _|..]. }
    eapply wp_framed; [exact Hf|]. intros [m|e] q' Hq' _; [|by apply wp_ret, HP, Hq'].
    apply wp_modify. apply HP. destruct (Hq' Hq) as [E1 E2]. split; [done|]. simpl.
    rewrite list_lookup_alter_ne; [done|]. unfold heap_ok in Hh. lia. }
  assert (P (set_refs (fun r => r_set_cacheRef (length (r_heap r))
    (r_set_heap (r_heap r ++ [fresh_cache roundId]) r)) j)) as HP0.
  { split; [done|]. simpl. by rewrite lookup_app_r, Nat.sub_diag by done. }
  case_match; [by apply Hw|]. by apply wp_ret, HP.
Qed.
End lost.

(** ** The hook in a scripted browser *)

Module HookWitness.
#[local] Existing Instance ToyKeys.keys.
#[local] Existing Instance ToySolana.libs.
#[local] Existing Instance ToyBrowser.xlibs.
#[local] Existing Instance ToyBrowser.services.
Local Abbreviation k := ToyBrowser.k.
Local Abbreviation A := ToyBrowser.addresses.
Local Abbreviation Proc := (Proc Jackpot FWorld FEvent).

#[local] Instance bn_laws : BnLaws.
Proof.
  constructor. intros z b. unfold safe_id. simpl. destruct (Z.ltb_spec (Z.abs z) (2 ^ 53)); [done|].
  discriminate.
Qed.

#[local] Instance clock_laws : ClockLaws.
Proof.
  refine {| clock := ToyBrowser.bs_clock : FWorld -> Z |}; intros; simpl; try lia.
  destruct (ToyBrowser.bs_claims w); simpl; lia.
Defined.

Definition user : PublicKey := k 21.
Definition META : PublicKey := k 30.
Definition CB : PublicKey := ToyKeys.of_text "budget".
Definition mint (n : Z) : string := toBase58 (k n).

Definition round_bytes (id status : Z) (winner : PublicKey) : bytes :=
  encode_round (mkRoundImage (replicate 8 x00) id status 254 (replicate 6 x00) 0 0 0 (k 20) 5000000
    500 1 (replicate 6 x00) (replicate 32 x00) 0 winner (replicate 200 defaultKey)
    (replicate (Z.to_nat 1608) x00) defaultKey 0 0 (replicate 30 x00)).

Definition round_key (id : Z) : bytes :=
  match getRoundPda A id with Ok pda => toBuffer pda | Throw _ => [] end.

(** Round 7 is open, round 6 was won by the user; the user holds 3 and 4 USDC in two
    accounts, the first the associated one. *)
Definition ata : PublicKey :=
  match getAssociatedTokenAddress (USDC_MINT A) user true with Ok a => a | Throw _ => k 0 end.
Definition token_account (amount : Z) : bytes := toBuffer (USDC_MINT A) ++ le_encode 8 amount.
Definition script (limit : nat) (claims : list DegenClaimData) : ToyBrowser.script :=
  ToyBrowser.mkScript 1000
    [(round_key 7, round_bytes 7 RoundStatus.Open defaultKey);
     (round_key 6, round_bytes 6 RoundStatus.Settled user)]
    [(toBuffer ata, "3000000")]
    [(ata, Some (token_account 3000000)); (k 41, Some (token_account 4000000))]
    limit claims 0.

Definition prize : Json :=
  prize_json (mkPrize 6 (toBase58 user) (S754_zero false) (S754_zero false) 0).
Definition found : option (Res Json) := Some (Ok (JArr [prize])).
Definition mounted (limit : nat) (claims : list DegenClaimData) : Proc :=
  mkProc (mkJackpot initial_view initial_refs found no_metadata) (script limit claims) [].

(** Five USDC and two tokens to be swapped. *)
Definition legs : list DepositLegInput :=
  [mkLeg (num_of_Z 5) None None; mkLeg (num_of_Z 2) (Some (mint 50)) None;
   mkLeg (num_of_Z 3) (Some (mint 51)) None].
Definition normalized : list NormalizedLeg := normalize_leg (USDC_STR A) <$> legs.
Local Abbreviation deposit_run limit :=
  (depositMany A META CB "key" (Some user) 7 legs (mounted limit [])).

(** How many instructions the accepted transactions have. *)
Definition sizes (p : Proc) : list nat :=
  map (fun a => match fst a with V0Tx v => length (vt_instructions v) | LegacyTx l => length l end)
    (accepted (history p)).

(** One transaction of six instructions (the account, a transfer of the two missing USDC,
    the compute limit, two swaps, the deposit); two when it is too large by one, counted
    as three parts; and when no swap fits, the direct USDC is deposited and the batch
    fails. *)
Example deposit_whole :
  fst (deposit_run 6) = Ok "sig0" /\ sizes (snd (deposit_run 6)) = [6%nat].
Proof. vm_compute. done. Qed.

Example deposit_split :
  fst (deposit_run 5) = Ok "sig1" /\ sizes (snd (deposit_run 5)) = [5%nat; 3%nat] /\
  v_autoStatus (view (local (snd (deposit_run 5)))) = Some "Batch deposit complete (2 tx)" /\
  r_sentChunkCount (refs (local (snd (deposit_run 5)))) = 3.
Proof. vm_compute. done. Qed.

Example deposit_too_large :
  sizes (snd (deposit_run 1)) = [3%nat] /\
  v_error (view (local (snd (deposit_run 1)))) =
    Some "Batch is too large for one transaction. Split into smaller deposits.".
Proof. vm_compute. done. Qed.

Lemma deposit_partitions_witness :
  let '(r, p') := deposit_run 5 in
  r = Ok "sig1" /\
  exists evs, history p' = evs ++ [] /\ deposit_sent A CB user 7 normalized r evs.
Proof.
  pose proof (deposit_partitions A META CB "key" user 7 legs normalized (mounted 5 [])
    ltac:(vm_compute; reflexivity)) as [Hd _].
  pose proof (proj1 deposit_split) as Hr.
  destruct (depositMany _ _ _ _ _ _ _ _) as [r p']. exact (conj Hr Hd).
Defined.

(** Two accounts besides the associated one. *)
Definition accounts : list UsdcSource := [mkSource (k 41) 2; mkSource ata 3; mkSource (k 42) 9].


(** The executor pays out in another token at the second look, or not in time. *)
Definition claim_states : list DegenClaimData :=
  [mkDegenClaim 0 0 (k 60); mkDegenClaim 0 0 (k 60); mkDegenClaim DegenModeStatus.ClaimedSwapped 3 (k 60)].
Local Abbreviation degen_run claims :=
  (claimDegen A META "key" 31 (Some user) 6 (mounted 9 claims)).

Example degen_swapped :
  match fst (degen_run claim_states) with
  | Ok (Some r) => dr_tokenMint r = Some (toBase58 (k 60)) /\ dr_tokenIndex r = Some 3
  | _ => False
  end.
Proof. vm_compute. done. Qed.

Lemma claimDegen_ends_witness :
  let '(r, p') := degen_run [] in
  r = Ok (Some (pending_result "sig0")) /\
  asks_at_most_once (degen_good A user 6) [] (history p').
Proof.
  pose proof (claimDegen_ends A META "key" 31 user 6 (mounted 9 []) ltac:(lia)) as Hd.
  assert (fst (degen_run []) = Ok (Some (pending_result "sig0"))) as Hr by (vm_compute; reflexivity).
  destruct (claimDegen _ _ _ _ _ _ _) as [r p']. exact (conj Hr (proj2 Hd)).
Defined.

Lemma found_ok : storage_ok found.
Proof.
  split; [|apply NoDup_singleton]. constructor; [|constructor].
  exists 6. split; [vm_compute; reflexivity|unfold safe_id; lia].
Qed.

(** The claim of round 6 and the one of a later visit. *)
Definition claim_run : Proc :=
  snd (run A true META CB "key" (OpClaim (Some user) 6 [prize]) (mounted 9 [])).

Lemma hook_state_ok_witness :
  storage (local claim_run) = None /\ prizes_ok (v_unclaimedPrizes (view (local claim_run))) /\
  v_loading (view (local claim_run)) = false.
Proof.
  pose proof (hook_state_ok A true META CB "key" found claim_run) as Hk.
  destruct Hk as (_ & Hp & _ & Hl).
  - exact found_ok.
  - apply hook_runs; [exact (hook_mounts A true META CB "key" found no_metadata (script 9 []))|]. unfold op_safe, safe_id. simpl. lia.
  - split; [vm_compute; reflexivity|]. exact (conj Hp Hl).
Defined.
End HookWitness.
